(** * mysql2-helper: query builder, query executor, hooks, cache,
      transactions and batch loading

    A shallow embedding of [querybuilder.mjs] (class [QueryBuilder]) and of
    the main module (class [MySQLHelper]) together with the properties of
    them that the specification states, and further properties of the
    code: how builder calls compose, connection retries, hook order, the
    query log, the cache and the writes, the statements by table and
    their values, pages, batches and timestamps.

    Conventions of the embedding.
    - JavaScript strings are [string]; template literals are written out as
      concatenations; [Array.prototype.join] over strings is [String.concat].
    - JavaScript numbers are restricted to integers ([Z]); the results of a
      division are in [jsnum], which adds the non-finite values.
    - An [async] method is a computation in the monad [M]: state passing
      with exceptions.  [await] is sequencing: the claims proved here are
      about one logical thread of control.
    - The objects that callers hand to the helper live on a heap and
      are passed by reference.
    - The database driver, the system clock and [JSON.stringify] are not
      part of the repository; they are the fields of a [Runtime].
    - What the helper does to the outside - signals emitted, hooks
      called, statements executed, connections used - is recorded, in
      order, in the trace of its state. *)

From Stdlib Require Import String Ascii List ZArith Lia Bool DecimalString.
From stdpp Require Import gmap strings list.
Import ListNotations.

Local Open Scope Z_scope.

(* ===================================================================== *)
(** * JavaScript values and strings *)
(* ===================================================================== *)

Module Js.

(** Scalar values bound to placeholders or stored in row objects. *)
Inductive value : Type :=
| VUndefined
| VNull
| VBool (b : bool)
| VNum (n : Z)
| VStr (s : string)
| VDate (ms : Z).

(** [ToBoolean]: what [if (v)] and [!v] see. *)
Definition truthy (v : value) : bool :=
  match v with
  | VUndefined | VNull => false
  | VBool b => b
  | VNum n => negb (n =? 0)
  | VStr s => negb (String.eqb s "")
  | VDate _ => true
  end.

(** Numbers that a division can produce. *)
Inductive jsnum : Type :=
| Int (n : Z)
| PosInf
| NegInf
| NaN.

(** [StringToNumber]: blanks around the literal are dropped; the empty
    string is zero; the literal is a decimal one - digits with an
    optional fraction and exponent, or [Infinity], with an optional
    sign - or an unsigned binary, octal or hexadecimal integer; any
    other text is [NaN].  Numbers are integers here, so a literal whose
    value is a fraction (['3.5'], ['1e-1']) has no number in this
    development: it reads as [NaN], and the statements below that read
    a string as a number are about strings whose value is an
    integer. *)
Definition is_space (c : ascii) : bool :=
  let n := nat_of_ascii c in
  ((9 <=? n)%nat && (n <=? 13)%nat) || (n =? 32)%nat.

Fixpoint trim_start (s : string) : string :=
  match s with
  | String c s' => if is_space c then trim_start s' else s
  | EmptyString => EmptyString
  end.

Fixpoint trim_end (s : string) : string :=
  match s with
  | String c s' =>
      let t := trim_end s' in
      if is_space c && String.eqb t "" then EmptyString else String c t
  | EmptyString => EmptyString
  end.

Definition trim (s : string) : string := trim_end (trim_start s).

(** The value of a digit in a base up to sixteen. *)
Definition digit_of (base : Z) (c : ascii) : option Z :=
  let n := Z.of_nat (nat_of_ascii c) in
  let d := if (48 <=? n) && (n <=? 57) then Some (n - 48)
           else if (97 <=? n) && (n <=? 102) then Some (n - 87)
           else if (65 <=? n) && (n <=? 70) then Some (n - 55)
           else None in
  match d with
  | Some x => if x <? base then Some x else None
  | None => None
  end.

(** The longest run of digits at the head of a text: its value on top
    of [acc], the number of digits on top of [count], and the rest. *)
Fixpoint digits (base : Z) (acc : Z) (count : nat) (s : string)
  : Z * nat * string :=
  match s with
  | String c s' =>
      match digit_of base c with
      | Some d => digits base (acc * base + d) (S count) s'
      | None => (acc, count, s)
      end
  | EmptyString => (acc, count, EmptyString)
  end.

(** A text that is digits and nothing else, at least one. *)
Definition integer_literal (base : Z) (s : string) : option Z :=
  match digits base 0 0 s with
  | (v, S _, EmptyString) => Some v
  | _ => None
  end.

(** [ExponentPart], or nothing. *)
Definition exponent (s : string) : option Z :=
  match s with
  | EmptyString => Some 0
  | String c s' =>
      if Ascii.eqb c "e" || Ascii.eqb c "E" then
        match s' with
        | String sign t =>
            if Ascii.eqb sign "+" then integer_literal 10 t
            else if Ascii.eqb sign "-"
                 then option_map Z.opp (integer_literal 10 t)
                 else integer_literal 10 s'
        | EmptyString => None
        end
      else None
  end.

(** [m * 10^e], when that is an integer. *)
Definition scale (m e : Z) : jsnum :=
  if 0 <=? e then Int (m * 10 ^ e)
  else if m mod 10 ^ (- e) =? 0 then Int (m / 10 ^ (- e))
       else NaN.

(** [StrUnsignedDecimalLiteral] *)
Definition unsigned_decimal (s : string) : jsnum :=
  if String.eqb s "Infinity" then PosInf
  else
    let '(whole, n1, r1) := digits 10 0 0 s in
    let '(m, n2, r2) :=
      match r1 with
      | String c t => if Ascii.eqb c "." then digits 10 whole 0 t
                      else (whole, 0%nat, r1)
      | EmptyString => (whole, 0%nat, r1)
      end in
    if (n1 + n2 =? 0)%nat then NaN
    else match exponent r2 with
         | Some e => scale m (e - Z.of_nat n2)
         | None => NaN
         end.

Definition negate (x : jsnum) : jsnum :=
  match x with
  | Int n => Int (- n)
  | PosInf => NegInf
  | NegInf => PosInf
  | NaN => NaN
  end.

(** [NonDecimalIntegerLiteral]: the base that a prefix announces. *)
Definition prefixed_base (c : ascii) : option Z :=
  if Ascii.eqb c "x" || Ascii.eqb c "X" then Some 16
  else if Ascii.eqb c "o" || Ascii.eqb c "O" then Some 8
  else if Ascii.eqb c "b" || Ascii.eqb c "B" then Some 2
  else None.

Definition string_to_number (s : string) : jsnum :=
  match trim s with
  | EmptyString => Int 0
  | String c t as literal =>
      if Ascii.eqb c "+" then unsigned_decimal t
      else if Ascii.eqb c "-" then negate (unsigned_decimal t)
      else
        match t with
        | String p t' =>
            match (if Ascii.eqb c "0" then prefixed_base p else None) with
            | Some base =>
                match integer_literal base t' with
                | Some n => Int n
                | None => NaN
                end
            | None => unsigned_decimal literal
            end
        | EmptyString => unsigned_decimal literal
        end
  end.

(** [ToNumber] on the values above. *)
Definition to_number (v : value) : jsnum :=
  match v with
  | VUndefined => NaN
  | VNull => Int 0
  | VBool b => Int (if b then 1 else 0)
  | VNum n => Int n
  | VStr s => string_to_number s
  | VDate ms => Int ms
  end.

(** [Math.ceil(a / b)] on integers: [Z.div] rounds towards minus infinity
    for either sign of [b], so the ceiling is [- ((- a) / b)]. *)
Definition ceil_div (a b : Z) : jsnum :=
  if b =? 0 then
    (if a =? 0 then NaN else if 0 <? a then PosInf else NegInf)
  else Int (- ((- a) / b)).

Definition Math_ceil_div (a : jsnum) (b : Z) : jsnum :=
  match a with
  | Int n => ceil_div n b
  | PosInf => if b =? 0 then PosInf else if 0 <? b then PosInf else NegInf
  | NegInf => if b =? 0 then NegInf else if 0 <? b then NegInf else PosInf
  | NaN => NaN
  end.

(** [x < y] for an integer [x] and a number [y]. *)
Definition lt_num (x : Z) (y : jsnum) : bool :=
  match y with
  | Int n => x <? n
  | PosInf => true
  | NegInf | NaN => false
  end.

(** [`${n}`] for an integer. *)
Definition string_of_Z (n : Z) : string :=
  NilZero.string_of_int (Z.to_int n).

(** [String.prototype.toUpperCase] on the ASCII letters. *)
Definition upper_ascii (c : ascii) : ascii :=
  let n := nat_of_ascii c in
  if ((97 <=? n)%nat && (n <=? 122)%nat)%bool
  then ascii_of_nat (n - 32) else c.

Fixpoint toUpperCase (s : string) : string :=
  match s with
  | EmptyString => EmptyString
  | String c s' => String (upper_ascii c) (toUpperCase s')
  end.

(** [xs.join(sep)] for an array of strings. *)
Definition join (sep : string) (xs : list string) : string :=
  String.concat sep xs.

(** [xs.map(() => '?').join(', ')]. *)
Definition placeholders {A : Type} (xs : list A) : string :=
  join ", " (map (fun _ => "?") xs).

(** [xs.slice(start, end)]: a negative index counts from the end, and
    both are clamped to the array. *)
Definition slice_index (len x : Z) : Z :=
  if x <? 0 then Z.max (len + x) 0 else Z.min x len.

Definition slice {A : Type} (xs : list A) (start stop : Z) : list A :=
  let len := Z.of_nat (length xs) in
  let s := slice_index len start in
  let e := slice_index len stop in
  firstn (Z.to_nat (e - s)) (skipn (Z.to_nat s) xs).

(** The number of ['?'] characters of a text: its positional
    placeholders, when the text has no quotation. *)
Fixpoint count_placeholders (s : string) : nat :=
  match s with
  | EmptyString => 0
  | String c s' =>
      ((if Ascii.eqb c "?" then 1 else 0) + count_placeholders s')%nat
  end.

(** A text without placeholders. *)
Definition clean (s : string) : Prop := count_placeholders s = 0%nat.

(** In the text of a statement that is prepared, a ['?'] is a
    placeholder unless it stands inside a quotation: a string between
    single or double quotes, in which a backslash escapes the character
    after it, or an identifier between backticks.  A doubled quote
    inside a quotation closes and reopens it with nothing in between.
    Comments are not told apart from the text around them. *)
Inductive quotation : Type := Single | Double | Backtick.

Inductive lexer : Type :=
| Outside
| Inside (q : quotation)
| Escaped (q : quotation).

Definition double_quote : ascii := ascii_of_nat 34.

Definition opens (c : ascii) : option quotation :=
  if Ascii.eqb c "'" then Some Single
  else if Ascii.eqb c double_quote then Some Double
  else if Ascii.eqb c "`" then Some Backtick
  else None.

Definition closes (q : quotation) (c : ascii) : bool :=
  match q with
  | Single => Ascii.eqb c "'"
  | Double => Ascii.eqb c double_quote
  | Backtick => Ascii.eqb c "`"
  end.

Definition escapes (q : quotation) (c : ascii) : bool :=
  match q with
  | Single | Double => Ascii.eqb c "\"
  | Backtick => false
  end.

(** One character: where the text goes on, and whether the character
    is a placeholder. *)
Definition lex (st : lexer) (c : ascii) : lexer * nat :=
  match st with
  | Outside =>
      if Ascii.eqb c "?" then (Outside, 1%nat)
      else match opens c with
           | Some q => (Inside q, 0%nat)
           | None => (Outside, 0%nat)
           end
  | Inside q =>
      if closes q c then (Outside, 0%nat)
      else if escapes q c then (Escaped q, 0%nat)
      else (Inside q, 0%nat)
  | Escaped q => (Inside q, 0%nat)
  end.

Fixpoint scan (st : lexer) (s : string) : lexer * nat :=
  match s with
  | EmptyString => (st, 0%nat)
  | String c s' =>
      let '(st1, n) := lex st c in
      let '(st2, m) := scan st1 s' in
      (st2, (n + m)%nat)
  end.

(** The placeholders of a text, and a text that leaves no quotation
    open. *)
Definition markers (s : string) : nat := snd (scan Outside s).

Definition closed (s : string) : Prop := fst (scan Outside s) = Outside.

(** A text that leaves no quotation open and has [n] placeholders. *)
Definition settled (n : nat) (s : string) : Prop :=
  scan Outside s = (Outside, n).

(** The words of a text: its maximal runs of characters other than the
    blank.  Two SQL texts with the same words differ in spacing only. *)
Fixpoint words_from (cur : string) (s : string) : list string :=
  match s with
  | EmptyString => if String.eqb cur "" then [] else [cur]
  | String c s' =>
      if Ascii.eqb c " "
      then (if String.eqb cur "" then words_from "" s'
            else cur :: words_from "" s')
      else words_from (cur +:+ String c EmptyString) s'
  end.

Definition words (s : string) : list string := words_from "" s.

(** An object with string keys: its own properties in insertion order
    ([Object.keys], [Object.values] and the spread [{...o}] all follow
    it).  Keys that are canonical array indices, which JavaScript
    enumerates first, do not occur among column names. *)
Definition object : Type := list (string * value).

Definition keys (o : object) : list string := map fst o.
Definition values (o : object) : list value := map snd o.

(** [o[k]], over own properties. *)
Fixpoint get (k : string) (o : object) : value :=
  match o with
  | [] => VUndefined
  | (k', v) :: o' => if String.eqb k k' then v else get k o'
  end.

(** [o[k] = v]: an existing property keeps its place, a new one goes
    last. *)
Fixpoint set (k : string) (v : value) (o : object) : object :=
  match o with
  | [] => [(k, v)]
  | (k', v') :: o' =>
      if String.eqb k k' then (k', v) :: o' else (k', v') :: set k v o'
  end.

(** A thrown [Error]; only its [message] is ever read. *)
Inductive error : Type := Error (message : string).

Definition message (e : error) : string :=
  match e with Error m => m end.

(** What the driver's [execute] resolves to, after [const [rows] = ...]:
    an array of row objects for a read, a result header for a write.
    Both are objects, hence truthy. *)
Inductive result_set : Type :=
| Rows (rows : list object)
| Header (insertId affectedRows changedRows : Z).

(** [result.length] *)
Definition result_length (r : result_set) : value :=
  match r with
  | Rows rows => VNum (Z.of_nat (length rows))
  | Header _ _ _ => VUndefined
  end.

Definition result_insertId (r : result_set) : value :=
  match r with Rows _ => VUndefined | Header i _ _ => VNum i end.

Definition result_affectedRows (r : result_set) : value :=
  match r with Rows _ => VUndefined | Header _ a _ => VNum a end.

Definition result_changedRows (r : result_set) : value :=
  match r with Rows _ => VUndefined | Header _ _ c => VNum c end.

End Js.

Export Js.

(* ===================================================================== *)
(** * Asynchronous methods: state and exceptions *)
(* ===================================================================== *)

Inductive res (A : Type) : Type :=
| Ok (a : A)
| Throw (e : error).

Arguments Ok {A} a.
Arguments Throw {A} e.

(** A method over a mutable state [S] that returns or throws. *)
Definition M (S A : Type) : Type := S -> res A * S.

Definition ret {S A : Type} (a : A) : M S A := fun s => (Ok a, s).

Definition throw {S A : Type} (e : error) : M S A := fun s => (Throw e, s).

Definition bind {S A B : Type} (m : M S A) (k : A -> M S B) : M S B :=
  fun s =>
    match m s with
    | (Ok a, s') => k a s'
    | (Throw e, s') => (Throw e, s')
    end.

Definition read {S A : Type} (f : S -> A) : M S A := fun s => (Ok (f s), s).

Definition modify {S : Type} (f : S -> S) : M S unit := fun s => (Ok tt, f s).

(** [try { m } catch (error) { handler error }] *)
Definition try_catch {S A : Type} (m : M S A) (handler : error -> M S A)
  : M S A :=
  fun s =>
    match m s with
    | (Ok a, s') => (Ok a, s')
    | (Throw e, s') => handler e s'
    end.

(** [try { m } finally { fin }]: [fin] runs on both exits, and an
    exception of [fin] replaces the outcome of [m]. *)
Definition try_finally {S A : Type} (m : M S A) (fin : M S unit) : M S A :=
  fun s =>
    match m s with
    | (r, s') =>
        match fin s' with
        | (Ok _, s'') => (r, s'')
        | (Throw e, s'') => (Throw e, s'')
        end
    end.

(** [if (c) { m }] *)
Definition when {S : Type} (c : bool) (m : M S unit) : M S unit :=
  if c then m else ret tt.

Declare Scope js_scope.
Delimit Scope js_scope with js.
Notation "'let*' x ':=' c 'in' k" := (bind c (fun x => k))
  (at level 10, x binder, c at level 100, k at level 200) : js_scope.
Local Open Scope js_scope.

(** Every run of [m] takes a state to one that [R] relates to it. *)
Definition respects {S A : Type} (R : S -> S -> Prop) (m : M S A) : Prop :=
  forall s r s', m s = (r, s') -> R s s'.

(* ===================================================================== *)
(** * querybuilder.mjs: the accumulated intent and its compilation *)
(* ===================================================================== *)

Module QueryBuilder.

(** The fields that [reset] initialises. *)
Record t : Type := mk {
  _table : string;
  _columns : list string;
  _where : list string;
  _whereParams : list value;
  _joins : list string;
  _orderBy : list string;
  _groupBy : list string;
  _having : string;
  _limit : option Z;
  _offset : option Z
}.

Definition reset (_ : t) : t :=
  {| _table := "";
     _columns := ["*"];
     _where := [];
     _whereParams := [];
     _joins := [];
     _orderBy := [];
     _groupBy := [];
     _having := "";
     _limit := None;
     _offset := None |}.

(** [new QueryBuilder(db)]: the constructor only calls [reset]. *)
Definition fresh : t :=
  {| _table := "";
     _columns := ["*"];
     _where := [];
     _whereParams := [];
     _joins := [];
     _orderBy := [];
     _groupBy := [];
     _having := "";
     _limit := None;
     _offset := None |}.

Definition set_table (x : string) (b : t) : t :=
  mk x (_columns b) (_where b) (_whereParams b) (_joins b) (_orderBy b)
     (_groupBy b) (_having b) (_limit b) (_offset b).

Definition set_columns (x : list string) (b : t) : t :=
  mk (_table b) x (_where b) (_whereParams b) (_joins b) (_orderBy b)
     (_groupBy b) (_having b) (_limit b) (_offset b).

(** [this._where.push(fragment); this._whereParams.push(...params)] *)
Definition push_where (fragment : string) (params : list value) (b : t) : t :=
  mk (_table b) (_columns b) (_where b ++ [fragment])
     (_whereParams b ++ params) (_joins b) (_orderBy b)
     (_groupBy b) (_having b) (_limit b) (_offset b).

Definition push_join (clause : string) (b : t) : t :=
  mk (_table b) (_columns b) (_where b) (_whereParams b)
     (_joins b ++ [clause]) (_orderBy b)
     (_groupBy b) (_having b) (_limit b) (_offset b).

Definition push_orderBy (x : string) (b : t) : t :=
  mk (_table b) (_columns b) (_where b) (_whereParams b) (_joins b)
     (_orderBy b ++ [x]) (_groupBy b) (_having b) (_limit b) (_offset b).

Definition push_groupBy (xs : list string) (b : t) : t :=
  mk (_table b) (_columns b) (_where b) (_whereParams b) (_joins b)
     (_orderBy b) (_groupBy b ++ xs) (_having b) (_limit b) (_offset b).

Definition set_having (x : string) (b : t) : t :=
  mk (_table b) (_columns b) (_where b) (_whereParams b) (_joins b)
     (_orderBy b) (_groupBy b) x (_limit b) (_offset b).

Definition set_limit (x : option Z) (b : t) : t :=
  mk (_table b) (_columns b) (_where b) (_whereParams b) (_joins b)
     (_orderBy b) (_groupBy b) (_having b) x (_offset b).

Definition set_offset (x : option Z) (b : t) : t :=
  mk (_table b) (_columns b) (_where b) (_whereParams b) (_joins b)
     (_orderBy b) (_groupBy b) (_having b) (_limit b) x.

(** The arguments after [column] of [where] and [orWhere]: with two
    arguments in all, the second is the value and the operator is ['=']. *)
Inductive comparison : Type :=
| Compare (operator : string) (v : value)
| Equals (v : value).

Definition operator_of (c : comparison) : string :=
  match c with Compare op _ => op | Equals _ => "=" end.

Definition value_of (c : comparison) : value :=
  match c with Compare _ v => v | Equals v => v end.

Definition table (name : string) (b : t) : t := set_table name b.

Definition select (columns : list string) (b : t) : t :=
  set_columns (if (0 <? length columns)%nat then columns else ["*"]) b.

Definition where_ (column : string) (c : comparison) (b : t) : t :=
  push_where (column +:+ " " +:+ operator_of c +:+ " ?") [value_of c] b.

Definition whereIn (column : string) (vals : list value) (b : t) : t :=
  push_where (column +:+ " IN (" +:+ placeholders vals +:+ ")") vals b.

Definition whereNotIn (column : string) (vals : list value) (b : t) : t :=
  push_where (column +:+ " NOT IN (" +:+ placeholders vals +:+ ")") vals b.

Definition whereBetween (column : string) (min max : value) (b : t) : t :=
  push_where (column +:+ " BETWEEN ? AND ?") [min; max] b.

Definition whereNotBetween (column : string) (min max : value) (b : t) : t :=
  push_where (column +:+ " NOT BETWEEN ? AND ?") [min; max] b.

Definition whereNull (column : string) (b : t) : t :=
  push_where (column +:+ " IS NULL") [] b.

Definition whereNotNull (column : string) (b : t) : t :=
  push_where (column +:+ " IS NOT NULL") [] b.

Definition whereLike (column : string) (pattern : value) (b : t) : t :=
  push_where (column +:+ " LIKE ?") [pattern] b.

Definition whereNotLike (column : string) (pattern : value) (b : t) : t :=
  push_where (column +:+ " NOT LIKE ?") [pattern] b.

Definition orWhere (column : string) (c : comparison) (b : t) : t :=
  let prefix := if (0 <? length (_where b))%nat then "OR" else "" in
  push_where (prefix +:+ " " +:+ column +:+ " " +:+ operator_of c +:+ " ?")
             [value_of c] b.

Definition whereRaw (condition : string) (params : list value) (b : t) : t :=
  push_where condition params b.

Definition join (tbl column1 operator column2 : string) (b : t) : t :=
  push_join ("INNER JOIN " +:+ tbl +:+ " ON " +:+ column1 +:+ " " +:+ operator
             +:+ " " +:+ column2) b.

Definition leftJoin (tbl column1 operator column2 : string) (b : t) : t :=
  push_join ("LEFT JOIN " +:+ tbl +:+ " ON " +:+ column1 +:+ " " +:+ operator
             +:+ " " +:+ column2) b.

Definition rightJoin (tbl column1 operator column2 : string) (b : t) : t :=
  push_join ("RIGHT JOIN " +:+ tbl +:+ " ON " +:+ column1 +:+ " " +:+ operator
             +:+ " " +:+ column2) b.

Definition crossJoin (tbl : string) (b : t) : t :=
  push_join ("CROSS JOIN " +:+ tbl) b.

(** [direction] is [None] when the argument is left out. *)
Definition orderBy (column : string) (direction : option string) (b : t) : t :=
  let d := match direction with Some d => d | None => "ASC" end in
  push_orderBy (column +:+ " " +:+ toUpperCase d) b.

Definition orderByRaw (rawOrder : string) (b : t) : t :=
  push_orderBy rawOrder b.

Definition groupBy (columns : list string) (b : t) : t :=
  push_groupBy columns b.

Definition having (condition : string) (b : t) : t :=
  set_having condition b.

Definition limit (n : Z) (b : t) : t := set_limit (Some n) b.

Definition offset (n : Z) (b : t) : t := set_offset (Some n) b.

(** The compiled statement. *)
Record statement : Type := {
  sql : string;
  params : list value
}.

(** [sql += s] under [if (c)]. *)
Definition clause (c : bool) (s : string) : string :=
  if c then s else "".

Definition nonempty {A : Type} (xs : list A) : bool :=
  (0 <? length xs)%nat.

Definition toSQL (b : t) : statement :=
  let s0 := "SELECT " +:+ Js.join ", " (_columns b) +:+ " FROM " +:+ _table b in
  let s1 := s0 +:+ clause (nonempty (_joins b))
                         (" " +:+ Js.join " " (_joins b)) in
  let s2 := s1 +:+ clause (nonempty (_where b))
                         (" WHERE " +:+ Js.join " AND " (_where b)) in
  let s3 := s2 +:+ clause (nonempty (_groupBy b))
                         (" GROUP BY " +:+ Js.join ", " (_groupBy b)) in
  let s4 := s3 +:+ clause (negb (String.eqb (_having b) ""))
                         (" HAVING " +:+ _having b) in
  let s5 := s4 +:+ clause (nonempty (_orderBy b))
                         (" ORDER BY " +:+ Js.join ", " (_orderBy b)) in
  let s6 := s5 +:+ match _limit b with
                  | Some n => " LIMIT " +:+ string_of_Z n
                  | None => ""
                  end in
  let s7 := s6 +:+ match _offset b with
                  | Some n => " OFFSET " +:+ string_of_Z n
                  | None => ""
                  end in
  {| sql := s7; params := _whereParams b |}.

(** The three parts of the compiled text: what precedes the predicates,
    the predicates, and what follows them. *)
Definition head_clause (b : t) : string :=
  "SELECT " +:+ Js.join ", " (_columns b) +:+ " FROM " +:+ _table b
  +:+ clause (nonempty (_joins b)) (" " +:+ Js.join " " (_joins b)).

Definition where_clause (b : t) : string :=
  clause (nonempty (_where b)) (" WHERE " +:+ Js.join " AND " (_where b)).

Definition tail_clause (b : t) : string :=
  clause (nonempty (_groupBy b)) (" GROUP BY " +:+ Js.join ", " (_groupBy b))
  +:+ clause (negb (String.eqb (_having b) "")) (" HAVING " +:+ _having b)
  +:+ clause (nonempty (_orderBy b)) (" ORDER BY " +:+ Js.join ", " (_orderBy b))
  +:+ match _limit b with
      | Some n => " LIMIT " +:+ string_of_Z n
      | None => ""
      end
  +:+ match _offset b with
      | Some n => " OFFSET " +:+ string_of_Z n
      | None => ""
      end.

(** [clone]: every field copied. *)
Definition clone (b : t) : t :=
  mk (_table b) (_columns b) (_where b) (_whereParams b) (_joins b)
     (_orderBy b) (_groupBy b) (_having b) (_limit b) (_offset b).

(** ** Terminal operations

    The builder holds a reference [this.db] to whatever executes its
    statements; only [db.query(sql, params)] is ever called.  The
    terminal operations mutate the builder and act on the state [S] of
    that object. *)

Record pagination : Type := {
  currentPage : Z;
  perPage : Z;
  totalItems : value;
  totalPages : jsnum;
  hasNextPage : bool;
  hasPrevPage : bool
}.

Record paginated : Type := {
  page_data : result_set;
  page_pagination : pagination
}.

Section Terminals.

Context {S : Type}.
Variable db_query : string -> list value -> M S result_set.

(** A method that only assigns fields of [this]. *)
Definition this_ (f : t -> t) : M (t * S) unit :=
  modify (fun x => (f (fst x), snd x)).

(** [await this.db.query(sql, params)] *)
Definition await_db {A : Type} (m : M S A) : M (t * S) A :=
  fun x =>
    match m (snd x) with
    | (r, s') => (r, (fst x, s'))
    end.

Definition get : M (t * S) result_set :=
  let* st := read (fun x => toSQL (fst x)) in
  let* result := await_db (db_query (sql st) (params st)) in
  let* _ := this_ reset in
  ret result.

(** [result.length > 0 ? result[0] : null] *)
Definition first_row (result : result_set) : option object :=
  match result with
  | Rows (row :: _) => Some row
  | _ => None
  end.

Definition first : M (t * S) (option object) :=
  let* _ := this_ (limit 1) in
  let* result := get in
  ret (first_row result).

Definition count : M (t * S) value :=
  let* originalColumns := read (fun x => _columns (fst x)) in
  let* _ := this_ (set_columns ["COUNT(*) as count"]) in
  let* result := first in
  let* _ := this_ (set_columns originalColumns) in
  ret (match result with
       | Some row => Js.get "count" row
       | None => VNum 0
       end).

Definition exists_ : M (t * S) bool :=
  let* c := count in
  ret (lt_num 0 (to_number c)).

Definition paginate (page perPage : Z) : M (t * S) paginated :=
  let offset_ := (page - 1) * perPage in
  let* totalCount := count in
  let totalPages := Math_ceil_div (to_number totalCount) perPage in
  let* _ := this_ (fun b => offset offset_ (limit perPage b)) in
  let* rows := get in
  ret {| page_data := rows;
         page_pagination :=
           {| currentPage := page;
              perPage := perPage;
              totalItems := totalCount;
              totalPages := totalPages;
              hasNextPage := lt_num page totalPages;
              hasPrevPage := 1 <? page |} |}.

End Terminals.

(** The statement that [paginate] sends for the page, after a count that
    returned: compiled from the builder that [count] leaves. *)
Definition page_statement (b : t) (page perPage : Z) : statement :=
  toSQL (offset ((page - 1) * perPage)
           (limit perPage (set_columns (_columns b) fresh))).

(** ** Sequences of builder calls *)

Inductive call : Type :=
| Table (name : string)
| Select (columns : list string)
| Where (column : string) (c : comparison)
| OrWhere (column : string) (c : comparison)
| WhereIn (column : string) (vals : list value)
| WhereNotIn (column : string) (vals : list value)
| WhereBetween (column : string) (min max : value)
| WhereNotBetween (column : string) (min max : value)
| WhereNull (column : string)
| WhereNotNull (column : string)
| WhereLike (column : string) (pattern : value)
| WhereNotLike (column : string) (pattern : value)
| WhereRaw (condition : string) (params : list value)
| Join (tbl column1 operator column2 : string)
| LeftJoin (tbl column1 operator column2 : string)
| RightJoin (tbl column1 operator column2 : string)
| CrossJoin (tbl : string)
| OrderBy (column : string) (direction : option string)
| OrderByRaw (rawOrder : string)
| GroupBy (columns : list string)
| Having (condition : string)
| Limit (n : Z)
| Offset (n : Z).

Definition apply (c : call) (b : t) : t :=
  match c with
  | Table name => table name b
  | Select columns => select columns b
  | Where column c => where_ column c b
  | OrWhere column c => orWhere column c b
  | WhereIn column vals => whereIn column vals b
  | WhereNotIn column vals => whereNotIn column vals b
  | WhereBetween column lo hi => whereBetween column lo hi b
  | WhereNotBetween column lo hi => whereNotBetween column lo hi b
  | WhereNull column => whereNull column b
  | WhereNotNull column => whereNotNull column b
  | WhereLike column pattern => whereLike column pattern b
  | WhereNotLike column pattern => whereNotLike column pattern b
  | WhereRaw condition ps => whereRaw condition ps b
  | Join tbl c1 op c2 => join tbl c1 op c2 b
  | LeftJoin tbl c1 op c2 => leftJoin tbl c1 op c2 b
  | RightJoin tbl c1 op c2 => rightJoin tbl c1 op c2 b
  | CrossJoin tbl => crossJoin tbl b
  | OrderBy column direction => orderBy column direction b
  | OrderByRaw rawOrder => orderByRaw rawOrder b
  | GroupBy columns => groupBy columns b
  | Having condition => having condition b
  | Limit n => limit n b
  | Offset n => offset n b
  end.

(** The calls in order, on a builder. *)
Definition build (calls : list call) (b : t) : t :=
  fold_left (fun acc c => apply c acc) calls b.

(** The escape hatches, which take SQL text as it is. *)
Definition raw (c : call) : bool :=
  match c with
  | WhereRaw _ _ | OrderByRaw _ | Having _ => true
  | _ => false
  end.

(** The texts that a call splices into the statement. *)
Definition spliced (c : call) : list string :=
  match c with
  | Table name => [name]
  | Select columns => columns
  | Where column c | OrWhere column c => [column; operator_of c]
  | WhereIn column _ | WhereNotIn column _
  | WhereBetween column _ _ | WhereNotBetween column _ _
  | WhereNull column | WhereNotNull column
  | WhereLike column _ | WhereNotLike column _ => [column]
  | WhereRaw condition _ => [condition]
  | Join tbl c1 op c2 | LeftJoin tbl c1 op c2 | RightJoin tbl c1 op c2 =>
      [tbl; c1; op; c2]
  | CrossJoin tbl => [tbl]
  | OrderBy column direction =>
      column :: match direction with Some d => [d] | None => [] end
  | OrderByRaw rawOrder => [rawOrder]
  | GroupBy columns => columns
  | Having condition => [condition]
  | Limit _ | Offset _ => []
  end.

(** A call none of whose spliced texts holds a ['?']. *)
Definition plain (c : call) : Prop := Forall clean (spliced c).

(** The values that a call binds, in the order it pushes them. *)
Definition bound (c : call) : list value :=
  match c with
  | Where _ c | OrWhere _ c => [value_of c]
  | WhereIn _ vals | WhereNotIn _ vals => vals
  | WhereBetween _ lo hi | WhereNotBetween _ lo hi => [lo; hi]
  | WhereLike _ pattern | WhereNotLike _ pattern => [pattern]
  | WhereRaw _ ps => ps
  | _ => []
  end.

(** Whether a call pushes a predicate fragment. *)
Definition predicate (c : call) : bool :=
  match c with
  | Where _ _ | OrWhere _ _ | WhereIn _ _ | WhereNotIn _ _
  | WhereBetween _ _ _ | WhereNotBetween _ _ _
  | WhereNull _ | WhereNotNull _ | WhereLike _ _ | WhereNotLike _ _
  | WhereRaw _ _ => true
  | _ => false
  end.

(** A predicate fragment with the values bound to its placeholders. *)
Definition entry : Type := (string * list value)%type.

(** The builder's predicates and parameters are the entries [es], side
    by side and in order, each fragment with as many placeholders as
    values; no other accumulated text holds a placeholder. *)
Record aligned (b : t) (es : list entry) : Prop := {
  al_where : _where b = map fst es;
  al_params : _whereParams b = concat (map snd es);
  al_each : Forall (fun e => count_placeholders (fst e) = length (snd e)) es;
  al_table : clean (_table b);
  al_columns : Forall clean (_columns b);
  al_joins : Forall clean (_joins b);
  al_orderBy : Forall clean (_orderBy b);
  al_groupBy : Forall clean (_groupBy b);
  al_having : clean (_having b)
}.

(** ** Kinds of calls *)

(** The field of the intent that a call works on. *)
Inductive category : Type :=
| OnTable | OnColumns | OnPredicates | OnJoins | OnOrder | OnGroups
| OnHaving | OnLimit | OnOffset.

Definition category_of (c : call) : category :=
  match c with
  | Table _ => OnTable
  | Select _ => OnColumns
  | Where _ _ | OrWhere _ _ | WhereIn _ _ | WhereNotIn _ _
  | WhereBetween _ _ _ | WhereNotBetween _ _ _
  | WhereNull _ | WhereNotNull _ | WhereLike _ _ | WhereNotLike _ _
  | WhereRaw _ _ => OnPredicates
  | Join _ _ _ _ | LeftJoin _ _ _ _ | RightJoin _ _ _ _ | CrossJoin _ =>
      OnJoins
  | OrderBy _ _ | OrderByRaw _ => OnOrder
  | GroupBy _ => OnGroups
  | Having _ => OnHaving
  | Limit _ => OnLimit
  | Offset _ => OnOffset
  end.

(** The calls that assign their field; the others push onto it. *)
Definition assigns (c : call) : bool :=
  match c with
  | Table _ | Select _ | Having _ | Limit _ | Offset _ => true
  | _ => false
  end.

(** A call whose texts bring as many placeholders as it binds values:
    a raw predicate with one ['?'] per parameter, any other raw text
    without ['?'], and a plain call that is not raw. *)
Definition balanced (c : call) : Prop :=
  match c with
  | WhereRaw condition ps => count_placeholders condition = length ps
  | _ => plain c
  end.

(** The placeholders that the texts of a call hold themselves. *)
Definition stray (c : call) : nat := list_sum (map markers (spliced c)).

(** The calls that push onto their field. *)
Definition pushes (c : call) : bool := negb (assigns c).

(** The texts of the caller that reach the statement: the table and
    the columns last assigned, and the texts of every call that pushes
    onto its field. *)
Definition reaching (calls : list call) : list string :=
  let b := build calls fresh in
  _table b :: _columns b ++ flat_map spliced (List.filter pushes calls).

(** The builder after calls that are not raw: its predicates are those
    of the calls [pcs], in order, each with one placeholder for each
    value it binds besides those of the call's own texts; its
    parameters are the values those calls bind; no text leaves a
    quotation open; [total] placeholders come from the texts of the
    calls that have pushed. *)
Record tallied (b : t) (pcs : list call) (total : nat) : Prop := {
  ta_where : Forall2 (fun c f => settled (length (bound c) + stray c) f)
                     pcs (_where b);
  ta_params : _whereParams b = concat (map bound pcs);
  ta_joins : Forall closed (_joins b);
  ta_orderBy : Forall closed (_orderBy b);
  ta_groupBy : Forall closed (_groupBy b);
  ta_having : _having b = "";
  ta_total : (list_sum (map markers (_joins b))
              + list_sum (map markers (_orderBy b))
              + list_sum (map markers (_groupBy b))
              + list_sum (map stray pcs))%nat = total
}.

End QueryBuilder.

(* ===================================================================== *)
(** * The main module: class MySQLHelper *)
(* ===================================================================== *)

Module MySQLHelper.

(** A reference to a data object of the caller. *)
Definition loc : Type := nat.

(** What a hook callback is handed. *)
Inductive hook_data : Type :=
| QueryData (sql : string) (params : list value) (timestamp : Z)
| AfterQueryData (sql : string) (params : list value) (timestamp : Z)
                 (rows : result_set) (executionTime : Z)
| ErrorData (sql : string) (params : list value) (timestamp : Z)
            (err : error)
| InsertData (table : string) (data : loc)
| AfterInsertData (table : string) (data : loc)
                  (insertId affectedRows : value)
| UpdateData (table : string) (data : loc) (where_ : object)
| AfterUpdateData (table : string) (data : loc) (where_ : object)
                  (affectedRows changedRows : value).

(** A registered callback: an observer that returns or throws.  It does
    not call back into the helper. *)
Record callback : Type := {
  cb_id : nat;
  cb_run : hook_data -> option error
}.

(** [this.hooks]: an object literal with seven own keys, none of which
    is ever added or deleted. *)
Record hook_table : Type := mk_hooks {
  beforeQuery : list callback;
  afterQuery : list callback;
  onError : list callback;
  beforeInsert : list callback;
  afterInsert : list callback;
  beforeUpdate : list callback;
  afterUpdate : list callback
}.

Definition no_hooks : hook_table := mk_hooks [] [] [] [] [] [] [].

(** The own property [hooks[name]], if there is one. *)
Definition own_hook (name : string) (t : hook_table)
  : option (list callback) :=
  if String.eqb name "beforeQuery" then Some (beforeQuery t)
  else if String.eqb name "afterQuery" then Some (afterQuery t)
  else if String.eqb name "onError" then Some (onError t)
  else if String.eqb name "beforeInsert" then Some (beforeInsert t)
  else if String.eqb name "afterInsert" then Some (afterInsert t)
  else if String.eqb name "beforeUpdate" then Some (beforeUpdate t)
  else if String.eqb name "afterUpdate" then Some (afterUpdate t)
  else None.

(** [hooks[name] = cbs] for an own key. *)
Definition set_hook (name : string) (cbs : list callback) (t : hook_table)
  : hook_table :=
  if String.eqb name "beforeQuery" then
    mk_hooks cbs (afterQuery t) (onError t) (beforeInsert t) (afterInsert t)
             (beforeUpdate t) (afterUpdate t)
  else if String.eqb name "afterQuery" then
    mk_hooks (beforeQuery t) cbs (onError t) (beforeInsert t) (afterInsert t)
             (beforeUpdate t) (afterUpdate t)
  else if String.eqb name "onError" then
    mk_hooks (beforeQuery t) (afterQuery t) cbs (beforeInsert t)
             (afterInsert t) (beforeUpdate t) (afterUpdate t)
  else if String.eqb name "beforeInsert" then
    mk_hooks (beforeQuery t) (afterQuery t) (onError t) cbs (afterInsert t)
             (beforeUpdate t) (afterUpdate t)
  else if String.eqb name "afterInsert" then
    mk_hooks (beforeQuery t) (afterQuery t) (onError t) (beforeInsert t) cbs
             (beforeUpdate t) (afterUpdate t)
  else if String.eqb name "beforeUpdate" then
    mk_hooks (beforeQuery t) (afterQuery t) (onError t) (beforeInsert t)
             (afterInsert t) cbs (afterUpdate t)
  else if String.eqb name "afterUpdate" then
    mk_hooks (beforeQuery t) (afterQuery t) (onError t) (beforeInsert t)
             (afterInsert t) (beforeUpdate t) cbs
  else t.

(** The keys that an object literal inherits from [Object.prototype]:
    [hooks[name]] is then a function or an object, truthy, without a
    [push] method. *)
Definition inherited_keys : list string :=
  [ "constructor"; "__defineGetter__"; "__defineSetter__"; "hasOwnProperty";
    "__lookupGetter__"; "__lookupSetter__"; "isPrototypeOf";
    "propertyIsEnumerable"; "toString"; "valueOf"; "__proto__";
    "toLocaleString" ].

Definition inherited (name : string) : bool :=
  existsb (String.eqb name) inherited_keys.

(** The signals of the event emitter, with their payloads. *)
Inductive event : Type :=
| poolCreated
| connected
| connectionRetry (attempt : Z) (err : string)
| cacheHit (sql : string) (params : list value)
| queryExecuted (sql : string) (params : list value) (executionTime : Z)
                (rowCount : value)
| queryError (sql : string) (params : list value) (err : string)
| batchProgress (current : Z) (total : jsnum) (processedRows : Z)
| transactionStarted
| transactionCommitted
| transactionRolledBack (err : string).

(** What the helper does to the outside, in order. *)
Inductive effect : Type :=
| Emit (e : event)
| HookCall (hookName : string) (cb : nat)
| Execute (sql : string) (params : list value)
| CreateConnection (attempt : Z)
| Sleep (ms : Z)
| GetConnection
| BeginTransaction
| Callback
| Commit
| Rollback
| Release.

Record cache_entry : Type := {
  data : result_set;
  expiry : Z
}.

Record log_entry : Type := {
  log_sql : string;
  log_params : list value;
  log_executionTime : Z;
  log_timestamp : Z
}.

(** The settings that the constructor derives from [config] and that no
    method assigns afterwards. *)
Record settings : Type := {
  cacheEnabled : bool;
  cacheTTL : Z;
  retryAttempts : Z;
  retryDelay : Z;
  logQueries : bool;
  timestamps : bool;
  createdAtColumn : string;
  updatedAtColumn : string
}.

(** The instance, the objects it is handed ([heap]) and its history:
    [ticks] readings of the clock and [executed] statements so far, and
    the [trace] of effects. *)
Record t : Type := mk {
  config : settings;
  pool : bool;
  connection : bool;
  hooks : hook_table;
  cache : gmap string cache_entry;
  queryLog : list log_entry;
  heap : list object;
  ticks : nat;
  executed : nat;
  trace : list effect
}.

Definition set_pool (x : bool) (h : t) : t :=
  mk (config h) x (connection h) (hooks h) (cache h) (queryLog h) (heap h)
     (ticks h) (executed h) (trace h).

Definition set_connection (x : bool) (h : t) : t :=
  mk (config h) (pool h) x (hooks h) (cache h) (queryLog h) (heap h)
     (ticks h) (executed h) (trace h).

Definition set_hooks (x : hook_table) (h : t) : t :=
  mk (config h) (pool h) (connection h) x (cache h) (queryLog h) (heap h)
     (ticks h) (executed h) (trace h).

Definition set_cache (x : gmap string cache_entry) (h : t) : t :=
  mk (config h) (pool h) (connection h) (hooks h) x (queryLog h) (heap h)
     (ticks h) (executed h) (trace h).

Definition set_queryLog (x : list log_entry) (h : t) : t :=
  mk (config h) (pool h) (connection h) (hooks h) (cache h) x (heap h)
     (ticks h) (executed h) (trace h).

Definition set_heap (x : list object) (h : t) : t :=
  mk (config h) (pool h) (connection h) (hooks h) (cache h) (queryLog h) x
     (ticks h) (executed h) (trace h).

Definition set_ticks (x : nat) (h : t) : t :=
  mk (config h) (pool h) (connection h) (hooks h) (cache h) (queryLog h)
     (heap h) x (executed h) (trace h).

Definition set_executed (x : nat) (h : t) : t :=
  mk (config h) (pool h) (connection h) (hooks h) (cache h) (queryLog h)
     (heap h) (ticks h) x (trace h).

Definition set_trace (x : list effect) (h : t) : t :=
  mk (config h) (pool h) (connection h) (hooks h) (cache h) (queryLog h)
     (heap h) (ticks h) (executed h) x.

(** The collaborators that are not part of the repository. *)
Record Runtime : Type := {
  (** the n-th reading of [Date.now()] *)
  Date_now : nat -> Z;
  JSON_stringify : list value -> string;
  (** [execute(sql, params)] of the pool or connection, for the n-th
      statement sent *)
  execute : nat -> string -> list value -> res result_set;
  (** [mysql.createConnection] at the given attempt *)
  createConnection : Z -> option error;
  pool_getConnection : option error;
  conn_beginTransaction : option error;
  conn_commit : option error;
  conn_rollback : option error
}.

(** [options] of [query]: [cache] and [cacheTTL], [None] when left out. *)
Record query_options : Type := {
  opt_cache : option bool;
  opt_cacheTTL : option Z
}.

Definition no_options : query_options :=
  {| opt_cache := None; opt_cacheTTL := None |}.

(** [options.cache !== false] *)
Definition cache_not_false (o : query_options) : bool :=
  match opt_cache o with
  | Some false => false
  | _ => true
  end.

(** [{ insertId, affectedRows }] and [{ affectedRows, changedRows }] *)
Record insert_result : Type := {
  insertId : value;
  affectedRows : value
}.

Record update_result : Type := {
  upd_affectedRows : value;
  upd_changedRows : value
}.

Record batch_result : Type := {
  totalBatches : jsnum;
  totalInserted : Z;
  results : list insert_result
}.

(** [options] of the CRUD methods. *)
Record crud_options : Type := {
  skipTimestamps : bool
}.

(** [columns] of [select]: a text or an array of names. *)
Inductive columns_arg : Type :=
| ColumnsText (text : string)
| ColumnsList (names : list string).

(** [options] of [select]; an option left out is [None], and [where]
    left out is the empty object. *)
Record select_options : Type := {
  sel_columns : option columns_arg;
  sel_where : object;
  sel_orderBy : option string;
  sel_limit : option Z;
  sel_offset : option Z;
  sel_groupBy : option string;
  sel_having : option string;
  sel_query : query_options
}.

(** [if (x)] for an optional text and an optional number. *)
Definition given_text (x : option string) : option string :=
  match x with
  | Some s => if String.eqb s "" then None else Some s
  | None => None
  end.

Definition given_number (x : option Z) : option Z :=
  match x with
  | Some n => if n =? 0 then None else Some n
  | None => None
  end.

(** [` WHERE ${conditions.join(' AND ')}`] under
    [if (Object.keys(where).length > 0)], with [conditions] one
    [`${key} = ?`] per key. *)
Definition where_equalities (where_ : object) : string :=
  if (0 <? length (keys where_))%nat
  then " WHERE " +:+ Js.join " AND " (map (fun key => key +:+ " = ?")
                                          (keys where_))
  else "".

Definition select_sql (table : string) (options : select_options) : string :=
  "SELECT "
  +:+ match sel_columns options with
      | Some (ColumnsList names) => Js.join ", " names
      | Some (ColumnsText text) => text
      | None => "*"
      end
  +:+ " FROM " +:+ table
  +:+ where_equalities (sel_where options)
  +:+ match given_text (sel_groupBy options) with
      | Some g => " GROUP BY " +:+ g
      | None => ""
      end
  +:+ match given_text (sel_having options) with
      | Some g => " HAVING " +:+ g
      | None => ""
      end
  +:+ match given_text (sel_orderBy options) with
      | Some g => " ORDER BY " +:+ g
      | None => ""
      end
  +:+ match given_number (sel_limit options) with
      | Some n => " LIMIT " +:+ string_of_Z n
      | None => ""
      end
  +:+ match given_number (sel_offset options) with
      | Some n => " OFFSET " +:+ string_of_Z n
      | None => ""
      end.

Definition count_sql (table : string) (where_ : object) : string :=
  "SELECT COUNT(*) as count FROM " +:+ table +:+ where_equalities where_.

(** [options] of the helper's [paginate], with its defaults. *)
Record paginate_options : Type := {
  pg_page : option Z;
  pg_perPage : option Z;
  pg_where : object;
  pg_orderBy : option string;
  pg_columns : option columns_arg
}.

(** The stage names: the own keys of [this.hooks]. *)
Definition stages : list string :=
  [ "beforeQuery"; "afterQuery"; "onError"; "beforeInsert"; "afterInsert";
    "beforeUpdate"; "afterUpdate" ].

(** The constructor's defaults: [config.x || default], and
    [config.timestamps !== false]. *)
Definition default_settings : settings :=
  {| cacheEnabled := false;
     cacheTTL := 300000;
     retryAttempts := 3;
     retryDelay := 1000;
     logQueries := false;
     timestamps := true;
     createdAtColumn := "created_at";
     updatedAtColumn := "updated_at" |}.

(** [new MySQLHelper(config)], with the objects [objects] in reach. *)
Definition create (s : settings) (objects : list object) : t :=
  {| config := s;
     pool := false;
     connection := false;
     hooks := no_hooks;
     cache := ∅;
     queryLog := [];
     heap := objects;
     ticks := 0;
     executed := 0;
     trace := [] |}.

Section Methods.

Variable rt : Runtime.

Definition effect_ (e : effect) : M t unit :=
  modify (fun h => set_trace (trace h ++ [e]) h).

(** [this.emit(name, payload)] *)
Definition emit (e : event) : M t unit := effect_ (Emit e).

(** [Date.now()] and [new Date()] *)
Definition now : M t Z :=
  fun h => (Ok (Date_now rt (ticks h)), set_ticks (S (ticks h)) h).

(** An awaited call of the driver that resolves or rejects. *)
Definition driver_call (e : effect) (outcome : option error) : M t unit :=
  let* _ := effect_ e in
  match outcome with
  | None => ret tt
  | Some err => throw err
  end.

(** ** Connection management *)

Definition createPool : M t unit :=
  let* p := read pool in
  when (negb p)
    (let* _ := modify (set_pool true) in
     emit poolCreated).

(** [_connectWithRetry(attempt)]; [remaining] is the number of further
    attempts that [attempt < this.retryAttempts] allows. *)
Fixpoint connectWithRetry_from (remaining : nat) (attempt : Z) : M t unit :=
  try_catch
    (driver_call (CreateConnection attempt) (createConnection rt attempt))
    (fun err =>
       match remaining with
       | S remaining' =>
           let* delay := read (fun h => retryDelay (config h)) in
           let* _ := emit (connectionRetry attempt (message err)) in
           let* _ := effect_ (Sleep (delay * attempt)) in
           connectWithRetry_from remaining' (attempt + 1)
       | O =>
           let* n := read (fun h => retryAttempts (config h)) in
           throw (Error ("Failed to connect after " +:+ string_of_Z n
                         +:+ " attempts: " +:+ message err))
       end).

Definition _connectWithRetry (attempt : Z) : M t unit :=
  let* n := read (fun h => retryAttempts (config h)) in
  connectWithRetry_from (Z.to_nat (n - attempt)) attempt.

Definition connect : M t unit :=
  let* c := read connection in
  when (negb c)
    (let* _ := _connectWithRetry 1 in
     let* _ := modify (set_connection true) in
     emit connected).

(** ** Hooks *)

Definition addHook (hookName : string) (cb : callback) : M t unit :=
  let* table := read hooks in
  match own_hook hookName table with
  | Some cbs => modify (set_hooks (set_hook hookName (cbs ++ [cb]) table))
  | None =>
      if inherited hookName
      then throw (Error "this.hooks[hookName].push is not a function")
      else throw (Error ("Invalid hook name: " +:+ hookName))
  end.

(** [callback] is known by its identity, [id]; every registration of
    it in the stage goes.  A name that object literals inherit passes
    the test [if (this.hooks[hookName])] and has no [filter]. *)
Definition removeHook (hookName : string) (id : nat) : M t unit :=
  let* table := read hooks in
  match own_hook hookName table with
  | Some cbs =>
      modify (set_hooks
                (set_hook hookName
                   (List.filter (fun cb => negb (Nat.eqb (cb_id cb) id)) cbs)
                   table))
  | None =>
      if inherited hookName
      then throw (Error "this.hooks[hookName].filter is not a function")
      else ret tt
  end.

(** [for (const callback of cbs) await callback(data)] *)
Fixpoint run_callbacks (hookName : string) (cbs : list callback)
         (d : hook_data) : M t unit :=
  match cbs with
  | [] => ret tt
  | cb :: rest =>
      let* _ := driver_call (HookCall hookName (cb_id cb)) (cb_run cb d) in
      run_callbacks hookName rest d
  end.

Definition _runHooks (hookName : string) (d : hook_data) : M t unit :=
  let* table := read hooks in
  match own_hook hookName table with
  | Some cbs => run_callbacks hookName cbs d
  | None => throw (Error "this.hooks[hookName] is not iterable")
  end.

(** ** Caching *)

Definition _getCacheKey (sql : string) (params : list value) : string :=
  sql +:+ ":" +:+ JSON_stringify rt params.

Definition _getFromCache (key : string) : M t (option result_set) :=
  let* cached := read (fun h => cache h !! key) in
  match cached with
  | None => ret None
  | Some entry =>
      let* t := now in
      if t <? expiry entry then ret (Some (data entry))
      else
        let* _ := modify (fun h => set_cache (delete key (cache h)) h) in
        ret None
  end.

Definition _setCache (key : string) (rows : result_set) (ttl : option Z)
  : M t unit :=
  let* default_ttl := read (fun h => cacheTTL (config h)) in
  let ttl := match ttl with Some x => x | None => default_ttl end in
  let* t := now in
  modify (fun h =>
            set_cache (<[key := {| data := rows; expiry := t + ttl |}]>
                         (cache h)) h).

(** ** Query execution with hooks and caching *)

(** [(this.pool || this.connection).execute(sql, params)] *)
Definition driver_execute (sql : string) (params : list value)
  : M t result_set :=
  let* n := read executed in
  let* _ := modify (set_executed (S n)) in
  let* _ := effect_ (Execute sql params) in
  match execute rt n sql params with
  | Ok rows => ret rows
  | Throw err => throw err
  end.

(** [this.cacheEnabled && options.cache !== false] *)
Definition use_cache (options : query_options) : M t bool :=
  let* enabled := read (fun h => cacheEnabled (config h)) in
  ret (enabled && cache_not_false options).

(** The cache check at the head of the [try] block. *)
Definition cache_lookup (sql : string) (params : list value)
           (options : query_options) : M t (option result_set) :=
  let* wanted := use_cache options in
  if wanted then _getFromCache (_getCacheKey sql params) else ret None.

(** The rest of the [try] block: hooks, execution, log, cache store. *)
Definition execute_and_store (sql : string) (params : list value)
           (options : query_options) (timestamp : Z) : M t result_set :=
  let* _ := _runHooks "beforeQuery" (QueryData sql params timestamp) in
  let* conn := read (fun h => pool h || connection h) in
  let* _ := when (negb conn) createPool in
  let* startTime := now in
  let* rows := driver_execute sql params in
  let* endTime := now in
  let executionTime := endTime - startTime in
  let* logging := read (fun h => logQueries (config h)) in
  let* _ :=
    when logging
      (let* ts := now in
       modify (fun h =>
                 set_queryLog
                   (queryLog h ++
                      [{| log_sql := sql; log_params := params;
                          log_executionTime := executionTime;
                          log_timestamp := ts |}]) h)) in
  let* _ := _runHooks "afterQuery"
              (AfterQueryData sql params timestamp rows executionTime) in
  let* wanted := use_cache options in
  let* _ :=
    when wanted
      (_setCache (_getCacheKey sql params) rows (opt_cacheTTL options)) in
  let* _ := emit (queryExecuted sql params executionTime
                                (result_length rows)) in
  ret rows.

(** The [catch] block. *)
Definition on_failure (sql : string) (params : list value) (timestamp : Z)
           (err : error) : M t result_set :=
  let* _ := _runHooks "onError" (ErrorData sql params timestamp err) in
  let* _ := emit (queryError sql params (message err)) in
  throw (Error ("Query failed: " +:+ message err)).

Definition query (sql : string) (params : list value) (options : query_options)
  : M t result_set :=
  let* timestamp := now in
  try_catch
    (let* cached := cache_lookup sql params options in
     match cached with
     | Some rows =>
         let* _ := emit (cacheHit sql params) in
         ret rows
     | None => execute_and_store sql params options timestamp
     end)
    (on_failure sql params timestamp).

(** ** Automatic timestamps

    [data] is a reference: the methods below read the caller's object
    through the heap and write only where the source assigns. *)

Definition deref (l : loc) : M t object :=
  read (fun h => default [] (heap h !! l)).

(** [{ ...o }] *)
Definition alloc (o : object) : M t loc :=
  fun h => (Ok (length (heap h)), set_heap (heap h ++ [o]) h).

(** [target[k] = v] *)
Definition assign (target : loc) (k : string) (v : value) : M t unit :=
  let* o := deref target in
  modify (fun h => set_heap (<[target := Js.set k v o]> (heap h)) h).

Definition nonempty_string (s : string) : bool := negb (String.eqb s "").

Definition _addTimestamps (data : loc) (isUpdate : bool) : M t loc :=
  let* enabled := read (fun h => timestamps (config h)) in
  if negb enabled then ret data
  else
    let* ms := now in
    let date := VDate ms in
    let* d := deref data in
    let* timestampedData := alloc d in
    let* created := read (fun h => createdAtColumn (config h)) in
    let* d1 := deref data in
    let* _ :=
      when (negb isUpdate && nonempty_string created
            && negb (truthy (Js.get created d1)))
           (assign timestampedData created date) in
    let* updated := read (fun h => updatedAtColumn (config h)) in
    let* d2 := deref data in
    let* _ :=
      when (nonempty_string updated && negb (truthy (Js.get updated d2)))
           (assign timestampedData updated date) in
    ret timestampedData.

(** [xs.map(f)] for a method [f] *)
Fixpoint mapM {A B : Type} (f : A -> M t B) (xs : list A) : M t (list B) :=
  match xs with
  | [] => ret []
  | x :: xs' =>
      let* y := f x in
      let* ys := mapM f xs' in
      ret (y :: ys)
  end.

(** ** CRUD operations *)

Definition insert_sql (table : string) (o : object) : string :=
  "INSERT INTO " +:+ table +:+ " (" +:+ Js.join ", " (keys o)
  +:+ ") VALUES (" +:+ placeholders (keys o) +:+ ")".

Definition insert (table : string) (data : loc) (options : crud_options)
  : M t insert_result :=
  let* timestampedData :=
    (if skipTimestamps options then ret data
     else _addTimestamps data false) in
  let* _ := _runHooks "beforeInsert" (InsertData table timestampedData) in
  let* o := deref timestampedData in
  let* result := query (insert_sql table o) (values o) no_options in
  let insertResult := {| insertId := result_insertId result;
                         affectedRows := result_affectedRows result |} in
  let* _ := _runHooks "afterInsert"
              (AfterInsertData table timestampedData
                 (insertId insertResult) (affectedRows insertResult)) in
  ret insertResult.

Definition insertMany_sql (table : string) (rows : list object) : string :=
  let columns := keys (List.hd [] rows) in
  let valuesSql :=
    Js.join ", " (map (fun _ => "(" +:+ placeholders columns +:+ ")") rows) in
  "INSERT INTO " +:+ table +:+ " (" +:+ Js.join ", " columns
  +:+ ") VALUES " +:+ valuesSql.

Definition insertMany (table : string) (dataArray : list loc)
           (options : crud_options) : M t insert_result :=
  if (length dataArray =? 0)%nat
  then throw (Error "Data array cannot be empty")
  else
    let* timestampedArray :=
      (if skipTimestamps options then ret dataArray
       else mapM (fun d => _addTimestamps d false) dataArray) in
    let* rows := mapM deref timestampedArray in
    let* result := query (insertMany_sql table rows)
                         (flat_map values rows) no_options in
    ret {| insertId := result_insertId result;
           affectedRows := result_affectedRows result |}.

Definition update_sql (table : string) (o where_ : object) : string :=
  "UPDATE " +:+ table +:+ " SET "
  +:+ Js.join ", " (map (fun key => key +:+ " = ?") (keys o))
  +:+ " WHERE "
  +:+ Js.join " AND " (map (fun key => key +:+ " = ?") (keys where_)).

Definition update (table : string) (data : loc) (where_ : object)
           (options : crud_options) : M t update_result :=
  let* timestampedData :=
    (if skipTimestamps options then ret data
     else _addTimestamps data true) in
  let* _ := _runHooks "beforeUpdate"
              (UpdateData table timestampedData where_) in
  let* o := deref timestampedData in
  let* result := query (update_sql table o where_)
                       (values o ++ values where_) no_options in
  let updateResult := {| upd_affectedRows := result_affectedRows result;
                         upd_changedRows := result_changedRows result |} in
  let* _ := _runHooks "afterUpdate"
              (AfterUpdateData table timestampedData where_
                 (upd_affectedRows updateResult)
                 (upd_changedRows updateResult)) in
  ret updateResult.

(** ** Reading, counting and paginating by table *)

Definition select (table : string) (options : select_options)
  : M t result_set :=
  query (select_sql table options) (values (sel_where options))
        (sel_query options).

(** [result[0].count]; reading [count] of a missing first row throws. *)
Definition count (table : string) (where_ : object) : M t value :=
  let* result := query (count_sql table where_) (values where_) no_options in
  match QueryBuilder.first_row result with
  | Some row => ret (Js.get "count" row)
  | None =>
      throw (Error "Cannot read properties of undefined (reading 'count')")
  end.

Definition paginate (table : string) (options : paginate_options)
  : M t QueryBuilder.paginated :=
  let page := match pg_page options with Some p => p | None => 1 end in
  let perPage := match pg_perPage options with Some p => p | None => 10 end in
  let orderBy := match pg_orderBy options with
                 | Some o => o
                 | None => "id DESC"
                 end in
  let columns := match pg_columns options with
                 | Some c => c
                 | None => ColumnsText "*"
                 end in
  let offset := (page - 1) * perPage in
  let* totalCount := count table (pg_where options) in
  let totalPages := Math_ceil_div (to_number totalCount) perPage in
  let* rows :=
    select table
           {| sel_columns := Some columns;
              sel_where := pg_where options;
              sel_orderBy := Some orderBy;
              sel_limit := Some perPage;
              sel_offset := Some offset;
              sel_groupBy := None;
              sel_having := None;
              sel_query := no_options |} in
  ret {| QueryBuilder.page_data := rows;
         QueryBuilder.page_pagination :=
           {| QueryBuilder.currentPage := page;
              QueryBuilder.perPage := perPage;
              QueryBuilder.totalItems := totalCount;
              QueryBuilder.totalPages := totalPages;
              QueryBuilder.hasNextPage := lt_num page totalPages;
              QueryBuilder.hasPrevPage := 1 <? page |} |}.

(** ** Batch processing *)

(** How often the body of [for (let i = 0; i < batches; i++)] is
    entered.  With [batches] infinite (a [batchSize] of zero) the first
    batch is empty and [insertMany] throws, so one iteration is all
    there is. *)
Definition iterations (batches : jsnum) : nat :=
  match batches with
  | Int n => Z.to_nat n
  | PosInf => 1
  | NegInf | NaN => 0
  end.

Fixpoint batchInsert_loop (n : nat) (i : Z) (table : string)
         (dataArray : list loc) (batchSize : Z) (batches : jsnum)
         (results : list insert_result) : M t (list insert_result) :=
  match n with
  | O => ret results
  | S n' =>
      let start := i * batchSize in
      let stop := Z.min (start + batchSize) (Z.of_nat (length dataArray)) in
      let batch := slice dataArray start stop in
      let* result := insertMany table batch {| skipTimestamps := false |} in
      let* _ := emit (batchProgress (i + 1) batches stop) in
      batchInsert_loop n' (i + 1) table dataArray batchSize batches
                       (results ++ [result])
  end.

Definition batchInsert (table : string) (dataArray : list loc)
           (batchSize : Z) : M t batch_result :=
  if (length dataArray =? 0)%nat
  then throw (Error "Data array cannot be empty")
  else
    let batches := ceil_div (Z.of_nat (length dataArray)) batchSize in
    let* results :=
      batchInsert_loop (iterations batches) 0 table dataArray batchSize
                       batches [] in
    ret {| totalBatches := batches;
           totalInserted := Z.of_nat (length dataArray);
           results := results |}.

(** ** Transactions *)

Definition beginTransaction : M t unit :=
  let* p := read pool in
  let* _ := (if p then driver_call GetConnection (pool_getConnection rt)
             else connect) in
  let* _ := driver_call BeginTransaction (conn_beginTransaction rt) in
  emit transactionStarted.

(** [callback] is the caller's function applied to the connection: any
    method over the state of the helper. *)
Definition transaction {A : Type} (callback : M t A) : M t A :=
  let* _ := beginTransaction in
  try_finally
    (try_catch
       (let* result := (let* _ := effect_ Callback in callback) in
        let* _ := driver_call Commit (conn_commit rt) in
        let* _ := emit transactionCommitted in
        ret result)
       (fun err =>
          let* _ := driver_call Rollback (conn_rollback rt) in
          let* _ := emit (transactionRolledBack (message err)) in
          throw (Error ("Transaction failed: " +:+ message err))))
    (let* p := read pool in
     when p (effect_ Release)).

(** ** Further methods by table *)

(** [this.pool], else [this.connection], else a pool created on the
    spot. *)
Definition getConnection : M t unit :=
  let* p := read pool in
  if p then driver_call GetConnection (pool_getConnection rt)
  else
    let* c := read connection in
    if c then ret tt
    else
      let* _ := createPool in
      driver_call GetConnection (pool_getConnection rt).

(** [updateFields], or every column but the created-at one. *)
Definition fieldsToUpdate (created : string) (updateFields columns : list string)
  : list string :=
  if (0 <? length updateFields)%nat then updateFields
  else List.filter (fun col => negb (String.eqb col created)) columns.

(** The line break and the indentation of the template. *)
Definition newline : string := String (ascii_of_nat 10) EmptyString.

Definition upsert_sql (created : string) (table : string) (o : object)
           (updateFields : list string) : string :=
  newline +:+ "      INSERT INTO " +:+ table +:+ " ("
  +:+ Js.join ", " (keys o) +:+ ") "
  +:+ newline +:+ "      VALUES (" +:+ placeholders (keys o) +:+ ")"
  +:+ newline +:+ "      ON DUPLICATE KEY UPDATE "
  +:+ Js.join ", " (map (fun field => field +:+ " = VALUES(" +:+ field +:+ ")")
                        (fieldsToUpdate created updateFields (keys o)))
  +:+ newline +:+ "    ".

Definition upsert (table : string) (data : loc) (updateFields : list string)
           (options : crud_options) : M t insert_result :=
  let* timestampedData :=
    (if skipTimestamps options then ret data
     else _addTimestamps data false) in
  let* o := deref timestampedData in
  let* created := read (fun h => createdAtColumn (config h)) in
  let* result := query (upsert_sql created table o updateFields) (values o)
                       no_options in
  ret {| insertId := result_insertId result;
         affectedRows := result_affectedRows result |}.

Definition delete_sql (table : string) (where_ : object) : string :=
  "DELETE FROM " +:+ table +:+ " WHERE "
  +:+ Js.join " AND " (map (fun key => key +:+ " = ?") (keys where_)).

(** [delete(table, where)]; its result is [{ affectedRows }]. *)
Definition delete_ (table : string) (where_ : object) : M t value :=
  let* result := query (delete_sql table where_) (values where_) no_options in
  ret (result_affectedRows result).

(** [select(table, { where, limit: 1 })] *)
Definition one_row (where_ : object) : select_options :=
  {| sel_columns := None;
     sel_where := where_;
     sel_orderBy := None;
     sel_limit := Some 1;
     sel_offset := None;
     sel_groupBy := None;
     sel_having := None;
     sel_query :=
       (* the options object has no [cache] and no [cacheTTL] *)
       no_options |}.

(** [idColumn] is [None] when left out. *)
Definition findById (table : string) (id : value) (idColumn : option string)
  : M t (option object) :=
  let column := match idColumn with Some c => c | None => "id" end in
  let* results := select table (one_row [(column, id)]) in
  ret (QueryBuilder.first_row results).

Definition findOne (table : string) (where_ : object)
  : M t (option object) :=
  let* results := select table (one_row where_) in
  ret (QueryBuilder.first_row results).

Definition exists_ (table : string) (where_ : object) : M t bool :=
  let* c := count table where_ in
  ret (lt_num 0 (to_number c)).

(** [x || 0] *)
Definition or_zero (x : value) : value :=
  if truthy x then x else VNum 0.

Definition sum_sql (table column : string) (where_ : object) : string :=
  "SELECT SUM(" +:+ column +:+ ") as total FROM " +:+ table
  +:+ where_equalities where_.

(** [sum(table, column, where)]: [result[0].total || 0] *)
Definition sum_ (table column : string) (where_ : object) : M t value :=
  let* result := query (sum_sql table column where_) (values where_)
                       no_options in
  match QueryBuilder.first_row result with
  | Some row => ret (or_zero (Js.get "total" row))
  | None =>
      throw (Error "Cannot read properties of undefined (reading 'total')")
  end.

Definition avg_sql (table column : string) (where_ : object) : string :=
  "SELECT AVG(" +:+ column +:+ ") as average FROM " +:+ table
  +:+ where_equalities where_.

Definition avg (table column : string) (where_ : object) : M t value :=
  let* result := query (avg_sql table column where_) (values where_)
                       no_options in
  match QueryBuilder.first_row result with
  | Some row => ret (or_zero (Js.get "average" row))
  | None =>
      throw (Error "Cannot read properties of undefined (reading 'average')")
  end.

Definition min_sql (table column : string) (where_ : object) : string :=
  "SELECT MIN(" +:+ column +:+ ") as minimum FROM " +:+ table
  +:+ where_equalities where_.

(** [min(table, column, where)]: [result[0].minimum], as it is. *)
Definition min_ (table column : string) (where_ : object) : M t value :=
  let* result := query (min_sql table column where_) (values where_)
                       no_options in
  match QueryBuilder.first_row result with
  | Some row => ret (Js.get "minimum" row)
  | None =>
      throw (Error "Cannot read properties of undefined (reading 'minimum')")
  end.

Definition max_sql (table column : string) (where_ : object) : string :=
  "SELECT MAX(" +:+ column +:+ ") as maximum FROM " +:+ table
  +:+ where_equalities where_.

Definition max_ (table column : string) (where_ : object) : M t value :=
  let* result := query (max_sql table column where_) (values where_)
                       no_options in
  match QueryBuilder.first_row result with
  | Some row => ret (Js.get "maximum" row)
  | None =>
      throw (Error "Cannot read properties of undefined (reading 'maximum')")
  end.

(** [result.length > 0] *)
Definition tableExists (table : string) : M t bool :=
  let* result := query "SHOW TABLES LIKE ?" [VStr table] no_options in
  ret (lt_num 0 (to_number (result_length result))).

(** ** The builder of a helper *)

(** [queryBuilder()]: [new QueryBuilder(this)], a builder just reset
    whose [db] is this helper. *)
Definition queryBuilder : QueryBuilder.t := QueryBuilder.fresh.

(** [this.db.query(sql, params)] of such a builder: [query] with its
    default options. *)
Definition db_query (sql : string) (params : list value) : M t result_set :=
  query sql params no_options.

(** ** The query log *)

Definition getQueryLog : M t (list log_entry) := read queryLog.

Definition clearQueryLog : M t unit := modify (set_queryLog []).

(** [threshold] is [None] when left out. *)
Definition getSlowQueries (threshold : option Z) : M t (list log_entry) :=
  let limit := match threshold with Some x => x | None => 1000 end in
  read (fun h => List.filter (fun entry => limit <? log_executionTime entry)
                             (queryLog h)).

End Methods.

(** ** What the methods leave alone *)

(** The calls that [run_callbacks] makes and the error that ends them,
    if a callback throws. *)
Fixpoint hook_outcome (hookName : string) (cbs : list callback)
         (d : hook_data) : list effect * option error :=
  match cbs with
  | [] => ([], None)
  | cb :: rest =>
      match cb_run cb d with
      | Some err => ([HookCall hookName (cb_id cb)], Some err)
      | None =>
          (HookCall hookName (cb_id cb) :: fst (hook_outcome hookName rest d),
           snd (hook_outcome hookName rest d))
      end
  end.

(** No callback of the list throws, whatever it is handed. *)
Definition harmless (cbs : list callback) : Prop :=
  Forall (fun cb => forall d, cb_run cb d = None) cbs.

(** The state after is the state before with more objects on the heap
    and more effects, all in [P], in the trace: settings, hooks and the
    objects already there are the same. *)
Definition evolves (P : effect -> Prop) (h h' : t) : Prop :=
  config h' = config h /\
  hooks h' = hooks h /\
  (exists more, heap h' = heap h ++ more) /\
  (exists new, trace h' = trace h ++ new /\ Forall P new).

(** The effects in which a statement is answered - by the driver or
    from the cache - and the progress signals, as marks. *)
Inductive mark : Type :=
| Answered
| Progress (current : Z) (total : jsnum) (processedRows : Z).

Definition mark_of (e : effect) : option mark :=
  match e with
  | Execute _ _ => Some Answered
  | Emit (cacheHit _ _) => Some Answered
  | Emit (batchProgress c t p) => Some (Progress c t p)
  | _ => None
  end.

Definition marks (tr : list effect) : list mark :=
  omap mark_of tr.

(** The progress signals of a trace. *)
Definition progress_of (e : effect) : option (Z * jsnum * Z) :=
  match e with
  | Emit (batchProgress c t p) => Some (c, t, p)
  | _ => None
  end.

Definition progress_signals (tr : list effect) : list (Z * jsnum * Z) :=
  omap progress_of tr.

(** The effects that one call of [query] on a statement may have. *)
Definition query_effect (sql : string) (params : list value) (e : effect)
  : Prop :=
  match e with
  | HookCall _ _ => True
  | Emit poolCreated => True
  | Emit (cacheHit s p) => s = sql /\ p = params
  | Emit (queryExecuted s p _ _) => s = sql /\ p = params
  | Emit (queryError s p _) => s = sql /\ p = params
  | Execute s p => s = sql /\ p = params
  | _ => False
  end.

(** The effects of a call that is not answered from the cache. *)
Definition miss_effect (e : effect) : Prop :=
  match e with
  | Emit (cacheHit _ _) => False
  | _ => True
  end.

(** The only statement executed, if any, is the given one. *)
Definition compiles_to (sql : string) (params : list value) (e : effect)
  : Prop :=
  match e with
  | Execute s p => s = sql /\ p = params
  | _ => True
  end.

(** The object that [_addTimestamps] builds from [d] at time [date]. *)
Definition stamped (s : settings) (date : value) (isUpdate : bool)
           (d : object) : object :=
  let o1 :=
    if negb isUpdate && negb (String.eqb (createdAtColumn s) "")
       && negb (truthy (Js.get (createdAtColumn s) d))
    then Js.set (createdAtColumn s) date d else d in
  if negb (String.eqb (updatedAtColumn s) "")
     && negb (truthy (Js.get (updatedAtColumn s) d))
  then Js.set (updatedAtColumn s) date o1 else o1.

(** The object from which [insert] and [update] compile. *)
Definition compiled_from (rt : Runtime) (h : t) (opts : crud_options)
           (isUpdate : bool) (d : object) : object :=
  if skipTimestamps opts || negb (timestamps (config h)) then d
  else stamped (config h) (VDate (Date_now rt (ticks h))) isUpdate d.

(** A driver that accepts every statement, and a helper none of whose
    query hooks throws. *)
Definition always_accepts (rt : Runtime) : Prop :=
  forall n sql params, exists rows, execute rt n sql params = Ok rows.

Definition calm (h : t) : Prop :=
  harmless (beforeQuery (hooks h)) /\ harmless (afterQuery (hooks h)).

(** [m] returns from every state, to one that [R] relates to it. *)
Definition succeeds {A : Type} (R : t -> t -> Prop) (m : M t A) : Prop :=
  forall h, exists a h', m h = (Ok a, h') /\ R h h'.

(** Settings, hooks and trace are the same. *)
Definition silent (h h' : t) : Prop :=
  config h' = config h /\ hooks h' = hooks h /\ trace h' = trace h.

(** Settings and hooks are the same, and the marks of the effects since
    are [new]. *)
Definition marked (new : list mark) (h h' : t) : Prop :=
  config h' = config h /\ hooks h' = hooks h /\
  exists effects, trace h' = trace h ++ effects /\ marks effects = new.

(** A statement sent to the driver with as many values as its text has
    placeholders. *)
Definition well_bound (e : effect) : Prop :=
  match e with
  | Execute s p => count_placeholders s = length p
  | _ => True
  end.

(** Texts handed to [select] that hold no placeholder character. *)
Definition clean_option (x : option string) : Prop :=
  match x with Some s => clean s | None => True end.

Definition clean_columns (x : option columns_arg) : Prop :=
  match x with
  | Some (ColumnsList names) => Forall clean names
  | Some (ColumnsText text) => clean text
  | None => True
  end.

Definition clean_select (o : select_options) : Prop :=
  clean_columns (sel_columns o) /\ Forall clean (keys (sel_where o)) /\
  clean_option (sel_orderBy o) /\ clean_option (sel_groupBy o) /\
  clean_option (sel_having o).

(** The statements of a trace, in order. *)
Definition statements_of (tr : list effect) : list (string * list value) :=
  omap (fun e => match e with
                 | Execute s p => Some (s, p)
                 | _ => None
                 end) tr.

(** Settings, hooks, objects and cache are the same; one statement more
    has gone to the driver, and it is [sql] with [params]. *)
Definition sent_once (sql : string) (params : list value) (h h' : t) : Prop :=
  config h' = config h /\ hooks h' = hooks h /\ heap h' = heap h /\
  cache h' = cache h /\ executed h' = S (executed h) /\
  exists new, trace h' = trace h ++ new /\
              statements_of new = [(sql, params)] /\
              marks new = [Answered].

(** The timestamping steps send nothing and store nothing. *)
Definition same_store (h h' : t) : Prop :=
  executed h' = executed h /\ cache h' = cache h.

(** The options with which [paginate] calls [select]. *)
Definition page_options (o : paginate_options) : select_options :=
  let page := match pg_page o with Some p => p | None => 1 end in
  let perPage := match pg_perPage o with Some p => p | None => 10 end in
  {| sel_columns := Some (match pg_columns o with
                          | Some c => c
                          | None => ColumnsText "*"
                          end);
     sel_where := pg_where o;
     sel_orderBy := Some (match pg_orderBy o with
                          | Some x => x
                          | None => "id DESC"
                          end);
     sel_limit := Some perPage;
     sel_offset := Some ((page - 1) * perPage);
     sel_groupBy := None;
     sel_having := None;
     sel_query := no_options |}.

(** How often a pool has been created. *)
Definition is_poolCreated (e : effect) : bool :=
  match e with Emit poolCreated => true | _ => false end.

Definition pools_created (tr : list effect) : nat :=
  length (List.filter is_poolCreated tr).

Arguments pools_created : simpl never.

(** The statements that are answered, in order: those that the driver
    executes and those that the cache serves. *)
Definition answer_of (e : effect) : option (string * list value) :=
  match e with
  | Execute s p => Some (s, p)
  | Emit (cacheHit s p) => Some (s, p)
  | _ => None
  end.

Definition answers (tr : list effect) : list (string * list value) :=
  omap answer_of tr.

(** Settings, hooks and objects are the same, and one statement has
    been answered since: [sql] with [params]; without a cache, by the
    driver. *)
Definition answered_once (sql : string) (params : list value) (h h' : t)
  : Prop :=
  config h' = config h /\ hooks h' = hooks h /\ heap h' = heap h /\
  exists new, trace h' = trace h ++ new /\
              answers new = [(sql, params)] /\
              marks new = [Answered] /\
              (cacheEnabled (config h) = false ->
               statements_of new = [(sql, params)]).

(** The object behind a reference, and references to objects that are
    there. *)
Definition object_at (h : t) (l : loc) : object :=
  default [] (heap h !! l).

Definition within (h : t) (ls : list loc) : Prop :=
  Forall (fun l => (l < length (heap h))%nat) ls.

(** The copies that [dataArray.map(data => this._addTimestamps(data))]
    makes of the objects behind [ls], the first at the reading [tick]
    of the clock and each next one at the next reading. *)
Fixpoint stamp_all (rt : Runtime) (s : settings) (objects : list object)
         (tick : nat) (ls : list loc) : list object :=
  match ls with
  | [] => []
  | l :: ls' =>
      stamped s (VDate (Date_now rt tick)) false (default [] (objects !! l))
      :: stamp_all rt s objects (S tick) ls'
  end.

(** The rows from which [insertMany] compiles its statement, when the
    clock is at reading [tick]. *)
Definition rows_at (rt : Runtime) (h : t) (skip : bool) (tick : nat)
           (ls : list loc) : list object :=
  if skip || negb (timestamps (config h)) then map (object_at h) ls
  else stamp_all rt (config h) (heap h) tick ls.

(** The statement of [insertMany] for rows, with its values. *)
Definition insertMany_statement (table : string) (rows : list object)
  : string * list value :=
  (insertMany_sql table rows, flat_map values rows).

(** The pool and the connection are the same. *)
Definition same_links (h h' : t) : Prop :=
  pool h' = pool h /\ connection h' = connection h.

(** The effects since are all in [P]. *)
Definition sends (P : effect -> Prop) (h h' : t) : Prop :=
  exists new, trace h' = trace h ++ new /\ Forall P new.

(** [addHook(name, cb)] for each callback of a list, in order. *)
Definition addHooks (name : string) (cbs : list callback) (h : t) : t :=
  fold_left (fun h cb => snd (addHook name cb h)) cbs h.

(** The call of a callback, as an effect. *)
Definition call_of (name : string) (cb : callback) : effect :=
  HookCall name (cb_id cb).

(** The message of the rejection of attempt [k], and the effects of an
    attempt that is retried: the attempt, the retry signal, the pause. *)
Definition rejection (rt : Runtime) (k : Z) : string :=
  match createConnection rt k with
  | Some err => message err
  | None => ""
  end.

Definition retried (rt : Runtime) (delay : Z) (k : Z) : list effect :=
  [ CreateConnection k; Emit (connectionRetry k (rejection rt k));
    Sleep (delay * k) ].

(** [i, i + 1, ...]: [n] integers. *)
Fixpoint zseq (i : Z) (n : nat) : list Z :=
  match n with
  | O => []
  | S n' => i :: zseq (i + 1) n'
  end.

(** The batch that [batchInsert] cuts for the iteration whose progress
    signal is numbered [k]. *)
Definition chunk {A : Type} (items : list A) (batchSize k : Z) : list A :=
  slice items ((k - 1) * batchSize)
        (Z.min ((k - 1) * batchSize + batchSize) (Z.of_nat (length items))).

End MySQLHelper.

(* ===================================================================== *)
(** * Sample builders, databases and helpers *)
(* ===================================================================== *)

Module Samples.

Import QueryBuilder.

(** A column expression with a placeholder of its own, to which no
    value is bound; one with a question mark inside a quotation, which
    is no placeholder; and one that leaves a quotation open, which
    takes in the placeholder of the predicate. *)
Definition stray_placeholder_calls : list call :=
  [Table "users"; Where "id = ? OR id" (Equals (VNum 1))].

Definition quoted_placeholder_calls : list call :=
  [Table "users"; Where "COALESCE(nick, '?')" (Equals (VStr "x"));
   OrderBy "nick" (Some "desc")].

Definition open_quotation_calls : list call :=
  [Table "users"; Where "nick = 'x" (Equals (VStr "y"))].

Definition sample_calls : list call :=
  [ Table "orders"; Select ["id"; "total"];
    LeftJoin "users" "users.id" "=" "orders.user_id";
    Where "status" (Equals (VStr "completed"));
    OrWhere "total" (Compare ">" (VNum 100));
    WhereIn "region" [VStr "eu"; VStr "us"; VStr "apac"];
    WhereBetween "created" (VNum 1) (VNum 9);
    WhereNull "deleted_at";
    OrderBy "created" (Some "desc"); GroupBy ["id"]; Limit 10; Offset 20 ].

(** A database that records the statements it receives and answers
    them from a table of statements; any other text is rejected, as a
    server rejects text that does not parse. *)
Definition scripted_db (script : list (string * result_set))
  : string -> list value -> M (list statement) result_set :=
  fun text ps log =>
    let log' := log ++ [{| sql := text; params := ps |}] in
    match List.find (fun entry => String.eqb (fst entry) text) script with
    | Some entry => (Ok (snd entry), log')
    | None => (Throw (Error "ER_PARSE_ERROR"), log')
    end.

Definition order_row (id : Z) : object :=
  [("id", VNum id); ("status", VStr "completed")].

(** 25 completed orders: the count, and the second page of ten. *)
Definition orders_script : list (string * result_set) :=
  [ ("SELECT COUNT(*) as count FROM orders WHERE status = ? LIMIT 1",
     Rows [[("count", VNum 25)]]);
    ("SELECT * FROM orders WHERE status = ? LIMIT 10 OFFSET 10",
     Rows (map order_row [11; 12; 13; 14; 15; 16; 17; 18; 19; 20])) ].

Definition completed_orders : t :=
  where_ "status" (Equals (VStr "completed")) (table "orders" fresh).

(** A database that answers every statement with three rows. *)
Definition lenient_db : string -> list value -> M unit result_set :=
  fun _ _ s =>
    (Ok (Rows [[("count", VNum 3)]; [("count", VNum 4)]; [("count", VNum 5)]]),
     s).

Definition users_by_id : t := select ["id"] (table "users" fresh).

(** A clock that advances by one millisecond per reading, a printer of
    parameter lists, and a driver that accepts every statement. *)
Definition print_value (v : value) : string :=
  match v with
  | VUndefined | VNull => "null"
  | VBool true => "true"
  | VBool false => "false"
  | VNum n => string_of_Z n
  | VStr s => String (ascii_of_nat 34) s +:+ String (ascii_of_nat 34) EmptyString
  | VDate ms => string_of_Z ms
  end.

Definition print_values (vs : list value) : string :=
  "[" +:+ Js.join "," (map print_value vs) +:+ "]".

Definition accepting : MySQLHelper.Runtime :=
  {| MySQLHelper.Date_now := fun n => 1000 + Z.of_nat n;
     MySQLHelper.JSON_stringify := print_values;
     MySQLHelper.execute :=
       fun n _ _ => Ok (Header (Z.of_nat (S n)) 1 1);
     MySQLHelper.createConnection := fun _ => None;
     MySQLHelper.pool_getConnection := None;
     MySQLHelper.conn_beginTransaction := None;
     MySQLHelper.conn_commit := None;
     MySQLHelper.conn_rollback := None |}.

(** The same, with a driver that rejects every statement. *)
Definition rejecting : MySQLHelper.Runtime :=
  {| MySQLHelper.Date_now := fun n => 1000 + Z.of_nat n;
     MySQLHelper.JSON_stringify := print_values;
     MySQLHelper.execute :=
       fun _ _ _ => Throw (Error "ER_NO_SUCH_TABLE");
     MySQLHelper.createConnection := fun _ => None;
     MySQLHelper.pool_getConnection := None;
     MySQLHelper.conn_beginTransaction := None;
     MySQLHelper.conn_commit := None;
     MySQLHelper.conn_rollback := None |}.

Definition caching_settings : MySQLHelper.settings :=
  {| MySQLHelper.cacheEnabled := true;
     MySQLHelper.cacheTTL := 300000;
     MySQLHelper.retryAttempts := 3;
     MySQLHelper.retryDelay := 1000;
     MySQLHelper.logQueries := true;
     MySQLHelper.timestamps := true;
     MySQLHelper.createdAtColumn := "created_at";
     MySQLHelper.updatedAtColumn := "updated_at" |}.

(** Callbacks: one that returns, one that throws. *)
Definition quiet_hook (id : nat) : MySQLHelper.callback :=
  {| MySQLHelper.cb_id := id; MySQLHelper.cb_run := fun _ => None |}.

Definition throwing_hook (id : nat) : MySQLHelper.callback :=
  {| MySQLHelper.cb_id := id;
     MySQLHelper.cb_run := fun _ => Some (Error "hook failed") |}.

(** A helper whose only hook is an [onError] callback that throws. *)
Definition helper_with_throwing_onError : MySQLHelper.t :=
  MySQLHelper.set_hooks
    (MySQLHelper.mk_hooks [] [] [throwing_hook 1] [] [] [] [])
    (MySQLHelper.create MySQLHelper.default_settings []).

(** A helper with two [onError] callbacks that return. *)
Definition helper_with_quiet_onError : MySQLHelper.t :=
  MySQLHelper.set_hooks
    (MySQLHelper.mk_hooks [quiet_hook 1] [] [quiet_hook 2; quiet_hook 3]
                          [] [] [] [])
    (MySQLHelper.create MySQLHelper.default_settings []).

(** A caching helper with a hook at every stage of a query. *)
Definition caching_helper : MySQLHelper.t :=
  MySQLHelper.set_hooks
    (MySQLHelper.mk_hooks [quiet_hook 1] [quiet_hook 2] [quiet_hook 3]
                          [] [] [] [])
    (MySQLHelper.create caching_settings []).

(** A row whose caller sets the timestamp columns to null and zero,
    and a helper with that row in reach. *)
Definition row_with_falsy_timestamps : object :=
  [("name", VStr "Ann"); ("created_at", VNull); ("updated_at", VNum 0)].

Definition row_with_timestamps : object :=
  [("name", VStr "Bob"); ("created_at", VStr "2020-01-01")].

Definition helper_with_rows : MySQLHelper.t :=
  MySQLHelper.create MySQLHelper.default_settings
                     [row_with_falsy_timestamps; row_with_timestamps].

(** 5000 rows in reach of a helper, and the references to them. *)
Definition helper_with_5000_rows : MySQLHelper.t :=
  MySQLHelper.create MySQLHelper.default_settings
                     (repeat [("name", VStr "x")] 5000).

Definition rows_5000 : list MySQLHelper.loc := seq 0 5000.

(** A driver that answers every statement with a count of 25. *)
Definition counting : MySQLHelper.Runtime :=
  {| MySQLHelper.Date_now := fun n => 1000 + Z.of_nat n;
     MySQLHelper.JSON_stringify := print_values;
     MySQLHelper.execute :=
       fun _ _ _ => Ok (Rows [[("count", VNum 25)]]);
     MySQLHelper.createConnection := fun _ => None;
     MySQLHelper.pool_getConnection := None;
     MySQLHelper.conn_beginTransaction := None;
     MySQLHelper.conn_commit := None;
     MySQLHelper.conn_rollback := None |}.

(** The statements executed, in order. *)
Definition statements (tr : list MySQLHelper.effect)
  : list (string * list value) :=
  omap (fun e => match e with
                 | MySQLHelper.Execute s p => Some (s, p)
                 | _ => None
                 end) tr.

(** Calls with raw texts, each raw predicate with its parameters. *)
Definition raw_calls : list call :=
  [ Table "products";
    WhereRaw "price > ? AND price < ?" [VNum 1; VNum 9];
    Where "stock" (Compare ">" (VNum 0));
    Having "COUNT(*) > 1";
    OrderByRaw "price DESC" ].

(** A server that refuses the first two connections. *)
Definition flaky : MySQLHelper.Runtime :=
  {| MySQLHelper.Date_now := fun n => 1000 + Z.of_nat n;
     MySQLHelper.JSON_stringify := print_values;
     MySQLHelper.execute :=
       fun n _ _ => Ok (Header (Z.of_nat (S n)) 1 1);
     MySQLHelper.createConnection :=
       fun k => if k <? 3 then Some (Error "ECONNREFUSED") else None;
     MySQLHelper.pool_getConnection := None;
     MySQLHelper.conn_beginTransaction := None;
     MySQLHelper.conn_commit := None;
     MySQLHelper.conn_rollback := None |}.

(** A helper that logs, whose [afterQuery] callback throws. *)
Definition logging_helper : MySQLHelper.t :=
  MySQLHelper.set_hooks
    (MySQLHelper.mk_hooks [quiet_hook 1] [throwing_hook 2] [] [] [] [] [])
    (MySQLHelper.create caching_settings []).

(** A helper whose first [beforeInsert] and [beforeUpdate] callbacks
    throw, with one row in reach. *)
Definition vetoing_helper : MySQLHelper.t :=
  MySQLHelper.set_hooks
    (MySQLHelper.mk_hooks [] [] [quiet_hook 9]
                          [throwing_hook 1; quiet_hook 2] []
                          [throwing_hook 3] [])
    (MySQLHelper.create MySQLHelper.default_settings [[("name", VStr "Ann")]]).


(** A driver that finds no row, and one whose only row holds nulls. *)
Definition finding_nothing : MySQLHelper.Runtime :=
  {| MySQLHelper.Date_now := fun n => 1000 + Z.of_nat n;
     MySQLHelper.JSON_stringify := print_values;
     MySQLHelper.execute := fun _ _ _ => Ok (Rows []);
     MySQLHelper.createConnection := fun _ => None;
     MySQLHelper.pool_getConnection := None;
     MySQLHelper.conn_beginTransaction := None;
     MySQLHelper.conn_commit := None;
     MySQLHelper.conn_rollback := None |}.

Definition null_row : object :=
  [("total", VNull); ("average", VNull); ("minimum", VNull);
   ("maximum", VNull); ("count", VNum 0)].

Definition aggregating_nothing : MySQLHelper.Runtime :=
  {| MySQLHelper.Date_now := fun n => 1000 + Z.of_nat n;
     MySQLHelper.JSON_stringify := print_values;
     MySQLHelper.execute := fun _ _ _ => Ok (Rows [null_row]);
     MySQLHelper.createConnection := fun _ => None;
     MySQLHelper.pool_getConnection := None;
     MySQLHelper.conn_beginTransaction := None;
     MySQLHelper.conn_commit := None;
     MySQLHelper.conn_rollback := None |}.

(** A driver that rejects the third statement it is sent. *)
Definition failing_third : MySQLHelper.Runtime :=
  {| MySQLHelper.Date_now := fun n => 1000 + Z.of_nat n;
     MySQLHelper.JSON_stringify := print_values;
     MySQLHelper.execute :=
       fun n _ _ => if (n =? 2)%nat then Throw (Error "ER_LOCK_DEADLOCK")
                    else Ok (Header (Z.of_nat (S n)) 1 1);
     MySQLHelper.createConnection := fun _ => None;
     MySQLHelper.pool_getConnection := None;
     MySQLHelper.conn_beginTransaction := None;
     MySQLHelper.conn_commit := None;
     MySQLHelper.conn_rollback := None |}.

(** A caching helper with one row in reach. *)
Definition caching_helper_with_row : MySQLHelper.t :=
  MySQLHelper.create caching_settings [[("name", VStr "Ann")]].

(** Two rows with the same columns in different orders. *)
Definition swapped_rows : list object :=
  [ [("name", VStr "Ann"); ("rank", VNum 1)];
    [("rank", VNum 2); ("name", VStr "Bob")] ].

(** A driver whose counts arrive as text. *)
Definition counting_as_text : MySQLHelper.Runtime :=
  {| MySQLHelper.Date_now := fun n => 1000 + Z.of_nat n;
     MySQLHelper.JSON_stringify := print_values;
     MySQLHelper.execute := fun _ _ _ => Ok (Rows [[("count", VStr "3")]]);
     MySQLHelper.createConnection := fun _ => None;
     MySQLHelper.pool_getConnection := None;
     MySQLHelper.conn_beginTransaction := None;
     MySQLHelper.conn_commit := None;
     MySQLHelper.conn_rollback := None |}.

End Samples.

(* ===================================================================== *)
(** * Texts and their placeholders *)
(* ===================================================================== *)

Section Placeholders.

Lemma count_app (a b : string) :
  count_placeholders (a +:+ b)
  = (count_placeholders a + count_placeholders b)%nat.
Proof.
  induction a as [|c a IH]; simpl; [reflexivity|].
  rewrite IH. lia.
Qed.

Lemma clean_app (a b : string) : clean a -> clean b -> clean (a +:+ b).
Proof. unfold clean. intros Ha Hb. rewrite count_app, Ha, Hb. reflexivity. Qed.

Lemma clean_join (sep : string) (xs : list string) :
  clean sep -> Forall clean xs -> clean (Js.join sep xs).
Proof.
  intros Hsep Hxs. unfold Js.join.
  induction Hxs as [|x xs Hx Hxs IH]; [reflexivity|].
  destruct xs as [|y ys]; simpl; [exact Hx|].
  apply clean_app; [exact Hx|]. apply clean_app; [exact Hsep|exact IH].
Qed.

Lemma upper_ascii_placeholder (c : ascii) :
  Ascii.eqb (upper_ascii c) "?" = Ascii.eqb c "?".
Proof. destruct c as [[] [] [] [] [] [] [] []]; reflexivity. Qed.

Lemma count_toUpperCase (s : string) :
  count_placeholders (toUpperCase s) = count_placeholders s.
Proof.
  induction s as [|c s IH]; simpl; [reflexivity|].
  rewrite upper_ascii_placeholder, IH. reflexivity.
Qed.

Lemma clean_digits (d : Decimal.uint) : clean (NilEmpty.string_of_uint d).
Proof. induction d; simpl; try reflexivity; exact IHd. Qed.

Lemma clean_uint (d : Decimal.uint) : clean (NilZero.string_of_uint d).
Proof.
  destruct d; try reflexivity;
    unfold NilZero.string_of_uint; apply (clean_digits (_ d)).
Qed.

Lemma clean_string_of_Z (n : Z) : clean (string_of_Z n).
Proof.
  unfold string_of_Z, NilZero.string_of_int.
  destruct (Z.to_int n) as [d|d].
  - apply clean_uint.
  - change (clean ("-" +:+ NilZero.string_of_uint d)).
    apply clean_app; [reflexivity|apply clean_uint].
Qed.

Lemma clean_clause (c : bool) (s : string) :
  clean s -> clean (QueryBuilder.clause c s).
Proof. destruct c; simpl; [auto|reflexivity]. Qed.

(** The placeholders of [n] question marks joined by commas. *)
Lemma count_placeholders_list {A : Type} (xs : list A) :
  count_placeholders (placeholders xs) = length xs.
Proof.
  unfold placeholders, Js.join.
  induction xs as [|x xs IH]; [reflexivity|].
  destruct xs as [|y ys]; [reflexivity|].
  change (count_placeholders ("?" +:+ ", " +:+
            String.concat ", " (map (fun _ : A => "?") (y :: ys)))
          = S (length (y :: ys))).
  rewrite !count_app, IH. reflexivity.
Qed.

(** The placeholders of fragments joined by a clean separator. *)
Lemma count_join (sep : string) (xs : list string) :
  clean sep ->
  count_placeholders (Js.join sep xs)
  = list_sum (map count_placeholders xs).
Proof.
  intros Hsep. unfold Js.join.
  induction xs as [|x xs IH]; [reflexivity|].
  destruct xs as [|y ys]; simpl; [lia|].
  rewrite !count_app, Hsep. simpl in IH. rewrite IH. simpl. lia.
Qed.

End Placeholders.

(* ===================================================================== *)
(** * The compiled statement *)
(* ===================================================================== *)

Section Compilation.

Import QueryBuilder.

Lemma string_app_cons (x : ascii) (a b : string) :
  String x a +:+ b = String x (a +:+ b).
Proof. reflexivity. Qed.

Lemma string_app_assoc (a b c : string) : (a +:+ b) +:+ c = a +:+ (b +:+ c).
Proof.
  induction a as [|x a IH]; [reflexivity|].
  rewrite !string_app_cons, IH. reflexivity.
Qed.

Lemma string_app_nil_r (a : string) : a +:+ "" = a.
Proof.
  induction a as [|x a IH]; [reflexivity|].
  rewrite string_app_cons, IH. reflexivity.
Qed.

(** The text is the three clauses in a row. *)
Lemma toSQL_split (b : t) :
  sql (toSQL b) = head_clause b +:+ where_clause b +:+ tail_clause b.
Proof.
  unfold toSQL, head_clause, where_clause, tail_clause. simpl.
  rewrite !string_app_assoc. reflexivity.
Qed.

Lemma toSQL_params (b : t) : params (toSQL b) = _whereParams b.
Proof. reflexivity. Qed.

Lemma clean_head (b : t) (es : list entry) : aligned b es -> clean (head_clause b).
Proof.
  intros H. unfold head_clause.
  repeat apply clean_app; try reflexivity.
  - apply clean_join; [reflexivity|apply (al_columns _ _ H)].
  - apply (al_table _ _ H).
  - apply clean_clause, clean_app; [reflexivity|].
    apply clean_join; [reflexivity|apply (al_joins _ _ H)].
Qed.

Lemma clean_tail (b : t) (es : list entry) : aligned b es -> clean (tail_clause b).
Proof.
  intros H. unfold tail_clause.
  repeat apply clean_app.
  - apply clean_clause, clean_app; [reflexivity|].
    apply clean_join; [reflexivity|apply (al_groupBy _ _ H)].
  - apply clean_clause, clean_app; [reflexivity|apply (al_having _ _ H)].
  - apply clean_clause, clean_app; [reflexivity|].
    apply clean_join; [reflexivity|apply (al_orderBy _ _ H)].
  - destruct (_limit b); [|reflexivity].
    apply clean_app; [reflexivity|apply clean_string_of_Z].
  - destruct (_offset b); [|reflexivity].
    apply clean_app; [reflexivity|apply clean_string_of_Z].
Qed.

Lemma count_entries (es : list entry) :
  Forall (fun e => count_placeholders (fst e) = length (snd e)) es ->
  list_sum (map count_placeholders (map fst es))
  = length (concat (map snd es)).
Proof.
  induction 1 as [|e es He Hes IH]; [reflexivity|].
  simpl. rewrite length_app, He, IH. reflexivity.
Qed.

Lemma count_where_clause (b : t) (es : list entry) :
  aligned b es ->
  count_placeholders (where_clause b) = length (_whereParams b).
Proof.
  intros H. unfold where_clause, nonempty.
  rewrite (al_params _ _ H), <- (count_entries es (al_each _ _ H)).
  rewrite (al_where _ _ H).
  destruct (map fst es) as [|f fs] eqn:E; [reflexivity|].
  change (count_placeholders (" WHERE " +:+ Js.join " AND " (f :: fs))
          = list_sum (map count_placeholders (f :: fs))).
  rewrite count_app, count_join by reflexivity. reflexivity.
Qed.

(** An aligned builder compiles to a statement with one parameter per
    placeholder. *)
Lemma aligned_count (b : t) (es : list entry) :
  aligned b es ->
  count_placeholders (sql (toSQL b)) = length (params (toSQL b)).
Proof.
  intros H. rewrite toSQL_split, toSQL_params, !count_app.
  rewrite (clean_head b es H), (clean_tail b es H), (count_where_clause b es H).
  lia.
Qed.

Lemma aligned_fresh : aligned fresh [].
Proof.
  split; simpl; try reflexivity; try constructor; try reflexivity;
    constructor.
Qed.

Lemma aligned_push_where (b : t) (es : list entry) (f : string)
      (vs : list value) :
  aligned b es -> count_placeholders f = length vs ->
  aligned (push_where f vs b) (es ++ [(f, vs)]).
Proof.
  intros [] Hf. split; simpl; try assumption.
  - rewrite map_app, al_where0. reflexivity.
  - rewrite map_app, concat_app, al_params0. simpl. rewrite app_nil_r.
    reflexivity.
  - apply Forall_app. split; [assumption|]. constructor; [exact Hf|constructor].
Qed.

Lemma aligned_push_join (b : t) (es : list entry) (j : string) :
  aligned b es -> clean j -> aligned (push_join j b) es.
Proof.
  intros [] Hj. split; simpl; try assumption.
  apply Forall_app. split; [assumption|]. constructor; [exact Hj|constructor].
Qed.

Ltac clean_text :=
  repeat (apply clean_app); try reflexivity; try assumption.

(** One non-raw call with plain arguments keeps the builder aligned and
    appends the values it binds. *)
Lemma aligned_apply (c : call) (b : t) (es : list entry) :
  raw c = false -> plain c -> aligned b es ->
  exists es',
    aligned (apply c b) es' /\
    map snd es' = map snd es ++ (if predicate c then [bound c] else []).
Proof.
  intros Hraw Hplain H. unfold plain in Hplain.
  destruct c; simpl in Hraw; try discriminate; simpl in Hplain; simpl;
    repeat match goal with
           | Hf : Forall _ (_ :: _) |- _ => inversion Hf; subst; clear Hf
           end.
  - exists es. rewrite app_nil_r. split; [|reflexivity].
    destruct H. split; simpl; assumption.
  - exists es. rewrite app_nil_r. split; [|reflexivity].
    destruct H. split; simpl; try assumption.
    unfold select. destruct (0 <? length columns)%nat; simpl;
      [assumption|constructor; [reflexivity|constructor]].
  - eexists. split; [apply aligned_push_where; [exact H|]|].
    + rewrite !count_app. simpl. unfold clean in *. lia.
    + rewrite map_app. reflexivity.
  - eexists. split; [apply aligned_push_where; [exact H|]|].
    + destruct (0 <? length (_where b))%nat;
        rewrite !count_app; simpl; unfold clean in *; lia.
    + rewrite map_app. reflexivity.
  - eexists. split; [apply aligned_push_where; [exact H|]|].
    + rewrite !count_app, count_placeholders_list. simpl.
      unfold clean in *. lia.
    + rewrite map_app. reflexivity.
  - eexists. split; [apply aligned_push_where; [exact H|]|].
    + rewrite !count_app, count_placeholders_list. simpl.
      unfold clean in *. lia.
    + rewrite map_app. reflexivity.
  - eexists. split; [apply aligned_push_where; [exact H|]|].
    + rewrite !count_app. simpl. unfold clean in *. lia.
    + rewrite map_app. reflexivity.
  - eexists. split; [apply aligned_push_where; [exact H|]|].
    + rewrite !count_app. simpl. unfold clean in *. lia.
    + rewrite map_app. reflexivity.
  - eexists. split; [apply aligned_push_where; [exact H|]|].
    + rewrite !count_app. simpl. unfold clean in *. lia.
    + rewrite map_app. reflexivity.
  - eexists. split; [apply aligned_push_where; [exact H|]|].
    + rewrite !count_app. simpl. unfold clean in *. lia.
    + rewrite map_app. reflexivity.
  - eexists. split; [apply aligned_push_where; [exact H|]|].
    + rewrite !count_app. simpl. unfold clean in *. lia.
    + rewrite map_app. reflexivity.
  - eexists. split; [apply aligned_push_where; [exact H|]|].
    + rewrite !count_app. simpl. unfold clean in *. lia.
    + rewrite map_app. reflexivity.
  - exists es. rewrite app_nil_r. split; [|reflexivity].
    apply aligned_push_join; [exact H|clean_text].
  - exists es. rewrite app_nil_r. split; [|reflexivity].
    apply aligned_push_join; [exact H|clean_text].
  - exists es. rewrite app_nil_r. split; [|reflexivity].
    apply aligned_push_join; [exact H|clean_text].
  - exists es. rewrite app_nil_r. split; [|reflexivity].
    apply aligned_push_join; [exact H|clean_text].
  - exists es. rewrite app_nil_r. split; [|reflexivity].
    destruct H. split; simpl; try assumption.
    apply Forall_app. split; [assumption|].
    constructor; [|constructor].
    apply clean_app; [assumption|]. apply clean_app; [reflexivity|].
    unfold clean. rewrite count_toUpperCase.
    destruct direction as [d|]; [|reflexivity].
    match goal with Hd : Forall _ [d] |- _ => inversion Hd; assumption end.
  - exists es. rewrite app_nil_r. split; [|reflexivity].
    destruct H. split; simpl; try assumption.
    apply Forall_app. split; assumption.
  - exists es. rewrite app_nil_r. split; [|reflexivity].
    destruct H. split; simpl; assumption.
  - exists es. rewrite app_nil_r. split; [|reflexivity].
    destruct H. split; simpl; assumption.
Qed.

End Compilation.

(* ===================================================================== *)
(** * Predicates joined with OR *)
(* ===================================================================== *)

Section OrWhere.

Import QueryBuilder.

Lemma join_snoc (sep : string) (xs : list string) (y : string) :
  xs <> [] -> Js.join sep (xs ++ [y]) = Js.join sep xs +:+ sep +:+ y.
Proof.
  unfold Js.join. induction xs as [|x xs IH]; [congruence|]. intros _.
  destruct xs as [|x' xs'].
  - reflexivity.
  - change (x +:+ sep +:+ String.concat sep ((x' :: xs') ++ [y])
            = (x +:+ sep +:+ String.concat sep (x' :: xs')) +:+ sep +:+ y).
    rewrite IH by congruence. rewrite !string_app_assoc. reflexivity.
Qed.

(** A second blank after a blank adds no word. *)
Lemma words_from_blank (cur s : string) :
  words_from cur (" " +:+ " " +:+ s) = words_from cur (" " +:+ s).
Proof.
  change (words_from cur (String " " (String " " s))
          = words_from cur (String " " s)).
  simpl. destruct (String.eqb cur ""); reflexivity.
Qed.

Lemma words_from_prefix (x s1 s2 : string) :
  (forall cur, words_from cur s1 = words_from cur s2) ->
  forall cur, words_from cur (x +:+ s1) = words_from cur (x +:+ s2).
Proof.
  intros H. induction x as [|c x IH]; intros cur; [apply H|].
  rewrite !string_app_cons. simpl.
  destruct (Ascii.eqb c " "); [|apply IH].
  destruct (String.eqb cur ""); [apply IH|]. f_equal. apply IH.
Qed.

(** C6. [orWhere] on a builder that already has a predicate pushes the
    fragment prefixed with OR, which the compiled WHERE clause shows after
    the earlier fragments; on a builder without a predicate it pushes the
    fragment of a plain [where] behind one blank, without the keyword, so
    that the statement reads word for word as the one [where] compiles,
    with the same parameters.  [orWhere] is total: it never throws. *)
Theorem orWhere_prefixes_OR_only_after_a_predicate
        (b : t) (column : string) (c : comparison) :
  let fragment := column +:+ " " +:+ operator_of c +:+ " ?" in
  (_where b <> [] ->
   _where (orWhere column c b) = _where b ++ ["OR " +:+ fragment] /\
   where_clause (orWhere column c b)
   = where_clause b +:+ " AND " +:+ "OR " +:+ fragment) /\
  (_where b = [] ->
   _where (orWhere column c b) = [" " +:+ fragment] /\
   where_clause (orWhere column c b) = " WHERE " +:+ " " +:+ fragment /\
   where_clause (where_ column c b) = " WHERE " +:+ fragment /\
   words (sql (toSQL (orWhere column c b)))
   = words (sql (toSQL (where_ column c b)))) /\
  params (toSQL (orWhere column c b)) = params (toSQL (where_ column c b)).
Proof.
  intros fragment. split; [|split].
  - intros Hne.
    assert (E : _where (orWhere column c b) = _where b ++ ["OR " +:+ fragment]).
    { unfold orWhere. simpl. destruct (_where b) as [|f fs]; [congruence|].
      reflexivity. }
    split; [exact E|].
    unfold where_clause. rewrite E.
    destruct (_where b) as [|f fs] eqn:Ew; [congruence|].
    change (" WHERE " +:+ Js.join " AND " ((f :: fs) ++ ["OR " +:+ fragment])
            = (" WHERE " +:+ Js.join " AND " (f :: fs))
              +:+ " AND " +:+ "OR " +:+ fragment).
    rewrite join_snoc by congruence. rewrite !string_app_assoc. reflexivity.
  - intros Hempty.
    assert (E : _where (orWhere column c b) = [" " +:+ fragment]).
    { unfold orWhere. simpl. rewrite Hempty. reflexivity. }
    assert (E' : _where (where_ column c b) = [fragment]).
    { unfold where_. simpl. rewrite Hempty. reflexivity. }
    assert (Wo : where_clause (orWhere column c b)
                 = " WHERE " +:+ " " +:+ fragment).
    { unfold where_clause. rewrite E. reflexivity. }
    assert (Ww : where_clause (where_ column c b) = " WHERE " +:+ fragment).
    { unfold where_clause. rewrite E'. reflexivity. }
    repeat split; try assumption.
    rewrite !toSQL_split, Wo, Ww.
    change (head_clause (orWhere column c b)) with (head_clause b).
    change (head_clause (where_ column c b)) with (head_clause b).
    change (tail_clause (orWhere column c b)) with (tail_clause b).
    change (tail_clause (where_ column c b)) with (tail_clause b).
    unfold words. apply words_from_prefix. intros cur.
    rewrite !string_app_assoc.
    change (" WHERE " +:+ " " +:+ fragment +:+ tail_clause b)
      with (" WHERE" +:+ (" " +:+ " " +:+ fragment +:+ tail_clause b)).
    change (" WHERE " +:+ fragment +:+ tail_clause b)
      with (" WHERE" +:+ (" " +:+ fragment +:+ tail_clause b)).
    apply words_from_prefix. intros cur'. apply words_from_blank.
  - reflexivity.
Qed.

(** A builder with one predicate, and a fresh one. *)
Lemma orWhere_prefixes_OR_only_after_a_predicate_witness :
  sql (toSQL (orWhere "role" (Equals (VStr "admin"))
                (where_ "age" (Compare ">" (VNum 18))
                   (table "users" fresh))))
  = "SELECT * FROM users WHERE age > ? AND OR role = ?" /\
  sql (toSQL (orWhere "role" (Equals (VStr "admin")) (table "users" fresh)))
  = "SELECT * FROM users WHERE  role = ?" /\
  words (sql (toSQL (orWhere "role" (Equals (VStr "admin"))
                       (table "users" fresh))))
  = ["SELECT"; "*"; "FROM"; "users"; "WHERE"; "role"; "="; "?"].
Proof.
  pose proof (orWhere_prefixes_OR_only_after_a_predicate
                (where_ "age" (Compare ">" (VNum 18)) (table "users" fresh))
                "role" (Equals (VStr "admin"))) as [Hsome _].
  pose proof (orWhere_prefixes_OR_only_after_a_predicate
                (table "users" fresh) "role" (Equals (VStr "admin")))
    as [_ [Hnone _]].
  specialize (Hsome ltac:(discriminate)).
  specialize (Hnone eq_refl).
  destruct Hsome as [_ Hs]. destruct Hnone as (_ & Ho & _ & Hw).
  split; [|split].
  - rewrite toSQL_split, Hs. reflexivity.
  - rewrite toSQL_split, Ho. reflexivity.
  - rewrite Hw. reflexivity.
Defined.

End OrWhere.

(* ===================================================================== *)
(** * Placeholders and parameters *)
(* ===================================================================== *)

Section PlaceholderInvariant.

Import QueryBuilder Samples.

(** ** Scanning a text in parts *)

Lemma scan_app (a b : string) (st : lexer) :
  scan st (a +:+ b)
  = (fst (scan (fst (scan st a)) b),
     (snd (scan st a) + snd (scan (fst (scan st a)) b))%nat).
Proof.
  revert st. induction a as [|c a IH]; intros st.
  - change (EmptyString +:+ b) with b. simpl.
    destruct (scan st b). reflexivity.
  - rewrite string_app_cons. simpl. destruct (lex st c) as [st1 n].
    rewrite IH. destruct (scan st1 a) as [st2 m]. simpl.
    destruct (scan st2 b) as [st3 k]. simpl. f_equal. lia.
Qed.

Lemma settled_intro (s : string) : closed s -> settled (markers s) s.
Proof.
  unfold closed, settled, markers. destruct (scan Outside s) as [st n].
  simpl. intros ->. reflexivity.
Qed.

Lemma settled_closed (n : nat) (s : string) : settled n s -> closed s.
Proof. unfold closed, settled. intros ->. reflexivity. Qed.

Lemma settled_markers (n : nat) (s : string) : settled n s -> markers s = n.
Proof. unfold markers, settled. intros ->. reflexivity. Qed.

Lemma settled_eq (n m : nat) (s : string) :
  settled n s -> n = m -> settled m s.
Proof. intros H <-. exact H. Qed.

Lemma settled_app (n m : nat) (a b : string) :
  settled n a -> settled m b -> settled (n + m) (a +:+ b).
Proof.
  unfold settled. intros Ha Hb. rewrite scan_app, Ha. simpl. rewrite Hb.
  reflexivity.
Qed.

Lemma settled_cons (n : nat) (c : ascii) (s : string) :
  lex Outside c = (Outside, 0%nat) -> settled n s -> settled n (String c s).
Proof. unfold settled. simpl. intros -> ->. reflexivity. Qed.

Lemma settled_join (sep : string) (xs : list string) :
  settled 0 sep -> Forall closed xs ->
  settled (list_sum (map markers xs)) (Js.join sep xs).
Proof.
  intros Hsep Hxs. unfold Js.join.
  induction Hxs as [|x xs Hx Hxs IH]; [reflexivity|].
  destruct xs as [|y ys].
  - simpl. rewrite Nat.add_0_r. apply settled_intro. exact Hx.
  - change (String.concat sep (x :: y :: ys))
      with (x +:+ sep +:+ String.concat sep (y :: ys)).
    change (list_sum (map markers (x :: y :: ys)))
      with (markers x + list_sum (map markers (y :: ys)))%nat.
    apply settled_app; [apply settled_intro; exact Hx|].
    apply (settled_app 0); [exact Hsep|exact IH].
Qed.

Lemma settled_placeholders {A : Type} (xs : list A) :
  settled (length xs) (placeholders xs).
Proof.
  unfold placeholders.
  eapply settled_eq; [apply settled_join; [reflexivity|]|].
  - induction xs; constructor; [reflexivity|assumption].
  - induction xs as [|x xs IH]; [reflexivity|].
    simpl in *. rewrite IH. reflexivity.
Qed.

Lemma lex_upper_ascii (st : lexer) (c : ascii) :
  lex st (upper_ascii c) = lex st c.
Proof.
  destruct c as [[] [] [] [] [] [] [] []]; destruct st as [|[]|[]];
    reflexivity.
Qed.

Lemma scan_toUpperCase (s : string) (st : lexer) :
  scan st (toUpperCase s) = scan st s.
Proof.
  revert st. induction s as [|c s IH]; intros st; [reflexivity|].
  simpl. rewrite lex_upper_ascii. destruct (lex st c) as [st1 n].
  rewrite IH. reflexivity.
Qed.

Lemma settled_toUpperCase (s : string) :
  closed s -> settled (markers s) (toUpperCase s).
Proof.
  intros H. unfold settled. rewrite scan_toUpperCase.
  apply settled_intro. exact H.
Qed.

Lemma settled_digits (d : Decimal.uint) :
  settled 0 (NilEmpty.string_of_uint d).
Proof.
  induction d; simpl; try reflexivity;
    (apply settled_cons; [reflexivity|exact IHd]).
Qed.

Lemma settled_uint (d : Decimal.uint) : settled 0 (NilZero.string_of_uint d).
Proof.
  destruct d; try reflexivity;
    unfold NilZero.string_of_uint; apply (settled_digits (_ d)).
Qed.

Lemma settled_string_of_Z (n : Z) : settled 0 (string_of_Z n).
Proof.
  unfold string_of_Z, NilZero.string_of_int.
  destruct (Z.to_int n) as [d|d].
  - apply settled_uint.
  - change (settled 0 ("-" +:+ NilZero.string_of_uint d)).
    apply (settled_app 0 0); [reflexivity|apply settled_uint].
Qed.

(** A clause of joined texts, which is left out when there is none. *)
Lemma settled_clause_join (pre sep : string) (xs : list string) :
  settled 0 pre -> settled 0 sep -> Forall closed xs ->
  settled (list_sum (map markers xs))
          (clause (nonempty xs) (pre +:+ Js.join sep xs)).
Proof.
  intros Hpre Hsep Hxs. destruct xs as [|x xs]; [reflexivity|].
  change (nonempty (x :: xs)) with true. cbv iota beta delta [clause].
  apply (settled_app 0); [exact Hpre|].
  apply settled_join; assumption.
Qed.

Lemma markers_app (xs ys : list string) :
  list_sum (map markers (xs ++ ys))
  = (list_sum (map markers xs) + list_sum (map markers ys))%nat.
Proof. rewrite map_app. apply list_sum_app. Qed.

(** ** The builder, call by call *)

Ltac settle :=
  repeat first
    [ apply settled_intro; assumption
    | apply settled_placeholders
    | apply settled_toUpperCase; assumption
    | (unfold settled; reflexivity)
    | eapply settled_app ].

Lemma tallied_fresh : tallied fresh [] 0.
Proof. split; try constructor; reflexivity. Qed.

Lemma tallied_push_where (b : t) (pcs : list call) (total : nat) (c : call)
      (f : string) :
  tallied b pcs total ->
  settled (length (bound c) + stray c) f ->
  tallied (push_where f (bound c) b) (pcs ++ [c]) (total + stray c).
Proof.
  intros [] Hf. split; simpl; try assumption.
  - apply Forall2_app; [assumption|]. constructor; [exact Hf|constructor].
  - rewrite map_app, concat_app, ta_params0. simpl. rewrite app_nil_r.
    reflexivity.
  - rewrite map_app, list_sum_app. simpl. lia.
Qed.

Lemma tallied_push_join (b : t) (pcs : list call) (total k : nat)
      (j : string) :
  tallied b pcs total -> settled k j ->
  tallied (push_join j b) pcs (total + k).
Proof.
  intros [] Hj. split; simpl; try assumption.
  - apply Forall_app. split; [assumption|].
    constructor; [exact (settled_closed _ _ Hj)|constructor].
  - rewrite markers_app. simpl. rewrite (settled_markers _ _ Hj). lia.
Qed.

Lemma tallied_push_orderBy (b : t) (pcs : list call) (total k : nat)
      (x : string) :
  tallied b pcs total -> settled k x ->
  tallied (push_orderBy x b) pcs (total + k).
Proof.
  intros [] Hx. split; simpl; try assumption.
  - apply Forall_app. split; [assumption|].
    constructor; [exact (settled_closed _ _ Hx)|constructor].
  - rewrite markers_app. simpl. rewrite (settled_markers _ _ Hx). lia.
Qed.

Lemma tallied_push_groupBy (b : t) (pcs : list call) (total : nat)
      (xs : list string) :
  tallied b pcs total -> Forall closed xs ->
  tallied (push_groupBy xs b) pcs (total + list_sum (map markers xs)).
Proof.
  intros [] Hxs. split; simpl; try assumption.
  - apply Forall_app. split; assumption.
  - rewrite markers_app. lia.
Qed.

(** One call that is not raw: what it pushes is tallied. *)
Lemma tallied_apply (c : call) (b : t) (pcs : list call) (total : nat) :
  raw c = false ->
  (pushes c = true -> Forall closed (spliced c)) ->
  tallied b pcs total ->
  tallied (apply c b)
          (pcs ++ if predicate c then [c] else [])
          (total + if pushes c then stray c else 0).
Proof.
  intros Hraw Hclosed H.
  destruct c; simpl in Hraw; try discriminate Hraw;
    cbn [predicate pushes assigns negb];
    rewrite ?app_nil_r, ?Nat.add_0_r;
    try (specialize (Hclosed eq_refl); simpl in Hclosed;
         repeat match goal with
                | Hf : Forall _ (_ :: _) |- _ =>
                    inversion Hf; subst; clear Hf
                end);
    cbn [apply].
  - destruct H. split; simpl; assumption.
  - destruct H. split; simpl; assumption.
  - apply (tallied_push_where b pcs total (Where column c)); [exact H|].
    eapply settled_eq; [unfold where_; settle|].
    unfold stray, list_sum. simpl. lia.
  - apply (tallied_push_where b pcs total (OrWhere column c)); [exact H|].
    eapply settled_eq;
      [destruct (0 <? length (_where b))%nat; settle|].
    unfold stray, list_sum. simpl. lia.
  - apply (tallied_push_where b pcs total (WhereIn column vals));
      [exact H|].
    eapply settled_eq; [settle|]. unfold stray, list_sum. simpl. lia.
  - apply (tallied_push_where b pcs total (WhereNotIn column vals));
      [exact H|].
    eapply settled_eq; [settle|]. unfold stray, list_sum. simpl. lia.
  - apply (tallied_push_where b pcs total (WhereBetween column min max));
      [exact H|].
    eapply settled_eq; [settle|]. unfold stray, list_sum. simpl. lia.
  - apply (tallied_push_where b pcs total (WhereNotBetween column min max));
      [exact H|].
    eapply settled_eq; [settle|]. unfold stray, list_sum. simpl. lia.
  - apply (tallied_push_where b pcs total (WhereNull column)); [exact H|].
    eapply settled_eq; [settle|]. unfold stray, list_sum. simpl. lia.
  - apply (tallied_push_where b pcs total (WhereNotNull column)); [exact H|].
    eapply settled_eq; [settle|]. unfold stray, list_sum. simpl. lia.
  - apply (tallied_push_where b pcs total (WhereLike column pattern));
      [exact H|].
    eapply settled_eq; [settle|]. unfold stray, list_sum. simpl. lia.
  - apply (tallied_push_where b pcs total (WhereNotLike column pattern));
      [exact H|].
    eapply settled_eq; [settle|]. unfold stray, list_sum. simpl. lia.
  - apply tallied_push_join; [exact H|].
    eapply settled_eq; [settle|]. unfold stray, list_sum. simpl. lia.
  - apply tallied_push_join; [exact H|].
    eapply settled_eq; [settle|]. unfold stray, list_sum. simpl. lia.
  - apply tallied_push_join; [exact H|].
    eapply settled_eq; [settle|]. unfold stray, list_sum. simpl. lia.
  - apply tallied_push_join; [exact H|].
    eapply settled_eq; [settle|]. unfold stray, list_sum. simpl. lia.
  - apply tallied_push_orderBy; [exact H|].
    destruct direction as [d|]; simpl in *;
      repeat match goal with
             | Hf : Forall _ (_ :: _) |- _ => inversion Hf; subst; clear Hf
             end;
      (eapply settled_eq; [settle|]); unfold stray, list_sum; simpl; lia.
  - apply tallied_push_groupBy; [exact H|exact Hclosed].
  - destruct H. split; simpl; assumption.
  - destruct H. split; simpl; assumption.
Qed.

Lemma tallied_build (calls : list call) :
  forall (b : t) (pcs : list call) (total : nat),
    Forall (fun c => raw c = false) calls ->
    Forall closed (flat_map spliced (List.filter pushes calls)) ->
    tallied b pcs total ->
    tallied (build calls b)
            (pcs ++ List.filter predicate calls)
            (total + list_sum (map stray (List.filter pushes calls))).
Proof.
  induction calls as [|c calls IH]; intros b pcs total Hraw Hclosed H.
  - simpl. rewrite app_nil_r, Nat.add_0_r. exact H.
  - inversion Hraw as [|? ? Hc Hcs]; subst.
    assert (Hsplit : (pushes c = true -> Forall closed (spliced c)) /\
                     Forall closed
                            (flat_map spliced (List.filter pushes calls))).
    { simpl in Hclosed. destruct (pushes c); simpl in Hclosed.
      - apply Forall_app in Hclosed as [H1 H2]. split; [intros _|]; assumption.
      - split; [discriminate|exact Hclosed]. }
    destruct Hsplit as [Hthis Hrest].
    pose proof (IH (apply c b) _ _ Hcs Hrest
                   (tallied_apply c b pcs total Hc Hthis H)) as Hall.
    change (build (c :: calls) b) with (build calls (apply c b)).
    replace (pcs ++ List.filter predicate (c :: calls))
      with ((pcs ++ (if predicate c then [c] else []))
              ++ List.filter predicate calls)
      by (simpl; destruct (predicate c); rewrite <- app_assoc; reflexivity).
    replace (total + list_sum (map stray (List.filter pushes (c :: calls))))%nat
      with (total + (if pushes c then stray c else 0)
            + list_sum (map stray (List.filter pushes calls)))%nat
      by (simpl; destruct (pushes c); simpl; lia).
    exact Hall.
Qed.

Lemma stray_flat_map (calls : list call) :
  list_sum (map markers (flat_map spliced calls))
  = list_sum (map stray calls).
Proof.
  induction calls as [|c calls IH]; [reflexivity|].
  simpl. rewrite markers_app, IH. reflexivity.
Qed.

(** The calls that are not raw leave the table and the columns to the
    calls that assign them, and those leave everything else. *)
Lemma settled_predicates (pcs : list call) (fs : list string) :
  Forall2 (fun c f => settled (length (bound c) + stray c) f) pcs fs ->
  Forall closed fs /\
  list_sum (map markers fs)
  = (length (concat (map bound pcs)) + list_sum (map stray pcs))%nat.
Proof.
  induction 1 as [|c f pcs fs Hf Hfs [IH1 IH2]]; [split; [constructor|]|].
  - reflexivity.
  - split; [constructor; [exact (settled_closed _ _ Hf)|exact IH1]|].
    simpl. rewrite length_app, (settled_markers _ _ Hf), IH2. lia.
Qed.

(** The three parts of the statement of a tallied builder. *)
Lemma settled_statement (b : t) (pcs : list call) (total : nat) :
  tallied b pcs total ->
  closed (_table b) -> Forall closed (_columns b) ->
  settled (list_sum (map markers (_columns b)) + markers (_table b)
           + list_sum (map markers (_joins b)))
          (head_clause b) /\
  settled (length (_whereParams b) + list_sum (map stray pcs))
          (where_clause b) /\
  settled (list_sum (map markers (_groupBy b))
           + list_sum (map markers (_orderBy b)))
          (tail_clause b).
Proof.
  intros [] Ht Hc.
  destruct (settled_predicates _ _ ta_where0) as [Hw1 Hw2].
  split; [|split].
  - unfold head_clause.
    eapply settled_eq.
    + apply (settled_app 0); [reflexivity|].
      apply settled_app; [apply settled_join; [reflexivity|exact Hc]|].
      apply (settled_app 0); [reflexivity|].
      apply settled_app; [apply settled_intro; exact Ht|].
      apply settled_clause_join; [reflexivity|reflexivity|assumption].
    + lia.
  - unfold where_clause. rewrite ta_params0, <- Hw2.
    apply settled_clause_join; [reflexivity|reflexivity|exact Hw1].
  - unfold tail_clause. rewrite ta_having0.
    eapply settled_eq.
    + apply settled_app;
        [apply settled_clause_join; [reflexivity|reflexivity|assumption]|].
      apply (settled_app 0); [reflexivity|].
      apply settled_app;
        [apply settled_clause_join; [reflexivity|reflexivity|assumption]|].
      apply (settled_app 0 0).
      * destruct (_limit b); [|reflexivity].
        apply (settled_app 0 0); [reflexivity|apply settled_string_of_Z].
      * destruct (_offset b); [|reflexivity].
        apply (settled_app 0 0); [reflexivity|apply settled_string_of_Z].
    + lia.
Qed.

Lemma list_sum_zero {A : Type} (f : A -> nat) (xs : list A) :
  list_sum (map f xs) = 0%nat <-> Forall (fun x => f x = 0%nat) xs.
Proof.
  induction xs as [|x xs IH]; simpl.
  - split; [constructor|reflexivity].
  - split.
    + intros H. constructor; [lia|]. apply IH. lia.
    + intros H. inversion H as [|? ? H1 H2]; subst. rewrite H1.
      simpl. apply IH. exact H2.
Qed.

(** C7, as stated, fails: the calls are not raw, yet the text has two
    placeholders, both outside any quotation, for one parameter. *)
Lemma placeholders_match_params_counterexample :
  ~ (forall calls : list call,
        Forall (fun c => raw c = false) calls ->
        markers (sql (toSQL (build calls fresh)))
        = length (params (toSQL (build calls fresh)))).
Proof.
  intros H. specialize (H stray_placeholder_calls).
  assert (Hraw : Forall (fun c => raw c = false) stray_placeholder_calls)
    by (repeat constructor).
  specialize (H Hraw). vm_compute in H. discriminate H.
Qed.

(** A text that leaves a quotation open takes the placeholder of its
    predicate into the quotation: no placeholder for one parameter. *)
Example open_quotation_takes_placeholder :
  sql (toSQL (build open_quotation_calls fresh))
  = "SELECT * FROM users WHERE nick = 'x = ?" /\
  markers (sql (toSQL (build open_quotation_calls fresh))) = 0%nat /\
  length (params (toSQL (build open_quotation_calls fresh))) = 1%nat.
Proof. repeat split. Qed.

(** C7 (amended). For every sequence of builder calls that are not raw
    and whose texts, as far as they reach the statement - the table and
    the columns last assigned, and the columns, operators, join
    operands and directions of the calls that push -, leave no
    quotation open: the statement compiled from a fresh builder leaves
    none open either, and its placeholders - the ['?'] outside
    quotations - are one for each parameter besides those that these
    texts hold themselves.  So the statement has as many placeholders
    as parameters exactly when none of these texts holds a placeholder
    of its own.  The parameters are the values that the predicate calls
    bind, in call order; the predicates of the WHERE clause are those
    of the same calls in the same order, each with one placeholder for
    each value of its call besides those of the call's texts; and when
    no text holds a placeholder, all placeholders lie in the WHERE
    clause, as many in each predicate as its call binds values. *)
Theorem placeholders_match_params (calls : list call) :
  Forall (fun c => raw c = false) calls ->
  Forall closed (reaching calls) ->
  let b := build calls fresh in
  markers (sql (toSQL b))
  = (length (params (toSQL b))
     + list_sum (map markers (reaching calls)))%nat /\
  closed (sql (toSQL b)) /\
  (markers (sql (toSQL b)) = length (params (toSQL b))
   <-> Forall (fun text => markers text = 0%nat) (reaching calls)) /\
  params (toSQL b) = concat (map bound (List.filter predicate calls)) /\
  sql (toSQL b)
  = head_clause b
    +:+ clause (nonempty (_where b))
               (" WHERE " +:+ Js.join " AND " (_where b))
    +:+ tail_clause b /\
  Forall2 (fun c fragment => settled (length (bound c) + stray c) fragment)
          (List.filter predicate calls) (_where b) /\
  (Forall (fun text => markers text = 0%nat) (reaching calls) ->
   markers (head_clause b) = 0%nat /\
   markers (tail_clause b) = 0%nat /\
   Forall2 (fun c fragment => settled (length (bound c)) fragment)
           (List.filter predicate calls) (_where b)).
Proof.
  intros Hraw Hreach b.
  unfold reaching in *. fold b in Hreach |- *.
  inversion Hreach as [|? ? Htable Hrest]; subst.
  apply Forall_app in Hrest as [Hcolumns Hpushed].
  pose proof (tallied_build calls fresh [] 0 Hraw Hpushed tallied_fresh)
    as Hb.
  fold b in Hb. simpl in Hb.
  destruct (settled_statement b _ _ Hb Htable Hcolumns)
    as (Hhead & Hwhere & Htail).
  pose proof (ta_total _ _ _ Hb) as Htotal.
  assert (Hsql : settled (length (params (toSQL b))
                          + list_sum (map markers
                                          (_table b :: _columns b
                                           ++ flat_map spliced
                                                (List.filter pushes calls))))
                         (sql (toSQL b))).
  { rewrite toSQL_split, toSQL_params.
    eapply settled_eq;
      [apply settled_app; [exact Hhead|];
       apply settled_app; [exact Hwhere|exact Htail]|].
    change (list_sum (map markers (_table b :: ?l)))
      with (markers (_table b) + list_sum (map markers l))%nat.
    rewrite markers_app, stray_flat_map. lia. }
  assert (Hiff : markers (sql (toSQL b)) = length (params (toSQL b))
                 <-> Forall (fun text => markers text = 0%nat)
                            (_table b :: _columns b
                             ++ flat_map spliced (List.filter pushes calls))).
  { rewrite (settled_markers _ _ Hsql), <- list_sum_zero. lia. }
  split; [exact (settled_markers _ _ Hsql)|].
  split; [exact (settled_closed _ _ Hsql)|].
  split; [exact Hiff|].
  split; [rewrite toSQL_params; exact (ta_params _ _ _ Hb)|].
  split; [apply toSQL_split|].
  split; [exact (ta_where _ _ _ Hb)|].
  intros Hzero.
  inversion Hzero as [|? ? Zt Zrest]; subst.
  apply Forall_app in Zrest as [Zc Zp].
  assert (Zsum : list_sum (map stray (List.filter pushes calls)) = 0%nat).
  { rewrite <- stray_flat_map. apply list_sum_zero. exact Zp. }
  assert (Zcols : list_sum (map markers (_columns b)) = 0%nat).
  { apply list_sum_zero. exact Zc. }
  split; [|split].
  - rewrite (settled_markers _ _ Hhead). lia.
  - rewrite (settled_markers _ _ Htail). lia.
  - assert (Zeach : Forall (fun c => stray c = 0%nat)
                           (List.filter predicate calls)).
    { assert (Zs : list_sum (map stray (List.filter predicate calls)) = 0%nat)
        by lia.
      apply list_sum_zero in Zs. exact Zs. }
    pose proof (ta_where _ _ _ Hb) as Hw.
    clear - Hw Zeach.
    induction Hw as [|c f pcs fs Hf Hfs IH]; [constructor|].
    inversion Zeach as [|? ? Z1 Z2]; subst.
    constructor; [|exact (IH Z2)].
    rewrite Z1, Nat.add_0_r in Hf. exact Hf.
Qed.

Lemma placeholders_match_params_witness :
  sql (toSQL (build quoted_placeholder_calls fresh))
  = "SELECT * FROM users WHERE COALESCE(nick, '?') = ? ORDER BY nick DESC" /\
  markers (sql (toSQL (build quoted_placeholder_calls fresh))) = 1%nat /\
  length (params (toSQL (build quoted_placeholder_calls fresh))) = 1%nat /\
  markers (sql (toSQL (build sample_calls fresh))) = 7%nat /\
  length (params (toSQL (build sample_calls fresh))) = 7%nat.
Proof.
  assert (Hraw : Forall (fun c => raw c = false) quoted_placeholder_calls)
    by (repeat constructor).
  assert (Hclosed : Forall closed (reaching quoted_placeholder_calls))
    by (repeat constructor).
  destruct (placeholders_match_params quoted_placeholder_calls Hraw Hclosed)
    as (_ & _ & [_ Hsame] & _).
  assert (Hraw' : Forall (fun c => raw c = false) sample_calls)
    by (repeat constructor).
  assert (Hclosed' : Forall closed (reaching sample_calls))
    by (repeat constructor).
  destruct (placeholders_match_params sample_calls Hraw' Hclosed')
    as (_ & _ & [_ Hsame'] & _).
  split; [reflexivity|].
  split; [rewrite Hsame; [reflexivity|repeat constructor]|].
  split; [reflexivity|].
  split; [rewrite Hsame'; [reflexivity|repeat constructor]|reflexivity].
Defined.

End PlaceholderInvariant.

(* ===================================================================== *)
(** * Terminal operations of the builder *)
(* ===================================================================== *)

Section TerminalOperations.

Import QueryBuilder Samples.

Context {S : Type}.
Variable db : string -> list value -> M S result_set.

Lemma reset_fresh (b : t) : reset b = fresh.
Proof. reflexivity. Qed.

(** [get] sends the compiled statement; the builder is reset when the
    database answers and left as it is when the database throws. *)
Lemma get_run (b : t) (s : S) :
  get db (b, s)
  = match db (sql (toSQL b)) (params (toSQL b)) s with
    | (Ok rows, s') => (Ok rows, (fresh, s'))
    | (Throw e, s') => (Throw e, (b, s'))
    end.
Proof.
  unfold get, bind, read, await_db, this_, modify, ret. simpl.
  destruct (db _ _ s) as [[rows|e] s']; reflexivity.
Qed.

Lemma first_run (b : t) (s : S) :
  first db (b, s)
  = match get db (limit 1 b, s) with
    | (Ok rows, x) => (Ok (first_row rows), x)
    | (Throw e, x) => (Throw e, x)
    end.
Proof.
  unfold first, bind, this_, modify, ret. simpl.
  destruct (get db _) as [[rows|e] x]; reflexivity.
Qed.

Lemma count_run (b : t) (s : S) :
  count db (b, s)
  = match first db (set_columns ["COUNT(*) as count"] b, s) with
    | (Ok row, (b', s')) =>
        (Ok (match row with
             | Some r => Js.get "count" r
             | None => VNum 0
             end),
         (set_columns (_columns b) b', s'))
    | (Throw e, x) => (Throw e, x)
    end.
Proof.
  unfold count, bind, read, this_, modify, ret. simpl.
  destruct (first db _) as [[row|e] [b' s']]; reflexivity.
Qed.

(** When [count] returns, only the column list of the builder is the one
    from before the call; all else has been reset. *)
Lemma count_leaves (b : t) (s : S) (total : value) (x : t * S) :
  count db (b, s) = (Ok total, x) -> fst x = set_columns (_columns b) fresh.
Proof.
  rewrite count_run, first_run, get_run.
  destruct (db _ _ s) as [[rows|e] s']; intros H; inversion H; reflexivity.
Qed.

Lemma paginate_run (b : t) (s : S) (page perPage : Z) (total : value)
      (x : t * S) :
  count db (b, s) = (Ok total, x) ->
  paginate db page perPage (b, s)
  = match db (sql (page_statement b page perPage))
             (params (page_statement b page perPage)) (snd x) with
    | (Ok rows, s') =>
        (Ok {| page_data := rows;
               page_pagination :=
                 {| currentPage := page;
                    perPage := perPage;
                    totalItems := total;
                    totalPages := Math_ceil_div (to_number total) perPage;
                    hasNextPage :=
                      lt_num page (Math_ceil_div (to_number total) perPage);
                    hasPrevPage := 1 <? page |} |},
         (fresh, s'))
    | (Throw e, s') =>
        (Throw e,
         (offset ((page - 1) * perPage)
            (limit perPage (set_columns (_columns b) fresh)), s'))
    end.
Proof.
  intros Hc. pose proof (count_leaves b s total x Hc) as Hb.
  destruct x as [b1 s1]. simpl in Hb. subst b1.
  unfold paginate, bind. rewrite Hc.
  unfold this_, modify. simpl.
  rewrite get_run. unfold page_statement.
  destruct (db _ _ s1) as [[rows|e] s']; reflexivity.
Qed.

(** The page statement has lost the table, the joins, the predicates and
    their parameters. *)
Lemma page_statement_unfiltered (b : t) (page perPage : Z) :
  sql (page_statement b page perPage)
  = "SELECT " +:+ Js.join ", " (_columns b) +:+ " FROM "
    +:+ " LIMIT " +:+ string_of_Z perPage
    +:+ " OFFSET " +:+ string_of_Z ((page - 1) * perPage) /\
  params (page_statement b page perPage) = [].
Proof.
  split; [|reflexivity].
  unfold page_statement. rewrite toSQL_split.
  unfold head_clause, where_clause, tail_clause. simpl.
  rewrite !string_app_assoc. reflexivity.
Qed.

End TerminalOperations.

Section BuilderReset.

Import QueryBuilder Samples.

(** C2, as stated, fails for [count]: it puts the column list from
    before the call back after the reset. *)
Lemma terminal_reset_counterexample :
  exists total x,
    count lenient_db (users_by_id, tt) = (Ok total, x) /\
    fst x <> fresh /\ _columns (fst x) = ["id"].
Proof.
  eexists. eexists. split; [reflexivity|].
  split; [discriminate|reflexivity].
Qed.

(** C2 (amended). Whatever executes the statements: when [get], [first]
    or [paginate] returns, the builder is the fresh intent of [reset];
    when [count] returns, it is the fresh intent except for the column
    list, which is the one from before the call; and [get] on the fresh
    intent sends the default statement - all columns, an empty table
    name, no parameters. *)
Theorem terminal_reset {S : Type}
        (db : string -> list value -> M S result_set) (b : t) (s : S) :
  (forall rows x, get db (b, s) = (Ok rows, x) -> fst x = fresh) /\
  (forall row x, first db (b, s) = (Ok row, x) -> fst x = fresh) /\
  (forall page perPage r x,
      paginate db page perPage (b, s) = (Ok r, x) -> fst x = fresh) /\
  (forall total x,
      count db (b, s) = (Ok total, x) ->
      fst x = set_columns (_columns b) fresh) /\
  (forall rows x,
      get db (b, s) = (Ok rows, x) ->
      get db x
      = match db "SELECT * FROM " [] (snd x) with
        | (Ok rows', s') => (Ok rows', (fresh, s'))
        | (Throw e, s') => (Throw e, (fresh, s'))
        end).
Proof.
  repeat split.
  - intros rows x. rewrite get_run.
    destruct (db _ _ s) as [[rows'|e] s']; intros H; inversion H; reflexivity.
  - intros row x. rewrite first_run, get_run.
    destruct (db _ _ s) as [[rows'|e] s']; intros H; inversion H; reflexivity.
  - intros page perPage r x.
    destruct (count db (b, s)) as [[total|e] y] eqn:Hc.
    + rewrite (paginate_run db b s page perPage total y Hc).
      destruct (db _ _ (snd y)) as [[rows'|e] s'];
        intros H; inversion H; reflexivity.
    + unfold paginate, bind. rewrite Hc. discriminate.
  - apply count_leaves.
  - intros rows x. rewrite get_run.
    destruct (db _ _ s) as [[rows'|e] s']; intros H; inversion H; subst.
    rewrite get_run. simpl.
    destruct (db _ _ s') as [[rows''|e] s'']; reflexivity.
Qed.

Lemma terminal_reset_witness :
  fst (snd (get lenient_db (users_by_id, tt))) = fresh /\
  fst (snd (count lenient_db (users_by_id, tt)))
  = set_columns ["id"] fresh.
Proof.
  destruct (terminal_reset lenient_db users_by_id tt)
    as (Hget & _ & _ & Hcount & _).
  split.
  - destruct (get lenient_db (users_by_id, tt)) as [[rows|e] x] eqn:E.
    + exact (Hget rows x eq_refl).
    + vm_compute in E. discriminate E.
  - destruct (count lenient_db (users_by_id, tt)) as [[total|e] x] eqn:E.
    + exact (Hcount total x eq_refl).
    + vm_compute in E. discriminate E.
Defined.

(** The helper's own [paginate], for comparison: the count and the page
    are sent with the same predicate and the same parameters. *)
Example helper_paginate_keeps_filter :
  statements
    (MySQLHelper.trace
       (snd (MySQLHelper.paginate counting "orders"
               {| MySQLHelper.pg_page := Some 2;
                  MySQLHelper.pg_perPage := Some 10;
                  MySQLHelper.pg_where := [("status", VStr "completed")];
                  MySQLHelper.pg_orderBy := None;
                  MySQLHelper.pg_columns := None |}
               (MySQLHelper.create MySQLHelper.default_settings []))))
  = [ ("SELECT COUNT(*) as count FROM orders WHERE status = ?",
       [VStr "completed"]);
      ("SELECT * FROM orders WHERE status = ? ORDER BY id DESC LIMIT 10 OFFSET 10",
       [VStr "completed"]) ].
Proof. vm_compute. reflexivity. Qed.

(** C1 at the failing input: a builder filtered to the 25 completed
    orders, page 2 of 10.  The count is sent with the filter; the page is
    sent without table or filter, and the database rejects it. *)
Theorem paginate_sends_page_without_filter :
  paginate (scripted_db orders_script) 2 10 (completed_orders, [])
  = (Throw (Error "ER_PARSE_ERROR"),
     (offset 10 (limit 10 fresh),
      [ {| sql := "SELECT COUNT(*) as count FROM orders WHERE status = ? LIMIT 1";
           params := [VStr "completed"] |};
        {| sql := "SELECT * FROM  LIMIT 10 OFFSET 10"; params := [] |} ])).
Proof. vm_compute. reflexivity. Qed.

End BuilderReset.

(* ===================================================================== *)
(** * Hook registration *)
(* ===================================================================== *)

Section HookRegistration.

Import MySQLHelper.

Lemma own_hook_stage (name : string) (t : hook_table) :
  In name stages -> exists cbs, own_hook name t = Some cbs.
Proof.
  unfold stages. simpl.
  intros [<-|[<-|[<-|[<-|[<-|[<-|[<-|[]]]]]]]]; eexists; reflexivity.
Qed.

Lemma own_hook_other (name : string) (t : hook_table) :
  ~ In name stages -> own_hook name t = None.
Proof.
  unfold stages. simpl. intros Hn. unfold own_hook.
  repeat match goal with
         | |- context [String.eqb name ?x] =>
             destruct (String.eqb_spec name x);
             [exfalso; apply Hn; subst name; auto 10|]
         end.
  reflexivity.
Qed.

Lemma own_hook_set_same (name : string) (cbs : list callback)
      (t : hook_table) :
  In name stages -> own_hook name (set_hook name cbs t) = Some cbs.
Proof.
  unfold stages. simpl.
  intros [<-|[<-|[<-|[<-|[<-|[<-|[<-|[]]]]]]]]; reflexivity.
Qed.

Lemma own_hook_set_other (name other : string) (cbs : list callback)
      (t : hook_table) :
  other <> name -> own_hook other (set_hook name cbs t) = own_hook other t.
Proof.
  intros Hne. unfold set_hook.
  repeat match goal with
         | |- context [String.eqb name ?x] =>
             destruct (String.eqb_spec name x);
             [subst name; unfold own_hook; simpl;
              repeat match goal with
                     | |- context [String.eqb other ?y] =>
                         destruct (String.eqb_spec other y);
                         [try congruence; try reflexivity|]
                     end; reflexivity|]
         end.
  reflexivity.
Qed.

(** C9, as stated, fails: [beforeMutate] and [afterMutate] are not
    stages of the code, and [beforeInsert] is. *)
Lemma addHook_stage_enum_counterexample :
  let h := create default_settings [] in
  let cb := {| cb_id := 1; cb_run := fun _ => None |} in
  addHook "beforeMutate" cb h
  = (Throw (Error "Invalid hook name: beforeMutate"), h) /\
  addHook "afterMutate" cb h
  = (Throw (Error "Invalid hook name: afterMutate"), h) /\
  fst (addHook "beforeInsert" cb h) = Ok tt.
Proof. repeat split. Qed.

(** C9 (amended). The stages are [beforeQuery], [afterQuery], [onError],
    [beforeInsert], [afterInsert], [beforeUpdate] and [afterUpdate].  For
    each of them [addHook] returns, with the callback last in the list of
    that stage and every other stage as before; for any other name it
    throws at once and stores nothing - an invalid-hook-name error, or,
    for a name that object literals inherit, the type error of calling a
    missing [push]. *)
Theorem addHook_stage_enum (h : t) (name : string) (cb : callback) :
  (In name stages ->
   exists cbs h',
     own_hook name (hooks h) = Some cbs /\
     addHook name cb h = (Ok tt, h') /\
     own_hook name (hooks h') = Some (cbs ++ [cb]) /\
     (forall other, other <> name ->
                    own_hook other (hooks h') = own_hook other (hooks h)) /\
     h' = set_hooks (hooks h') h) /\
  (~ In name stages ->
   addHook name cb h
   = (Throw (Error (if inherited name
                    then "this.hooks[hookName].push is not a function"
                    else "Invalid hook name: " +:+ name)), h)).
Proof.
  split.
  - intros Hin. destruct (own_hook_stage name (hooks h) Hin) as [cbs Hcbs].
    exists cbs. eexists. split; [exact Hcbs|].
    unfold addHook, bind, read, modify. rewrite Hcbs.
    split; [reflexivity|]. simpl.
    split; [apply own_hook_set_same; exact Hin|].
    split; [|reflexivity].
    intros other Hne. apply own_hook_set_other. exact Hne.
  - intros Hout. unfold addHook, bind, read.
    rewrite (own_hook_other name (hooks h) Hout).
    destruct (inherited name); reflexivity.
Qed.

Lemma addHook_stage_enum_witness :
  let h := create default_settings [] in
  let cb := {| cb_id := 7; cb_run := fun _ => None |} in
  (exists h', addHook "afterUpdate" cb h = (Ok tt, h') /\
              own_hook "afterUpdate" (hooks h') = Some [cb]) /\
  addHook "toString" cb h
  = (Throw (Error "this.hooks[hookName].push is not a function"), h) /\
  addHook "beforeMutate" cb h
  = (Throw (Error "Invalid hook name: beforeMutate"), h).
Proof.
  intros h cb. split; [|split].
  - destruct (addHook_stage_enum h "afterUpdate" cb) as [Hin _].
    destruct Hin as (cbs & h' & Hcbs & Hrun & Hlast & _).
    { unfold stages. simpl. tauto. }
    exists h'. split; [exact Hrun|].
    simpl in Hcbs. inversion Hcbs; subst cbs. exact Hlast.
  - destruct (addHook_stage_enum h "toString" cb) as [_ Hout].
    apply Hout. unfold stages. simpl.
    intros [E|[E|[E|[E|[E|[E|[E|[]]]]]]]]; discriminate E.
  - destruct (addHook_stage_enum h "beforeMutate" cb) as [_ Hout].
    apply Hout. unfold stages. simpl.
    intros [E|[E|[E|[E|[E|[E|[E|[]]]]]]]]; discriminate E.
Defined.

End HookRegistration.

(* ===================================================================== *)
(** * Rules for methods *)
(* ===================================================================== *)

Section Rules.

Context {S : Type} (R : S -> S -> Prop) `{!PreOrder R}.

Lemma respects_ret {A : Type} (a : A) : respects R (ret a).
Proof. intros s r s' H. inversion H; subst. reflexivity. Qed.

Lemma respects_throw {A : Type} (e : error) : respects R (@throw S A e).
Proof. intros s r s' H. inversion H; subst. reflexivity. Qed.

Lemma respects_read {A : Type} (f : S -> A) : respects R (read f).
Proof. intros s r s' H. inversion H; subst. reflexivity. Qed.

Lemma respects_modify (f : S -> S) :
  (forall s, R s (f s)) -> respects R (modify f).
Proof. intros Hf s r s' H. inversion H; subst. apply Hf. Qed.

Lemma respects_bind {A B : Type} (m : M S A) (k : A -> M S B) :
  respects R m -> (forall a, respects R (k a)) -> respects R (bind m k).
Proof.
  intros Hm Hk s r s' H. unfold bind in H.
  destruct (m s) as [[a|e] s1] eqn:E.
  - transitivity s1; [exact (Hm _ _ _ E)|exact (Hk a _ _ _ H)].
  - inversion H; subst. exact (Hm _ _ _ E).
Qed.

Lemma respects_try_catch {A : Type} (m : M S A) (handler : error -> M S A) :
  respects R m -> (forall e, respects R (handler e)) ->
  respects R (try_catch m handler).
Proof.
  intros Hm Hh s r s' H. unfold try_catch in H.
  destruct (m s) as [[a|e] s1] eqn:E.
  - inversion H; subst. exact (Hm _ _ _ E).
  - transitivity s1; [exact (Hm _ _ _ E)|exact (Hh e _ _ _ H)].
Qed.

Lemma respects_try_finally {A : Type} (m : M S A) (fin : M S unit) :
  respects R m -> respects R fin -> respects R (try_finally m fin).
Proof.
  intros Hm Hf s r s' H. unfold try_finally in H.
  destruct (m s) as [r1 s1] eqn:E.
  destruct (fin s1) as [[u|e] s2] eqn:F; inversion H; subst;
    (transitivity s1; [exact (Hm _ _ _ E)|exact (Hf _ _ _ F)]).
Qed.

Lemma respects_when (c : bool) (m : M S unit) :
  respects R m -> respects R (when c m).
Proof. intros Hm. destruct c; [exact Hm|apply respects_ret]. Qed.

End Rules.

(** Apply a rule and find the order it needs. *)
Tactic Notation "rule" open_constr(lem) :=
  apply lem; try (match goal with |- PreOrder _ => apply _ end).

Section HelperRules.

Import MySQLHelper.

Variable rt : Runtime.
Variable P : effect -> Prop.

Global Instance evolves_preorder : PreOrder (evolves P).
Proof.
  split.
  - intros h. repeat split; try reflexivity.
    + exists []. symmetry. apply app_nil_r.
    + exists []. split; [symmetry; apply app_nil_r|constructor].
  - intros h1 h2 h3 (C1 & K1 & [m1 M1] & [n1 [N1 F1]])
           (C2 & K2 & [m2 M2] & [n2 [N2 F2]]).
    repeat split; try congruence.
    + exists (m1 ++ m2). rewrite M2, M1, app_assoc. reflexivity.
    + exists (n1 ++ n2). split.
      * rewrite N2, N1, app_assoc. reflexivity.
      * apply Forall_app. split; assumption.
Qed.

Lemma evolves_effect (e : effect) : P e -> respects (evolves P) (effect_ e).
Proof.
  intros He. rule respects_modify. intros h.
  repeat split; simpl.
  - exists []. symmetry. apply app_nil_r.
  - exists [e]. split; [reflexivity|]. constructor; [exact He|constructor].
Qed.

(** An assignment to a field other than the settings, the hooks, the
    heap and the trace. *)
Lemma evolves_field (f : t -> t) :
  (forall h, config (f h) = config h /\ hooks (f h) = hooks h /\
             heap (f h) = heap h /\ trace (f h) = trace h) ->
  respects (evolves P) (modify f).
Proof.
  intros Hf. rule respects_modify. intros h.
  destruct (Hf h) as (C & K & Hp & T). repeat split; try assumption.
  - exists []. rewrite Hp. symmetry. apply app_nil_r.
  - exists []. split; [rewrite T; symmetry; apply app_nil_r|constructor].
Qed.

Lemma evolves_now : respects (evolves P) (now rt).
Proof.
  intros h r h' H. inversion H; subst. repeat split; simpl.
  - exists []. symmetry. apply app_nil_r.
  - exists []. split; [symmetry; apply app_nil_r|constructor].
Qed.

Lemma evolves_driver_call (e : effect) (outcome : option error) :
  P e -> respects (evolves P) (driver_call e outcome).
Proof.
  intros He. unfold driver_call.
  rule respects_bind; [apply evolves_effect; exact He|].
  intros _. destruct outcome; [rule respects_throw|rule respects_ret].
Qed.

Lemma evolves_run_callbacks (name : string) (cbs : list callback)
      (d : hook_data) :
  (forall id, P (HookCall name id)) ->
  respects (evolves P) (run_callbacks name cbs d).
Proof.
  intros Hp. induction cbs as [|cb cbs IH]; simpl.
  - rule respects_ret.
  - rule respects_bind; [apply evolves_driver_call; apply Hp|].
    intros _. exact IH.
Qed.

Lemma evolves_runHooks (name : string) (d : hook_data) :
  (forall id, P (HookCall name id)) ->
  respects (evolves P) (_runHooks name d).
Proof.
  intros Hp. unfold _runHooks.
  rule respects_bind; [rule respects_read|].
  intros table. destruct (own_hook name table).
  - apply evolves_run_callbacks. exact Hp.
  - rule respects_throw.
Qed.

End HelperRules.

(* ===================================================================== *)
(** * The query executor *)
(* ===================================================================== *)

Section QueryExecutor.

Import MySQLHelper.

Variable rt : Runtime.

Lemma set_trace_id (h : t) : set_trace (trace h) h = h.
Proof. destruct h; reflexivity. Qed.

(** The callbacks run in order up to the first that throws. *)
Lemma run_callbacks_run (name : string) (cbs : list callback)
      (d : hook_data) (h : t) :
  run_callbacks name cbs d h
  = (match snd (hook_outcome name cbs d) with
     | None => Ok tt
     | Some err => Throw err
     end,
     set_trace (trace h ++ fst (hook_outcome name cbs d)) h).
Proof.
  revert h. induction cbs as [|cb cbs IH]; intros h; simpl.
  - rewrite app_nil_r, set_trace_id. reflexivity.
  - unfold bind, driver_call, effect_, modify, bind. simpl.
    destruct (cb_run cb d) as [err|]; simpl; [reflexivity|].
    rewrite IH. simpl. rewrite <- app_assoc. reflexivity.
Qed.

Lemma hook_outcome_harmless (name : string) (cbs : list callback)
      (d : hook_data) :
  harmless cbs ->
  hook_outcome name cbs d
  = (map (fun cb => HookCall name (cb_id cb)) cbs, None).
Proof.
  induction 1 as [|cb cbs Hcb Hcbs IH]; simpl; [reflexivity|].
  rewrite Hcb, IH. reflexivity.
Qed.

Lemma hook_outcome_calls (name : string) (cbs : list callback)
      (d : hook_data) :
  Forall (fun e => exists id, e = HookCall name id)
         (fst (hook_outcome name cbs d)).
Proof.
  induction cbs as [|cb cbs IH]; simpl; [constructor|].
  destruct (cb_run cb d); simpl; constructor; eauto.
Qed.

Lemma evolves_weaken (P Q : effect -> Prop) (h h' : t) :
  (forall e, P e -> Q e) -> evolves P h h' -> evolves Q h h'.
Proof.
  intros HPQ (C & K & Hp & new & T & F).
  repeat split; try assumption.
  exists new. split; [exact T|]. eapply Forall_impl; [exact F|exact HPQ].
Qed.

Lemma evolves_createPool (P : effect -> Prop) :
  P (Emit poolCreated) -> respects (evolves P) createPool.
Proof.
  intros Hp. unfold createPool.
  rule respects_bind; [rule respects_read|]. intros p.
  rule respects_when. rule respects_bind.
  - apply evolves_field. intros h. repeat split.
  - intros _. apply evolves_effect. exact Hp.
Qed.

Lemma evolves_getFromCache (P : effect -> Prop) (key : string) :
  respects (evolves P) (_getFromCache rt key).
Proof.
  unfold _getFromCache.
  rule respects_bind; [rule respects_read|]. intros [entry|].
  - rule respects_bind; [apply evolves_now|]. intros t.
    destruct (t <? expiry entry); [rule respects_ret|].
    rule respects_bind; [|intros _; rule respects_ret].
    apply evolves_field. intros h. repeat split.
  - rule respects_ret.
Qed.

Lemma evolves_setCache (P : effect -> Prop) (key : string)
      (rows : result_set) (ttl : option Z) :
  respects (evolves P) (_setCache rt key rows ttl).
Proof.
  unfold _setCache.
  rule respects_bind; [rule respects_read|]. intros d.
  rule respects_bind; [apply evolves_now|]. intros t.
  apply evolves_field. intros h. repeat split.
Qed.

Lemma evolves_cache_lookup (P : effect -> Prop) (sql : string)
      (params : list value) (o : query_options) :
  respects (evolves P) (cache_lookup rt sql params o).
Proof.
  unfold cache_lookup, use_cache.
  rule respects_bind.
  - rule respects_bind; [rule respects_read|]. intros e. rule respects_ret.
  - intros [|]; [apply evolves_getFromCache|rule respects_ret].
Qed.

Lemma evolves_driver_execute (P : effect -> Prop) (sql : string)
      (params : list value) :
  P (Execute sql params) ->
  respects (evolves P) (driver_execute rt sql params).
Proof.
  intros Hp. unfold driver_execute.
  rule respects_bind; [rule respects_read|]. intros n.
  rule respects_bind; [apply evolves_field; intros h; repeat split|].
  intros _. rule respects_bind; [apply evolves_effect; exact Hp|].
  intros _. destruct (execute rt n sql params);
    [rule respects_ret|rule respects_throw].
Qed.

Lemma evolves_execute_and_store (P : effect -> Prop) (sql : string)
      (params : list value) (o : query_options) (ts : Z) :
  (forall e, query_effect sql params e -> miss_effect e -> P e) ->
  respects (evolves P) (execute_and_store rt sql params o ts).
Proof.
  intros Hp. unfold execute_and_store.
  rule respects_bind; [apply evolves_runHooks; intros; apply Hp; exact I|].
  intros _. rule respects_bind; [rule respects_read|]. intros conn.
  rule respects_bind.
  { rule respects_when. apply evolves_createPool. apply Hp; exact I. }
  intros _. rule respects_bind; [apply evolves_now|]. intros t0.
  rule respects_bind.
  { apply evolves_driver_execute. apply Hp; [split; reflexivity|exact I]. }
  intros rows. rule respects_bind; [apply evolves_now|]. intros t1.
  rule respects_bind; [rule respects_read|]. intros logging.
  rule respects_bind.
  { rule respects_when. rule respects_bind; [apply evolves_now|].
    intros t2. apply evolves_field. intros h. repeat split. }
  intros _. rule respects_bind.
  { apply evolves_runHooks. intros. apply Hp; exact I. }
  intros _. rule respects_bind.
  { unfold use_cache. rule respects_bind; [rule respects_read|].
    intros e. rule respects_ret. }
  intros wanted. rule respects_bind.
  { rule respects_when. apply evolves_setCache. }
  intros _. rule respects_bind; [|intros _; rule respects_ret].
  apply evolves_effect. apply Hp; [split; reflexivity|exact I].
Qed.

Lemma evolves_on_failure (P : effect -> Prop) (sql : string)
      (params : list value) (ts : Z) (err : error) :
  (forall e, query_effect sql params e -> miss_effect e -> P e) ->
  respects (evolves P) (on_failure sql params ts err).
Proof.
  intros Hp. unfold on_failure.
  rule respects_bind; [apply evolves_runHooks; intros; apply Hp; exact I|].
  intros _. rule respects_bind; [|intros _; rule respects_throw].
  apply evolves_effect. apply Hp; [split; reflexivity|exact I].
Qed.

(** A call of [query] leaves settings, hooks and heap as they are, and
    its effects are hook calls, the pool's creation, the execution of
    this statement and the signals about this statement. *)
Lemma evolves_query (sql : string) (params : list value)
      (o : query_options) :
  respects (evolves (query_effect sql params)) (query rt sql params o).
Proof.
  unfold query.
  rule respects_bind; [apply evolves_now|]. intros ts.
  rule respects_try_catch.
  - rule respects_bind; [apply evolves_cache_lookup|].
    intros [rows|].
    + rule respects_bind; [|intros _; rule respects_ret].
      apply evolves_effect. split; reflexivity.
    + apply evolves_execute_and_store. auto.
  - intros err. apply evolves_on_failure. auto.
Qed.

(** ** The catch block *)

Lemma on_failure_run (sql : string) (params : list value) (ts : Z)
      (err : error) (h : t) :
  on_failure sql params ts err h
  = let out := hook_outcome "onError" (onError (hooks h))
                            (ErrorData sql params ts err) in
    match snd out with
    | Some err' => (Throw err', set_trace (trace h ++ fst out) h)
    | None =>
        (Throw (Error ("Query failed: " +:+ message err)),
         set_trace (trace h ++ fst out
                    ++ [Emit (queryError sql params (message err))]) h)
    end.
Proof.
  unfold on_failure, _runHooks, bind, read. simpl.
  rewrite run_callbacks_run.
  destruct (snd (hook_outcome _ _ _)) as [err'|]; [reflexivity|].
  unfold emit, effect_, modify, throw. simpl.
  rewrite <- app_assoc. reflexivity.
Qed.

Lemma on_failure_throws (sql : string) (params : list value) (ts : Z)
      (err : error) (h : t) (r : res result_set) (h' : t) :
  on_failure sql params ts err h = (r, h') -> exists e, r = Throw e.
Proof.
  rewrite on_failure_run. simpl.
  destruct (snd (hook_outcome _ _ _)); intros H; inversion H; eauto.
Qed.

(** ** The cache check *)

Lemma query_hit (h : t) (sql : string) (params : list value)
      (o : query_options) (entry : cache_entry) :
  cacheEnabled (config h) = true -> cache_not_false o = true ->
  cache h !! _getCacheKey rt sql params = Some entry ->
  Date_now rt (S (ticks h)) < expiry entry ->
  query rt sql params o h
  = (Ok (data entry),
     set_trace (trace h ++ [Emit (cacheHit sql params)])
               (set_ticks (S (S (ticks h))) h)).
Proof.
  intros He Ho Hc Ht.
  unfold query, bind, now, try_catch, cache_lookup, use_cache, bind, read,
    ret. simpl.
  rewrite He, Ho. simpl.
  unfold _getFromCache, bind, read, now. simpl. rewrite Hc. simpl.
  apply Z.ltb_lt in Ht. rewrite Ht. reflexivity.
Qed.

Lemma getFromCache_expired (h : t) (key : string) (entry : cache_entry) :
  cache h !! key = Some entry ->
  expiry entry <= Date_now rt (ticks h) ->
  _getFromCache rt key h
  = (Ok None, set_cache (delete key (cache h)) (set_ticks (S (ticks h)) h)).
Proof.
  intros Hc Ht. unfold _getFromCache, bind, read, now. simpl.
  rewrite Hc. simpl.
  apply Z.ltb_ge in Ht. rewrite Ht. reflexivity.
Qed.

Lemma query_expired (h : t) (sql : string) (params : list value)
      (o : query_options) (entry : cache_entry) :
  cacheEnabled (config h) = true -> cache_not_false o = true ->
  cache h !! _getCacheKey rt sql params = Some entry ->
  expiry entry <= Date_now rt (S (ticks h)) ->
  query rt sql params o h
  = try_catch (execute_and_store rt sql params o (Date_now rt (ticks h)))
              (on_failure sql params (Date_now rt (ticks h)))
              (set_cache (delete (_getCacheKey rt sql params) (cache h))
                         (set_ticks (S (S (ticks h))) h)).
Proof.
  intros He Ho Hc Ht.
  unfold query, bind at 1. unfold now at 1.
  unfold try_catch, bind at 1.
  unfold cache_lookup, use_cache, bind, read, ret. simpl.
  rewrite He, Ho. simpl.
  rewrite (getFromCache_expired _ _ entry); [reflexivity|exact Hc|exact Ht].
Qed.

Lemma query_miss (h : t) (sql : string) (params : list value)
      (o : query_options) :
  cacheEnabled (config h) && cache_not_false o = false \/
  cache h !! _getCacheKey rt sql params = None ->
  query rt sql params o h
  = try_catch (execute_and_store rt sql params o (Date_now rt (ticks h)))
              (on_failure sql params (Date_now rt (ticks h)))
              (set_ticks (S (ticks h)) h).
Proof.
  intros Hm.
  unfold query, bind at 1. unfold now at 1.
  unfold try_catch, bind at 1.
  unfold cache_lookup, use_cache, bind, read, ret. simpl.
  destruct (cacheEnabled (config h) && cache_not_false o) eqn:E.
  - destruct Hm as [Hm|Hm]; [discriminate|].
    unfold _getFromCache, bind, read. simpl. rewrite Hm. reflexivity.
  - reflexivity.
Qed.

(** A call that is not answered from the cache emits no cache-hit
    signal. *)
Lemma miss_path_evolves (sql : string) (params : list value)
      (o : query_options) (ts : Z) :
  respects (evolves miss_effect)
           (try_catch (execute_and_store rt sql params o ts)
                      (on_failure sql params ts)).
Proof.
  rule respects_try_catch.
  - apply evolves_execute_and_store. auto.
  - intros err. apply evolves_on_failure. auto.
Qed.

(** ** The cache store *)

(** An execution that returns, with caching wanted, has stored what it
    returns under the key of the statement, to expire one time-to-live
    after the last reading of the clock. *)
Lemma execute_and_store_caches (h0 : t) (sql : string)
      (params : list value) (o : query_options) (ts : Z)
      (rows : result_set) (h1 : t) :
  cacheEnabled (config h0) = true -> cache_not_false o = true ->
  execute_and_store rt sql params o ts h0 = (Ok rows, h1) ->
  cache h1 !! _getCacheKey rt sql params
  = Some {| data := rows;
            expiry := Date_now rt (pred (ticks h1))
                      + match opt_cacheTTL o with
                        | Some x => x
                        | None => cacheTTL (config h0)
                        end |}.
Proof.
  intros He Ho H.
  unfold execute_and_store, _runHooks in H.
  unfold bind at 1 in H. unfold bind at 1 in H. unfold read at 1 in H.
  simpl in H. rewrite run_callbacks_run in H.
  destruct (snd (hook_outcome "beforeQuery" _ _)); [discriminate H|].
  unfold bind, read, when, createPool, bind, read, modify, emit, effect_,
    modify, now, driver_execute, bind, read, modify, effect_, modify,
    use_cache, bind, read, ret, _setCache, bind, read, now, modify in H.
  simpl in H.
  destruct (pool h0) eqn:Hpool; destruct (connection h0) eqn:Hconn;
    simpl in H; rewrite ?Hpool in H; simpl in H;
    destruct (execute rt (executed h0) sql params) as [rows'|err];
    simpl in H; try discriminate H;
    destruct (logQueries (config h0)); simpl in H;
    rewrite run_callbacks_run in H; simpl in H;
    destruct (snd (hook_outcome "afterQuery" _ _)); try discriminate H;
    rewrite He, Ho in H; simpl in H;
    inversion H; subst; simpl; apply lookup_insert_eq.
Qed.

(** ** A failing execution *)

Lemma execute_and_store_fails (h0 : t) (sql : string)
      (params : list value) (o : query_options) (ts : Z) (err : error) :
  snd (hook_outcome "beforeQuery" (beforeQuery (hooks h0))
                    (QueryData sql params ts)) = None ->
  execute rt (executed h0) sql params = Throw err ->
  exists sent h1,
    execute_and_store rt sql params o ts h0 = (Throw err, h1) /\
    hooks h1 = hooks h0 /\
    trace h1 = trace h0 ++ sent ++ [Execute sql params] /\
    Forall (fun e => forall s p m, e <> Emit (queryError s p m)) sent.
Proof.
  intros Hb Hx.
  unfold execute_and_store, _runHooks.
  unfold bind at 1. unfold bind at 1. unfold read at 1.
  simpl. rewrite run_callbacks_run, Hb.
  unfold bind, read, when, createPool, bind, read, modify, emit, effect_,
    modify, now, driver_execute, bind, read, modify, effect_, modify.
  simpl.
  assert (Hcalls := hook_outcome_calls "beforeQuery" (beforeQuery (hooks h0))
                      (QueryData sql params ts)).
  assert (Hsent : Forall (fun e => forall s p m, e <> Emit (queryError s p m))
                         (fst (hook_outcome "beforeQuery"
                                 (beforeQuery (hooks h0))
                                 (QueryData sql params ts)))).
  { eapply Forall_impl; [exact Hcalls|].
    intros e [id ->] s p m. discriminate. }
  exists (fst (hook_outcome "beforeQuery" (beforeQuery (hooks h0))
                   (QueryData sql params ts))
          ++ (if pool h0 || connection h0 then [] else [Emit poolCreated])).
  destruct (pool h0) eqn:Hpool; destruct (connection h0) eqn:Hconn;
    simpl; rewrite ?Hpool; simpl; rewrite Hx; simpl;
    eexists; (split; [reflexivity|]); simpl; (split; [reflexivity|]);
    (split; [rewrite <- ?app_assoc; reflexivity|]);
    rewrite ?app_nil_r; try exact Hsent.
  apply Forall_app. split; [exact Hsent|].
  constructor; [discriminate|constructor].
Qed.

End QueryExecutor.

Section CacheRoundTrip.

Import MySQLHelper Samples.

(** C3. With caching enabled and not disabled for the call: a call that
    finds no entry and returns has stored what it returns, without a
    cache-hit signal.  A later call for the same statement that finds
    the entry and reads the clock before its expiry returns the stored
    result; its only effect is one cache-hit signal - no hook is called,
    nothing is executed.  A later call that reads the clock at or after
    the expiry deletes the entry on that lookup and goes on as a call
    that found none, without a cache-hit signal. *)
Theorem cache_round_trip (rt : Runtime) (h : t) (sql : string)
        (params : list value) (o : query_options) (rows : result_set)
        (h1 : t) :
  cacheEnabled (config h) = true ->
  cache_not_false o = true ->
  cache h !! _getCacheKey rt sql params = None ->
  query rt sql params o h = (Ok rows, h1) ->
  exists entry,
    cache h1 !! _getCacheKey rt sql params = Some entry /\
    data entry = rows /\
    expiry entry = Date_now rt (pred (ticks h1))
                   + match opt_cacheTTL o with
                     | Some x => x
                     | None => cacheTTL (config h)
                     end /\
    evolves miss_effect h h1 /\
    forall (o2 : query_options) (h2 : t),
      cache_not_false o2 = true ->
      config h2 = config h1 ->
      cache h2 !! _getCacheKey rt sql params = Some entry ->
      (Date_now rt (S (ticks h2)) < expiry entry ->
       query rt sql params o2 h2
       = (Ok rows,
          set_trace (trace h2 ++ [Emit (cacheHit sql params)])
                    (set_ticks (S (S (ticks h2))) h2))) /\
      (expiry entry <= Date_now rt (S (ticks h2)) ->
       _getFromCache rt (_getCacheKey rt sql params)
                     (set_ticks (S (ticks h2)) h2)
       = (Ok None,
          set_cache (delete (_getCacheKey rt sql params) (cache h2))
                    (set_ticks (S (S (ticks h2))) h2)) /\
       query rt sql params o2 h2
       = try_catch
           (execute_and_store rt sql params o2 (Date_now rt (ticks h2)))
           (on_failure sql params (Date_now rt (ticks h2)))
           (set_cache (delete (_getCacheKey rt sql params) (cache h2))
                      (set_ticks (S (S (ticks h2))) h2)) /\
       forall r h3, query rt sql params o2 h2 = (r, h3) ->
                    evolves miss_effect h2 h3).
Proof.
  intros He Ho Hnone Hq.
  rewrite query_miss in Hq by (right; exact Hnone).
  pose proof (miss_path_evolves rt sql params o (Date_now rt (ticks h))
                _ _ _ Hq) as Hev.
  unfold try_catch in Hq.
  destruct (execute_and_store rt sql params o (Date_now rt (ticks h))
              (set_ticks (S (ticks h)) h)) as [[rows'|err] h'] eqn:Hx.
  2: { destruct (on_failure_throws _ _ _ _ _ _ _ Hq) as [e E].
       discriminate E. }
  inversion Hq; subst rows' h'. clear Hq.
  pose proof (execute_and_store_caches rt (set_ticks (S (ticks h)) h)
                _ _ _ _ _ _ He Ho Hx) as Hc.
  simpl in Hc.
  eexists. split; [exact Hc|]. split; [reflexivity|].
  split; [reflexivity|]. split.
  { exact Hev. }
  intros o2 h2 Ho2 Hcfg2 Hc2.
  assert (He2 : cacheEnabled (config h2) = true).
  { destruct Hev as (C & _). simpl in C. congruence. }
  split.
  - intros Ht. rewrite (query_hit rt h2 sql params o2 _ He2 Ho2 Hc2 Ht).
    reflexivity.
  - intros Ht. split; [|split].
    + apply (getFromCache_expired rt (set_ticks (S (ticks h2)) h2) _ _ Hc2).
      exact Ht.
    + apply (query_expired rt h2 sql params o2 _ He2 Ho2 Hc2 Ht).
    + intros r h3 Hq3.
      rewrite (query_expired rt h2 sql params o2 _ He2 Ho2 Hc2 Ht) in Hq3.
      apply miss_path_evolves in Hq3. exact Hq3.
Qed.

Lemma cache_round_trip_witness :
  exists rows h1,
    query accepting "SELECT * FROM users WHERE id = ?" [VNum 7] no_options
          caching_helper
    = (Ok rows, h1) /\
    query accepting "SELECT * FROM users WHERE id = ?" [VNum 7] no_options h1
    = (Ok rows,
       set_trace
         (trace h1
          ++ [Emit (cacheHit "SELECT * FROM users WHERE id = ?" [VNum 7])])
         (set_ticks (S (S (ticks h1))) h1)).
Proof.
  destruct (query accepting "SELECT * FROM users WHERE id = ?" [VNum 7]
                  no_options caching_helper) as [[rows|e] h1] eqn:Hq.
  2: { vm_compute in Hq. discriminate Hq. }
  exists rows, h1. split; [reflexivity|].
  destruct (cache_round_trip accepting caching_helper
              "SELECT * FROM users WHERE id = ?" [VNum 7] no_options rows h1
              eq_refl eq_refl ltac:(vm_compute; reflexivity) Hq)
    as (entry & Hc & Hd & Hexp & _ & Hnext).
  apply (Hnext no_options h1 eq_refl eq_refl Hc).
  rewrite Hexp. simpl. lia.
Defined.

End CacheRoundTrip.

Section ErrorHooks.

Import MySQLHelper Samples.

(** C5, as stated, fails: the driver rejects the statement, the
    [onError] callback throws, and what propagates is the callback's
    error, with no trace of the driver's. *)
Lemma onError_does_not_mask_counterexample :
  execute rejecting 0 "SELECT * FROM missing" [] = Throw (Error "ER_NO_SUCH_TABLE") /\
  fst (query rejecting "SELECT * FROM missing" [] no_options
             helper_with_throwing_onError)
  = Throw (Error "hook failed").
Proof. split; reflexivity. Qed.

(** C5 (amended). When the statement is not answered from the cache, the
    [beforeQuery] callbacks return and the execution fails, the [onError]
    callbacks run in registration order up to the first that throws.  If
    none throws, the query-error signal is emitted last and the error
    that propagates wraps the original one: its message is
    ["Query failed: "] followed by the original message.  If one throws,
    its error propagates in place of the original one, the callbacks
    after it are not called and no query-error signal is emitted. *)
Theorem onError_outcome (rt : Runtime) (h : t) (sql : string)
        (params : list value) (o : query_options) (err : error) :
  let ts := Date_now rt (ticks h) in
  let out := hook_outcome "onError" (onError (hooks h))
                          (ErrorData sql params ts err) in
  cacheEnabled (config h) && cache_not_false o = false \/
  cache h !! _getCacheKey rt sql params = None ->
  snd (hook_outcome "beforeQuery" (beforeQuery (hooks h))
                    (QueryData sql params ts)) = None ->
  execute rt (executed h) sql params = Throw err ->
  exists sent h',
    query rt sql params o h
    = (Throw (match snd out with
              | Some err' => err'
              | None => Error ("Query failed: " +:+ message err)
              end), h') /\
    trace h'
    = trace h ++ sent ++ [Execute sql params] ++ fst out
      ++ match snd out with
         | Some _ => []
         | None => [Emit (queryError sql params (message err))]
         end /\
    Forall (fun e => forall s p m, e <> Emit (queryError s p m))
           (sent ++ [Execute sql params] ++ fst out).
Proof.
  intros ts out Hmiss Hbefore Hexec.
  rewrite (query_miss rt h sql params o Hmiss). fold ts.
  destruct (execute_and_store_fails rt (set_ticks (S (ticks h)) h) sql params
              o ts err Hbefore Hexec) as (sent & h1 & Hx & Hk & Ht & Hs).
  exists sent. unfold try_catch. rewrite Hx, on_failure_run.
  simpl. rewrite Hk. simpl. fold out.
  assert (Hout : Forall (fun e => forall s p m, e <> Emit (queryError s p m))
                        (fst out)).
  { eapply Forall_impl; [apply hook_outcome_calls|].
    intros e [id ->] s p m. discriminate. }
  assert (Hall : Forall (fun e => forall s p m, e <> Emit (queryError s p m))
                        (sent ++ [Execute sql params] ++ fst out)).
  { apply Forall_app. split; [exact Hs|]. apply Forall_app.
    split; [|exact Hout]. constructor; [discriminate|constructor]. }
  destruct (snd out) as [err'|]; eexists; (split; [reflexivity|]); simpl;
    rewrite Ht; simpl in *; rewrite <- ?app_assoc, ?app_nil_r;
    (split; [reflexivity|exact Hall]).
Qed.

Lemma onError_outcome_witness :
  fst (query rejecting "SELECT * FROM missing" [] no_options
             helper_with_quiet_onError)
  = Throw (Error "Query failed: ER_NO_SUCH_TABLE") /\
  fst (query rejecting "SELECT * FROM missing" [] no_options
             helper_with_throwing_onError)
  = Throw (Error "hook failed").
Proof.
  split.
  - destruct (onError_outcome rejecting helper_with_quiet_onError
                "SELECT * FROM missing" [] no_options
                (Error "ER_NO_SUCH_TABLE")
                (or_introl eq_refl) eq_refl eq_refl)
      as (sent & h' & Hq & _).
    rewrite Hq. reflexivity.
  - destruct (onError_outcome rejecting helper_with_throwing_onError
                "SELECT * FROM missing" [] no_options
                (Error "ER_NO_SUCH_TABLE")
                (or_introl eq_refl) eq_refl eq_refl)
      as (sent & h' & Hq & _).
    rewrite Hq. reflexivity.
Defined.

End ErrorHooks.

(* ===================================================================== *)
(** * The transaction coordinator *)
(* ===================================================================== *)

Section Transactions.

Import MySQLHelper Samples.

(** C4, as stated, fails: without a pool the helper works on its one
    connection, which [transaction] does not release; and the error
    raised is a new one that wraps the message of the original. *)
Lemma transaction_release_counterexample :
  let out := transaction accepting (throw (A := value) (Error "boom"))
                         (create default_settings []) in
  fst out = Throw (Error "Transaction failed: boom") /\
  trace (snd out)
  = [ CreateConnection 1; Emit connected; BeginTransaction;
      Emit transactionStarted; Callback; Rollback;
      Emit (transactionRolledBack "boom") ] /\
  ~ In Release (trace (snd out)).
Proof.
  vm_compute. split; [reflexivity|]. split; [reflexivity|].
  intros H.
  repeat (destruct H as [H|H]; [discriminate H|]). exact H.
Qed.

Global Instance same_links_preorder : PreOrder same_links.
Proof.
  split.
  - intros h. split; reflexivity.
  - intros h1 h2 h3 [P1 C1] [P2 C2]. split; congruence.
Qed.

Lemma same_links_effect (e : effect) :
  respects same_links (effect_ e).
Proof. rule respects_modify. intros h. split; reflexivity. Qed.

Lemma same_links_driver_call (e : effect) (outcome : option error) :
  respects same_links (driver_call e outcome).
Proof.
  unfold driver_call. rule respects_bind; [apply same_links_effect|].
  intros _. destruct outcome; [rule respects_throw|rule respects_ret].
Qed.

Lemma same_links_connectWithRetry (rt : Runtime) (remaining : nat)
      (attempt : Z) :
  respects same_links (connectWithRetry_from rt remaining attempt).
Proof.
  revert attempt. induction remaining as [|n IH]; intros attempt; simpl.
  - rule respects_try_catch; [apply same_links_driver_call|].
    intros err. rule respects_bind; [rule respects_read|].
    intros k. rule respects_throw.
  - rule respects_try_catch; [apply same_links_driver_call|].
    intros err. rule respects_bind; [rule respects_read|]. intros delay.
    rule respects_bind; [apply same_links_effect|]. intros _.
    rule respects_bind; [apply same_links_effect|]. intros _.
    apply IH.
Qed.

Lemma bind_cases {S A B : Type} (m : M S A) (k : A -> M S B) (s : S)
      (r : res B) (s' : S) :
  bind m k s = (r, s') ->
  (exists a s1, m s = (Ok a, s1) /\ k a s1 = (r, s')) \/
  (exists e, m s = (Throw e, s') /\ r = Throw e).
Proof.
  unfold bind. destruct (m s) as [[a|e] s1]; intros H.
  - left. eauto.
  - right. inversion H; subst. eauto.
Qed.

(** Beginning a transaction leaves the pool as it is, and a helper
    without a pool begins on its standalone connection. *)
Lemma beginTransaction_links (rt : Runtime) (h h0 : t) :
  beginTransaction rt h = (Ok tt, h0) ->
  pool h0 = pool h /\ (pool h = false -> connection h0 = true).
Proof.
  intros Hb. unfold beginTransaction in Hb.
  unfold bind at 1, read at 1 in Hb.
  assert (Htail : respects same_links
                    (let* _ := driver_call BeginTransaction
                                 (conn_beginTransaction rt) in
                     emit transactionStarted)).
  { rule respects_bind; [apply same_links_driver_call|].
    intros _. apply same_links_effect. }
  destruct (pool h) eqn:Hp.
  - apply bind_cases in Hb as [(u & h1 & E1 & E2)|(e & _ & E)];
      [|discriminate E].
    destruct (same_links_driver_call _ _ _ _ _ E1) as [P1 _].
    destruct (Htail _ _ _ E2) as [P2 _].
    split; [congruence|discriminate].
  - apply bind_cases in Hb as [(u & h1 & E1 & E2)|(e & _ & E)];
      [|discriminate E].
    destruct (Htail _ _ _ E2) as [P2 C2].
    unfold connect in E1. unfold bind at 1, read at 1, when in E1.
    destruct (connection h) eqn:Hc; simpl in E1.
    + inversion E1; subst. split; [congruence|]. intros _. congruence.
    + apply bind_cases in E1 as [(u1 & h2 & E3 & E4)|(e & _ & E)];
        [|discriminate E].
      unfold _connectWithRetry, bind, read in E3.
      destruct (same_links_connectWithRetry rt _ _ _ _ _ E3) as [P3 _].
      unfold bind, modify, emit, effect_, modify in E4. simpl in E4.
      inversion E4; subst. simpl in *.
      split; [congruence|]. intros _. exact C2.
Qed.

(** C4 (amended). Once the transaction has begun, whatever the callback
    does: if it fails, [rollback] is called; when [rollback] returns,
    the rolled-back signal carries the message of the error and the
    error raised wraps that message; when [rollback] throws, its error
    is raised and no signal is emitted.  If the callback returns,
    [commit] is called; when it returns, the committed signal is
    emitted and the result returned; when it throws, its error is
    handled as a failure of the callback.  On each of these paths the
    last step is the release step, which calls [release] on the
    connection of the transaction exactly when the helper has a pool at
    that moment, that is, after the callback.  Beginning leaves the
    pool as it is, and a helper without a pool begins on its standalone
    connection: so the pooled connection is released and the standalone
    one is not, unless the callback changes the pool - after a callback
    that creates the pool of a helper that had none, [release] is
    called on the standalone connection. *)
Theorem transaction_outcome {A : Type} (rt : Runtime) (callback : M t A)
        (h h0 : t) (r : res A) (h1 : t) :
  beginTransaction rt h = (Ok tt, h0) ->
  callback (set_trace (trace h0 ++ [Callback]) h0) = (r, h1) ->
  let release := if pool h1 then [Release] else [] in
  let rolled_back (err : error) :=
    Rollback :: match conn_rollback rt with
                | None => [Emit (transactionRolledBack (message err))]
                | Some _ => []
                end in
  let raised (err : error) :=
    match conn_rollback rt with
    | None => Error ("Transaction failed: " +:+ message err)
    | Some err' => err'
    end in
  transaction rt callback h
  = match r with
    | Throw err =>
        (Throw (raised err),
         set_trace (trace h1 ++ rolled_back err ++ release) h1)
    | Ok a =>
        match conn_commit rt with
        | None =>
            (Ok a,
             set_trace (trace h1 ++ [Commit; Emit transactionCommitted]
                        ++ release) h1)
        | Some err =>
            (Throw (raised err),
             set_trace (trace h1 ++ Commit :: rolled_back err ++ release) h1)
        end
    end /\
  pool h0 = pool h /\
  (pool h = false -> connection h0 = true) /\
  (pool h1 = pool h0 -> release = if pool h then [Release] else []) /\
  (pool h = false -> pool h1 = true -> release = [Release]).
Proof.
  intros Hb Hc release rolled_back raised.
  destruct (beginTransaction_links rt h h0 Hb) as [Hpool Hconn].
  split; [|split; [exact Hpool|split; [exact Hconn|split]]].
  2: { intros E. subst release. rewrite E, Hpool. reflexivity. }
  2: { intros _ E. subst release. rewrite E. reflexivity. }
  unfold transaction. unfold bind at 1. rewrite Hb.
  unfold try_finally, try_catch. unfold bind at 1. unfold bind at 1.
  unfold effect_ at 1. unfold modify at 1. rewrite Hc.
  subst release rolled_back raised.
  destruct r as [a|err].
  - unfold bind, driver_call, bind, effect_, modify, emit, effect_, modify,
      read, when, ret, throw. simpl.
    destruct (conn_commit rt) as [ec|]; simpl.
    + destruct (conn_rollback rt) as [er|]; simpl;
        destruct (pool h1); simpl; rewrite <- ?app_assoc, ?app_nil_r;
        simpl; rewrite ?set_trace_id; reflexivity.
    + destruct (pool h1); simpl; rewrite <- ?app_assoc, ?app_nil_r;
        reflexivity.
  - unfold bind, driver_call, bind, effect_, modify, emit, effect_, modify,
      read, when, ret, throw. simpl.
    destruct (conn_rollback rt) as [er|]; simpl;
      destruct (pool h1); simpl; rewrite <- ?app_assoc, ?app_nil_r;
      reflexivity.
Qed.

Lemma transaction_outcome_witness :
  let out := transaction accepting (throw (A := value) (Error "boom"))
                         (set_pool true (create default_settings [])) in
  fst out = Throw (Error "Transaction failed: boom") /\
  trace (snd out)
  = [ GetConnection; BeginTransaction; Emit transactionStarted; Callback;
      Rollback; Emit (transactionRolledBack "boom"); Release ].
Proof.
  intros out. subst out.
  destruct (transaction_outcome accepting (throw (A := value) (Error "boom"))
              (set_pool true (create default_settings []))
              (snd (beginTransaction accepting
                      (set_pool true (create default_settings []))))
              (Throw (Error "boom"))
              (set_trace
                 [GetConnection; BeginTransaction; Emit transactionStarted;
                  Callback]
                 (set_pool true (create default_settings [])))
              ltac:(vm_compute; reflexivity) ltac:(vm_compute; reflexivity))
    as [Hrun _].
  rewrite Hrun. vm_compute. split; reflexivity.
Defined.

(** A callback that creates the pool of a helper without one: the
    transaction runs on the standalone connection, and the release step
    calls [release] on it. *)
Example transaction_releases_after_createPool :
  let out := transaction accepting createPool
                         (create default_settings []) in
  fst out = Ok tt /\
  trace (snd out)
  = [ CreateConnection 1; Emit connected; BeginTransaction;
      Emit transactionStarted; Callback; Emit poolCreated; Commit;
      Emit transactionCommitted; Release ].
Proof. vm_compute. split; reflexivity. Qed.

End Transactions.

(* ===================================================================== *)
(** * Automatic timestamps *)
(* ===================================================================== *)

Section Timestamps.

Import MySQLHelper Samples.

Lemma bind_inv {S A B : Type} (m : M S A) (k : A -> M S B) (s : S)
      (r : res B) (s' : S) :
  bind m k s = (r, s') ->
  (exists a s1, m s = (Ok a, s1) /\ k a s1 = (r, s')) \/
  (exists e, m s = (Throw e, s') /\ r = Throw e).
Proof.
  unfold bind. destruct (m s) as [[a|e] s1]; intros H.
  - left. eauto.
  - right. inversion H; subst. eauto.
Qed.

Lemma respects_weaken {S A : Type} (R R' : S -> S -> Prop) (m : M S A) :
  (forall s s', R s s' -> R' s s') -> respects R m -> respects R' m.
Proof. intros HR Hm s r s' H. apply HR. exact (Hm s r s' H). Qed.

Lemma get_set_same (k : string) (v : value) (o : object) :
  Js.get k (Js.set k v o) = v.
Proof.
  induction o as [|[k' v'] o IH]; simpl.
  - rewrite String.eqb_refl. reflexivity.
  - destruct (String.eqb k k') eqn:E; simpl; rewrite E; [reflexivity|exact IH].
Qed.

Lemma get_set_other (k k' : string) (v : value) (o : object) :
  k <> k' -> Js.get k (Js.set k' v o) = Js.get k o.
Proof.
  intros Hne. induction o as [|[k'' v''] o IH]; simpl.
  - destruct (String.eqb_spec k k'); [congruence|reflexivity].
  - destruct (String.eqb k' k'') eqn:E; simpl.
    + apply String.eqb_eq in E. subst k''.
      destruct (String.eqb_spec k k'); [congruence|reflexivity].
    + destruct (String.eqb k k''); [reflexivity|exact IH].
Qed.

(** A property with a truthy value is not assigned by the stamping. *)
Lemma stamped_keeps_truthy (s : settings) (date : value) (isUpdate : bool)
      (d : object) (col : string) :
  truthy (Js.get col d) = true ->
  Js.get col (stamped s date isUpdate d) = Js.get col d.
Proof.
  intros Ht. unfold stamped.
  assert (Hset : forall k o,
             negb (truthy (Js.get k d)) = true ->
             Js.get col (Js.set k date o) = Js.get col o).
  { intros k o Hk. apply get_set_other. intros ->.
    rewrite Ht in Hk. discriminate Hk. }
  destruct (negb isUpdate && negb (String.eqb (createdAtColumn s) "")
            && negb (truthy (Js.get (createdAtColumn s) d))) eqn:E1;
    destruct (negb (String.eqb (updatedAtColumn s) "")
              && negb (truthy (Js.get (updatedAtColumn s) d))) eqn:E2;
    try reflexivity.
  - apply andb_true_iff in E1 as [_ E1]. apply andb_true_iff in E2 as [_ E2].
    rewrite (Hset _ _ E2). apply (Hset _ _ E1).
  - apply andb_true_iff in E1 as [_ E1]. apply (Hset _ _ E1).
  - apply andb_true_iff in E2 as [_ E2]. apply (Hset _ _ E2).
Qed.

Lemma addTimestamps_off (rt : Runtime) (h : t) (data : loc)
      (isUpdate : bool) :
  timestamps (config h) = false ->
  _addTimestamps rt data isUpdate h = (Ok data, h).
Proof.
  intros Hoff. unfold _addTimestamps, bind, read. simpl.
  rewrite Hoff. reflexivity.
Qed.

(** With timestamps on, [_addTimestamps] reads the clock, allocates one
    object - the stamped copy - and returns the reference to it. *)
Lemma addTimestamps_on (rt : Runtime) (h : t) (data : loc) (d : object)
      (isUpdate : bool) :
  timestamps (config h) = true ->
  heap h !! data = Some d ->
  _addTimestamps rt data isUpdate h
  = (Ok (length (heap h)),
     set_heap (heap h ++ [stamped (config h) (VDate (Date_now rt (ticks h)))
                                  isUpdate d])
              (set_ticks (S (ticks h)) h)).
Proof.
  intros Hon Hd.
  assert (Hd' : forall x : object, (heap h ++ [x]) !! data = Some d).
  { intros x. apply lookup_app_l_Some. exact Hd. }
  assert (Hnew : forall x : object,
             (heap h ++ [x]) !! length (heap h) = Some x).
  { intros x. apply list_lookup_middle. reflexivity. }
  assert (Hins : forall x y : object,
             <[length (heap h) := y]> (heap h ++ [x]) = heap h ++ [y]).
  { intros x y. rewrite insert_app_r_alt by reflexivity.
    rewrite Nat.sub_diag. reflexivity. }
  unfold _addTimestamps, bind, read, now, deref, alloc, when, assign, bind,
    deref, read, modify, ret, nonempty_string, stamped.
  cbn -[lookup insert]. rewrite Hon. cbn -[lookup insert].
  unfold object, loc in *.
  rewrite Hd. cbn -[lookup insert]. rewrite !Hd'. cbn -[lookup insert].
  destruct (negb isUpdate && negb (String.eqb (createdAtColumn (config h)) "")
            && negb (truthy (Js.get (createdAtColumn (config h)) d)));
    cbn -[lookup insert]; rewrite ?Hnew; cbn -[lookup insert];
    rewrite ?Hins; cbn -[lookup insert]; rewrite ?Hd'; cbn -[lookup insert];
    destruct (negb (String.eqb (updatedAtColumn (config h)) "")
              && negb (truthy (Js.get (updatedAtColumn (config h)) d)));
    cbn -[lookup insert]; rewrite ?Hnew; cbn -[lookup insert];
    rewrite ?Hins; reflexivity.
Qed.

Lemma evolves_heap_lookup (P : effect -> Prop) (h h' : t) (l : loc)
      (o : object) :
  evolves P h h' -> heap h !! l = Some o -> heap h' !! l = Some o.
Proof.
  intros (_ & _ & [more Hm] & _) Ho. rewrite Hm.
  apply lookup_app_l_Some. exact Ho.
Qed.

Lemma query_effect_compiles (sql : string) (params : list value)
      (h h' : t) :
  evolves (query_effect sql params) h h' ->
  evolves (compiles_to sql params) h h'.
Proof.
  apply evolves_weaken. intros [] He; simpl in *; try exact I; exact He.
Qed.

(** [insert] after its first step: the statement executed, if any, is
    compiled from the object that [timestampedData] refers to. *)
Lemma insert_from (rt : Runtime) (table : string) (data : loc)
      (opts : crud_options) (h hA : t) (td : loc) (o : object)
      (r : res insert_result) (h' : t) :
  (if skipTimestamps opts then ret data else _addTimestamps rt data false) h
  = (Ok td, hA) ->
  heap hA !! td = Some o ->
  insert rt table data opts h = (r, h') ->
  evolves (compiles_to (insert_sql table o) (values o)) hA h'.
Proof.
  intros H1 Ho Hrun. unfold insert in Hrun.
  unfold bind at 1 in Hrun. rewrite H1 in Hrun.
  apply bind_inv in Hrun as [(u & hB & Hh & Hrest)|(e & Hh & ->)].
  2: { eapply evolves_runHooks; [|exact Hh]. intros; exact I. }
  assert (EB : evolves (compiles_to (insert_sql table o) (values o)) hA hB).
  { eapply evolves_runHooks; [|exact Hh]. intros; exact I. }
  transitivity hB; [exact EB|].
  pose proof (evolves_heap_lookup _ _ _ _ _ EB Ho) as HoB.
  unfold bind at 1 in Hrest. unfold deref at 1, read at 1 in Hrest.
  unfold object, loc in *. rewrite HoB in Hrest. cbn -[query] in Hrest.
  revert Hrest. generalize hB r h'.
  change (respects (evolves (compiles_to (insert_sql table o) (values o)))
            (bind (query rt (insert_sql table o) (values o) no_options)
               (fun result =>
                  bind (_runHooks "afterInsert"
                          (AfterInsertData table td (result_insertId result)
                             (result_affectedRows result)))
                       (fun _ => ret {| insertId := result_insertId result;
                                        affectedRows :=
                                          result_affectedRows result |})))).
  rule respects_bind.
  - eapply respects_weaken; [|apply evolves_query].
    apply query_effect_compiles.
  - intros result. rule respects_bind; [|intros _; rule respects_ret].
    apply evolves_runHooks. intros; exact I.
Qed.

Lemma update_from (rt : Runtime) (table : string) (data : loc)
      (where_ : object) (opts : crud_options) (h hA : t) (td : loc)
      (o : object) (r : res update_result) (h' : t) :
  (if skipTimestamps opts then ret data else _addTimestamps rt data true) h
  = (Ok td, hA) ->
  heap hA !! td = Some o ->
  update rt table data where_ opts h = (r, h') ->
  evolves (compiles_to (update_sql table o where_)
                       (values o ++ values where_)) hA h'.
Proof.
  intros H1 Ho Hrun. unfold update in Hrun.
  unfold bind at 1 in Hrun. rewrite H1 in Hrun.
  apply bind_inv in Hrun as [(u & hB & Hh & Hrest)|(e & Hh & ->)].
  2: { eapply evolves_runHooks; [|exact Hh]. intros; exact I. }
  assert (EB : evolves (compiles_to (update_sql table o where_)
                                    (values o ++ values where_)) hA hB).
  { eapply evolves_runHooks; [|exact Hh]. intros; exact I. }
  transitivity hB; [exact EB|].
  pose proof (evolves_heap_lookup _ _ _ _ _ EB Ho) as HoB.
  unfold bind at 1 in Hrest. unfold deref at 1, read at 1 in Hrest.
  unfold object, loc in *. rewrite HoB in Hrest. cbn -[query] in Hrest.
  revert Hrest. generalize hB r h'.
  change (respects (evolves (compiles_to (update_sql table o where_)
                                         (values o ++ values where_)))
            (bind (query rt (update_sql table o where_)
                         (values o ++ values where_) no_options)
               (fun result =>
                  bind (_runHooks "afterUpdate"
                          (AfterUpdateData table td where_
                             (result_affectedRows result)
                             (result_changedRows result)))
                       (fun _ =>
                          ret {| upd_affectedRows :=
                                   result_affectedRows result;
                                 upd_changedRows :=
                                   result_changedRows result |})))).
  rule respects_bind.
  - eapply respects_weaken; [|apply evolves_query].
    apply query_effect_compiles.
  - intros result. rule respects_bind; [|intros _; rule respects_ret].
    apply evolves_runHooks. intros; exact I.
Qed.

(** The first step of [insert] and [update]. *)
Lemma timestamping_step (rt : Runtime) (h : t) (data : loc) (d : object)
      (opts : crud_options) (isUpdate : bool) :
  heap h !! data = Some d ->
  exists td hA,
    (if skipTimestamps opts then ret data
     else _addTimestamps rt data isUpdate) h = (Ok td, hA) /\
    heap hA !! td = Some (compiled_from rt h opts isUpdate d) /\
    (forall P, evolves P h hA).
Proof.
  intros Hd. unfold compiled_from.
  destruct (skipTimestamps opts); simpl.
  - exists data, h. split; [reflexivity|]. split; [exact Hd|].
    intros P. reflexivity.
  - destruct (timestamps (config h)) eqn:Hon; simpl.
    + rewrite (addTimestamps_on rt h data d isUpdate Hon Hd).
      eexists. eexists. split; [reflexivity|]. split.
      * simpl. apply list_lookup_middle. reflexivity.
      * intros P. repeat split; simpl.
        -- eexists. reflexivity.
        -- exists []. split; [symmetry; apply app_nil_r|constructor].
    + rewrite (addTimestamps_off rt h data isUpdate Hon).
      exists data, h. split; [reflexivity|]. split; [exact Hd|].
      intros P. reflexivity.
Qed.

(** C10, as stated, fails: the caller sets [created_at] to null and
    [updated_at] to zero, and the statement binds the current time to
    both. *)
Lemma caller_timestamps_preserved_counterexample :
  heap helper_with_rows !! 0%nat
  = Some [("name", VStr "Ann"); ("created_at", VNull);
          ("updated_at", VNum 0)] /\
  In (Execute "INSERT INTO users (name, created_at, updated_at) VALUES (?, ?, ?)"
              [VStr "Ann"; VDate 1000; VDate 1000])
     (trace (snd (insert accepting "users" 0%nat
                         {| skipTimestamps := false |} helper_with_rows))).
Proof. vm_compute. split; [reflexivity|]. auto 10. Qed.

(** C10 (amended). [insert] and [update] leave every object of the
    caller as it is: with timestamps on and not skipped they work on a
    copy, a new object.  The statement they execute, if any, is compiled
    from that copy (or from the caller's object itself when timestamps
    are off or skipped), in which every property that the caller set to
    a truthy value has the caller's value.  (A created-at or updated-at
    property that is null, zero, empty or false is assigned the current
    time, like an absent one.) *)
Theorem caller_timestamps_preserved (rt : Runtime) (h : t) (table : string)
        (data : loc) (d : object) (opts : crud_options) :
  heap h !! data = Some d ->
  (forall r h',
      insert rt table data opts h = (r, h') ->
      evolves (compiles_to
                 (insert_sql table (compiled_from rt h opts false d))
                 (values (compiled_from rt h opts false d))) h h' /\
      heap h' !! data = Some d) /\
  (forall where_ r h',
      update rt table data where_ opts h = (r, h') ->
      evolves (compiles_to
                 (update_sql table (compiled_from rt h opts true d) where_)
                 (values (compiled_from rt h opts true d) ++ values where_))
              h h' /\
      heap h' !! data = Some d) /\
  (forall isUpdate col,
      truthy (Js.get col d) = true ->
      Js.get col (compiled_from rt h opts isUpdate d) = Js.get col d) /\
  (timestamps (config h) = true ->
   forall isUpdate,
     exists h1,
       _addTimestamps rt data isUpdate h = (Ok (length (heap h)), h1) /\
       length (heap h) <> data /\
       heap h1 = heap h ++ [stamped (config h)
                                    (VDate (Date_now rt (ticks h)))
                                    isUpdate d]).
Proof.
  intros Hd. split; [|split; [|split]].
  - intros r h' Hrun.
    destruct (timestamping_step rt h data d opts false Hd)
      as (td & hA & Hstep & Ho & HA).
    pose proof (insert_from rt table data opts h hA td _ r h' Hstep Ho Hrun)
      as E.
    assert (E' : evolves (compiles_to
                            (insert_sql table (compiled_from rt h opts false d))
                            (values (compiled_from rt h opts false d))) h h').
    { transitivity hA; [apply HA|exact E]. }
    split; [exact E'|]. exact (evolves_heap_lookup _ _ _ _ _ E' Hd).
  - intros where_ r h' Hrun.
    destruct (timestamping_step rt h data d opts true Hd)
      as (td & hA & Hstep & Ho & HA).
    pose proof (update_from rt table data where_ opts h hA td _ r h'
                            Hstep Ho Hrun) as E.
    assert (E' : evolves (compiles_to
                            (update_sql table (compiled_from rt h opts true d)
                                        where_)
                            (values (compiled_from rt h opts true d)
                             ++ values where_)) h h').
    { transitivity hA; [apply HA|exact E]. }
    split; [exact E'|]. exact (evolves_heap_lookup _ _ _ _ _ E' Hd).
  - intros isUpdate col Ht. unfold compiled_from.
    destruct (skipTimestamps opts || negb (timestamps (config h)));
      [reflexivity|]. apply stamped_keeps_truthy. exact Ht.
  - intros Hon isUpdate.
    rewrite (addTimestamps_on rt h data d isUpdate Hon Hd).
    eexists. split; [reflexivity|]. split; [|reflexivity].
    apply lookup_lt_Some in Hd. lia.
Qed.

Lemma caller_timestamps_preserved_witness :
  Js.get "created_at"
         (compiled_from accepting helper_with_rows
                        {| skipTimestamps := false |} false
                        row_with_timestamps)
  = VStr "2020-01-01" /\
  heap (snd (insert accepting "users" 1%nat {| skipTimestamps := false |}
                    helper_with_rows)) !! 1%nat
  = Some row_with_timestamps.
Proof.
  destruct (caller_timestamps_preserved accepting helper_with_rows "users"
              1%nat row_with_timestamps {| skipTimestamps := false |}
              eq_refl) as (Hins & _ & Hkeep & _).
  split.
  - rewrite (Hkeep false "created_at" eq_refl). reflexivity.
  - destruct (insert accepting "users" 1%nat {| skipTimestamps := false |}
                     helper_with_rows) as [r h'] eqn:E.
    exact (proj2 (Hins r h' eq_refl)).
Defined.

End Timestamps.

(* ===================================================================== *)
(** * Batch insertion *)
(* ===================================================================== *)

Section Answered.

Import MySQLHelper.

Variable rt : Runtime.

Lemma marks_app (a b : list effect) : marks (a ++ b) = marks a ++ marks b.
Proof. apply omap_app. Qed.

Lemma marks_hook_calls (name : string) (cbs : list callback) :
  marks (map (fun cb => HookCall name (cb_id cb)) cbs) = [].
Proof. induction cbs as [|cb cbs IH]; [reflexivity|exact IH]. Qed.

Global Instance silent_preorder : PreOrder silent.
Proof.
  split.
  - intros h. repeat split.
  - intros h1 h2 h3 (C1 & K1 & T1) (C2 & K2 & T2).
    repeat split; congruence.
Qed.

Lemma succeeds_ret {A : Type} (R : t -> t -> Prop) `{!Reflexive R} (a : A) :
  succeeds R (ret a).
Proof. intros h. exists a, h. split; reflexivity. Qed.

Lemma succeeds_read {A : Type} (R : t -> t -> Prop) `{!Reflexive R}
      (f : t -> A) :
  succeeds R (read f).
Proof. intros h. exists (f h), h. split; reflexivity. Qed.

Lemma succeeds_bind {A B : Type} (R : t -> t -> Prop) `{!Transitive R}
      (m : M t A) (k : A -> M t B) :
  succeeds R m -> (forall a, succeeds R (k a)) -> succeeds R (bind m k).
Proof.
  intros Hm Hk h. destruct (Hm h) as (a & h1 & E1 & R1).
  destruct (Hk a h1) as (b & h2 & E2 & R2).
  exists b, h2. unfold bind. rewrite E1. split; [exact E2|].
  transitivity h1; assumption.
Qed.

Lemma succeeds_when (R : t -> t -> Prop) `{!Reflexive R} (c : bool)
      (m : M t unit) :
  succeeds R m -> succeeds R (when c m).
Proof. intros Hm. destruct c; [exact Hm|apply succeeds_ret; assumption]. Qed.

Lemma succeeds_now : succeeds silent (now rt).
Proof. intros h. eexists. eexists. split; [reflexivity|]. repeat split. Qed.

Lemma succeeds_heap (f : t -> list object) :
  succeeds silent (modify (fun h => set_heap (f h) h)).
Proof. intros h. eexists. eexists. split; [reflexivity|]. repeat split. Qed.

Lemma succeeds_alloc (o : object) : succeeds silent (alloc o).
Proof. intros h. eexists. eexists. split; [reflexivity|]. repeat split. Qed.

Lemma succeeds_deref (l : loc) : succeeds silent (deref l).
Proof. apply succeeds_read. apply _. Qed.

Lemma succeeds_assign (l : loc) (k : string) (v : value) :
  succeeds silent (assign l k v).
Proof.
  unfold assign. apply succeeds_bind; [apply _|apply succeeds_deref|].
  intros o. apply (succeeds_heap (fun h => <[l := Js.set k v o]> (heap h))).
Qed.

(** [_addTimestamps] never throws and has no effect on the outside. *)
Lemma succeeds_addTimestamps (data : loc) (isUpdate : bool) :
  succeeds silent (_addTimestamps rt data isUpdate).
Proof.
  unfold _addTimestamps.
  apply succeeds_bind; [apply _|apply succeeds_read; apply _|].
  intros enabled. destruct (negb enabled); [apply succeeds_ret; apply _|].
  apply succeeds_bind; [apply _|apply succeeds_now|]. intros ms.
  apply succeeds_bind; [apply _|apply succeeds_deref|]. intros d.
  apply succeeds_bind; [apply _|apply succeeds_alloc|]. intros td.
  apply succeeds_bind; [apply _|apply succeeds_read; apply _|]. intros c.
  apply succeeds_bind; [apply _|apply succeeds_deref|]. intros d1.
  apply succeeds_bind.
  { apply _. }
  { apply succeeds_when; [apply _|apply succeeds_assign]. }
  intros _.
  apply succeeds_bind; [apply _|apply succeeds_read; apply _|]. intros u.
  apply succeeds_bind; [apply _|apply succeeds_deref|]. intros d2.
  apply succeeds_bind.
  { apply _. }
  { apply succeeds_when; [apply _|apply succeeds_assign]. }
  intros _. apply succeeds_ret. apply _.
Qed.

Lemma succeeds_mapM {A B : Type} (f : A -> M t B) (xs : list A) :
  (forall x, succeeds silent (f x)) -> succeeds silent (mapM f xs).
Proof.
  intros Hf. induction xs as [|x xs IH]; simpl.
  - apply succeeds_ret. apply _.
  - apply succeeds_bind; [apply _|apply Hf|]. intros y.
    apply succeeds_bind; [apply _|exact IH|]. intros ys.
    apply succeeds_ret. apply _.
Qed.

(** ** A statement is answered once *)

Lemma execute_and_store_ok (h0 : t) (sql : string) (params : list value)
      (o : query_options) (ts : Z) :
  always_accepts rt -> calm h0 ->
  exists rows h1,
    execute_and_store rt sql params o ts h0 = (Ok rows, h1) /\
    marked [Answered] h0 h1.
Proof.
  intros Hok [Hb Ha].
  destruct (Hok (executed h0) sql params) as [rows Hr]. exists rows.
  unfold execute_and_store, _runHooks.
  unfold bind at 1. unfold bind at 1. unfold read at 1.
  simpl. rewrite run_callbacks_run, (hook_outcome_harmless _ _ _ Hb).
  unfold bind, read, when, createPool, bind, read, modify, emit, effect_,
    modify, now, driver_execute, bind, read, modify, effect_, modify,
    use_cache, bind, read, ret, _setCache, bind, read, now, modify.
  simpl.
  destruct (pool h0) eqn:Hpool; destruct (connection h0) eqn:Hconn;
    simpl; rewrite ?Hpool; simpl; rewrite Hr; simpl;
    destruct (logQueries (config h0)); simpl;
    rewrite run_callbacks_run, (hook_outcome_harmless _ _ _ Ha); simpl;
    destruct (cacheEnabled (config h0) && cache_not_false o); simpl;
    eexists; (split; [reflexivity|]);
    (split; [reflexivity|]); (split; [reflexivity|]); simpl;
    eexists; (split; [rewrite <- !app_assoc; reflexivity|]);
    rewrite !marks_app, !marks_hook_calls; reflexivity.
Qed.

Lemma query_ok (h : t) (sql : string) (params : list value)
      (o : query_options) :
  always_accepts rt -> calm h ->
  exists rows h',
    query rt sql params o h = (Ok rows, h') /\ marked [Answered] h h'.
Proof.
  intros Hok Hcalm.
  assert (Hmiss : forall h0 : t,
             config h0 = config h -> hooks h0 = hooks h ->
             trace h0 = trace h ->
             exists rows h',
               try_catch (execute_and_store rt sql params o
                            (Date_now rt (ticks h)))
                         (on_failure sql params (Date_now rt (ticks h))) h0
               = (Ok rows, h') /\ marked [Answered] h h').
  { intros h0 C K T.
    assert (Hcalm0 : calm h0) by (unfold calm; rewrite K; exact Hcalm).
    destruct (execute_and_store_ok h0 sql params o (Date_now rt (ticks h))
                Hok Hcalm0) as (rows & h1 & Hx & C1 & K1 & new & T1 & M1).
    exists rows, h1. unfold try_catch. rewrite Hx. split; [reflexivity|].
    split; [congruence|]. split; [congruence|].
    exists new. split; [congruence|exact M1]. }
  destruct (cacheEnabled (config h) && cache_not_false o) eqn:E.
  - apply andb_true_iff in E as [He Ho].
    destruct (cache h !! _getCacheKey rt sql params) as [entry|] eqn:Hc.
    + destruct (Z.lt_ge_cases (Date_now rt (S (ticks h))) (expiry entry))
        as [Hlt|Hge].
      * rewrite (query_hit rt h sql params o entry He Ho Hc Hlt).
        eexists. eexists. split; [reflexivity|].
        split; [reflexivity|]. split; [reflexivity|].
        eexists. split; reflexivity.
      * rewrite (query_expired rt h sql params o entry He Ho Hc Hge).
        apply Hmiss; reflexivity.
    + rewrite (query_miss rt h sql params o (or_intror Hc)).
      apply Hmiss; reflexivity.
  - rewrite (query_miss rt h sql params o (or_introl E)).
    apply Hmiss; reflexivity.
Qed.

Lemma insertMany_ok (h : t) (table : string) (dataArray : list loc)
      (opts : crud_options) :
  always_accepts rt -> calm h -> dataArray <> [] ->
  exists r h',
    insertMany rt table dataArray opts h = (Ok r, h') /\
    marked [Answered] h h'.
Proof.
  intros Hok Hcalm Hne. unfold insertMany.
  destruct dataArray as [|x xs]; [congruence|].
  change ((length (x :: xs) =? 0)%nat) with false. cbv iota.
  assert (H1 : succeeds silent
                 (if skipTimestamps opts then ret (x :: xs)
                  else mapM (fun d => _addTimestamps rt d false) (x :: xs))).
  { destruct (skipTimestamps opts); [apply succeeds_ret; apply _|].
    apply succeeds_mapM. intros d. apply succeeds_addTimestamps. }
  destruct (H1 h) as (ts & h1 & E1 & C1 & K1 & T1).
  destruct (succeeds_mapM deref ts succeeds_deref h1)
    as (rows & h2 & E2 & C2 & K2 & T2).
  assert (Hcalm2 : calm h2).
  { unfold calm. rewrite K2, K1. exact Hcalm. }
  destruct (query_ok h2 (insertMany_sql table rows) (flat_map values rows)
              no_options Hok Hcalm2)
    as (result & h3 & E3 & C3 & K3 & new & T3 & M3).
  unfold bind. rewrite E1, E2, E3.
  eexists. eexists. split; [reflexivity|].
  split; [congruence|]. split; [congruence|].
  exists new. split; [congruence|exact M3].
Qed.

End Answered.

Section Chunks.

Import MySQLHelper.

Context {A : Type}.

(** Within the array, a slice is a run of consecutive elements. *)
Lemma slice_in_range (xs : list A) (a e : Z) :
  0 <= a -> a <= e -> e <= Z.of_nat (length xs) ->
  slice xs a e = firstn (Z.to_nat e - Z.to_nat a) (skipn (Z.to_nat a) xs).
Proof.
  intros Ha Hae He. unfold slice, slice_index.
  destruct (Z.ltb_spec a 0); [lia|]. destruct (Z.ltb_spec e 0); [lia|].
  rewrite !Z.min_l by lia. f_equal. lia.
Qed.

Lemma slice_length (xs : list A) (a e : Z) :
  0 <= a -> a <= e -> e <= Z.of_nat (length xs) ->
  length (slice xs a e) = Z.to_nat (e - a).
Proof.
  intros Ha Hae He. rewrite slice_in_range by assumption.
  rewrite length_take, length_drop. lia.
Qed.

Lemma slice_app (xs : list A) (a b e : Z) :
  0 <= a -> a <= b -> b <= e -> e <= Z.of_nat (length xs) ->
  slice xs a b ++ slice xs b e = slice xs a e.
Proof.
  intros Ha Hab Hbe He. rewrite !slice_in_range by lia.
  replace (skipn (Z.to_nat b) xs)
    with (skipn (Z.to_nat b - Z.to_nat a) (skipn (Z.to_nat a) xs)).
  2: { rewrite drop_drop. f_equal. lia. }
  rewrite take_take_drop. f_equal. lia.
Qed.

Lemma slice_all (xs : list A) : slice xs 0 (Z.of_nat (length xs)) = xs.
Proof.
  rewrite slice_in_range by lia. simpl.
  rewrite Nat2Z.id, Nat.sub_0_r. apply firstn_all.
Qed.

Lemma slice_Forall (P : A -> Prop) (xs : list A) (a e : Z) :
  Forall P xs -> Forall P (slice xs a e).
Proof.
  intros H. unfold slice. apply Forall_take, Forall_drop. exact H.
Qed.

(** The batch of iteration [i] (counted from zero) is chunk [i + 1]. *)
Lemma chunk_of_iteration (xs : list A) (c i : Z) :
  slice xs (i * c) (Z.min (i * c + c) (Z.of_nat (length xs)))
  = chunk xs c (i + 1).
Proof. unfold chunk. replace (i + 1 - 1) with i by lia. reflexivity. Qed.

Lemma chunk_length (xs : list A) (c k : Z) :
  0 < c -> 1 <= k -> (k - 1) * c < Z.of_nat (length xs) ->
  length (chunk xs c k)
  = Z.to_nat (Z.min c (Z.of_nat (length xs) - (k - 1) * c)).
Proof.
  intros Hc Hk Hlt. unfold chunk. rewrite slice_length by nia.
  f_equal. lia.
Qed.

Lemma chunks_upto (xs : list A) (c : Z) (m : nat) (i : Z) :
  0 < c -> 0 <= i ->
  concat (map (chunk xs c) (zseq (i + 1) m))
  = slice xs (Z.min (i * c) (Z.of_nat (length xs)))
          (Z.min ((i + Z.of_nat m) * c) (Z.of_nat (length xs))).
Proof.
  intros Hc. revert i. induction m as [|m IH]; intros i Hi.
  - simpl. rewrite Z.add_0_r. rewrite slice_in_range by nia.
    rewrite Nat.sub_diag. reflexivity.
  - change (zseq (i + 1) (S m)) with ((i + 1) :: zseq (i + 1 + 1) m).
    simpl. rewrite IH by lia.
    unfold chunk. replace (i + 1 - 1) with i by lia.
    set (n := Z.of_nat (length xs)).
    replace ((i + 1 + Z.of_nat m) * c) with ((i + Z.of_nat (S m)) * c) by lia.
    replace (i * c + c) with ((i + 1) * c) by lia.
    assert (E : slice xs (i * c) (Z.min ((i + 1) * c) n)
                = slice xs (Z.min (i * c) n) (Z.min ((i + 1) * c) n)).
    { unfold slice, slice_index. fold n.
      destruct (Z.ltb_spec (i * c) 0); [nia|].
      destruct (Z.ltb_spec (Z.min (i * c) n) 0); [nia|].
      rewrite (Z.min_l (Z.min (i * c) n) n) by lia. reflexivity. }
    rewrite E. apply slice_app; subst n; nia.
Qed.

Lemma Forall_zseq (P : Z -> Prop) (i : Z) (n : nat) :
  (forall k, i <= k < i + Z.of_nat n -> P k) -> Forall P (zseq i n).
Proof.
  revert i. induction n as [|n IH]; intros i H; simpl; constructor.
  - apply H. lia.
  - apply IH. intros k Hk. apply H. lia.
Qed.

End Chunks.

Section Ceiling.

(** [ceil_div n c] is the least [b] with [n <= b * c]. *)
Lemma ceil_div_spec (n c : Z) :
  0 < c -> 0 < n ->
  exists b, ceil_div n c = Int b /\ 0 < b /\ (b - 1) * c < n <= b * c.
Proof.
  intros Hc Hn. exists (- ((- n) / c)). unfold ceil_div.
  destruct (Z.eqb_spec c 0); [lia|]. split; [reflexivity|].
  pose proof (Z.div_mod (- n) c ltac:(lia)) as Hdm.
  pose proof (Z.mod_pos_bound (- n) c Hc) as Hm.
  nia.
Qed.

End Ceiling.

Section CompiledRows.

Import MySQLHelper.

Variable rt : Runtime.

Lemma answers_app (a b : list effect) :
  answers (a ++ b) = answers a ++ answers b.
Proof. apply omap_app. Qed.

Lemma answers_hook_calls (name : string) (cbs : list callback) :
  answers (map (fun cb => HookCall name (cb_id cb)) cbs) = [].
Proof. induction cbs as [|cb cbs IH]; [reflexivity|exact IH]. Qed.

Lemma statements_app (a b : list effect) :
  statements_of (a ++ b) = statements_of a ++ statements_of b.
Proof. apply omap_app. Qed.

Lemma statements_hook_calls (name : string) (cbs : list callback) :
  statements_of (map (fun cb => HookCall name (cb_id cb)) cbs) = [].
Proof. induction cbs as [|cb cbs IH]; [reflexivity|exact IH]. Qed.

(** ** One statement, answered *)

Lemma execute_and_store_answers (h0 : t) (sql : string)
      (params : list value) (o : query_options) (ts : Z) :
  always_accepts rt -> calm h0 ->
  exists rows h1,
    execute_and_store rt sql params o ts h0 = (Ok rows, h1) /\
    answered_once sql params h0 h1.
Proof.
  intros Hok [Hb Ha].
  destruct (Hok (executed h0) sql params) as [rows Hr]. exists rows.
  unfold execute_and_store, _runHooks.
  unfold bind at 1. unfold bind at 1. unfold read at 1.
  simpl. rewrite run_callbacks_run, (hook_outcome_harmless _ _ _ Hb).
  unfold bind, read, when, createPool, bind, read, modify, emit, effect_,
    modify, now, driver_execute, bind, read, modify, effect_, modify,
    use_cache, bind, read, ret, _setCache, bind, read, now, modify.
  simpl.
  destruct (pool h0) eqn:Hpool; destruct (connection h0) eqn:Hconn;
    simpl; rewrite ?Hpool; simpl; rewrite Hr; simpl;
    destruct (logQueries (config h0)); simpl;
    rewrite run_callbacks_run, (hook_outcome_harmless _ _ _ Ha); simpl;
    destruct (cacheEnabled (config h0) && cache_not_false o); simpl;
    eexists; (split; [reflexivity|]);
    unfold answered_once; simpl;
    (split; [reflexivity|]); (split; [reflexivity|]);
    (split; [reflexivity|]);
    eexists; (split; [rewrite <- !app_assoc; reflexivity|]);
    (split; [rewrite !answers_app, !answers_hook_calls; reflexivity|]);
    (split; [rewrite !marks_app, !marks_hook_calls; reflexivity|]);
    intros _; rewrite !statements_app, !statements_hook_calls; reflexivity.
Qed.

(** With a driver that accepts and callbacks that return, [query]
    answers its statement once, from the driver or from the cache. *)
Lemma query_answers (h : t) (sql : string) (params : list value)
      (o : query_options) :
  always_accepts rt -> calm h ->
  exists rows h',
    query rt sql params o h = (Ok rows, h') /\
    answered_once sql params h h'.
Proof.
  intros Hok Hcalm.
  assert (Hmiss : forall h0 : t,
             config h0 = config h -> hooks h0 = hooks h ->
             heap h0 = heap h -> trace h0 = trace h ->
             exists rows h',
               try_catch (execute_and_store rt sql params o
                            (Date_now rt (ticks h)))
                         (on_failure sql params (Date_now rt (ticks h))) h0
               = (Ok rows, h') /\ answered_once sql params h h').
  { intros h0 C K Hp T.
    assert (Hcalm0 : calm h0) by (unfold calm; rewrite K; exact Hcalm).
    destruct (execute_and_store_answers h0 sql params o
                (Date_now rt (ticks h)) Hok Hcalm0)
      as (rows & h1 & Hx & C1 & K1 & P1 & new & T1 & A1 & M1 & S1).
    exists rows, h1. unfold try_catch. rewrite Hx. split; [reflexivity|].
    split; [congruence|]. split; [congruence|]. split; [congruence|].
    exists new. split; [congruence|]. split; [assumption|].
    split; [assumption|]. rewrite <- C. exact S1. }
  destruct (cacheEnabled (config h) && cache_not_false o) eqn:E.
  - apply andb_true_iff in E as [He Ho].
    destruct (cache h !! _getCacheKey rt sql params) as [entry|] eqn:Hc.
    + destruct (Z.lt_ge_cases (Date_now rt (S (ticks h))) (expiry entry))
        as [Hlt|Hge].
      * rewrite (query_hit rt h sql params o entry He Ho Hc Hlt).
        eexists. eexists. split; [reflexivity|].
        split; [reflexivity|]. split; [reflexivity|].
        split; [reflexivity|].
        eexists. split; [reflexivity|]. split; [reflexivity|].
        split; [reflexivity|]. congruence.
      * rewrite (query_expired rt h sql params o entry He Ho Hc Hge).
        apply Hmiss; reflexivity.
    + rewrite (query_miss rt h sql params o (or_intror Hc)).
      apply Hmiss; reflexivity.
  - rewrite (query_miss rt h sql params o (or_introl E)).
    apply Hmiss; reflexivity.
Qed.

(** ** The rows of [insertMany] *)

Lemma stamp_all_ext (s : settings) (objects objects' : list object)
      (tick : nat) (ls : list loc) :
  Forall (fun l => objects' !! l = objects !! l) ls ->
  stamp_all rt s objects' tick ls = stamp_all rt s objects tick ls.
Proof.
  intros H. revert tick. induction H as [|l ls Hl Hls IH]; intros tick;
    [reflexivity|].
  cbn [stamp_all]. rewrite IH. unfold object, loc in *. rewrite Hl.
  reflexivity.
Qed.

Lemma length_stamp_all (s : settings) (objects : list object) (tick : nat)
      (ls : list loc) :
  length (stamp_all rt s objects tick ls) = length ls.
Proof.
  revert tick. induction ls as [|l ls IH]; intros tick; [reflexivity|].
  cbn [stamp_all length]. rewrite IH. reflexivity.
Qed.

Lemma within_grows (h h' : t) (ls : list loc) (more : list object) :
  heap h' = heap h ++ more -> within h ls -> within h' ls.
Proof.
  intros Hh. unfold within. apply List.Forall_impl. intros l Hl.
  rewrite Hh, length_app. lia.
Qed.

Lemma object_at_grows (h h' : t) (ls : list loc) (more : list object) :
  heap h' = heap h ++ more -> within h ls ->
  Forall (fun l => heap h' !! l = heap h !! l) ls.
Proof.
  intros Hh. unfold within. apply List.Forall_impl. intros l Hl.
  rewrite Hh. apply lookup_app_l. exact Hl.
Qed.

Lemma rows_at_grows (h h' : t) (skip : bool) (tick : nat) (ls : list loc)
      (more : list object) :
  config h' = config h -> heap h' = heap h ++ more -> within h ls ->
  rows_at rt h' skip tick ls = rows_at rt h skip tick ls.
Proof.
  intros C Hh Hin. unfold rows_at. rewrite C.
  pose proof (object_at_grows h h' ls more Hh Hin) as Hsame.
  destruct (skip || negb (timestamps (config h))).
  - clear Hin. induction Hsame as [|l ls' Hl Hls IH]; [reflexivity|].
    cbn [map]. rewrite IH. unfold object_at, object, loc in *.
    rewrite Hl. reflexivity.
  - apply stamp_all_ext. exact Hsame.
Qed.


(** With timestamps on, the copies are appended to the objects in reach
    and the clock is read once for each. *)
Lemma mapM_addTimestamps_on (ls : list loc) :
  forall h : t,
    timestamps (config h) = true -> within h ls ->
    mapM (fun d => _addTimestamps rt d false) ls h
    = (Ok (seq (length (heap h)) (length ls)),
       set_heap (heap h ++ stamp_all rt (config h) (heap h) (ticks h) ls)
                (set_ticks (ticks h + length ls) h)).
Proof.
  induction ls as [|l ls IH]; intros h Hon Hin.
  - simpl. unfold ret. rewrite app_nil_r, Nat.add_0_r.
    destruct h; reflexivity.
  - inversion Hin as [|? ? Hl Hls]; subst.
    destruct (lookup_lt_is_Some_2 (heap h) l Hl) as [d Hd].
    cbn [mapM]. unfold bind at 1.
    rewrite (addTimestamps_on rt h l d false Hon Hd).
    set (row := stamped (config h) (VDate (Date_now rt (ticks h))) false d).
    set (h1 := set_heap (heap h ++ [row]) (set_ticks (S (ticks h)) h)).
    assert (Hin1 : within h1 ls).
    { apply (within_grows h h1 ls [row]); [reflexivity|exact Hls]. }
    unfold bind at 1. rewrite (IH h1 Hon Hin1). unfold ret.
    assert (Hext : stamp_all rt (config h1) (heap h1) (ticks h1) ls
                   = stamp_all rt (config h) (heap h) (S (ticks h)) ls).
    { apply stamp_all_ext.
      apply (object_at_grows h h1 ls [row]); [reflexivity|exact Hls]. }
    rewrite Hext. f_equal.
    + f_equal. cbn [length seq]. f_equal. subst h1. simpl.
      rewrite length_app. simpl. f_equal. lia.
    + subst h1. simpl. unfold object, loc in *. rewrite Hd. simpl.
      fold row. rewrite <- app_assoc. simpl.
      rewrite <- plus_n_Sm. clearbody row. destruct h; reflexivity.
Qed.

Lemma mapM_addTimestamps_off (ls : list loc) (h : t) :
  timestamps (config h) = false ->
  mapM (fun d => _addTimestamps rt d false) ls h = (Ok ls, h).
Proof.
  intros Hoff. induction ls as [|l ls IH]; [reflexivity|].
  cbn [mapM]. unfold bind at 1.
  rewrite (addTimestamps_off rt h l false Hoff).
  unfold bind. rewrite IH. reflexivity.
Qed.

Lemma mapM_deref (ls : list loc) (h : t) :
  mapM deref ls h = (Ok (map (object_at h) ls), h).
Proof.
  induction ls as [|l ls IH]; [reflexivity|].
  cbn [mapM]. unfold bind at 1. unfold deref at 1, read at 1.
  unfold bind. rewrite IH. reflexivity.
Qed.

Lemma lookup_new_objects (old new : list object) :
  map (fun l => default [] ((old ++ new) !! l))
      (seq (length old) (length new))
  = new.
Proof.
  revert old. induction new as [|x new IH]; intros old; [reflexivity|].
  cbn [length seq map]. rewrite list_lookup_middle by reflexivity.
  simpl. f_equal.
  replace (old ++ x :: new) with ((old ++ [x]) ++ new)
    by (rewrite <- app_assoc; reflexivity).
  replace (S (length old)) with (length (old ++ [x]))
    by (rewrite length_app; simpl; lia).
  apply IH.
Qed.

(** [insertMany] on a non-empty array of objects in reach: the rows are
    compiled without any effect on the outside, and the statement goes
    to [query]. *)
Lemma insertMany_compiles (h : t) (table : string) (ls : list loc)
      (opts : crud_options) :
  ls <> [] -> within h ls ->
  let rows := rows_at rt h (skipTimestamps opts) (ticks h) ls in
  exists h2,
    insertMany rt table ls opts h
    = (let* result := query rt (insertMany_sql table rows)
                            (flat_map values rows) no_options in
       ret {| insertId := result_insertId result;
              affectedRows := result_affectedRows result |}) h2 /\
    config h2 = config h /\ hooks h2 = hooks h /\ trace h2 = trace h /\
    executed h2 = executed h /\ cache h2 = cache h /\
    exists more, heap h2 = heap h ++ more.
Proof.
  intros Hne Hin rows. subst rows. unfold insertMany, rows_at.
  destruct ls as [|x xs]; [congruence|].
  change ((length (x :: xs) =? 0)%nat) with false. cbv iota.
  destruct (skipTimestamps opts) eqn:Hskip; simpl orb.
  - exists h. unfold bind at 1, ret at 1.
    unfold bind at 1. rewrite mapM_deref.
    split; [reflexivity|]. repeat split; try reflexivity.
    exists []. symmetry. apply app_nil_r.
  - destruct (timestamps (config h)) eqn:Hon; simpl negb.
    + eexists. unfold bind at 1.
      rewrite (mapM_addTimestamps_on (x :: xs) h Hon Hin).
      unfold bind at 1. rewrite mapM_deref.
      unfold object_at. cbn [heap set_heap set_ticks].
      pose proof (lookup_new_objects (heap h)
                    (stamp_all rt (config h) (heap h) (ticks h) (x :: xs)))
        as Hnew.
      rewrite length_stamp_all in Hnew. unfold object, loc in *.
      rewrite Hnew.
      split; [reflexivity|]. repeat split; try reflexivity.
      eexists. reflexivity.
    + exists h. unfold bind at 1.
      rewrite (mapM_addTimestamps_off (x :: xs) h Hon).
      unfold bind at 1. rewrite mapM_deref.
      split; [reflexivity|]. repeat split; try reflexivity.
      exists []. symmetry. apply app_nil_r.
Qed.

End CompiledRows.

Section BatchInsert.

Import MySQLHelper Samples.

Lemma progress_signals_marks (tr : list effect) :
  progress_signals tr
  = omap (fun m => match m with
                   | Progress c t p => Some (c, t, p)
                   | Answered => None
                   end) (marks tr).
Proof.
  unfold progress_signals, marks.
  induction tr as [|e tr IH]; [reflexivity|].
  destruct e as [[]| | | | | | | | | |]; simpl;
    first [exact IH | f_equal; exact IH].
Qed.

Lemma marked_nil (h : t) : marked [] h h.
Proof.
  split; [reflexivity|]. split; [reflexivity|].
  exists []. split; [symmetry; apply app_nil_r|reflexivity].
Qed.

(** The loop answers one statement per iteration and signals progress
    after each, in order. *)
Lemma batchInsert_loop_ok (rt : Runtime) (table : string)
      (items : list loc) (c : Z) (batches : jsnum) :
  always_accepts rt -> 0 < c ->
  forall (n : nat) (i : Z) (results : list insert_result) (h : t),
    calm h -> 0 <= i ->
    (i + Z.of_nat n) * c < Z.of_nat (length items) + c ->
    exists rs h',
      batchInsert_loop rt n i table items c batches results h = (Ok rs, h') /\
      length rs = (length results + n)%nat /\
      marked (flat_map
                (fun j => [Answered;
                           Progress (j + 1) batches
                                    (Z.min (j * c + c)
                                           (Z.of_nat (length items)))])
                (zseq i n)) h h'.
Proof.
  intros Hok Hc. induction n as [|n IH]; intros i results h Hcalm Hi Hlast.
  - exists results, h. split; [reflexivity|]. split; [simpl; lia|].
    apply marked_nil.
  - assert (Hne : slice items (i * c)
                        (Z.min (i * c + c) (Z.of_nat (length items))) <> []).
    { intros E. apply (f_equal (@length loc)) in E.
      rewrite slice_length in E by nia. simpl in E. lia. }
    destruct (insertMany_ok rt h table _ {| skipTimestamps := false |}
                Hok Hcalm Hne)
      as (r1 & h1 & E1 & C1 & K1 & new1 & T1 & M1).
    set (h1' := set_trace
                  (trace h1
                   ++ [Emit (batchProgress (i + 1) batches
                               (Z.min (i * c + c)
                                      (Z.of_nat (length items))))]) h1).
    assert (Hcalm1 : calm h1').
    { unfold calm. simpl. rewrite K1. exact Hcalm. }
    destruct (IH (i + 1) (results ++ [r1]) h1' Hcalm1 ltac:(lia) ltac:(lia))
      as (rs & h' & E & L & C & K & new & T & Mk).
    exists rs, h'. split.
    { simpl. unfold bind at 1. rewrite E1.
      unfold bind at 1, emit, effect_, modify. exact E. }
    split; [rewrite L, length_app; simpl; lia|].
    split; [simpl in C; congruence|]. split; [simpl in K; congruence|].
    exists (new1 ++ [Emit (batchProgress (i + 1) batches
                             (Z.min (i * c + c) (Z.of_nat (length items))))]
            ++ new).
    split.
    { rewrite T. simpl. rewrite T1, <- !app_assoc. reflexivity. }
    rewrite !marks_app, M1, Mk. reflexivity.
Qed.

(** Each iteration has the statement of its chunk answered, compiled
    from the rows that were handed in. *)
Lemma batchInsert_loop_answers (rt : Runtime) (table : string)
      (items : list loc) (c : Z) (batches : jsnum) (h0 : t) :
  always_accepts rt -> 0 < c -> within h0 items ->
  forall (n : nat) (i : Z) (results : list insert_result) (h : t)
         (more : list object),
    calm h -> config h = config h0 -> heap h = heap h0 ++ more ->
    0 <= i ->
    (i + Z.of_nat n) * c < Z.of_nat (length items) + c ->
    exists rs h' effects,
      batchInsert_loop rt n i table items c batches results h = (Ok rs, h') /\
      trace h' = trace h ++ effects /\
      Forall2 (fun k st =>
                 exists tick,
                   st = insertMany_statement
                          table (rows_at rt h0 false tick (chunk items c k)))
              (zseq (i + 1) n) (answers effects) /\
      (cacheEnabled (config h0) = false ->
       statements_of effects = answers effects).
Proof.
  intros Hok Hc Hin0.
  induction n as [|n IH]; intros i results h more Hcalm C0 H0 Hi Hlast.
  - exists results, h, []. split; [reflexivity|].
    split; [symmetry; apply app_nil_r|]. split; [constructor|reflexivity].
  - set (batch := slice items (i * c)
                        (Z.min (i * c + c) (Z.of_nat (length items)))).
    assert (Hne : batch <> []).
    { intros E. apply (f_equal (@length loc)) in E. subst batch.
      rewrite slice_length in E by nia. simpl in E. lia. }
    assert (Hb0 : within h0 batch) by (apply slice_Forall; exact Hin0).
    assert (Hb : within h batch) by (apply (within_grows h0 h _ more H0 Hb0)).
    destruct (insertMany_compiles rt h table batch {| skipTimestamps := false |}
                Hne Hb)
      as (h2 & E2 & C2 & K2 & T2 & _ & _ & more2 & H2).
    cbn [skipTimestamps] in E2.
    set (rows := rows_at rt h false (ticks h) batch) in E2.
    assert (Hcalm2 : calm h2) by (unfold calm; rewrite K2; exact Hcalm).
    destruct (query_answers rt h2 (insertMany_sql table rows)
                (flat_map values rows) no_options Hok Hcalm2)
      as (r & h3 & E3 & C3 & K3 & H3 & new & T3 & A3 & _ & S3).
    set (r1 := {| insertId := result_insertId r;
                  affectedRows := result_affectedRows r |}).
    set (signal := Emit (batchProgress (i + 1) batches
                           (Z.min (i * c + c) (Z.of_nat (length items))))).
    set (h3' := set_trace (trace h3 ++ [signal]) h3).
    assert (Hcalm3 : calm h3').
    { unfold calm. simpl. rewrite K3. exact Hcalm2. }
    destruct (IH (i + 1) (results ++ [r1]) h3' (more ++ more2) Hcalm3)
      as (rs & h' & effects & E & T & F & St).
    { simpl. congruence. }
    { simpl. rewrite H3, H2, H0, <- app_assoc. reflexivity. }
    { lia. }
    { lia. }
    exists rs, h', (new ++ [signal] ++ effects).
    split.
    { cbn [batchInsert_loop]. fold batch. unfold bind at 1. rewrite E2.
      unfold bind at 1. rewrite E3. unfold ret at 1.
      unfold bind at 1, emit, effect_, modify. exact E. }
    split.
    { rewrite T. simpl. rewrite T3, T2, <- !app_assoc. reflexivity. }
    split.
    + rewrite !answers_app, A3. cbn [zseq]. simpl app.
      constructor; [|exact F].
      exists (ticks h). unfold insertMany_statement. subst rows batch.
      rewrite chunk_of_iteration.
      rewrite (rows_at_grows rt h0 h false (ticks h) _ more C0 H0).
      * reflexivity.
      * rewrite <- chunk_of_iteration. exact Hb0.
    + intros Hoff. rewrite !statements_app, !answers_app.
      rewrite (St Hoff), A3, S3 by congruence. reflexivity.
Qed.

Lemma flat_map_zseq_shift {B : Type} (f g : Z -> list B) (i : Z) (n : nat) :
  (forall j, f j = g (j + 1)) ->
  flat_map f (zseq i n) = flat_map g (zseq (i + 1) n).
Proof.
  intros Hfg. revert i. induction n as [|n IH]; intros i; [reflexivity|].
  simpl. rewrite Hfg, IH. reflexivity.
Qed.

Lemma omap_progress_zseq (total : jsnum) (f : Z -> Z) (i : Z) (n : nat) :
  omap (fun m => match m with
                 | Progress c t p => Some (c, t, p)
                 | Answered => None
                 end)
       (flat_map (fun k => [Answered; Progress k total (f k)]) (zseq i n))
  = map (fun k => (k, total, f k)) (zseq i n).
Proof.
  revert i. induction n as [|n IH]; intros i; [reflexivity|].
  simpl. rewrite IH. reflexivity.
Qed.

(** With a chunk size of zero the number of batches is infinite; the
    first batch is empty and [insertMany] rejects it. *)
Lemma batchInsert_zero_chunk (rt : Runtime) (h : t) (table : string)
      (items : list loc) :
  items <> [] ->
  batchInsert rt table items 0 h
  = (Throw (Error "Data array cannot be empty"), h).
Proof.
  intros Hne. unfold batchInsert. destruct items as [|x xs]; [congruence|].
  change ((length (x :: xs) =? 0)%nat) with false. cbv iota.
  unfold ceil_div. change (0 =? 0) with true. cbv iota.
  destruct (Z.eqb_spec (Z.of_nat (length (x :: xs))) 0) as [E|_];
    [simpl in E; lia|].
  destruct (Z.ltb_spec 0 (Z.of_nat (length (x :: xs)))) as [_|E];
    [|simpl in E; lia].
  reflexivity.
Qed.

(** C8. For a non-empty array of [n] items and a chunk size [c > 0],
    with a driver that accepts every statement and query hooks that do
    not throw: [batchInsert] cuts the array into [b = ceil(n/c)]
    consecutive chunks - chunk [k] has [min(c, n - (k-1)c)] items and
    the chunks in order make up the array -, has one statement per
    chunk answered and emits the progress signal [k] of [b] with
    [min(kc, n)] rows right after the statement of chunk [k], before
    the next, and returns [b] batches, [n] rows inserted and [b]
    results.  When the items are objects in reach, the statements
    answered are, in order, those of chunk 1 to chunk [b]: statement
    [k] is the multi-row insert of the rows of chunk [k] - the objects
    themselves, or with timestamps on their timestamped copies - with
    their values; a statement is answered by the driver or, as
    [insertMany] goes through [query], by the cache, and without a
    cache every one of them is executed by the driver.  For 5000 items
    in chunks of 1000, [b] is 5. *)
Theorem batchInsert_chunks (rt : Runtime) (h : t) (table : string)
        (items : list loc) (c : Z) :
  always_accepts rt -> calm h -> items <> [] -> 0 < c ->
  let n := Z.of_nat (length items) in
  exists b rs h',
    ceil_div n c = Int b /\
    (b - 1) * c < n <= b * c /\
    batchInsert rt table items c h
    = (Ok {| totalBatches := Int b; totalInserted := n; results := rs |},
       h') /\
    length rs = Z.to_nat b /\
    (exists effects,
        trace h' = trace h ++ effects /\
        marks effects
        = flat_map (fun k => [Answered;
                              Progress k (Int b) (Z.min (k * c) n)])
                   (zseq 1 (Z.to_nat b)) /\
        progress_signals effects
        = map (fun k => (k, Int b, Z.min (k * c) n))
              (zseq 1 (Z.to_nat b)) /\
        (within h items ->
         Forall2 (fun k statement =>
                    exists tick,
                      statement
                      = insertMany_statement
                          table (rows_at rt h false tick (chunk items c k)))
                 (zseq 1 (Z.to_nat b)) (answers effects) /\
         (cacheEnabled (config h) = false ->
          statements_of effects = answers effects))) /\
    concat (map (chunk items c) (zseq 1 (Z.to_nat b))) = items /\
    Forall (fun k => length (chunk items c k)
                     = Z.to_nat (Z.min c (n - (k - 1) * c)))
           (zseq 1 (Z.to_nat b)) /\
    (n = 5000 -> c = 1000 -> b = 5).
Proof.
  intros Hok Hcalm Hne Hc n.
  assert (Hn : 0 < n).
  { subst n. destruct items; [congruence|]. simpl. lia. }
  destruct (ceil_div_spec n c Hc Hn) as (b & Hb & Hpos & Hlo & Hhi).
  destruct (batchInsert_loop_ok rt table items c (Int b) Hok Hc
              (Z.to_nat b) 0 [] h Hcalm ltac:(lia))
    as (rs & h' & E & L & C & K & effects & T & Mk).
  { fold n. rewrite Z2Nat.id by lia. lia. }
  exists b, rs, h'. split; [exact Hb|]. split; [lia|].
  assert (Hmarks : marks effects
                   = flat_map (fun k => [Answered;
                                         Progress k (Int b)
                                                  (Z.min (k * c) n)])
                              (zseq 1 (Z.to_nat b))).
  { rewrite Mk. apply (flat_map_zseq_shift _ _ 0). intros j. fold n.
    replace ((j + 1) * c) with (j * c + c) by lia. reflexivity. }
  split; [|split; [|split; [|split; [|split]]]].
  - unfold batchInsert. destruct items as [|x xs]; [congruence|].
    change ((length (x :: xs) =? 0)%nat) with false. cbv iota.
    fold n. rewrite Hb. unfold bind. simpl iterations. rewrite E.
    reflexivity.
  - exact L.
  - exists effects. split; [exact T|]. split; [exact Hmarks|].
    split; [rewrite progress_signals_marks, Hmarks;
            apply omap_progress_zseq|].
    intros Hin.
    destruct (batchInsert_loop_answers rt table items c (Int b) h Hok Hc Hin
                (Z.to_nat b) 0 [] h [] Hcalm eq_refl
                ltac:(symmetry; apply app_nil_r) ltac:(lia))
      as (rs2 & h2 & effects2 & E2 & T2 & F2 & S2).
    { fold n. rewrite Z2Nat.id by lia. lia. }
    rewrite E in E2. injection E2 as _ Hh2. subst h2.
    rewrite T in T2. apply app_inv_head in T2. subst effects2.
    split; [exact F2|exact S2].
  - pose proof (chunks_upto items c (Z.to_nat b) 0 Hc ltac:(lia)) as Hcu.
    change (0 + 1) with 1 in Hcu. rewrite Hcu.
    fold n. rewrite Z2Nat.id by lia.
    rewrite Z.min_l by lia. rewrite Z.min_r by lia. apply slice_all.
  - apply Forall_zseq. intros k Hk. rewrite Z2Nat.id in Hk by lia.
    apply chunk_length; [exact Hc|lia|]. fold n. nia.
  - intros -> ->. lia.
Qed.

Lemma batchInsert_chunks_witness :
  exists rs h',
    batchInsert accepting "users" rows_5000 1000 helper_with_5000_rows
    = (Ok {| totalBatches := Int 5; totalInserted := 5000; results := rs |},
       h') /\
    length rs = 5%nat /\
    progress_signals (trace h')
    = [ (1, Int 5, 1000); (2, Int 5, 2000); (3, Int 5, 3000);
        (4, Int 5, 4000); (5, Int 5, 5000) ] /\
    Forall2 (fun k statement =>
               exists tick,
                 statement
                 = insertMany_statement
                     "users"
                     (rows_at accepting helper_with_5000_rows false tick
                              (chunk rows_5000 1000 k)))
            [1; 2; 3; 4; 5] (statements_of (trace h')).
Proof.
  assert (Hok : always_accepts accepting).
  { intros n sql params. eexists. reflexivity. }
  assert (Hcalm : calm helper_with_5000_rows).
  { split; constructor. }
  assert (Hne : rows_5000 <> []) by discriminate.
  assert (Hin : within helper_with_5000_rows rows_5000).
  { apply List.Forall_forall. intros l Hl. apply in_seq in Hl.
    change (length (heap helper_with_5000_rows))
      with (length (repeat [("name", VStr "x")] 5000)).
    rewrite repeat_length. lia. }
  destruct (batchInsert_chunks accepting helper_with_5000_rows "users"
              rows_5000 1000 Hok Hcalm Hne ltac:(lia))
    as (b & rs & h' & Hb & _ & Hrun & Hlen & (effects & T & _ & P & A) & _).
  destruct (A Hin) as [F St].
  assert (Hn : Z.of_nat (length rows_5000) = 5000)
    by (vm_compute; reflexivity).
  rewrite Hn in *.
  assert (E5 : b = 5).
  { vm_compute in Hb. inversion Hb. reflexivity. }
  subst b. exists rs, h'. split; [exact Hrun|]. split; [exact Hlen|].
  change (trace helper_with_5000_rows) with (@nil effect) in T.
  rewrite T. split; [exact P|].
  simpl app. rewrite (St eq_refl). exact F.
Defined.

End BatchInsert.

(* ===================================================================== *)
(** * How builder calls compose *)
(* ===================================================================== *)

Section CallComposition.

Import QueryBuilder Samples.

(** X1. Two calls that work on different fields of the intent can be
    made in either order: the builder, and so the statement, is the
    same.  (Among the predicate calls the order matters, also for the
    prefix of [orWhere].) *)
Theorem calls_on_different_fields_commute (c1 c2 : call) (b : t) :
  category_of c1 <> category_of c2 ->
  apply c1 (apply c2 b) = apply c2 (apply c1 b) /\
  toSQL (apply c1 (apply c2 b)) = toSQL (apply c2 (apply c1 b)).
Proof.
  intros Hne.
  assert (E : apply c1 (apply c2 b) = apply c2 (apply c1 b)).
  { destruct c1, c2; simpl in Hne; try congruence; reflexivity. }
  split; [exact E|]. rewrite E. reflexivity.
Qed.

Lemma calls_on_different_fields_commute_witness :
  toSQL (limit 5 (where_ "a" (Equals (VNum 1)) (table "t" fresh)))
  = toSQL (where_ "a" (Equals (VNum 1)) (limit 5 (table "t" fresh))).
Proof.
  exact (proj2 (calls_on_different_fields_commute
                  (Limit 5) (Where "a" (Equals (VNum 1))) (table "t" fresh)
                  ltac:(discriminate))).
Defined.

(** X2. [table], [select], [having], [limit] and [offset] assign: of
    two such calls on the same field the later one wins, as if the
    earlier had not been made.  Every other call pushes: what the field
    held stays in front, and a predicate call adds exactly one fragment
    and, behind the parameters so far, the values it binds. *)
Theorem later_assignment_wins_and_pushes_append (c1 c2 : call) (b : t) :
  (assigns c2 = true -> category_of c1 = category_of c2 ->
   apply c2 (apply c1 b) = apply c2 b) /\
  (predicate c1 = true ->
   (exists fragment, _where (apply c1 b) = _where b ++ [fragment]) /\
   _whereParams (apply c1 b) = _whereParams b ++ bound c1) /\
  (exists joins order groups,
      _joins (apply c1 b) = _joins b ++ joins /\
      _orderBy (apply c1 b) = _orderBy b ++ order /\
      _groupBy (apply c1 b) = _groupBy b ++ groups).
Proof.
  split; [|split].
  - intros Ha Hc.
    destruct c2; simpl in Ha; try discriminate Ha;
      destruct c1; simpl in Hc; try discriminate Hc; reflexivity.
  - intros Hp.
    destruct c1; simpl in Hp; try discriminate Hp;
      (split; [eexists; reflexivity|reflexivity]).
  - destruct c1; simpl; eexists; eexists; eexists; (split; [|split]);
      first [reflexivity | symmetry; apply app_nil_r].
Qed.

Lemma later_assignment_wins_and_pushes_append_witness :
  toSQL (limit 5 (limit 50 (table "t" fresh))) = toSQL (limit 5 (table "t" fresh)) /\
  _whereParams (whereIn "id" [VNum 1; VNum 2]
                  (where_ "a" (Equals (VNum 0)) fresh))
  = [VNum 0; VNum 1; VNum 2].
Proof.
  destruct (later_assignment_wins_and_pushes_append
              (Limit 50) (Limit 5) (table "t" fresh)) as [Hset _].
  destruct (later_assignment_wins_and_pushes_append
              (WhereIn "id" [VNum 1; VNum 2]) (Limit 5)
              (where_ "a" (Equals (VNum 0)) fresh)) as (_ & Hpush & _).
  split.
  - change (limit 5 (limit 50 (table "t" fresh)))
      with (apply (Limit 5) (apply (Limit 50) (table "t" fresh))).
    rewrite (Hset eq_refl eq_refl). reflexivity.
  - exact (proj2 (Hpush eq_refl)).
Defined.

(** A raw call keeps the builder aligned when it is balanced. *)
Lemma aligned_apply_balanced (c : call) (b : t) (es : list entry) :
  balanced c -> aligned b es -> exists es', aligned (apply c b) es'.
Proof.
  intros Hb H. destruct (raw c) eqn:Hraw.
  - destruct c; simpl in Hraw; try discriminate Hraw; simpl in Hb.
    + eexists. apply aligned_push_where; [exact H|exact Hb].
    + exists es. unfold plain in Hb. simpl in Hb.
      inversion Hb as [|? ? Hc _]; subst.
      destruct H. split; simpl; try assumption.
      apply Forall_app. split; [assumption|].
      constructor; [exact Hc|constructor].
    + exists es. unfold plain in Hb. simpl in Hb.
      inversion Hb as [|? ? Hc _]; subst.
      destruct H. split; simpl; assumption.
  - assert (Hp : plain c).
    { destruct c; simpl in Hraw; try discriminate Hraw; exact Hb. }
    destruct (aligned_apply c b es Hraw Hp H) as (es' & H' & _).
    exists es'. exact H'.
Qed.

(** X3. With the raw calls too - [whereRaw], [orderByRaw], [having] -
    the statement has one parameter per placeholder, provided each raw
    predicate brings as many ['?'] as parameters, and no other spliced
    text holds a ['?']. *)
Theorem balanced_calls_match_params (calls : list call) :
  Forall balanced calls ->
  count_placeholders (sql (toSQL (build calls fresh)))
  = length (params (toSQL (build calls fresh))).
Proof.
  intros Hb.
  assert (H : forall b es, aligned b es ->
                           exists es', aligned (build calls b) es').
  { induction Hb as [|c calls Hc Hcs IH]; intros b es Hal.
    - exists es. exact Hal.
    - destruct (aligned_apply_balanced c b es Hc Hal) as [es1 H1].
      exact (IH (apply c b) es1 H1). }
  destruct (H fresh [] aligned_fresh) as [es Hal].
  exact (aligned_count _ es Hal).
Qed.

Lemma balanced_calls_match_params_witness :
  count_placeholders (sql (toSQL (build raw_calls fresh))) = 3%nat.
Proof.
  assert (Hb : Forall balanced raw_calls) by (repeat constructor).
  rewrite (balanced_calls_match_params raw_calls Hb). reflexivity.
Defined.

End CallComposition.

(* ===================================================================== *)
(** * Connecting with retries *)
(* ===================================================================== *)

Section ConnectionRetry.

Import MySQLHelper Samples.

Lemma connectWithRetry_step (rt : Runtime) (remaining : nat) (attempt : Z)
      (h : t) :
  connectWithRetry_from rt remaining attempt h
  = match createConnection rt attempt with
    | None =>
        (Ok tt, set_trace (trace h ++ [CreateConnection attempt]) h)
    | Some err =>
        match remaining with
        | S remaining' =>
            connectWithRetry_from rt remaining' (attempt + 1)
              (set_trace (trace h ++ retried rt (retryDelay (config h))
                                             attempt) h)
        | O =>
            (Throw (Error ("Failed to connect after "
                           +:+ string_of_Z (retryAttempts (config h))
                           +:+ " attempts: " +:+ message err)),
             set_trace (trace h ++ [CreateConnection attempt]) h)
        end
    end.
Proof.
  unfold retried, rejection.
  destruct remaining; simpl;
    unfold try_catch, driver_call, bind, effect_, modify, emit, effect_,
      modify, read, throw, ret; simpl;
    destruct (createConnection rt attempt); simpl;
    rewrite <- ?app_assoc; reflexivity.
Qed.

(** Attempts that are rejected while more are allowed are retried. *)
Lemma connectWithRetry_retries (rt : Runtime) (j : nat) :
  forall (remaining : nat) (attempt : Z) (h : t),
    (j <= remaining)%nat ->
    (forall k, attempt <= k < attempt + Z.of_nat j ->
               createConnection rt k <> None) ->
    connectWithRetry_from rt remaining attempt h
    = connectWithRetry_from rt (remaining - j) (attempt + Z.of_nat j)
        (set_trace (trace h ++ flat_map (retried rt (retryDelay (config h)))
                                        (zseq attempt j)) h).
Proof.
  induction j as [|j IH]; intros remaining attempt h Hj Hfail.
  - simpl. rewrite Nat.sub_0_r, Z.add_0_r, app_nil_r, set_trace_id.
    reflexivity.
  - destruct remaining as [|remaining]; [lia|].
    rewrite connectWithRetry_step.
    destruct (createConnection rt attempt) as [err|] eqn:E.
    2: { exfalso. apply (Hfail attempt); [lia|exact E]. }
    rewrite IH; [|lia|intros k Hk; apply Hfail; lia].
    simpl. f_equal; [lia|]. rewrite <- app_assoc. reflexivity.
Qed.

(** X4. [connect] on a helper without connection makes attempts 1, 2,
    ... and stops at the first that is accepted, or at attempt
    [max(1, retryAttempts)], whichever comes first.  Each rejected
    attempt that is retried is followed by a retry signal and a pause
    of [retryDelay * attempt].  An accepted attempt sets the connection
    and emits the connected signal, after which [connect] does nothing;
    a rejected last attempt throws ["Failed to connect after
    <retryAttempts> attempts: <last message>"] and sets nothing. *)
Theorem connect_retries (rt : Runtime) (h : t) (j : nat) :
  connection h = false ->
  Z.of_nat j < Z.max 1 (retryAttempts (config h)) ->
  (forall k, 1 <= k <= Z.of_nat j -> createConnection rt k <> None) ->
  let last := Z.of_nat j + 1 in
  let attempts :=
    flat_map (retried rt (retryDelay (config h))) (zseq 1 j)
    ++ [CreateConnection last] in
  (createConnection rt last = None ->
   let h' := set_trace (trace h ++ attempts ++ [Emit connected])
                       (set_connection true h) in
   connect rt h = (Ok tt, h') /\ connect rt h' = (Ok tt, h')) /\
  (forall err,
      createConnection rt last = Some err ->
      last = Z.max 1 (retryAttempts (config h)) ->
      connect rt h
      = (Throw (Error ("Failed to connect after "
                       +:+ string_of_Z (retryAttempts (config h))
                       +:+ " attempts: " +:+ message err)),
         set_trace (trace h ++ attempts) h)).
Proof.
  intros Hconn Hj Hfail last attempts.
  assert (Hrun : _connectWithRetry rt 1 h
                 = connectWithRetry_from rt
                     (Z.to_nat (retryAttempts (config h) - 1) - j) last
                     (set_trace
                        (trace h ++ flat_map (retried rt (retryDelay (config h)))
                                             (zseq 1 j)) h)).
  { unfold _connectWithRetry, bind, read.
    rewrite (connectWithRetry_retries rt j);
      [|lia|intros k Hk; apply Hfail; lia].
    subst last. replace (1 + Z.of_nat j) with (Z.of_nat j + 1) by lia.
    reflexivity. }
  split.
  - intros Hok h'. split.
    + unfold connect. unfold bind at 1, read at 1. rewrite Hconn.
      unfold when, negb. unfold bind at 1. rewrite Hrun.
      rewrite connectWithRetry_step, Hok.
      unfold bind, modify, emit, effect_, modify. simpl.
      subst h' attempts. rewrite <- !app_assoc. reflexivity.
    + reflexivity.
  - intros err Herr Hlast.
    unfold connect. unfold bind at 1, read at 1. rewrite Hconn.
    unfold when, negb. unfold bind at 1. rewrite Hrun.
    rewrite connectWithRetry_step, Herr.
    replace (Z.to_nat (retryAttempts (config h) - 1) - j)%nat with 0%nat
      by lia.
    simpl. subst attempts. rewrite <- !app_assoc. reflexivity.
Qed.

Lemma connect_retries_witness :
  trace (snd (connect flaky (create default_settings [])))
  = [ CreateConnection 1; Emit (connectionRetry 1 "ECONNREFUSED");
      Sleep 1000;
      CreateConnection 2; Emit (connectionRetry 2 "ECONNREFUSED");
      Sleep 2000;
      CreateConnection 3; Emit connected ].
Proof.
  destruct (connect_retries flaky (create default_settings []) 2 eq_refl
              ltac:(simpl; lia)) as [Hok _].
  { intros k Hk. assert (k = 1 \/ k = 2) as [-> | ->] by lia; discriminate. }
  destruct (Hok eq_refl) as [Hrun _].
  rewrite Hrun. reflexivity.
Defined.

End ConnectionRetry.

(* ===================================================================== *)
(** * Registered hooks *)
(* ===================================================================== *)

Section RegisteredHooks.

Import MySQLHelper Samples.

Lemma addHook_run (h : t) (name : string) (cb : callback)
      (cbs : list callback) :
  own_hook name (hooks h) = Some cbs ->
  addHook name cb h
  = (Ok tt, set_hooks (set_hook name (cbs ++ [cb]) (hooks h)) h).
Proof.
  intros H. unfold addHook, bind, read, modify. rewrite H. reflexivity.
Qed.

Lemma addHooks_run (name : string) (cbs : list callback) :
  In name stages ->
  forall (h : t) (old : list callback),
    own_hook name (hooks h) = Some old ->
    own_hook name (hooks (addHooks name cbs h)) = Some (old ++ cbs) /\
    trace (addHooks name cbs h) = trace h.
Proof.
  intros Hin. induction cbs as [|cb cbs IH]; intros h old Hold.
  - simpl. rewrite app_nil_r. split; [exact Hold|reflexivity].
  - unfold addHooks. simpl. fold (addHooks name cbs).
    rewrite (addHook_run h name cb old Hold). simpl.
    destruct (IH (set_hooks (set_hook name (old ++ [cb]) (hooks h)) h)
                 (old ++ [cb])) as [Hk Ht].
    { simpl. apply own_hook_set_same. exact Hin. }
    rewrite <- app_assoc in Hk. split; [exact Hk|exact Ht].
Qed.

(** The callbacks before the first that throws, and that one, are
    called; those after it are not. *)
Lemma hook_outcome_first_thrower (name : string)
      (before after : list callback) (cb : callback) (d : hook_data)
      (err : error) :
  harmless before -> cb_run cb d = Some err ->
  hook_outcome name (before ++ cb :: after) d
  = (map (call_of name) before ++ [call_of name cb], Some err).
Proof.
  intros Hb Hcb. induction Hb as [|x xs Hx Hxs IH]; simpl.
  - rewrite Hcb. reflexivity.
  - rewrite Hx, IH. reflexivity.
Qed.

(** X5. Callbacks registered for a stage are called in the order of
    their registration, after those registered before: when none
    throws, all are called; when one throws, the ones registered after
    it are not called and its error is the outcome. *)
Theorem hooks_run_in_registration_order (h : t) (name : string)
        (cbs : list callback) (d : hook_data) :
  In name stages ->
  exists old,
    own_hook name (hooks h) = Some old /\
    own_hook name (hooks (addHooks name cbs h)) = Some (old ++ cbs) /\
    (harmless (old ++ cbs) ->
     _runHooks name d (addHooks name cbs h)
     = (Ok tt,
        set_trace (trace h ++ map (call_of name) (old ++ cbs))
                  (addHooks name cbs h))) /\
    (forall before cb after err,
        old ++ cbs = before ++ cb :: after ->
        harmless before -> cb_run cb d = Some err ->
        _runHooks name d (addHooks name cbs h)
        = (Throw err,
           set_trace (trace h ++ map (call_of name) before
                      ++ [call_of name cb])
                     (addHooks name cbs h))).
Proof.
  intros Hin. destruct (own_hook_stage name (hooks h) Hin) as [old Hold].
  destruct (addHooks_run name cbs Hin h old Hold) as [Hk Ht].
  exists old. split; [exact Hold|]. split; [exact Hk|].
  assert (Hrun : _runHooks name d (addHooks name cbs h)
                 = run_callbacks name (old ++ cbs) d (addHooks name cbs h)).
  { unfold _runHooks, bind, read. rewrite Hk. reflexivity. }
  split.
  - intros Hh. rewrite Hrun, run_callbacks_run.
    rewrite (hook_outcome_harmless name _ d Hh). simpl. rewrite Ht.
    reflexivity.
  - intros before cb after err Hsplit Hb Hcb.
    rewrite Hrun, run_callbacks_run, Hsplit.
    rewrite (hook_outcome_first_thrower name before after cb d err Hb Hcb).
    simpl. rewrite Ht. reflexivity.
Qed.

Lemma hooks_run_in_registration_order_witness :
  trace (snd (_runHooks "beforeQuery" (QueryData "SELECT 1" [] 0)
                (addHooks "beforeQuery"
                   [quiet_hook 1; quiet_hook 2; quiet_hook 3]
                   (create default_settings []))))
  = [ HookCall "beforeQuery" 1; HookCall "beforeQuery" 2;
      HookCall "beforeQuery" 3 ].
Proof.
  destruct (hooks_run_in_registration_order (create default_settings [])
              "beforeQuery" [quiet_hook 1; quiet_hook 2; quiet_hook 3]
              (QueryData "SELECT 1" [] 0))
    as (old & Hold & _ & Hall & _).
  { unfold stages. simpl. tauto. }
  simpl in Hold. inversion Hold; subst old.
  rewrite Hall; [reflexivity|]. repeat constructor.
Defined.

Lemma set_hook_set_hook (name : string) (l l' : list callback)
      (t : hook_table) :
  set_hook name l (set_hook name l' t) = set_hook name l t.
Proof.
  unfold set_hook.
  repeat match goal with
         | |- context [String.eqb name ?x] =>
             destruct (String.eqb name x) eqn:?; [reflexivity|]
         end.
  reflexivity.
Qed.

Lemma set_hook_own (name : string) (l : list callback) (t : hook_table) :
  own_hook name t = Some l -> set_hook name l t = t.
Proof.
  unfold own_hook, set_hook. destruct t.
  repeat match goal with
         | |- context [String.eqb name ?x] =>
             destruct (String.eqb name x) eqn:?;
             [intros H; inversion H; reflexivity|]
         end.
  reflexivity.
Qed.

Lemma filter_other_ids (id : nat) (cbs : list callback) :
  Forall (fun cb => cb_id cb <> id) cbs ->
  List.filter (fun cb => negb (Nat.eqb (cb_id cb) id)) cbs = cbs.
Proof.
  induction 1 as [|cb cbs Hcb Hcbs IH]; [reflexivity|]. simpl.
  destruct (Nat.eqb_spec (cb_id cb) id); [contradiction|].
  simpl. rewrite IH. reflexivity.
Qed.

(** X6. [removeHook] takes every registration of the callback out of
    the stage and keeps the others in their order; the other stages and
    the rest of the helper are as before.  Removing a callback right
    after adding it, when it was not registered before, gives back the
    hooks as they were.  For a name that is no stage it does nothing
    and does not throw - unlike [addHook] - except for a name that
    object literals inherit, where calling the missing [filter]
    throws. *)
Theorem removeHook_outcome (h : t) (name : string) (id : nat) :
  (In name stages ->
   exists old,
     own_hook name (hooks h) = Some old /\
     removeHook name id h
     = (Ok tt,
        set_hooks
          (set_hook name
             (List.filter (fun cb => negb (Nat.eqb (cb_id cb) id)) old)
             (hooks h)) h) /\
     (forall other, other <> name ->
        own_hook other (hooks (snd (removeHook name id h)))
        = own_hook other (hooks h)) /\
     (forall cb,
        cb_id cb = id -> Forall (fun x => cb_id x <> id) old ->
        removeHook name id (snd (addHook name cb h)) = (Ok tt, h))) /\
  (~ In name stages ->
   removeHook name id h
   = (if inherited name
      then Throw (Error "this.hooks[hookName].filter is not a function")
      else Ok tt, h)).
Proof.
  split.
  - intros Hin. destruct (own_hook_stage name (hooks h) Hin) as [old Hold].
    exists old. split; [exact Hold|].
    assert (Hrun : removeHook name id h
                   = (Ok tt,
                      set_hooks
                        (set_hook name
                           (List.filter
                              (fun cb => negb (Nat.eqb (cb_id cb) id)) old)
                           (hooks h)) h)).
    { unfold removeHook, bind, read, modify. rewrite Hold. reflexivity. }
    split; [exact Hrun|]. split.
    + intros other Hne. rewrite Hrun. simpl.
      apply own_hook_set_other. exact Hne.
    + intros cb Hid Hold_ids.
      rewrite (addHook_run h name cb old Hold). simpl.
      unfold removeHook, bind, read, modify. simpl.
      rewrite (own_hook_set_same name _ _ Hin).
      rewrite set_hook_set_hook.
      rewrite List.filter_app, (filter_other_ids id old Hold_ids). simpl.
      destruct (Nat.eqb_spec (cb_id cb) id); [|contradiction]. simpl.
      rewrite app_nil_r, (set_hook_own name old (hooks h) Hold).
      destruct h; reflexivity.
  - intros Hout. unfold removeHook, bind, read.
    rewrite (own_hook_other name (hooks h) Hout).
    destruct (inherited name); reflexivity.
Qed.

Lemma removeHook_outcome_witness :
  removeHook "onError" 4
             (snd (addHook "onError" (quiet_hook 4) helper_with_quiet_onError))
  = (Ok tt, helper_with_quiet_onError) /\
  removeHook "beforeMutate" 4 helper_with_quiet_onError
  = (Ok tt, helper_with_quiet_onError).
Proof.
  split.
  - destruct (removeHook_outcome helper_with_quiet_onError "onError" 4)
      as [Hin _].
    destruct Hin as (old & Hold & _ & _ & Hround).
    { unfold stages. simpl. tauto. }
    simpl in Hold. inversion Hold; subst old.
    apply (Hround (quiet_hook 4) eq_refl).
    repeat constructor; discriminate.
  - destruct (removeHook_outcome helper_with_quiet_onError "beforeMutate" 4)
      as [_ Hout].
    rewrite Hout; [reflexivity|].
    unfold stages. simpl.
    intros [E|[E|[E|[E|[E|[E|[E|[]]]]]]]]; discriminate E.
Defined.

End RegisteredHooks.

(* ===================================================================== *)
(** * The query log *)
(* ===================================================================== *)

Section QueryLog.

Import MySQLHelper Samples.

Lemma execute_and_store_log (rt : Runtime) (h0 : t) (sql : string)
      (params : list value) (o : query_options) (ts : Z) :
  queryLog (snd (execute_and_store rt sql params o ts h0))
  = queryLog h0 ++
    match snd (hook_outcome "beforeQuery" (beforeQuery (hooks h0))
                            (QueryData sql params ts)),
          execute rt (executed h0) sql params with
    | None, Ok _ =>
        if logQueries (config h0)
        then [{| log_sql := sql; log_params := params;
                 log_executionTime :=
                   Date_now rt (S (ticks h0)) - Date_now rt (ticks h0);
                 log_timestamp := Date_now rt (S (S (ticks h0))) |}]
        else []
    | _, _ => []
    end.
Proof.
  unfold execute_and_store, _runHooks.
  unfold bind at 1. unfold bind at 1. unfold read at 1.
  simpl. rewrite run_callbacks_run.
  destruct (snd (hook_outcome "beforeQuery" _ _));
    [simpl; rewrite app_nil_r; reflexivity|].
  unfold bind, read, when, createPool, bind, read, modify, emit, effect_,
    modify, now, driver_execute, bind, read, modify, effect_, modify,
    use_cache, bind, read, ret, _setCache, bind, read, now, modify.
  simpl.
  destruct (pool h0) eqn:Hpool; destruct (connection h0) eqn:Hconn;
    simpl; rewrite ?Hpool; simpl;
    destruct (execute rt (executed h0) sql params) as [rows|err];
    simpl; rewrite ?app_nil_r; try reflexivity;
    destruct (logQueries (config h0)); simpl;
    rewrite run_callbacks_run; simpl;
    destruct (snd (hook_outcome "afterQuery" _ _)); simpl;
    rewrite ?app_nil_r; try reflexivity;
    destruct (cacheEnabled (config h0) && cache_not_false o); simpl;
    rewrite ?app_nil_r; reflexivity.
Qed.

Lemma on_failure_log (sql : string) (params : list value) (ts : Z)
      (err : error) (h : t) :
  queryLog (snd (on_failure sql params ts err h)) = queryLog h.
Proof.
  rewrite on_failure_run. simpl.
  destruct (snd (hook_outcome _ _ _)); reflexivity.
Qed.

(** The log after the [try] and [catch] blocks of a call that the cache
    does not answer. *)
Lemma miss_path_log (rt : Runtime) (h0 : t) (sql : string)
      (params : list value) (o : query_options) (ts : Z) :
  queryLog (snd (try_catch (execute_and_store rt sql params o ts)
                           (on_failure sql params ts) h0))
  = queryLog (snd (execute_and_store rt sql params o ts h0)).
Proof.
  unfold try_catch.
  destruct (execute_and_store rt sql params o ts h0) as [[rows|err] h1];
    [reflexivity|].
  simpl. apply on_failure_log.
Qed.

(** X7. A call of [query] appends at most one entry to the query log,
    an entry for its own statement, and only when logging is on and the
    driver has executed the statement.  The entry is written as soon as
    the driver returns: it is there although an [afterQuery] callback
    throws and the call fails.  A call answered from the cache logs
    nothing.  [getSlowQueries] lists the entry when its time is above
    the threshold. *)
Theorem query_log (rt : Runtime) (h : t) (sql : string)
        (params : list value) (o : query_options) :
  let h' := snd (query rt sql params o h) in
  (exists new,
      queryLog h' = queryLog h ++ new /\
      (length new <= 1)%nat /\
      Forall (fun e => log_sql e = sql /\ log_params e = params) new /\
      (new <> [] ->
       logQueries (config h) = true /\
       exists rows, execute rt (executed h) sql params = Ok rows) /\
      forall threshold,
        fst (getSlowQueries threshold h')
        = Ok (List.filter
                (fun e => match threshold with Some x => x | None => 1000 end
                          <? log_executionTime e)
                (queryLog h ++ new))) /\
  (logQueries (config h) = true ->
   cacheEnabled (config h) && cache_not_false o = false \/
   cache h !! _getCacheKey rt sql params = None ->
   harmless (beforeQuery (hooks h)) ->
   forall rows,
     execute rt (executed h) sql params = Ok rows ->
     queryLog h'
     = queryLog h ++
       [{| log_sql := sql; log_params := params;
           log_executionTime :=
             Date_now rt (S (S (ticks h))) - Date_now rt (S (ticks h));
           log_timestamp := Date_now rt (S (S (S (ticks h)))) |}]) /\
  (forall entry,
     cacheEnabled (config h) = true -> cache_not_false o = true ->
     cache h !! _getCacheKey rt sql params = Some entry ->
     Date_now rt (S (ticks h)) < expiry entry ->
     queryLog h' = queryLog h).
Proof.
  intros h'.
  assert (Hmiss : forall h0 : t,
             config h0 = config h -> hooks h0 = hooks h ->
             executed h0 = executed h -> queryLog h0 = queryLog h ->
             exists new,
               queryLog (snd (try_catch
                                (execute_and_store rt sql params o
                                   (Date_now rt (ticks h)))
                                (on_failure sql params
                                   (Date_now rt (ticks h))) h0))
               = queryLog h ++ new /\
               (length new <= 1)%nat /\
               Forall (fun e => log_sql e = sql /\ log_params e = params)
                      new /\
               (new <> [] ->
                logQueries (config h) = true /\
                exists rows, execute rt (executed h) sql params = Ok rows)).
  { intros h0 C K X L.
    rewrite miss_path_log, execute_and_store_log, C, K, X, L.
    eexists. split; [reflexivity|].
    destruct (snd (hook_outcome "beforeQuery" _ _));
      [split; [simpl; lia|split; [constructor|congruence]]|].
    destruct (execute rt (executed h) sql params) as [rows|err];
      [|split; [simpl; lia|split; [constructor|congruence]]].
    destruct (logQueries (config h));
      [|split; [simpl; lia|split; [constructor|congruence]]].
    split; [simpl; lia|]. split; [repeat constructor|].
    intros _. split; [reflexivity|]. exists rows. reflexivity. }
  assert (Hany : exists new,
             queryLog h' = queryLog h ++ new /\
             (length new <= 1)%nat /\
             Forall (fun e => log_sql e = sql /\ log_params e = params) new /\
             (new <> [] ->
              logQueries (config h) = true /\
              exists rows, execute rt (executed h) sql params = Ok rows)).
  { subst h'.
    destruct (cacheEnabled (config h) && cache_not_false o) eqn:E.
    - apply andb_true_iff in E as [He Ho].
      destruct (cache h !! _getCacheKey rt sql params) as [entry|] eqn:Hc.
      + destruct (Z.lt_ge_cases (Date_now rt (S (ticks h))) (expiry entry))
          as [Hlt|Hge].
        * rewrite (query_hit rt h sql params o entry He Ho Hc Hlt).
          exists []. simpl. rewrite app_nil_r.
          split; [reflexivity|]. split; [lia|].
          split; [constructor|congruence].
        * rewrite (query_expired rt h sql params o entry He Ho Hc Hge).
          apply Hmiss; reflexivity.
      + rewrite (query_miss rt h sql params o (or_intror Hc)).
        apply Hmiss; reflexivity.
    - rewrite (query_miss rt h sql params o (or_introl E)).
      apply Hmiss; reflexivity. }
  split; [|split].
  - destruct Hany as (new & Hlog & Hlen & Hall & Hwhy).
    exists new. repeat split; try assumption; try (apply Hwhy; assumption).
    intros threshold. unfold getSlowQueries, read. simpl.
    rewrite Hlog. reflexivity.
  - intros Hlogs Hm Hb rows Hx. subst h'.
    rewrite (query_miss rt h sql params o Hm).
    rewrite miss_path_log, execute_and_store_log. simpl.
    rewrite (hook_outcome_harmless _ _ _ Hb), Hx, Hlogs. reflexivity.
  - intros entry He Ho Hc Hlt. subst h'.
    rewrite (query_hit rt h sql params o entry He Ho Hc Hlt). reflexivity.
Qed.

Lemma query_log_witness :
  let out := query accepting "SELECT 1" [] {| opt_cache := Some false;
                                              opt_cacheTTL := None |}
                   logging_helper in
  fst out = Throw (Error "Query failed: hook failed") /\
  queryLog (snd out)
  = [{| log_sql := "SELECT 1"; log_params := [];
        log_executionTime := 1; log_timestamp := 1003 |}].
Proof.
  split; [reflexivity|].
  destruct (query_log accepting logging_helper "SELECT 1" []
              {| opt_cache := Some false; opt_cacheTTL := None |})
    as (_ & Hwritten & _).
  apply (Hwritten eq_refl (or_introl eq_refl)
                  ltac:(repeat constructor) (Header 1 1 1) eq_refl).
Defined.

End QueryLog.

(* ===================================================================== *)
(** * Calls that leave the cache aside *)
(* ===================================================================== *)

Section CacheBypass.

Import MySQLHelper Samples.

Lemma execute_and_store_bypass (rt : Runtime) (h0 : t) (sql : string)
      (params : list value) (o : query_options) (ts : Z) :
  cacheEnabled (config h0) && cache_not_false o = false ->
  cache (snd (execute_and_store rt sql params o ts h0)) = cache h0 /\
  executed (snd (execute_and_store rt sql params o ts h0))
  = match snd (hook_outcome "beforeQuery" (beforeQuery (hooks h0))
                            (QueryData sql params ts)) with
    | None => S (executed h0)
    | Some _ => executed h0
    end.
Proof.
  intros Hoff.
  split;
    unfold execute_and_store, _runHooks;
    unfold bind at 1; unfold bind at 1; unfold read at 1;
    simpl; rewrite run_callbacks_run;
    (destruct (snd (hook_outcome "beforeQuery" _ _));
     [reflexivity|]);
    unfold bind, read, when, createPool, bind, read, modify, emit, effect_,
      modify, now, driver_execute, bind, read, modify, effect_, modify,
      use_cache, bind, read, ret, _setCache, bind, read, now, modify;
    simpl;
    destruct (pool h0) eqn:Hpool; destruct (connection h0) eqn:Hconn;
    simpl; rewrite ?Hpool; simpl;
    destruct (execute rt (executed h0) sql params) as [rows|err];
    simpl; try reflexivity;
    destruct (logQueries (config h0)); simpl;
    rewrite run_callbacks_run; simpl;
    destruct (snd (hook_outcome "afterQuery" _ _)); simpl;
    try reflexivity;
    rewrite Hoff; simpl; reflexivity.
Qed.

Lemma on_failure_store (sql : string) (params : list value) (ts : Z)
      (err : error) (h : t) :
  cache (snd (on_failure sql params ts err h)) = cache h /\
  executed (snd (on_failure sql params ts err h)) = executed h.
Proof.
  rewrite on_failure_run. simpl.
  destruct (snd (hook_outcome _ _ _)); split; reflexivity.
Qed.

(** X8. With caching off in the settings, or [cache: false] in the
    options of the call, [query] neither reads nor writes the cache: the
    cache is the same after the call - an entry for the statement stays
    as it was -, no cache-hit signal is emitted, and the statement goes
    to the driver once when no [beforeQuery] callback throws. *)
Theorem query_bypasses_cache (rt : Runtime) (h : t) (sql : string)
        (params : list value) (o : query_options) :
  cacheEnabled (config h) && cache_not_false o = false ->
  let h' := snd (query rt sql params o h) in
  cache h' = cache h /\
  (exists new, trace h' = trace h ++ new /\ Forall miss_effect new) /\
  (harmless (beforeQuery (hooks h)) -> executed h' = S (executed h)).
Proof.
  intros Hoff h'. subst h'.
  rewrite (query_miss rt h sql params o (or_introl Hoff)).
  set (ts := Date_now rt (ticks h)).
  set (h0 := set_ticks (S (ticks h)) h).
  destruct (execute_and_store_bypass rt h0 sql params o ts Hoff)
    as [Hcache Hexec].
  split; [|split].
  - unfold try_catch.
    destruct (execute_and_store rt sql params o ts h0) as [[rows|err] h1];
      [exact Hcache|].
    simpl in *. rewrite (proj1 (on_failure_store _ _ _ _ _)). exact Hcache.
  - destruct (try_catch (execute_and_store rt sql params o ts)
                        (on_failure sql params ts) h0) as [r h1] eqn:E.
    apply (miss_path_evolves rt sql params o ts) in E.
    destruct E as (_ & _ & _ & new & T & F).
    exists new. split; [exact T|exact F].
  - intros Hb. unfold try_catch.
    rewrite (hook_outcome_harmless _ _ _ Hb) in Hexec. simpl in Hexec.
    destruct (execute_and_store rt sql params o ts h0) as [[rows|err] h1];
      [exact Hexec|].
    simpl in *. rewrite (proj2 (on_failure_store _ _ _ _ _)). exact Hexec.
Qed.

Lemma query_bypasses_cache_witness :
  let cached := snd (query accepting "SELECT 1" [] no_options
                           caching_helper) in
  let out := query accepting "SELECT 1" []
                   {| opt_cache := Some false; opt_cacheTTL := None |}
                   cached in
  cache (snd out) = cache cached /\
  size (cache cached) = 1%nat /\
  executed (snd out) = 2%nat.
Proof.
  intros cached out.
  destruct (query_bypasses_cache accepting cached "SELECT 1" []
              {| opt_cache := Some false; opt_cacheTTL := None |} eq_refl)
    as (Hcache & _ & Hexec).
  split; [exact Hcache|]. split; [vm_compute; reflexivity|].
  apply Hexec. repeat constructor.
Defined.

End CacheBypass.

(* ===================================================================== *)
(** * Callbacks that stop a write *)
(* ===================================================================== *)

Section WriteHooks.

Import MySQLHelper Samples.

(** X9. A [beforeInsert] callback that throws stops [insert], and a
    [beforeUpdate] callback that throws stops [update]: the call fails
    with the callback's own error, not wrapped; no statement is sent, no
    [onError] callback runs and no signal is emitted - the only effects
    are the calls of the stage's callbacks -, and the caller's object is
    as it was. *)
Theorem before_hook_stops_write (rt : Runtime) (h : t) (table : string)
        (data : loc) (d : object) (opts : crud_options) (err : error) :
  heap h !! data = Some d ->
  ((forall x, snd (hook_outcome "beforeInsert" (beforeInsert (hooks h)) x)
              = Some err) ->
   exists h' calls,
     insert rt table data opts h = (Throw err, h') /\
     trace h' = trace h ++ calls /\
     Forall (fun e => exists id, e = HookCall "beforeInsert" id) calls /\
     heap h' !! data = Some d) /\
  (forall where_,
     (forall x, snd (hook_outcome "beforeUpdate" (beforeUpdate (hooks h)) x)
                = Some err) ->
     exists h' calls,
       update rt table data where_ opts h = (Throw err, h') /\
       trace h' = trace h ++ calls /\
       Forall (fun e => exists id, e = HookCall "beforeUpdate" id) calls /\
       heap h' !! data = Some d).
Proof.
  intros Hd.
  assert (Hstep : forall isUpdate,
             exists td hA,
               (if skipTimestamps opts then ret data
                else _addTimestamps rt data isUpdate) h = (Ok td, hA) /\
               hooks hA = hooks h /\ trace hA = trace h /\
               heap hA !! data = Some d).
  { intros isUpdate.
    destruct (timestamping_step rt h data d opts isUpdate Hd)
      as (td & hA & Hrun & _ & HA).
    exists td, hA. split; [exact Hrun|].
    pose proof (HA (fun _ => False)) as E.
    split; [apply E|]. split.
    - destruct E as (_ & _ & _ & new & T & F).
      destruct new as [|e new]; [rewrite T; apply app_nil_r|].
      inversion F as [|? ? Hfalse]. destruct Hfalse.
    - exact (evolves_heap_lookup _ _ _ _ _ E Hd). }
  split.
  - intros Hthrows.
    destruct (Hstep false) as (td & hA & Hrun & K & T & Hheap).
    unfold insert. unfold bind at 1. rewrite Hrun.
    unfold bind at 1. unfold _runHooks, bind, read. simpl.
    rewrite run_callbacks_run, K, Hthrows.
    eexists. eexists. split; [reflexivity|]. simpl.
    split; [rewrite T; reflexivity|].
    split; [apply hook_outcome_calls|exact Hheap].
  - intros where_ Hthrows.
    destruct (Hstep true) as (td & hA & Hrun & K & T & Hheap).
    unfold update. unfold bind at 1. rewrite Hrun.
    unfold bind at 1. unfold _runHooks, bind, read. simpl.
    rewrite run_callbacks_run, K, Hthrows.
    eexists. eexists. split; [reflexivity|]. simpl.
    split; [rewrite T; reflexivity|].
    split; [apply hook_outcome_calls|exact Hheap].
Qed.

Lemma before_hook_stops_write_witness :
  exists h',
    insert accepting "users" 0%nat {| skipTimestamps := false |}
           vetoing_helper
    = (Throw (Error "hook failed"), h') /\
    trace h' = [HookCall "beforeInsert" 1].
Proof.
  destruct (before_hook_stops_write accepting vetoing_helper "users" 0%nat
              [("name", VStr "Ann")] {| skipTimestamps := false |}
              (Error "hook failed") eq_refl)
    as [Hinsert _].
  destruct Hinsert as (h' & calls & Hrun & T & _ & _);
    [intros x; reflexivity|].
  exists h'. split; [exact Hrun|].
  assert (E : trace (snd (insert accepting "users" 0%nat
                             {| skipTimestamps := false |} vetoing_helper))
              = [HookCall "beforeInsert" 1]) by (vm_compute; reflexivity).
  rewrite Hrun in E. exact E.
Defined.

End WriteHooks.

(* ===================================================================== *)
(** * Statements by table: placeholders and values *)
(* ===================================================================== *)

Section BoundStatements.

Import MySQLHelper Samples.

Lemma count_equalities (sep : string) (ks : list string) :
  clean sep -> Forall clean ks ->
  count_placeholders (Js.join sep (map (fun key => key +:+ " = ?") ks))
  = length ks.
Proof.
  intros Hsep Hks. rewrite (count_join sep _ Hsep), map_map.
  induction Hks as [|k ks Hk Hks IH]; [reflexivity|].
  simpl. rewrite count_app, Hk, IH. reflexivity.
Qed.

Lemma count_where_equalities (where_ : object) :
  Forall clean (keys where_) ->
  count_placeholders (where_equalities where_) = length (values where_).
Proof.
  intros Hk. unfold where_equalities.
  destruct where_ as [|kv rest]; [reflexivity|].
  change ((0 <? length (keys (kv :: rest)))%nat) with true. cbv iota.
  rewrite count_app, (count_equalities " AND " _ eq_refl Hk).
  unfold keys, values. rewrite !length_map. reflexivity.
Qed.

Lemma clean_given_text (pre : string) (x : option string) :
  clean pre -> clean_option x ->
  clean (match given_text x with Some g => pre +:+ g | None => "" end).
Proof.
  intros Hpre Hx. destruct x as [s|]; simpl; [|reflexivity].
  destruct (String.eqb s ""); [reflexivity|].
  apply clean_app; assumption.
Qed.

Lemma clean_given_number (pre : string) (x : option Z) :
  clean pre ->
  clean (match given_number x with
         | Some n => pre +:+ string_of_Z n
         | None => ""
         end).
Proof.
  intros Hpre. destruct x as [n|]; simpl; [|reflexivity].
  destruct (n =? 0); [reflexivity|].
  apply clean_app; [exact Hpre|apply clean_string_of_Z].
Qed.

Lemma count_select_sql (table : string) (o : select_options) :
  clean table -> clean_select o ->
  count_placeholders (select_sql table o) = length (values (sel_where o)).
Proof.
  intros Ht (Hc & Hw & Ho & Hg & Hh). unfold select_sql.
  rewrite !count_app, (count_where_equalities _ Hw), Ht.
  rewrite (clean_given_text " GROUP BY " _ eq_refl Hg).
  rewrite (clean_given_text " HAVING " _ eq_refl Hh).
  rewrite (clean_given_text " ORDER BY " _ eq_refl Ho).
  rewrite (clean_given_number " LIMIT " _ eq_refl).
  rewrite (clean_given_number " OFFSET " _ eq_refl).
  assert (Hcol : count_placeholders
                   match sel_columns o with
                   | Some (ColumnsList names) => Js.join ", " names
                   | Some (ColumnsText text) => text
                   | None => "*"
                   end = 0%nat).
  { destruct (sel_columns o) as [[text|names]|]; simpl in Hc.
    - exact Hc.
    - apply clean_join; [reflexivity|exact Hc].
    - reflexivity. }
  rewrite Hcol. simpl. lia.
Qed.

Lemma well_bound_query (rt : Runtime) (sql : string) (params : list value)
      (o : query_options) :
  count_placeholders sql = length params ->
  respects (evolves well_bound) (query rt sql params o).
Proof.
  intros Hn. eapply respects_weaken; [|apply evolves_query].
  intros h h'. apply evolves_weaken.
  intros [] He; simpl in *; try exact I.
  destruct He as [-> ->]. exact Hn.
Qed.

Lemma well_bound_select (rt : Runtime) (table : string)
      (o : select_options) :
  clean table -> clean_select o ->
  respects (evolves well_bound) (select rt table o).
Proof.
  intros Ht Ho. apply well_bound_query. apply count_select_sql; assumption.
Qed.

Lemma well_bound_count (rt : Runtime) (table : string) (where_ : object) :
  clean table -> Forall clean (keys where_) ->
  respects (evolves well_bound) (count rt table where_).
Proof.
  intros Ht Hw. unfold count. rule respects_bind.
  - apply well_bound_query. unfold count_sql.
    rewrite !count_app, Ht, (count_where_equalities _ Hw). reflexivity.
  - intros result. destruct (QueryBuilder.first_row result);
      [rule respects_ret|rule respects_throw].
Qed.

(** X10. The methods that read, count, aggregate and delete by table
    send statements with as many values as placeholders, whenever the
    table, the column names and the other texts handed in hold no
    placeholder character themselves: every statement that [select],
    [findById], [findOne], [count], [exists], [sum], [avg], [delete]
    and [paginate] send is bound in full, and nothing but statements,
    callbacks and signals is added to the history. *)
Theorem reads_bind_every_placeholder (rt : Runtime) (table : string)
        (where_ : object) :
  clean table -> Forall clean (keys where_) ->
  respects (evolves well_bound) (count rt table where_) /\
  respects (evolves well_bound) (exists_ rt table where_) /\
  respects (evolves well_bound) (findOne rt table where_) /\
  respects (evolves well_bound) (delete_ rt table where_) /\
  (forall column, clean column ->
     respects (evolves well_bound) (sum_ rt table column where_) /\
     respects (evolves well_bound) (avg rt table column where_)) /\
  (forall id idColumn, clean_option idColumn ->
     respects (evolves well_bound) (findById rt table id idColumn)) /\
  (forall o, clean_select o -> sel_where o = where_ ->
     respects (evolves well_bound) (select rt table o)) /\
  (forall o, clean_columns (pg_columns o) -> clean_option (pg_orderBy o) ->
     pg_where o = where_ ->
     respects (evolves well_bound) (paginate rt table o)).
Proof.
  intros Ht Hw.
  assert (Hone : forall w, Forall clean (keys w) -> clean_select (one_row w)).
  { intros w Hk. repeat split; simpl; auto. }
  split; [apply well_bound_count; assumption|].
  split.
  { unfold exists_. rule respects_bind;
      [apply well_bound_count; assumption|].
    intros c. rule respects_ret. }
  split.
  { unfold findOne. rule respects_bind;
      [apply well_bound_select; auto|].
    intros r. rule respects_ret. }
  split.
  { unfold delete_. rule respects_bind; [|intros r; rule respects_ret].
    apply well_bound_query. unfold delete_sql.
    rewrite !count_app, Ht, (count_equalities " AND " _ eq_refl Hw).
    unfold keys, values. rewrite !length_map. reflexivity. }
  split.
  { intros column Hcol. split.
    - unfold sum_. rule respects_bind.
      + apply well_bound_query. unfold sum_sql.
        rewrite !count_app, Ht, Hcol, (count_where_equalities _ Hw).
        reflexivity.
      + intros result. destruct (QueryBuilder.first_row result);
          [rule respects_ret|rule respects_throw].
    - unfold avg. rule respects_bind.
      + apply well_bound_query. unfold avg_sql.
        rewrite !count_app, Ht, Hcol, (count_where_equalities _ Hw).
        reflexivity.
      + intros result. destruct (QueryBuilder.first_row result);
          [rule respects_ret|rule respects_throw]. }
  split.
  { intros id idColumn Hid. unfold findById.
    rule respects_bind; [|intros r; rule respects_ret].
    apply well_bound_select; [exact Ht|]. apply Hone. simpl.
    constructor; [|constructor].
    destruct idColumn as [c|]; [exact Hid|reflexivity]. }
  split.
  { intros o Ho _. apply well_bound_select; assumption. }
  intros o Hc Ho Hwo. unfold paginate.
  rule respects_bind.
  { apply well_bound_count; [exact Ht|]. rewrite Hwo. exact Hw. }
  intros total. rule respects_bind; [|intros rows; rule respects_ret].
  apply well_bound_select; [exact Ht|].
  repeat split; simpl.
  - destruct (pg_columns o) as [c|]; [exact Hc|reflexivity].
  - rewrite Hwo. exact Hw.
  - destruct (pg_orderBy o) as [c|]; [exact Ho|reflexivity].
Qed.

Lemma reads_bind_every_placeholder_witness :
  statements (trace (snd (paginate counting "orders"
                            {| pg_page := Some 2; pg_perPage := None;
                               pg_where := [("status", VStr "completed")];
                               pg_orderBy := None; pg_columns := None |}
                            (create default_settings []))))
  = [ ("SELECT COUNT(*) as count FROM orders WHERE status = ?",
       [VStr "completed"]);
      ("SELECT * FROM orders WHERE status = ? ORDER BY id DESC LIMIT 10 OFFSET 10",
       [VStr "completed"]) ] /\
  evolves well_bound (create default_settings [])
          (snd (paginate counting "orders"
                  {| pg_page := Some 2; pg_perPage := None;
                     pg_where := [("status", VStr "completed")];
                     pg_orderBy := None; pg_columns := None |}
                  (create default_settings []))).
Proof.
  split; [vm_compute; reflexivity|].
  destruct (reads_bind_every_placeholder counting "orders"
              [("status", VStr "completed")] eq_refl
              ltac:(repeat constructor))
    as (_ & _ & _ & _ & _ & _ & _ & Hpaginate).
  eapply (Hpaginate {| pg_page := Some 2; pg_perPage := None;
                       pg_where := [("status", VStr "completed")];
                       pg_orderBy := None; pg_columns := None |}
                    I I eq_refl).
  apply surjective_pairing.
Defined.

Lemma clean_keys_set (k : string) (v : value) (o : object) :
  clean k -> Forall clean (keys o) -> Forall clean (keys (Js.set k v o)).
Proof.
  intros Hk. induction o as [|[k' v'] o IH]; intros Ho; simpl.
  - constructor; [exact Hk|constructor].
  - inversion Ho as [|? ? Hk' Ho']; subst.
    destruct (String.eqb k k'); simpl; constructor; auto.
Qed.

Lemma clean_keys_compiled (rt : Runtime) (h : t) (opts : crud_options)
      (isUpdate : bool) (d : object) :
  clean (createdAtColumn (config h)) -> clean (updatedAtColumn (config h)) ->
  Forall clean (keys d) ->
  Forall clean (keys (compiled_from rt h opts isUpdate d)).
Proof.
  intros Hc Hu Hd. unfold compiled_from, stamped.
  destruct (skipTimestamps opts || negb (timestamps (config h)));
    [exact Hd|].
  repeat match goal with
         | |- context [if ?c then _ else _] => destruct c
         end;
    auto using clean_keys_set.
Qed.

Lemma count_insert_sql (table : string) (o : object) :
  clean table -> Forall clean (keys o) ->
  count_placeholders (insert_sql table o) = length (values o).
Proof.
  intros Ht Ho. unfold insert_sql.
  rewrite !count_app, Ht, count_placeholders_list.
  rewrite (clean_join ", " _ eq_refl Ho).
  unfold keys, values. rewrite !length_map. simpl. lia.
Qed.

Lemma count_update_sql (table : string) (o where_ : object) :
  clean table -> Forall clean (keys o) -> Forall clean (keys where_) ->
  count_placeholders (update_sql table o where_)
  = length (values o ++ values where_).
Proof.
  intros Ht Ho Hw. unfold update_sql.
  rewrite !count_app, Ht.
  rewrite (count_equalities ", " _ eq_refl Ho).
  rewrite (count_equalities " AND " _ eq_refl Hw).
  rewrite length_app. unfold keys, values. rewrite !length_map. simpl. lia.
Qed.

Lemma count_upsert_sql (created table : string) (o : object)
      (fields : list string) :
  clean table -> Forall clean (keys o) -> Forall clean fields ->
  count_placeholders (upsert_sql created table o fields) = length (values o).
Proof.
  intros Ht Ho Hf. unfold upsert_sql.
  assert (Hfs : Forall clean (fieldsToUpdate created fields (keys o))).
  { unfold fieldsToUpdate. destruct (0 <? length fields)%nat; [exact Hf|].
    rewrite List.Forall_forall in *. intros x Hx.
    apply List.filter_In in Hx as [Hx _]. exact (Ho x Hx). }
  assert (Hclause : clean (Js.join ", "
                             (map (fun field =>
                                     field +:+ " = VALUES(" +:+ field +:+ ")")
                                  (fieldsToUpdate created fields (keys o))))).
  { apply clean_join; [reflexivity|]. apply Forall_map.
    eapply Forall_impl; [exact Hfs|]. intros f Hc. simpl.
    repeat (apply clean_app; try assumption; try reflexivity). }
  rewrite !count_app, Ht, count_placeholders_list, Hclause.
  rewrite (clean_join ", " _ eq_refl Ho).
  change (count_placeholders newline) with 0%nat.
  unfold keys, values. rewrite !length_map. simpl. lia.
Qed.

Lemma compiles_well_bound (sql : string) (params : list value) (h h' : t) :
  count_placeholders sql = length params ->
  evolves (compiles_to sql params) h h' -> evolves well_bound h h'.
Proof.
  intros Hn. apply evolves_weaken.
  intros [] He; simpl in *; try exact I.
  destruct He as [-> ->]. exact Hn.
Qed.

(** X11. [insert], [update] and [upsert] send statements with as many
    values as placeholders, the timestamp columns included, whenever
    the table and the column names - of the object, of the condition,
    of the fields to update and of the two timestamp settings - hold no
    placeholder character. *)
Theorem writes_bind_every_placeholder (rt : Runtime) (h : t)
        (table : string) (data : loc) (d : object) (opts : crud_options) :
  heap h !! data = Some d -> clean table -> Forall clean (keys d) ->
  clean (createdAtColumn (config h)) -> clean (updatedAtColumn (config h)) ->
  (forall r h',
     insert rt table data opts h = (r, h') -> evolves well_bound h h') /\
  (forall where_ r h',
     Forall clean (keys where_) ->
     update rt table data where_ opts h = (r, h') ->
     evolves well_bound h h') /\
  (forall fields r h',
     Forall clean fields ->
     upsert rt table data fields opts h = (r, h') ->
     evolves well_bound h h').
Proof.
  intros Hd Ht Hk Hc Hu. split; [|split].
  - intros r h' Hrun.
    destruct (timestamping_step rt h data d opts false Hd)
      as (td & hA & Hstep & Ho & HA).
    transitivity hA; [apply HA|].
    eapply compiles_well_bound;
      [|exact (insert_from rt table data opts h hA td _ r h' Hstep Ho Hrun)].
    apply count_insert_sql; [exact Ht|].
    apply clean_keys_compiled; assumption.
  - intros where_ r h' Hw Hrun.
    destruct (timestamping_step rt h data d opts true Hd)
      as (td & hA & Hstep & Ho & HA).
    transitivity hA; [apply HA|].
    eapply compiles_well_bound;
      [|exact (update_from rt table data where_ opts h hA td _ r h'
                           Hstep Ho Hrun)].
    apply count_update_sql; [exact Ht| |exact Hw].
    apply clean_keys_compiled; assumption.
  - intros fields r h' Hf Hrun.
    destruct (timestamping_step rt h data d opts false Hd)
      as (td & hA & Hstep & Ho & HA).
    transitivity hA; [apply HA|].
    unfold upsert in Hrun. unfold bind at 1 in Hrun. rewrite Hstep in Hrun.
    unfold bind at 1 in Hrun. unfold deref at 1, read at 1 in Hrun.
    unfold object, loc in *. rewrite Ho in Hrun. cbn -[query] in Hrun.
    assert (Hq : respects (evolves well_bound)
                   (query rt
                      (upsert_sql (createdAtColumn (config hA)) table
                                  (compiled_from rt h opts false d) fields)
                      (values (compiled_from rt h opts false d))
                      no_options)).
    { apply well_bound_query. apply count_upsert_sql; [exact Ht| |exact Hf].
      apply clean_keys_compiled; assumption. }
    apply bind_inv in Hrun as [(res & h1 & Hm & Hrest)|(e & Hm & ->)].
    + unfold ret in Hrest. inversion Hrest; subst.
      exact (Hq _ _ _ Hm).
    + exact (Hq _ _ _ Hm).
Qed.

Lemma writes_bind_every_placeholder_witness :
  let out := upsert accepting "users" 1%nat ["name"]
                    {| skipTimestamps := false |} helper_with_rows in
  evolves well_bound helper_with_rows (snd out) /\
  length (statements (trace (snd out))) = 1%nat.
Proof.
  intros out. split; [|vm_compute; reflexivity].
  destruct (writes_bind_every_placeholder accepting helper_with_rows "users"
              1%nat row_with_timestamps {| skipTimestamps := false |}
              eq_refl eq_refl ltac:(repeat constructor) eq_refl eq_refl)
    as (_ & _ & Hupsert).
  eapply (Hupsert ["name"]); [repeat constructor|].
  apply surjective_pairing.
Defined.

End BoundStatements.

(* ===================================================================== *)
(** * Many rows in one statement *)
(* ===================================================================== *)

Section ManyRows.

Import MySQLHelper Samples.




End ManyRows.

(* ===================================================================== *)
(** * What a statement returns *)
(* ===================================================================== *)

Section Returns.

Import MySQLHelper Samples.

Variable rt : Runtime.

Lemma execute_and_store_returns (h0 : t) (sql : string)
      (params : list value) (o : query_options) (ts : Z)
      (rows : result_set) :
  cacheEnabled (config h0) && cache_not_false o = false -> calm h0 ->
  execute rt (executed h0) sql params = Ok rows ->
  exists h1,
    execute_and_store rt sql params o ts h0 = (Ok rows, h1) /\
    sent_once sql params h0 h1.
Proof.
  intros Hoff [Hb Ha] Hr.
  unfold execute_and_store, _runHooks.
  unfold bind at 1. unfold bind at 1. unfold read at 1.
  simpl. rewrite run_callbacks_run, (hook_outcome_harmless _ _ _ Hb).
  unfold bind, read, when, createPool, bind, read, modify, emit, effect_,
    modify, now, driver_execute, bind, read, modify, effect_, modify,
    use_cache, bind, read, ret, _setCache, bind, read, now, modify.
  simpl.
  destruct (pool h0) eqn:Hpool; destruct (connection h0) eqn:Hconn;
    simpl; rewrite ?Hpool; simpl; rewrite Hr; simpl;
    destruct (logQueries (config h0)); simpl;
    rewrite run_callbacks_run, (hook_outcome_harmless _ _ _ Ha); simpl;
    rewrite Hoff; simpl;
    eexists; (split; [reflexivity|]);
    unfold sent_once; simpl;
    (split; [reflexivity|]); (split; [reflexivity|]);
    (split; [reflexivity|]); (split; [reflexivity|]);
    (split; [reflexivity|]);
    eexists; (split; [rewrite <- !app_assoc; reflexivity|]);
    (split; [rewrite !statements_app, !statements_hook_calls; reflexivity|]);
    rewrite !marks_app, !marks_hook_calls; reflexivity.
Qed.

Lemma execute_and_store_rejects (h0 : t) (sql : string)
      (params : list value) (o : query_options) (ts : Z) (err : error) :
  harmless (beforeQuery (hooks h0)) ->
  execute rt (executed h0) sql params = Throw err ->
  exists h1,
    execute_and_store rt sql params o ts h0 = (Throw err, h1) /\
    sent_once sql params h0 h1.
Proof.
  intros Hb Hr.
  unfold execute_and_store, _runHooks.
  unfold bind at 1. unfold bind at 1. unfold read at 1.
  simpl. rewrite run_callbacks_run, (hook_outcome_harmless _ _ _ Hb).
  unfold bind, read, when, createPool, bind, read, modify, emit, effect_,
    modify, now, driver_execute, bind, read, modify, effect_, modify.
  simpl.
  destruct (pool h0) eqn:Hpool; destruct (connection h0) eqn:Hconn;
    simpl; rewrite ?Hpool; simpl; rewrite Hr; simpl;
    eexists; (split; [reflexivity|]);
    unfold sent_once; simpl;
    (split; [reflexivity|]); (split; [reflexivity|]);
    (split; [reflexivity|]); (split; [reflexivity|]);
    (split; [reflexivity|]);
    eexists; (split; [rewrite <- ?app_assoc; reflexivity|]);
    (split; [rewrite !statements_app, !statements_hook_calls; reflexivity|]);
    rewrite !marks_app, !marks_hook_calls; reflexivity.
Qed.

(** With the cache aside and callbacks that do not throw, [query]
    returns what the driver returns. *)
Lemma query_returns (h : t) (sql : string) (params : list value)
      (o : query_options) (rows : result_set) :
  cacheEnabled (config h) && cache_not_false o = false -> calm h ->
  execute rt (executed h) sql params = Ok rows ->
  exists h', query rt sql params o h = (Ok rows, h') /\
             sent_once sql params h h'.
Proof.
  intros Hoff Hcalm Hr.
  rewrite (query_miss rt h sql params o (or_introl Hoff)).
  destruct (execute_and_store_returns (set_ticks (S (ticks h)) h) sql params
              o (Date_now rt (ticks h)) rows Hoff Hcalm Hr)
    as (h1 & E & S1).
  exists h1. unfold try_catch. rewrite E. split; [reflexivity|exact S1].
Qed.

(** A statement that the driver rejects fails with the wrapped message
    of the driver's error. *)
Lemma query_rejects (h : t) (sql : string) (params : list value)
      (o : query_options) (err : error) :
  cacheEnabled (config h) && cache_not_false o = false ->
  harmless (beforeQuery (hooks h)) -> harmless (onError (hooks h)) ->
  execute rt (executed h) sql params = Throw err ->
  exists h', query rt sql params o h
             = (Throw (Error ("Query failed: " +:+ message err)), h') /\
             sent_once sql params h h'.
Proof.
  intros Hoff Hb He Hr.
  rewrite (query_miss rt h sql params o (or_introl Hoff)).
  destruct (execute_and_store_rejects (set_ticks (S (ticks h)) h) sql params
              o (Date_now rt (ticks h)) err Hb Hr)
    as (h1 & E & (C & K & Hp & Hc & X & new & T & St & Mk)).
  unfold try_catch. rewrite E, on_failure_run. rewrite K.
  simpl in K. rewrite (hook_outcome_harmless _ _ _ He). simpl.
  eexists. split; [reflexivity|].
  unfold sent_once. simpl.
  split; [exact C|]. split; [exact K|]. split; [exact Hp|].
  split; [exact Hc|]. split; [exact X|].
  eexists. split; [rewrite T; simpl; rewrite <- app_assoc; reflexivity|].
  split.
  - rewrite !statements_app, statements_hook_calls, St. reflexivity.
  - rewrite !marks_app, marks_hook_calls, Mk. reflexivity.
Qed.

End Returns.

(* ===================================================================== *)
(** * The statement of [insertMany] *)
(* ===================================================================== *)

Section InsertedRows.

Import MySQLHelper Samples.

(** With the cache aside and callbacks that return, [insertMany] on a
    non-empty array sends one statement, compiled from the rows, and
    returns what the driver answers. *)
Lemma insertMany_sends (rt : Runtime) (h : t) (table : string)
      (dataArray : list loc) (opts : crud_options) (result : result_set) :
  dataArray <> [] -> within h dataArray ->
  cacheEnabled (config h) = false -> calm h ->
  let rows := rows_at rt h (skipTimestamps opts) (ticks h) dataArray in
  execute rt (executed h) (insertMany_sql table rows) (flat_map values rows)
  = Ok result ->
  exists h' new,
    insertMany rt table dataArray opts h
    = (Ok {| insertId := result_insertId result;
             affectedRows := result_affectedRows result |}, h') /\
    executed h' = S (executed h) /\
    trace h' = trace h ++ new /\
    statements_of new = [insertMany_statement table rows].
Proof.
  intros Hne Hin Hoff Hcalm rows Hr.
  destruct (insertMany_compiles rt h table dataArray opts Hne Hin)
    as (h2 & E & C2 & K2 & T2 & X2 & _ & _).
  fold rows in E. rewrite <- X2 in Hr.
  destruct (query_returns rt h2 _ _ no_options result
              ltac:(rewrite C2, Hoff; reflexivity)
              ltac:(unfold calm; rewrite K2; exact Hcalm) Hr)
    as (h3 & E3 & C3 & K3 & _ & _ & X3 & new & T3 & S3 & _).
  exists h3, new. rewrite E. unfold bind. rewrite E3.
  split; [reflexivity|]. split; [congruence|]. split; [congruence|exact S3].
Qed.



Lemma values_by_keys (o : object) :
  List.NoDup (keys o) -> map (fun k => Js.get k o) (keys o) = values o.
Proof.
  induction o as [|[k v] o IH]; [reflexivity|].
  simpl. intros Hnd. apply List.NoDup_cons_iff in Hnd as [Hnotin Hnd'].
  rewrite String.eqb_refl. f_equal.
  rewrite <- (IH Hnd'). apply map_ext_in.
  intros k' Hin. destruct (String.eqb_spec k' k) as [->|_];
    [contradiction|reflexivity].
Qed.

Lemma values_by_columns (columns : list string) (rows : list object) :
  List.NoDup columns ->
  Forall (fun row => keys row = columns) rows ->
  flat_map values rows
  = flat_map (fun row => map (fun col => Js.get col row) columns) rows.
Proof.
  intros Hnd Hall. induction Hall as [|row rest Hrow Hrest IH];
    [reflexivity|].
  simpl. rewrite IH. f_equal.
  rewrite <- Hrow. symmetry. apply values_by_keys.
  rewrite Hrow. exact Hnd.
Qed.

Lemma values_lookup (row : object) (j : nat) (key : string) (v : value) :
  row !! j = Some (key, v) -> values row !! j = Some v.
Proof.
  revert j. induction row as [|[k0 v0] row IH]; intros j Hj.
  - discriminate Hj.
  - destruct j as [|j]; simpl in *.
    + injection Hj as _ ->. reflexivity.
    + apply IH. exact Hj.
Qed.

(** The value at place [j] of row [i], among the values of all rows. *)
Lemma values_by_position (m : nat) (rows : list object) :
  Forall (fun row => length row = m) rows ->
  forall (i j : nat) (row : object) (key : string) (v : value),
    rows !! i = Some row -> row !! j = Some (key, v) ->
    flat_map values rows !! (i * m + j)%nat = Some v.
Proof.
  induction 1 as [|row0 rest Hrow Hrest IH]; intros i j row key v Hi Hj.
  - discriminate Hi.
  - cbn [flat_map]. destruct i as [|i].
    + injection Hi as ->. rewrite lookup_app_l.
      * exact (values_lookup row j key v Hj).
      * unfold values. rewrite length_map. apply lookup_lt_Some in Hj.
        simpl. exact Hj.
    + rewrite lookup_app_r.
      * unfold values at 1. rewrite length_map, Hrow.
        replace (S i * m + j - m)%nat with (i * m + j)%nat by lia.
        exact (IH i j row key v Hi Hj).
      * unfold values. rewrite length_map, Hrow. lia.
Qed.

(** X23. With the cache aside, callbacks that return and a driver that
    accepts the statement, the one statement that [insertMany] sends
    for a non-empty array of objects lists the columns of the first
    row, with one group of placeholders per row, and binds the values
    of every row in that row's own key order: when all rows have as
    many keys as the first, the value bound for place [j] of the group
    of row [i] - which the text puts under column [j] of the first row
    - is the value of the [j]-th key of row [i], whatever that key is
    called.  So when every row has the columns of the first, in the
    same order and without a repeated name, each value is bound under
    its column: the values are, row by row, the row's value for each
    listed column.  For a single row the statement is that of
    [insert]. *)
Theorem values_are_bound_under_their_columns (rt : Runtime) (h : t)
        (table : string) (dataArray : list loc) (opts : crud_options)
        (result : result_set) :
  dataArray <> [] -> within h dataArray ->
  cacheEnabled (config h) = false -> calm h ->
  let rows := rows_at rt h (skipTimestamps opts) (ticks h) dataArray in
  let columns := keys (List.hd [] rows) in
  let params := flat_map values rows in
  execute rt (executed h) (insertMany_sql table rows) params = Ok result ->
  exists h' new,
    insertMany rt table dataArray opts h
    = (Ok {| insertId := result_insertId result;
             affectedRows := result_affectedRows result |}, h') /\
    trace h' = trace h ++ new /\
    statements_of new
    = [("INSERT INTO " +:+ table +:+ " (" +:+ Js.join ", " columns
        +:+ ") VALUES "
        +:+ Js.join ", " (map (fun _ => "(" +:+ placeholders columns +:+ ")")
                              rows),
        params)] /\
    (Forall (fun row => length row = length columns) rows ->
     forall (i j : nat) (row : object) (key : string) (v : value),
       rows !! i = Some row -> row !! j = Some (key, v) ->
       params !! (i * length columns + j)%nat = Some v) /\
    (List.NoDup columns -> Forall (fun row => keys row = columns) rows ->
     params
     = flat_map (fun row => map (fun col => Js.get col row) columns) rows) /\
    (forall row, rows = [row] ->
                 statements_of new = [(insert_sql table row, values row)]).
Proof.
  intros Hne Hin Hoff Hcalm rows columns params Hr.
  destruct (insertMany_sends rt h table dataArray opts result
              Hne Hin Hoff Hcalm Hr)
    as (h' & new & Hrun & _ & T & St).
  fold rows in St.
  exists h', new.
  split; [exact Hrun|]. split; [exact T|]. split; [exact St|].
  split; [|split].
  - intros Hu. apply values_by_position. exact Hu.
  - intros Hnd Hall. apply values_by_columns; assumption.
  - intros row Hrow. rewrite St. rewrite Hrow.
    unfold insertMany_statement, insertMany_sql, insert_sql. simpl.
    rewrite app_nil_r. reflexivity.
Qed.

Lemma values_are_bound_under_their_columns_witness :
  let h := create default_settings swapped_rows in
  let opts := {| skipTimestamps := true |} in
  let params := [VStr "Ann"; VNum 1; VNum 2; VStr "Bob"] in
  exists h',
    insertMany accepting "users" [0; 1]%nat opts h
    = (Ok {| insertId := VNum 1; affectedRows := VNum 1 |}, h') /\
    statements_of (trace h')
    = [("INSERT INTO users (name, rank) VALUES (?, ?), (?, ?)", params)] /\
    params !! 2%nat = Some (VNum 2) /\
    Js.get "name" [("rank", VNum 2); ("name", VStr "Bob")] = VStr "Bob".
Proof.
  intros h opts params.
  destruct (values_are_bound_under_their_columns accepting h "users"
              [0; 1]%nat opts (Header 1 1 1))
    as (h' & new & Hrun & T & St & Hpos & _ & _).
  - discriminate.
  - repeat constructor.
  - reflexivity.
  - split; constructor.
  - reflexivity.
  - exists h'. split; [exact Hrun|].
    split; [rewrite T; exact St|].
    split; [|reflexivity].
    apply (Hpos ltac:(repeat constructor) 1%nat 0%nat
                [("rank", VNum 2); ("name", VStr "Bob")] "rank" (VNum 2));
      reflexivity.
Defined.

End InsertedRows.

(* ===================================================================== *)
(** * Reading the first row *)
(* ===================================================================== *)

Section FirstRow.

Import MySQLHelper Samples.

(** What a method makes of the first row of the result: the value of a
    column, or the error of reading a column of [undefined]. *)
Lemma first_row_method (rt : Runtime) (h : t) (sql : string)
      (params : list value) (result : result_set) (column : string)
      (f : value -> value) :
  cacheEnabled (config h) = false -> calm h ->
  execute rt (executed h) sql params = Ok result ->
  exists h',
    (let* result := query rt sql params no_options in
     match QueryBuilder.first_row result with
     | Some row => ret (f (Js.get column row))
     | None =>
         throw (Error ("Cannot read properties of undefined (reading '"
                       +:+ column +:+ "')"))
     end) h
    = (match QueryBuilder.first_row result with
       | Some row => Ok (f (Js.get column row))
       | None =>
           Throw (Error ("Cannot read properties of undefined (reading '"
                         +:+ column +:+ "')"))
       end, h') /\
    sent_once sql params h h'.
Proof.
  intros Hoff Hcalm Hr.
  destruct (query_returns rt h sql params no_options result
              ltac:(rewrite Hoff; reflexivity) Hcalm Hr) as (h' & E & Hs).
  exists h'. unfold bind. rewrite E.
  destruct (QueryBuilder.first_row result); (split; [reflexivity|exact Hs]).
Qed.

(** X13. With the cache aside, callbacks that do not throw and a driver
    that answers the statement: [count], [min] and [max] return the
    column of the first row as it is, [sum] and [avg] return it unless
    it is null or otherwise falsy, and then zero, and [exists] compares
    the count with zero - a count that is a number, or a string that
    denotes an integer.  On a result without rows all of them throw
    the error of reading a column of [undefined] - not wrapped as a
    query failure -, while [findOne] and [findById] return null and
    [tableExists] false.  Each sends its statement once. *)
Theorem aggregates_read_first_row (rt : Runtime) (h : t)
        (table column : string) (where_ : object) (result : result_set) :
  cacheEnabled (config h) = false -> calm h ->
  (forall sql params, execute rt (executed h) sql params = Ok result) ->
  let column_or_error (name : string) (f : value -> value) :=
    match QueryBuilder.first_row result with
    | Some row => Ok (f (Js.get name row))
    | None =>
        Throw (Error ("Cannot read properties of undefined (reading '"
                      +:+ name +:+ "')"))
    end in
  let as_it_is (v : value) := v in
  (fst (count rt table where_ h) = column_or_error "count" as_it_is /\
   sent_once (count_sql table where_) (values where_) h
             (snd (count rt table where_ h))) /\
  (fst (sum_ rt table column where_ h) = column_or_error "total" or_zero /\
   sent_once (sum_sql table column where_) (values where_) h
             (snd (sum_ rt table column where_ h))) /\
  (fst (avg rt table column where_ h) = column_or_error "average" or_zero /\
   sent_once (avg_sql table column where_) (values where_) h
             (snd (avg rt table column where_ h))) /\
  (fst (min_ rt table column where_ h) = column_or_error "minimum" as_it_is /\
   sent_once (min_sql table column where_) (values where_) h
             (snd (min_ rt table column where_ h))) /\
  (fst (max_ rt table column where_ h) = column_or_error "maximum" as_it_is /\
   sent_once (max_sql table column where_) (values where_) h
             (snd (max_ rt table column where_ h))) /\
  match QueryBuilder.first_row result with
  | Some row =>
      forall n, to_number (Js.get "count" row) = Int n ->
                fst (exists_ rt table where_ h) = Ok (0 <? n)
  | None =>
      fst (exists_ rt table where_ h)
      = Throw (Error "Cannot read properties of undefined (reading 'count')")
  end /\
  fst (findOne rt table where_ h) = Ok (QueryBuilder.first_row result) /\
  (forall id idColumn,
     fst (findById rt table id idColumn h)
     = Ok (QueryBuilder.first_row result)) /\
  fst (tableExists rt table h)
  = Ok (match result with Rows (_ :: _) => true | _ => false end) /\
  (forall v, fst (sum_ rt table column where_ h) = Ok v ->
             v = VNum 0 \/ truthy v = true).
Proof.
  intros Hoff Hcalm Hr column_or_error as_it_is.
  assert (Hcol : forall sql params name f,
             let m := (let* result := query rt sql params no_options in
                       match QueryBuilder.first_row result with
                       | Some row => ret (f (Js.get name row))
                       | None =>
                           throw (Error ("Cannot read properties of undefined (reading '"
                                         +:+ name +:+ "')"))
                       end) in
             fst (m h) = column_or_error name f /\
             sent_once sql params h (snd (m h))).
  { intros sql params name f m.
    destruct (first_row_method rt h sql params result name f Hoff Hcalm
                               (Hr sql params)) as (h' & E & Hs).
    subst m. rewrite E. split; [reflexivity|exact Hs]. }
  assert (Hq : forall sql params o,
             fst (query rt sql params o h) = Ok result).
  { intros sql params o.
    destruct (query_returns rt h sql params o result
                ltac:(rewrite Hoff; reflexivity) Hcalm (Hr sql params))
      as (h' & E & _).
    rewrite E. reflexivity. }
  assert (Hsum : fst (sum_ rt table column where_ h)
                 = column_or_error "total" or_zero).
  { apply (Hcol (sum_sql table column where_) (values where_) "total"
                or_zero). }
  split; [apply (Hcol (count_sql table where_) (values where_) "count"
                      as_it_is)|].
  split; [apply (Hcol (sum_sql table column where_) (values where_) "total"
                      or_zero)|].
  split; [apply (Hcol (avg_sql table column where_) (values where_)
                      "average" or_zero)|].
  split; [apply (Hcol (min_sql table column where_) (values where_)
                      "minimum" as_it_is)|].
  split; [apply (Hcol (max_sql table column where_) (values where_)
                      "maximum" as_it_is)|].
  split.
  { destruct (first_row_method rt h (count_sql table where_)
                (values where_) result "count" as_it_is Hoff Hcalm
                (Hr _ _)) as (h' & E & _).
    assert (Ec : count rt table where_ h
                 = (match QueryBuilder.first_row result with
                    | Some row => Ok (Js.get "count" row)
                    | None =>
                        Throw (Error "Cannot read properties of undefined (reading 'count')")
                    end, h')) by exact E.
    unfold exists_, bind. rewrite Ec.
    destruct (QueryBuilder.first_row result) as [row|]; [|reflexivity].
    intros n Hn. simpl. rewrite Hn. reflexivity. }
  assert (Hsel : forall o, fst (select rt table o h) = Ok result).
  { intros o. unfold select. apply Hq. }
  split.
  { unfold findOne, bind. specialize (Hsel (one_row where_)).
    destruct (select rt table (one_row where_) h) as [[r|e] h1];
      inversion Hsel; reflexivity. }
  split.
  { intros id idColumn. unfold findById, bind.
    specialize (Hsel (one_row [(match idColumn with
                                  | Some c => c
                                  | None => "id"
                                  end, id)])).
    destruct (select rt table _ h) as [[r|e] h1];
      inversion Hsel; reflexivity. }
  split.
  { unfold tableExists, bind.
    pose proof (Hq "SHOW TABLES LIKE ?" [VStr table] no_options) as E.
    destruct (query rt "SHOW TABLES LIKE ?" [VStr table] no_options h)
      as [[r|e] h1]; inversion E; subst. simpl.
    destruct result as [[|row rows]|]; reflexivity. }
  intros v Hv. rewrite Hsum in Hv. subst column_or_error. simpl in Hv.
  destruct (QueryBuilder.first_row result) as [row|]; [|discriminate].
  inversion Hv as [Hv']. unfold or_zero.
  destruct (truthy (Js.get "total" row)) eqn:E; [right; exact E|left].
  reflexivity.
Qed.

Lemma aggregates_read_first_row_witness :
  let h := create default_settings [] in
  fst (sum_ aggregating_nothing "orders" "total" [] h) = Ok (VNum 0) /\
  fst (min_ aggregating_nothing "orders" "total" [] h) = Ok VNull /\
  fst (count finding_nothing "orders" [] h)
  = Throw (Error "Cannot read properties of undefined (reading 'count')") /\
  fst (findOne finding_nothing "orders" [] h) = Ok None /\
  fst (exists_ counting_as_text "orders" [] h) = Ok true.
Proof.
  intros h.
  destruct (aggregates_read_first_row aggregating_nothing h "orders" "total"
              [] (Rows [null_row]) eq_refl
              ltac:(split; constructor) ltac:(reflexivity))
    as (_ & [Hsum _] & _ & [Hmin _] & _).
  destruct (aggregates_read_first_row finding_nothing h "orders" "total"
              [] (Rows []) eq_refl
              ltac:(split; constructor) ltac:(reflexivity))
    as ([Hcount _] & _ & _ & _ & _ & _ & Hone & _).
  destruct (aggregates_read_first_row counting_as_text h "orders" "total"
              [] (Rows [[("count", VStr "3")]]) eq_refl
              ltac:(split; constructor) ltac:(reflexivity))
    as (_ & _ & _ & _ & _ & Hexists & _).
  split; [exact Hsum|]. split; [exact Hmin|]. split; [exact Hcount|].
  split; [exact Hone|]. exact (Hexists 3 eq_refl).
Defined.

End FirstRow.

(* ===================================================================== *)
(** * Pages by table *)
(* ===================================================================== *)

Section Pages.

Import MySQLHelper Samples.

Lemma ceil_div_bounds (n c : Z) :
  0 < c -> 0 <= n ->
  exists b, ceil_div n c = Int b /\ 0 <= b /\ (b - 1) * c < n <= b * c.
Proof.
  intros Hc Hn. exists (- ((- n) / c)). unfold ceil_div.
  destruct (Z.eqb_spec c 0); [lia|]. split; [reflexivity|].
  pose proof (Z.div_mod (- n) c ltac:(lia)) as Hdm.
  pose proof (Z.mod_pos_bound (- n) c Hc) as Hm.
  nia.
Qed.

(** X14. [paginate] of the helper, with the cache aside, callbacks that
    do not throw, a count of [total >= 0] rows and [perPage > 0]: it
    sends the count and then the page - both with the values of
    [where] -, and returns the rows of the page with [totalPages] the
    least number of pages that hold [total] rows, [hasNextPage] exactly
    when rows are left after this page ([page * perPage < total]) and
    [hasPrevPage] exactly when [page > 1]. *)
Theorem paginate_metadata (rt : Runtime) (h : t) (table : string)
        (o : paginate_options) (total : Z) (crow : object)
        (rest : list object) (rows : result_set) :
  let page := match pg_page o with Some p => p | None => 1 end in
  let perPage := match pg_perPage o with Some p => p | None => 10 end in
  cacheEnabled (config h) = false -> calm h ->
  0 < perPage -> 0 <= total ->
  execute rt (executed h) (count_sql table (pg_where o))
          (values (pg_where o)) = Ok (Rows (crow :: rest)) ->
  Js.get "count" crow = VNum total ->
  execute rt (S (executed h)) (select_sql table (page_options o))
          (values (pg_where o)) = Ok rows ->
  exists pages h',
    paginate rt table o h
    = (Ok {| QueryBuilder.page_data := rows;
             QueryBuilder.page_pagination :=
               {| QueryBuilder.currentPage := page;
                  QueryBuilder.perPage := perPage;
                  QueryBuilder.totalItems := VNum total;
                  QueryBuilder.totalPages := Int pages;
                  QueryBuilder.hasNextPage := page * perPage <? total;
                  QueryBuilder.hasPrevPage := 1 <? page |} |}, h') /\
    0 <= pages /\ (pages - 1) * perPage < total <= pages * perPage /\
    exists new,
      trace h' = trace h ++ new /\
      statements_of new
      = [ (count_sql table (pg_where o), values (pg_where o));
          (select_sql table (page_options o), values (pg_where o)) ].
Proof.
  intros page perPage Hoff Hcalm Hper Htotal Hcount Hget Hpage.
  destruct (ceil_div_bounds total perPage Hper Htotal)
    as (pages & Hceil & Hpos & Hbounds).
  destruct (query_returns rt h (count_sql table (pg_where o))
              (values (pg_where o)) no_options _
              ltac:(rewrite Hoff; reflexivity) Hcalm Hcount)
    as (h1 & E1 & C1 & K1 & _ & _ & X1 & new1 & T1 & S1 & _).
  assert (Hcalm1 : calm h1) by (unfold calm; rewrite K1; exact Hcalm).
  rewrite <- X1 in Hpage.
  destruct (query_returns rt h1 (select_sql table (page_options o))
              (values (pg_where o)) no_options rows
              ltac:(rewrite C1, Hoff; reflexivity) Hcalm1 Hpage)
    as (h2 & E2 & _ & _ & _ & _ & _ & new2 & T2 & S2 & _).
  exists pages, h2. split; [|split; [exact Hpos|split; [exact Hbounds|]]].
  - unfold paginate. unfold bind at 1. unfold count, bind at 1.
    rewrite E1. cbn [QueryBuilder.first_row ret]. rewrite Hget.
    unfold bind at 1. unfold select.
    change (query rt _ _ _ h1)
      with (query rt (select_sql table (page_options o))
                  (values (pg_where o)) no_options h1).
    rewrite E2. unfold ret. cbn [to_number Math_ceil_div].
    fold page perPage. rewrite Hceil. cbn [lt_num].
    replace (page <? pages) with (page * perPage <? total); [reflexivity|].
    destruct (Z.ltb_spec (page * perPage) total);
      destruct (Z.ltb_spec page pages); try reflexivity; nia.
  - exists (new1 ++ new2). split.
    + rewrite T2, T1, app_assoc. reflexivity.
    + rewrite statements_app, S1, S2. reflexivity.
Qed.

Lemma paginate_metadata_witness :
  exists h',
    paginate counting "orders"
             {| pg_page := Some 2; pg_perPage := None;
                pg_where := [("status", VStr "completed")];
                pg_orderBy := None; pg_columns := None |}
             (create default_settings [])
    = (Ok {| QueryBuilder.page_data := Rows [[("count", VNum 25)]];
             QueryBuilder.page_pagination :=
               {| QueryBuilder.currentPage := 2;
                  QueryBuilder.perPage := 10;
                  QueryBuilder.totalItems := VNum 25;
                  QueryBuilder.totalPages := Int 3;
                  QueryBuilder.hasNextPage := true;
                  QueryBuilder.hasPrevPage := true |} |}, h').
Proof.
  destruct (paginate_metadata counting (create default_settings []) "orders"
              {| pg_page := Some 2; pg_perPage := None;
                 pg_where := [("status", VStr "completed")];
                 pg_orderBy := None; pg_columns := None |}
              25 [("count", VNum 25)] [] (Rows [[("count", VNum 25)]])
              eq_refl ltac:(split; constructor) ltac:(simpl; lia)
              ltac:(lia) eq_refl eq_refl eq_refl)
    as (pages & h' & Hrun & _ & Hbounds & _).
  simpl in Hbounds. assert (pages = 3) by lia. subst pages.
  exists h'. exact Hrun.
Defined.

End Pages.

(* ===================================================================== *)
(** * Batches of no size *)
(* ===================================================================== *)

Section BatchSizes.

Import MySQLHelper Samples.

(** X15. [batchInsert] with a chunk size that is not positive sends
    nothing.  With a size of zero the number of batches is infinite,
    the first batch is empty and the call fails with the error of
    [insertMany] for an empty array.  With a negative size the number
    of batches is not positive, the loop is not entered, and the call
    returns without results - reporting all the rows as inserted. *)
Theorem batchInsert_without_positive_size (rt : Runtime) (h : t)
        (table : string) (items : list loc) (c : Z) :
  items <> [] ->
  (c = 0 ->
   batchInsert rt table items c h
   = (Throw (Error "Data array cannot be empty"), h)) /\
  (c < 0 ->
   exists b,
     b <= 0 /\
     batchInsert rt table items c h
     = (Ok {| totalBatches := Int b;
              totalInserted := Z.of_nat (length items);
              results := [] |}, h)).
Proof.
  intros Hne. split.
  - intros ->. apply batchInsert_zero_chunk. exact Hne.
  - intros Hc. exists (- ((- Z.of_nat (length items)) / c)).
    assert (Hb : - ((- Z.of_nat (length items)) / c) <= 0).
    { rewrite <- (Z.opp_involutive c) at 1. rewrite Z.div_opp_opp by lia.
      pose proof (Z.div_pos (Z.of_nat (length items)) (- c)
                            ltac:(lia) ltac:(lia)).
      lia. }
    split; [exact Hb|].
    unfold batchInsert. destruct items as [|x xs]; [congruence|].
    change ((length (x :: xs) =? 0)%nat) with false. cbv iota.
    unfold ceil_div. destruct (Z.eqb_spec c 0) as [E|_]; [lia|].
    unfold iterations.
    rewrite (Z2Nat.nonpos _ Hb). reflexivity.
Qed.

Lemma batchInsert_without_positive_size_witness :
  batchInsert accepting "users" [0%nat; 1%nat] (-1) helper_with_rows
  = (Ok {| totalBatches := Int (-2); totalInserted := 2; results := [] |},
     helper_with_rows) /\
  batchInsert accepting "users" [0%nat; 1%nat] 0 helper_with_rows
  = (Throw (Error "Data array cannot be empty"), helper_with_rows).
Proof.
  destruct (batchInsert_without_positive_size accepting helper_with_rows
              "users" [0%nat; 1%nat] (-1) ltac:(discriminate))
    as [_ Hneg].
  destruct (batchInsert_without_positive_size accepting helper_with_rows
              "users" [0%nat; 1%nat] 0 ltac:(discriminate))
    as [Hzero _].
  split; [|exact (Hzero eq_refl)].
  destruct (Hneg ltac:(lia)) as (b & _ & Hrun).
  assert (E : fst (batchInsert accepting "users" [0%nat; 1%nat] (-1)
                               helper_with_rows)
              = Ok {| totalBatches := Int (-2); totalInserted := 2;
                      results := [] |}) by (vm_compute; reflexivity).
  rewrite Hrun in E. simpl in E. inversion E; subst. exact Hrun.
Defined.

End BatchSizes.

(* ===================================================================== *)
(** * A batch that the driver rejects *)
(* ===================================================================== *)

Section RejectedBatch.

Import MySQLHelper Samples.

Variable rt : Runtime.

Global Instance same_store_preorder : PreOrder same_store.
Proof.
  split.
  - intros h. split; reflexivity.
  - intros h1 h2 h3 [X1 C1] [X2 C2]. split; congruence.
Qed.

Lemma same_store_addTimestamps (data : loc) (isUpdate : bool) :
  respects same_store (_addTimestamps rt data isUpdate).
Proof.
  assert (Hnow : respects same_store (now rt)).
  { intros h r h' H. inversion H; subst. split; reflexivity. }
  assert (Hderef : forall l, respects same_store (deref l)).
  { intros l. rule respects_read. }
  assert (Halloc : forall o, respects same_store (alloc o)).
  { intros o h r h' H. inversion H; subst. split; reflexivity. }
  assert (Hassign : forall l k v, respects same_store (assign l k v)).
  { intros l k v. unfold assign. rule respects_bind; [apply Hderef|].
    intros o. rule respects_modify. intros h. split; reflexivity. }
  unfold _addTimestamps.
  rule respects_bind; [rule respects_read|]. intros enabled.
  destruct (negb enabled); [rule respects_ret|].
  rule respects_bind; [exact Hnow|]. intros ms.
  rule respects_bind; [apply Hderef|]. intros d.
  rule respects_bind; [apply Halloc|]. intros td.
  rule respects_bind; [rule respects_read|]. intros created.
  rule respects_bind; [apply Hderef|]. intros d1.
  rule respects_bind; [rule respects_when; apply Hassign|]. intros _.
  rule respects_bind; [rule respects_read|]. intros updated.
  rule respects_bind; [apply Hderef|]. intros d2.
  rule respects_bind; [rule respects_when; apply Hassign|]. intros _.
  rule respects_ret.
Qed.

Lemma same_store_mapM {A B : Type} (f : A -> M t B) (xs : list A) :
  (forall x, respects same_store (f x)) -> respects same_store (mapM f xs).
Proof.
  intros Hf. induction xs as [|x xs IH]; simpl.
  - rule respects_ret.
  - rule respects_bind; [apply Hf|]. intros y.
    rule respects_bind; [exact IH|]. intros ys. rule respects_ret.
Qed.

(** The rows that [insertMany] compiles, and the state in which it
    sends the statement. *)
Lemma insertMany_rows (h : t) (table : string) (dataArray : list loc)
      (opts : crud_options) :
  dataArray <> [] ->
  exists rows h2,
    insertMany rt table dataArray opts h
    = (let* result := query rt (insertMany_sql table rows)
                            (flat_map values rows) no_options in
       ret {| insertId := result_insertId result;
              affectedRows := result_affectedRows result |}) h2 /\
    silent h h2 /\ same_store h h2.
Proof.
  intros Hne. unfold insertMany.
  destruct dataArray as [|x xs]; [congruence|].
  change ((length (x :: xs) =? 0)%nat) with false. cbv iota.
  set (stamp := if skipTimestamps opts then ret (x :: xs)
                else mapM (fun d => _addTimestamps rt d false) (x :: xs)).
  assert (H1 : succeeds silent stamp).
  { subst stamp. destruct (skipTimestamps opts);
      [apply succeeds_ret; apply _|].
    apply succeeds_mapM. intros d. apply succeeds_addTimestamps. }
  assert (H1' : respects same_store stamp).
  { subst stamp. destruct (skipTimestamps opts); [rule respects_ret|].
    apply same_store_mapM. intros d. apply same_store_addTimestamps. }
  destruct (H1 h) as (ts & h1 & E1 & S1).
  pose proof (H1' _ _ _ E1) as X1.
  destruct (succeeds_mapM deref ts succeeds_deref h1)
    as (rows & h2 & E2 & S2).
  assert (X2 : same_store h1 h2).
  { eapply (same_store_mapM deref ts); [|exact E2].
    intros l. rule respects_read. }
  exists rows, h2. unfold bind at 1. rewrite E1.
  unfold bind at 1. rewrite E2.
  split; [reflexivity|]. split; [|transitivity h1; assumption].
  transitivity h1; assumption.
Qed.

Lemma insertMany_returns (h : t) (table : string) (dataArray : list loc)
      (opts : crud_options) :
  cacheEnabled (config h) = false -> calm h -> dataArray <> [] ->
  (forall sql params,
      exists rows, execute rt (executed h) sql params = Ok rows) ->
  exists r h',
    insertMany rt table dataArray opts h = (Ok r, h') /\
    config h' = config h /\ hooks h' = hooks h /\
    executed h' = S (executed h) /\
    exists new, trace h' = trace h ++ new /\ marks new = [Answered].
Proof.
  intros Hoff Hcalm Hne Hok.
  destruct (insertMany_rows h table dataArray opts Hne)
    as (rows & h2 & E & (C2 & K2 & T2) & (X2 & _)).
  destruct (Hok (insertMany_sql table rows) (flat_map values rows))
    as [result Hr].
  rewrite <- X2 in Hr.
  destruct (query_returns rt h2 _ _ no_options result
              ltac:(rewrite C2, Hoff; reflexivity)
              ltac:(unfold calm; rewrite K2; exact Hcalm) Hr)
    as (h3 & E3 & C3 & K3 & _ & _ & X3 & new & T3 & _ & M3).
  rewrite E. unfold bind. rewrite E3.
  eexists. exists h3. split; [reflexivity|].
  split; [congruence|]. split; [congruence|]. split; [congruence|].
  exists new. split; [congruence|exact M3].
Qed.

Lemma insertMany_rejects (h : t) (table : string) (dataArray : list loc)
      (opts : crud_options) (err : error) :
  cacheEnabled (config h) = false -> calm h ->
  harmless (onError (hooks h)) -> dataArray <> [] ->
  (forall sql params, execute rt (executed h) sql params = Throw err) ->
  exists h',
    insertMany rt table dataArray opts h
    = (Throw (Error ("Query failed: " +:+ message err)), h') /\
    executed h' = S (executed h) /\
    exists new, trace h' = trace h ++ new /\ marks new = [Answered].
Proof.
  intros Hoff [Hb _] He Hne Hno.
  destruct (insertMany_rows h table dataArray opts Hne)
    as (rows & h2 & E & (C2 & K2 & T2) & (X2 & _)).
  pose proof (Hno (insertMany_sql table rows) (flat_map values rows)) as Hr.
  rewrite <- X2 in Hr.
  destruct (query_rejects rt h2 _ _ no_options err
              ltac:(rewrite C2, Hoff; reflexivity)
              ltac:(rewrite K2; exact Hb) ltac:(rewrite K2; exact He) Hr)
    as (h3 & E3 & C3 & K3 & _ & _ & X3 & new & T3 & _ & M3).
  rewrite E. unfold bind. rewrite E3.
  exists h3. split; [reflexivity|]. split; [congruence|].
  exists new. split; [congruence|exact M3].
Qed.

Lemma batchInsert_loop_rejected (table : string) (items : list loc)
      (c : Z) (batches : jsnum) (err : error) :
  0 < c ->
  forall (j m : nat) (i : Z) (results : list insert_result) (h : t),
    cacheEnabled (config h) = false -> calm h ->
    harmless (onError (hooks h)) -> 0 <= i ->
    (i + Z.of_nat j) * c < Z.of_nat (length items) ->
    (forall k sql params,
        (k < j)%nat ->
        exists rows, execute rt (executed h + k) sql params = Ok rows) ->
    (forall sql params,
        execute rt (executed h + j) sql params = Throw err) ->
    exists h',
      batchInsert_loop rt (S j + m) i table items c batches results h
      = (Throw (Error ("Query failed: " +:+ message err)), h') /\
      executed h' = (executed h + S j)%nat /\
      exists new,
        trace h' = trace h ++ new /\
        marks new
        = flat_map (fun k => [Answered;
                              Progress (k + 1) batches
                                       (Z.min (k * c + c)
                                              (Z.of_nat (length items)))])
                   (zseq i j)
          ++ [Answered].
Proof.
  intros Hc. induction j as [|j IH];
    intros m i results h Hoff Hcalm He Hi Hlast Hok Hno.
  - assert (Hne : slice items (i * c)
                        (Z.min (i * c + c) (Z.of_nat (length items))) <> []).
    { intros E. apply (f_equal (@length loc)) in E.
      rewrite slice_length in E by nia. simpl in E. lia. }
    destruct (insertMany_rejects h table _ {| skipTimestamps := false |} err
                Hoff Hcalm He Hne)
      as (h1 & E1 & X1 & new & T1 & M1).
    { intros sql params. rewrite <- (Nat.add_0_r (executed h)). apply Hno. }
    exists h1. split.
    { simpl. unfold bind at 1. rewrite E1. reflexivity. }
    split; [lia|]. exists new. split; [exact T1|exact M1].
  - assert (Hne : slice items (i * c)
                        (Z.min (i * c + c) (Z.of_nat (length items))) <> []).
    { intros E. apply (f_equal (@length loc)) in E.
      rewrite slice_length in E by nia. simpl in E. lia. }
    destruct (insertMany_returns h table _ {| skipTimestamps := false |}
                Hoff Hcalm Hne)
      as (r1 & h1 & E1 & C1 & K1 & X1 & new1 & T1 & M1).
    { intros sql params. rewrite <- (Nat.add_0_r (executed h)).
      apply Hok. lia. }
    set (h1' := set_trace
                  (trace h1
                   ++ [Emit (batchProgress (i + 1) batches
                               (Z.min (i * c + c)
                                      (Z.of_nat (length items))))]) h1).
    destruct (IH m (i + 1) (results ++ [r1]) h1')
      as (h' & E & X & new & T & Mk).
    { simpl. rewrite C1. exact Hoff. }
    { unfold calm. simpl. rewrite K1. exact Hcalm. }
    { simpl. rewrite K1. exact He. }
    { lia. }
    { lia. }
    { intros k sql params Hk. simpl. rewrite X1.
      replace (S (executed h) + k)%nat with (executed h + S k)%nat by lia.
      apply Hok. lia. }
    { intros sql params. simpl. rewrite X1.
      replace (S (executed h) + j)%nat with (executed h + S j)%nat by lia.
      apply Hno. }
    exists h'. split.
    { change (S (S j) + m)%nat with (S (S j + m)).
      cbn [batchInsert_loop]. unfold bind at 1. rewrite E1.
      unfold bind at 1, emit, effect_, modify. exact E. }
    split; [simpl in X; lia|].
    exists (new1 ++ [Emit (batchProgress (i + 1) batches
                             (Z.min (i * c + c) (Z.of_nat (length items))))]
            ++ new).
    split.
    { rewrite T. simpl. rewrite T1, <- !app_assoc. reflexivity. }
    rewrite !marks_app, M1, Mk. reflexivity.
Qed.

End RejectedBatch.

Section RejectedBatches.

Import MySQLHelper Samples.

(** X16. [batchInsert] does not undo what it has sent.  With a positive
    chunk size, the cache aside and callbacks that do not throw: when
    the driver accepts the statements of the first [j] chunks and
    rejects the next, the call fails with the wrapped message of the
    driver's error; by then [j + 1] statements have gone to the driver,
    the progress signals of the [j] accepted chunks have been emitted
    and none for the rejected one, and no further chunk is sent. *)
Theorem batchInsert_stops_at_rejected_batch (rt : Runtime) (h : t)
        (table : string) (items : list loc) (c : Z) (j : nat)
        (err : error) :
  cacheEnabled (config h) = false -> calm h ->
  harmless (onError (hooks h)) ->
  0 < c -> Z.of_nat j * c < Z.of_nat (length items) ->
  (forall k sql params,
      (k < j)%nat ->
      exists rows, execute rt (executed h + k) sql params = Ok rows) ->
  (forall sql params, execute rt (executed h + j) sql params = Throw err) ->
  let n := Z.of_nat (length items) in
  exists h' new,
    batchInsert rt table items c h
    = (Throw (Error ("Query failed: " +:+ message err)), h') /\
    executed h' = (executed h + S j)%nat /\
    trace h' = trace h ++ new /\
    marks new
    = flat_map (fun k => [Answered;
                          Progress k (ceil_div n c) (Z.min (k * c) n)])
               (zseq 1 j)
      ++ [Answered] /\
    progress_signals new
    = map (fun k => (k, ceil_div n c, Z.min (k * c) n)) (zseq 1 j).
Proof.
  intros Hoff Hcalm He Hc Hj Hok Hno n.
  assert (Hn : 0 < n) by (subst n; nia).
  destruct (ceil_div_spec n c Hc Hn) as (b & Hb & Hpos & Hlo & Hhi).
  assert (Hjb' : Z.of_nat j < b) by (subst n; nia).
  assert (Hjb : (S j <= Z.to_nat b)%nat) by lia.
  destruct (batchInsert_loop_rejected rt table items c (Int b) err Hc
              j (Z.to_nat b - S j) 0 [] h Hoff Hcalm He ltac:(lia)
              ltac:(lia) Hok Hno)
    as (h' & E & X & new & T & Mk).
  replace (S j + (Z.to_nat b - S j))%nat with (Z.to_nat b) in E by lia.
  assert (Hmarks : marks new
                   = flat_map (fun k => [Answered;
                                         Progress k (Int b)
                                                  (Z.min (k * c) n)])
                              (zseq 1 j)
                     ++ [Answered]).
  { rewrite Mk. f_equal. apply (flat_map_zseq_shift _ _ 0). intros k.
    fold n. replace ((k + 1) * c) with (k * c + c) by lia. reflexivity. }
  exists h', new. fold n in Hb. rewrite Hb.
  split; [|split; [exact X|split; [exact T|split; [exact Hmarks|]]]].
  - unfold batchInsert. destruct items as [|x xs]; [subst n; simpl in Hn; lia|].
    change ((length (x :: xs) =? 0)%nat) with false. cbv iota.
    fold n. rewrite Hb. unfold bind. simpl iterations. rewrite E.
    reflexivity.
  - rewrite progress_signals_marks, Hmarks, omap_app.
    rewrite omap_progress_zseq. simpl. apply app_nil_r.
Qed.

Lemma batchInsert_stops_at_rejected_batch_witness :
  exists h',
    batchInsert failing_third "users" rows_5000 1000 helper_with_5000_rows
    = (Throw (Error "Query failed: ER_LOCK_DEADLOCK"), h') /\
    executed h' = 3%nat /\
    progress_signals (trace h')
    = [ (1, Int 5, 1000); (2, Int 5, 2000) ].
Proof.
  destruct (batchInsert_stops_at_rejected_batch failing_third
              helper_with_5000_rows "users" rows_5000 1000 2
              (Error "ER_LOCK_DEADLOCK") eq_refl
              ltac:(split; constructor) ltac:(constructor) ltac:(lia)
              ltac:(vm_compute; reflexivity))
    as (h' & new & Hrun & X & T & _ & P).
  { intros k sql params Hk. simpl.
    destruct k as [|[|k]]; [eexists; reflexivity..|lia]. }
  { intros sql params. reflexivity. }
  exists h'. split; [exact Hrun|]. split; [exact X|].
  change (trace helper_with_5000_rows) with (@nil effect) in T.
  rewrite T. simpl. rewrite P.
  assert (Hn : Z.of_nat (length rows_5000) = 5000)
    by (vm_compute; reflexivity).
  rewrite Hn. reflexivity.
Defined.

End RejectedBatches.

(* ===================================================================== *)
(** * Writes and the cache *)
(* ===================================================================== *)

Section CachedWrites.

Import MySQLHelper Samples.

Lemma bind_ok {S A B : Type} (m : M S A) (k : A -> M S B) (s s1 : S)
      (a : A) :
  m s = (Ok a, s1) -> bind m k s = k a s1.
Proof. intros E. unfold bind. rewrite E. reflexivity. Qed.

Lemma runHooks_harmless (name : string) (cbs : list callback)
      (d : hook_data) (h : t) :
  own_hook name (hooks h) = Some cbs -> harmless cbs ->
  _runHooks name d h
  = (Ok tt, set_trace (trace h ++ map (call_of name) cbs) h).
Proof.
  intros Hown Hh. unfold _runHooks, bind, read. rewrite Hown.
  rewrite run_callbacks_run, (hook_outcome_harmless _ _ _ Hh). reflexivity.
Qed.

(** A call that finds no entry and returns has stored what it
    returns. *)
Lemma query_stores (rt : Runtime) (h : t) (sql : string)
      (params : list value) (o : query_options) (rows : result_set)
      (h1 : t) :
  cacheEnabled (config h) = true -> cache_not_false o = true ->
  cache h !! _getCacheKey rt sql params = None ->
  query rt sql params o h = (Ok rows, h1) ->
  cache h1 !! _getCacheKey rt sql params
  = Some {| data := rows;
            expiry := Date_now rt (pred (ticks h1))
                      + match opt_cacheTTL o with
                        | Some x => x
                        | None => cacheTTL (config h)
                        end |}.
Proof.
  intros He Ho Hnone Hq.
  rewrite query_miss in Hq by (right; exact Hnone).
  unfold try_catch in Hq.
  destruct (execute_and_store rt sql params o (Date_now rt (ticks h))
              (set_ticks (S (ticks h)) h)) as [[rows'|err] h'] eqn:Hx.
  2: { destruct (on_failure_throws _ _ _ _ _ _ _ Hq) as [e E].
       discriminate E. }
  inversion Hq; subst rows' h'.
  exact (execute_and_store_caches rt (set_ticks (S (ticks h)) h)
           _ _ _ _ _ _ He Ho Hx).
Qed.

(** X17. The table methods send their statements through [query] with
    its default options, so with caching on a write is cached like a
    read.  An [insert] that is repeated with the same row before the
    entry expires is not sent to the driver again: the second call
    returns the result of the first - the same [insertId] -, and its
    only effects are the calls of the insert callbacks and one
    cache-hit signal. *)
Theorem repeated_insert_is_answered_from_cache (rt : Runtime) (h : t)
        (table : string) (data : loc) (d : object) (opts : crud_options)
        (r : insert_result) (h1 : t) :
  cacheEnabled (config h) = true -> skipTimestamps opts = true ->
  heap h !! data = Some d ->
  harmless (beforeInsert (hooks h)) -> harmless (afterInsert (hooks h)) ->
  cache h !! _getCacheKey rt (insert_sql table d) (values d) = None ->
  insert rt table data opts h = (Ok r, h1) ->
  Date_now rt (S (ticks h1))
  < Date_now rt (pred (ticks h1)) + cacheTTL (config h) ->
  exists h2,
    insert rt table data opts h1 = (Ok r, h2) /\
    executed h2 = executed h1 /\
    trace h2
    = trace h1
      ++ map (call_of "beforeInsert") (beforeInsert (hooks h))
      ++ [Emit (cacheHit (insert_sql table d) (values d))]
      ++ map (call_of "afterInsert") (afterInsert (hooks h)).
Proof.
  intros He Hskip Hd Hb Ha Hnone Hrun Hclock.
  set (sql := insert_sql table d) in *.
  (* the first call *)
  unfold insert in Hrun. rewrite Hskip in Hrun.
  unfold bind at 1, ret at 1 in Hrun.
  rewrite (bind_ok _ _ _ _ _ (runHooks_harmless "beforeInsert" _ _ h
                                eq_refl Hb)) in Hrun.
  set (hB := set_trace _ h) in Hrun.
  unfold bind at 1, deref at 1, read at 1 in Hrun.
  change (heap hB) with (heap h) in Hrun.
  unfold object, loc in *. rewrite Hd in Hrun. cbn [default] in Hrun.
  change (id d) with d in Hrun. fold sql in Hrun.
  destruct (query rt sql (values d) no_options hB) as [[result|e] hQ] eqn:Eq.
  2: { unfold bind in Hrun. unfold object, loc in *. rewrite Eq in Hrun.
       discriminate Hrun. }
  rewrite (bind_ok _ _ _ _ _ Eq) in Hrun.
  pose proof (evolves_query rt sql (values d) no_options _ _ _ Eq)
    as (CQ & KQ & [more HQ] & _).
  pose proof (query_stores rt hB sql (values d) no_options result hQ
                He eq_refl Hnone Eq) as Hentry.
  cbn [opt_cacheTTL no_options] in Hentry.
  change (config hB) with (config h) in *.
  change (hooks hB) with (hooks h) in *.
  change (heap hB) with (heap h) in *.
  rewrite (bind_ok _ _ _ _ _ (runHooks_harmless "afterInsert"
                                (afterInsert (hooks h)) _ hQ
                                ltac:(simpl; rewrite KQ; reflexivity) Ha))
    in Hrun.
  unfold ret in Hrun. injection Hrun as Hr Hh1.
  (* the second call *)
  assert (K1 : hooks h1 = hooks h) by (rewrite <- Hh1; exact KQ).
  assert (Hd1 : heap h1 !! data = Some d).
  { rewrite <- Hh1. simpl. rewrite HQ. apply lookup_app_l_Some. exact Hd. }
  unfold insert. rewrite Hskip. unfold bind at 1, ret at 1.
  rewrite (bind_ok _ _ _ _ _ (runHooks_harmless "beforeInsert"
                                (beforeInsert (hooks h)) _ h1
                                ltac:(simpl; rewrite K1; reflexivity) Hb)).
  set (hB2 := set_trace _ h1).
  unfold bind at 1, deref at 1, read at 1.
  change (heap hB2) with (heap h1). unfold object, loc in *.
  rewrite Hd1. cbn [default].
  change (id d) with d. fold sql.
  assert (Hhit : query rt sql (values d) no_options hB2
                 = (Ok result,
                    set_trace (trace hB2 ++ [Emit (cacheHit sql (values d))])
                              (set_ticks (S (S (ticks hB2))) hB2))).
  { apply (query_hit rt hB2 sql (values d) no_options
                     {| data := result;
                        expiry := Date_now rt (pred (ticks hQ))
                                  + cacheTTL (config h) |}).
    - subst hB2. simpl. rewrite <- Hh1. simpl. rewrite CQ. exact He.
    - reflexivity.
    - subst hB2. simpl. rewrite <- Hh1. simpl. exact Hentry.
    - simpl. subst hB2. simpl. rewrite <- Hh1 in Hclock |- *.
      simpl in Hclock |- *. exact Hclock. }
  rewrite (bind_ok _ _ _ _ _ Hhit).
  rewrite (bind_ok _ _ _ _ _
             (runHooks_harmless "afterInsert" (afterInsert (hooks h)) _
                (set_trace (trace hB2 ++ [Emit (cacheHit sql (values d))])
                           (set_ticks (S (S (ticks hB2))) hB2))
                ltac:(simpl; rewrite K1; reflexivity) Ha)).
  eexists. split; [unfold ret; rewrite <- Hr; reflexivity|].
  split; [reflexivity|].
  simpl. rewrite <- !app_assoc. reflexivity.
Qed.

Lemma repeated_insert_is_answered_from_cache_witness :
  let first := insert accepting "users" 0%nat {| skipTimestamps := true |}
                      caching_helper_with_row in
  let second := insert accepting "users" 0%nat {| skipTimestamps := true |}
                       (snd first) in
  fst first = Ok {| insertId := VNum 1; affectedRows := VNum 1 |} /\
  fst second = fst first /\
  executed (snd second) = 1%nat.
Proof.
  intros first second.
  assert (E1 : first = (Ok {| insertId := VNum 1; affectedRows := VNum 1 |},
                        snd first)).
  { rewrite (surjective_pairing first) at 1. f_equal. }
  destruct (repeated_insert_is_answered_from_cache accepting
              caching_helper_with_row "users" 0%nat [("name", VStr "Ann")]
              {| skipTimestamps := true |} _ _
              eq_refl eq_refl eq_refl ltac:(constructor)
              ltac:(constructor) ltac:(vm_compute; reflexivity) E1
              ltac:(vm_compute; reflexivity))
    as (h2 & Hrun & Hexec & _).
  split; [reflexivity|]. subst second. rewrite Hrun.
  split; [reflexivity|]. simpl. rewrite Hexec. reflexivity.
Defined.

End CachedWrites.

(* ===================================================================== *)
(** * Insert or update *)
(* ===================================================================== *)

Section Upsert.

Import MySQLHelper Samples.

Lemma upsert_from (rt : Runtime) (table : string) (data : loc)
      (d : object) (fields : list string) (opts : crud_options) (h : t)
      (r : res insert_result) (h' : t) :
  heap h !! data = Some d ->
  upsert rt table data fields opts h = (r, h') ->
  evolves (compiles_to
             (upsert_sql (createdAtColumn (config h)) table
                         (compiled_from rt h opts false d) fields)
             (values (compiled_from rt h opts false d))) h h'.
Proof.
  intros Hd Hrun.
  destruct (timestamping_step rt h data d opts false Hd)
    as (td & hA & Hstep & Ho & HA).
  transitivity hA; [apply HA|].
  assert (CA : config hA = config h) by apply (HA (fun _ => True)).
  unfold upsert in Hrun. unfold bind at 1 in Hrun. rewrite Hstep in Hrun.
  unfold bind at 1 in Hrun. unfold deref at 1, read at 1 in Hrun.
  unfold object, loc in *. rewrite Ho in Hrun. cbn -[query] in Hrun.
  rewrite CA in Hrun.
  assert (Hq : respects
                 (evolves (compiles_to
                             (upsert_sql (createdAtColumn (config h)) table
                                         (compiled_from rt h opts false d)
                                         fields)
                             (values (compiled_from rt h opts false d))))
                 (query rt
                    (upsert_sql (createdAtColumn (config h)) table
                                (compiled_from rt h opts false d) fields)
                    (values (compiled_from rt h opts false d))
                    no_options)).
  { eapply respects_weaken; [|apply evolves_query].
    apply query_effect_compiles. }
  apply bind_inv in Hrun as [(res & h1 & Hm & Hrest)|(e & Hm & ->)].
  - unfold ret in Hrest. inversion Hrest; subst. exact (Hq _ _ _ Hm).
  - exact (Hq _ _ _ Hm).
Qed.

Lemma keys_set (k : string) (v : value) (o : object) :
  In k (keys (Js.set k v o)) /\
  forall k', In k' (keys o) -> In k' (keys (Js.set k v o)).
Proof.
  induction o as [|[k0 v0] o [IH1 IH2]]; simpl.
  - split; [left; reflexivity|intros k' []].
  - destruct (String.eqb_spec k k0) as [->|Hne]; simpl.
    + split; [left; reflexivity|auto].
    + split; [right; exact IH1|].
      intros k' [->|Hin]; [left; reflexivity|right; auto].
Qed.

Lemma keys_compiled (rt : Runtime) (h : t) (opts : crud_options)
      (isUpdate : bool) (d : object) (k : string) :
  In k (keys d) -> In k (keys (compiled_from rt h opts isUpdate d)).
Proof.
  intros Hk. unfold compiled_from, stamped.
  destruct (skipTimestamps opts || negb (timestamps (config h)));
    [exact Hk|].
  repeat match goal with
         | |- context [if ?c then _ else _] => destruct c
         end;
    repeat apply keys_set; exact Hk.
Qed.

(** With the cache aside and callbacks that return, [upsert] sends its
    statement, once, and returns what the driver answers. *)
Lemma upsert_sends (rt : Runtime) (h : t) (table : string) (data : loc)
      (d : object) (fields : list string) (opts : crud_options)
      (result : result_set) :
  heap h !! data = Some d ->
  cacheEnabled (config h) = false -> calm h ->
  let o := compiled_from rt h opts false d in
  let sql := upsert_sql (createdAtColumn (config h)) table o fields in
  execute rt (executed h) sql (values o) = Ok result ->
  exists h' new,
    upsert rt table data fields opts h
    = (Ok {| insertId := result_insertId result;
             affectedRows := result_affectedRows result |}, h') /\
    executed h' = S (executed h) /\
    trace h' = trace h ++ new /\
    statements_of new = [(sql, values o)].
Proof.
  intros Hd Hoff Hcalm o sql Hr.
  destruct (timestamping_step rt h data d opts false Hd)
    as (td & hA & Hstep & Ho & HA).
  destruct (HA (fun _ => False)) as (CA & KA & _ & newA & TA & FA).
  assert (newA = []) as ->.
  { destruct newA as [|e newA]; [reflexivity|]. inversion FA; contradiction. }
  rewrite app_nil_r in TA.
  assert (XA : executed hA = executed h).
  { destruct (skipTimestamps opts).
    - inversion Hstep; subst. reflexivity.
    - apply (same_store_addTimestamps rt data false h _ hA Hstep). }
  rewrite <- XA in Hr.
  destruct (query_returns rt hA sql (values o) no_options result
              ltac:(rewrite CA, Hoff; reflexivity)
              ltac:(unfold calm; rewrite KA; exact Hcalm) Hr)
    as (h3 & E3 & C3 & K3 & _ & _ & X3 & new & T3 & S3 & _).
  exists h3, new. split.
  { unfold upsert. unfold bind at 1. rewrite Hstep.
    unfold bind at 1. unfold deref at 1, read at 1.
    unfold object, loc in *. rewrite Ho. cbn -[query].
    rewrite CA. change (map snd (compiled_from rt h opts false d))
      with (values o).
    fold o. fold sql. unfold bind. rewrite E3. reflexivity. }
  split; [congruence|]. split; [congruence|exact S3].
Qed.

(** X18. With the cache aside, callbacks that return and a driver that
    accepts the statement, [upsert] sends exactly one statement,
    compiled from the (timestamped) row, and returns the driver's
    insert id and affected rows; in any case it sends no other
    statement.  Without fields to update the statement writes, on a
    duplicate key, every column of the statement but the created-at
    column: each column of the caller's row other than that one is in
    the update clause, and so is the updated-at column when timestamps
    are added; the created-at column never is.  With fields given, the
    clause holds those and no other. *)
Theorem upsert_update_clause (rt : Runtime) (h : t) (table : string)
        (data : loc) (d : object) (opts : crud_options) :
  heap h !! data = Some d ->
  let o := compiled_from rt h opts false d in
  let created := createdAtColumn (config h) in
  let updated := updatedAtColumn (config h) in
  (forall fields result,
     cacheEnabled (config h) = false -> calm h ->
     execute rt (executed h) (upsert_sql created table o fields) (values o)
     = Ok result ->
     exists h' new,
       upsert rt table data fields opts h
       = (Ok {| insertId := result_insertId result;
                affectedRows := result_affectedRows result |}, h') /\
       executed h' = S (executed h) /\
       trace h' = trace h ++ new /\
       statements_of new
       = [(newline +:+ "      INSERT INTO " +:+ table +:+ " ("
           +:+ Js.join ", " (keys o) +:+ ") "
           +:+ newline +:+ "      VALUES (" +:+ placeholders (keys o) +:+ ")"
           +:+ newline +:+ "      ON DUPLICATE KEY UPDATE "
           +:+ Js.join ", "
                 (map (fun field => field +:+ " = VALUES(" +:+ field +:+ ")")
                      (fieldsToUpdate created fields (keys o)))
           +:+ newline +:+ "    ",
           values o)]) /\
  (forall fields r h',
     upsert rt table data fields opts h = (r, h') ->
     evolves (compiles_to (upsert_sql created table o fields) (values o))
             h h') /\
  ~ In created (fieldsToUpdate created [] (keys o)) /\
  (forall col, In col (keys d) -> col <> created ->
               In col (fieldsToUpdate created [] (keys o))) /\
  (skipTimestamps opts = false -> timestamps (config h) = true ->
   updated <> "" -> updated <> created ->
   In updated (fieldsToUpdate created [] (keys o))) /\
  (forall fields, fields <> [] ->
                  fieldsToUpdate created fields (keys o) = fields).
Proof.
  intros Hd o created updated.
  assert (Hin : forall col, In col (keys o) -> col <> created ->
                            In col (fieldsToUpdate created [] (keys o))).
  { intros col Hcol Hne. unfold fieldsToUpdate. simpl.
    apply List.filter_In. split; [exact Hcol|].
    destruct (String.eqb_spec col created); [contradiction|reflexivity]. }
  split; [|split; [|split; [|split; [|split]]]].
  - intros fields result Hoff Hcalm Hr.
    exact (upsert_sends rt h table data d fields opts result
             Hd Hoff Hcalm Hr).
  - intros fields r h' Hrun.
    exact (upsert_from rt table data d fields opts h r h' Hd Hrun).
  - unfold fieldsToUpdate. simpl. intros Hc.
    apply List.filter_In in Hc as [_ Hc].
    rewrite String.eqb_refl in Hc. discriminate Hc.
  - intros col Hcol Hne. apply Hin; [|exact Hne].
    apply keys_compiled. exact Hcol.
  - intros Hskip Hon Hu Hne. apply Hin; [|exact Hne].
    subst o. unfold compiled_from, stamped. rewrite Hskip, Hon. simpl.
    fold updated. destruct (String.eqb_spec updated "") as [E|_];
      [contradiction|]. simpl.
    destruct (truthy (Js.get updated _)) eqn:Ht; simpl.
    + (* the caller's row has the column *)
      assert (Hhas : forall x : object,
                 truthy (Js.get updated x) = true -> In updated (keys x)).
      { induction x as [|[k0 v0] x IHx]; simpl; [discriminate|].
        destruct (String.eqb_spec updated k0) as [->|_];
          [left; reflexivity|]. intros Hx. right. exact (IHx Hx). }
      pose proof (Hhas d Ht) as Hk.
      destruct (negb (String.eqb (createdAtColumn (config h)) "")
                && negb (truthy (Js.get (createdAtColumn (config h)) d)));
        [apply (proj2 (keys_set _ _ _))|]; exact Hk.
    + apply (proj1 (keys_set _ _ _)).
  - intros fields Hne. unfold fieldsToUpdate.
    destruct fields; [congruence|reflexivity].
Qed.

Lemma upsert_update_clause_witness :
  let o := compiled_from accepting helper_with_rows
                         {| skipTimestamps := false |} false
                         row_with_timestamps in
  keys o = ["name"; "created_at"; "updated_at"] /\
  In "updated_at" (fieldsToUpdate "created_at" [] (keys o)) /\
  ~ In "created_at" (fieldsToUpdate "created_at" [] (keys o)) /\
  exists h',
    upsert accepting "users" 1%nat [] {| skipTimestamps := false |}
           helper_with_rows
    = (Ok {| insertId := VNum 1; affectedRows := VNum 1 |}, h') /\
    map snd (statements_of (trace h'))
    = [[VStr "Bob"; VStr "2020-01-01"; VDate 1000]] /\
    map (fun statement => count_placeholders (fst statement))
        (statements_of (trace h'))
    = [3%nat].
Proof.
  intros o.
  destruct (upsert_update_clause accepting helper_with_rows "users" 1%nat
              row_with_timestamps {| skipTimestamps := false |} eq_refl)
    as (Hsends & _ & Hnot & _ & Hupdated & _).
  split; [reflexivity|]. split; [|split; [exact Hnot|]].
  - apply Hupdated; [reflexivity|reflexivity|discriminate|discriminate].
  - destruct (Hsends [] (Header 1 1 1) eq_refl
                ltac:(split; constructor) eq_refl)
      as (h' & new & Hrun & _ & T & St).
    exists h'. split; [exact Hrun|].
    rewrite T. change (trace helper_with_rows ++ new) with new.
    rewrite St. split; reflexivity.
Defined.

End Upsert.

(* ===================================================================== *)
(** * What the terminal operations return and leave *)
(* ===================================================================== *)

Section TerminalOutcomes.

Import QueryBuilder Samples.

(** X19. The terminal operations of the builder send one statement and
    read its result: [first] sends the statement with a limit of one -
    whatever limit was set - and returns the first row or null;
    [count] sends it with the column list replaced by the count, the
    same predicates and parameters, and returns the [count] of the
    first row, or zero without a row; [exists] compares that with zero,
    for a count that is a number or a string that denotes an integer.
    When the database rejects the statement the builder is not reset
    and the changes made for the statement stay: the limit of one
    after [first], and also the count as column list after [count],
    [exists] and [paginate]. *)
Theorem terminal_outcomes {S : Type}
        (db : string -> list value -> M S result_set) (b : t) (s : S) :
  let one := limit 1 b in
  let counting := limit 1 (set_columns ["COUNT(*) as count"] b) in
  let count_of (rows : result_set) :=
    match first_row rows with
    | Some row => Js.get "count" row
    | None => VNum 0
    end in
  (forall rows s',
     db (sql (toSQL one)) (params (toSQL one)) s = (Ok rows, s') ->
     first db (b, s) = (Ok (first_row rows), (fresh, s'))) /\
  (forall e s',
     db (sql (toSQL one)) (params (toSQL one)) s = (Throw e, s') ->
     first db (b, s) = (Throw e, (one, s'))) /\
  (forall rows s',
     db (sql (toSQL counting)) (params (toSQL counting)) s = (Ok rows, s') ->
     count db (b, s)
     = (Ok (count_of rows), (set_columns (_columns b) fresh, s')) /\
     forall n, to_number (count_of rows) = Int n ->
               exists_ db (b, s)
               = (Ok (0 <? n), (set_columns (_columns b) fresh, s'))) /\
  (forall e s',
     db (sql (toSQL counting)) (params (toSQL counting)) s = (Throw e, s') ->
     count db (b, s) = (Throw e, (counting, s')) /\
     exists_ db (b, s) = (Throw e, (counting, s')) /\
     forall page perPage,
       paginate db page perPage (b, s) = (Throw e, (counting, s'))) /\
  params (toSQL counting) = _whereParams b /\
  where_clause counting = where_clause b /\
  _limit one = Some 1.
Proof.
  intros one counting count_of.
  split; [|split; [|split; [|split]]].
  - intros rows s' Hdb. rewrite first_run, get_run. fold one.
    rewrite Hdb. reflexivity.
  - intros e s' Hdb. rewrite first_run, get_run. fold one.
    rewrite Hdb. reflexivity.
  - intros rows s' Hdb.
    assert (Hc : count db (b, s)
                 = (Ok (count_of rows),
                    (set_columns (_columns b) fresh, s'))).
    { rewrite count_run, first_run, get_run. fold counting.
      rewrite Hdb. reflexivity. }
    split; [exact Hc|]. intros n Hn.
    unfold exists_, bind. rewrite Hc. unfold ret. rewrite Hn. reflexivity.
  - intros e s' Hdb.
    assert (Hc : count db (b, s) = (Throw e, (counting, s'))).
    { rewrite count_run, first_run, get_run. fold counting.
      rewrite Hdb. reflexivity. }
    split; [exact Hc|]. split.
    + unfold exists_, bind. rewrite Hc. reflexivity.
    + intros page perPage. unfold paginate, bind. rewrite Hc. reflexivity.
  - repeat split.
Qed.

Lemma terminal_outcomes_witness :
  count (scripted_db []) (completed_orders, [])
  = (Throw (Error "ER_PARSE_ERROR"),
     (limit 1 (set_columns ["COUNT(*) as count"] completed_orders),
      [ {| sql := "SELECT COUNT(*) as count FROM orders WHERE status = ? LIMIT 1";
           params := [VStr "completed"] |} ])).
Proof.
  destruct (terminal_outcomes (scripted_db []) completed_orders [])
    as (_ & _ & _ & Hthrow & _).
  apply (Hthrow (Error "ER_PARSE_ERROR")). reflexivity.
Defined.

End TerminalOutcomes.

(* ===================================================================== *)
(** * The pool is created on first use *)
(* ===================================================================== *)

Section LazyPool.

Import MySQLHelper Samples.

Lemma pools_created_app (a b : list effect) :
  pools_created (a ++ b) = (pools_created a + pools_created b)%nat.
Proof. unfold pools_created. rewrite List.filter_app, length_app. reflexivity. Qed.

Lemma pools_created_calls (name : string) (cbs : list callback)
      (d : hook_data) :
  pools_created (fst (hook_outcome name cbs d)) = 0%nat.
Proof.
  pose proof (hook_outcome_calls name cbs d) as H.
  induction H as [|e es [id ->] Hes IH]; [reflexivity|exact IH].
Qed.

Lemma execute_and_store_pool (rt : Runtime) (h0 : t) (sql : string)
      (params : list value) (o : query_options) (ts : Z) :
  let created :=
    match snd (hook_outcome "beforeQuery" (beforeQuery (hooks h0))
                            (QueryData sql params ts)) with
    | None => negb (pool h0 || connection h0)
    | Some _ => false
    end in
  let h1 := snd (execute_and_store rt sql params o ts h0) in
  connection h1 = connection h0 /\
  pool h1 = pool h0 || created /\
  pools_created (trace h1)
  = (pools_created (trace h0) + if created then 1 else 0)%nat.
Proof.
  intros created h1. subst created h1.
  pose proof (pools_created_calls "beforeQuery" (beforeQuery (hooks h0))
                                  (QueryData sql params ts)) as Hb.
  assert (Ha : forall d,
             pools_created (fst (hook_outcome "afterQuery"
                                   (afterQuery (hooks h0)) d)) = 0%nat)
    by (intros d; apply pools_created_calls).
  split; [|split];
    unfold execute_and_store, _runHooks;
    unfold bind at 1; unfold bind at 1; unfold read at 1;
    simpl; rewrite run_callbacks_run;
    (destruct (snd (hook_outcome "beforeQuery" _ _));
     [simpl; rewrite ?orb_false_r, ?pools_created_app, ?Hb;
      first [reflexivity | lia]|]);
    unfold bind, read, when, createPool, bind, read, modify, emit, effect_,
      modify, now, driver_execute, bind, read, modify, effect_, modify,
      use_cache, bind, read, ret, _setCache, bind, read, now, modify;
    simpl;
    destruct (pool h0) eqn:Hpool; destruct (connection h0) eqn:Hconn;
    simpl; rewrite ?Hpool; simpl;
    (destruct (execute rt (executed h0) sql params) as [rows|err];
     [|simpl; rewrite ?pools_created_app, ?Hb; unfold pools_created; simpl; rewrite ?Hpool, ?Hconn;
       first [reflexivity | lia]]);
    simpl; destruct (logQueries (config h0)); simpl;
    rewrite run_callbacks_run; simpl;
    (destruct (snd (hook_outcome "afterQuery" _ _));
     [simpl; rewrite ?pools_created_app, ?Hb, ?Ha; unfold pools_created;
      simpl; rewrite ?Hpool, ?Hconn; first [reflexivity | lia]|]);
    destruct (cacheEnabled (config h0) && cache_not_false o); simpl;
    rewrite ?pools_created_app, ?Hb, ?Ha; unfold pools_created; simpl; rewrite ?Hpool, ?Hconn;
    first [reflexivity | lia].
Qed.

Lemma on_failure_pool (sql : string) (params : list value) (ts : Z)
      (err : error) (h : t) :
  connection (snd (on_failure sql params ts err h)) = connection h /\
  pool (snd (on_failure sql params ts err h)) = pool h /\
  pools_created (trace (snd (on_failure sql params ts err h)))
  = pools_created (trace h).
Proof.
  rewrite on_failure_run. simpl.
  pose proof (pools_created_calls "onError" (onError (hooks h))
                                  (ErrorData sql params ts err)) as Hc.
  destruct (snd (hook_outcome _ _ _)); simpl;
    rewrite ?pools_created_app, ?Hc; unfold pools_created; simpl;
    repeat split; lia.
Qed.

Lemma miss_path_pool (rt : Runtime) (h0 : t) (sql : string)
      (params : list value) (o : query_options) (ts : Z) :
  let h1 := snd (execute_and_store rt sql params o ts h0) in
  let h' := snd (try_catch (execute_and_store rt sql params o ts)
                           (on_failure sql params ts) h0) in
  connection h' = connection h1 /\ pool h' = pool h1 /\
  pools_created (trace h') = pools_created (trace h1).
Proof.
  intros h1 h'. subst h1 h'. unfold try_catch.
  destruct (execute_and_store rt sql params o ts h0) as [[rows|err] h1];
    [repeat split|].
  simpl. apply on_failure_pool.
Qed.

(** X20. [query] uses the pool or the connection that is there and
    creates a pool only when there is neither: with a pool or a
    connection, no pool is created and both stay as they are - a helper
    that has connected never gets a pool from [query]; with neither, a
    call that the cache does not answer and whose [beforeQuery]
    callbacks return creates the pool, once, so the next call finds
    it.  [getConnection] follows the same order: the pool, else the
    connection as it is, else a new pool. *)
Theorem pool_is_created_on_first_use (rt : Runtime) (h : t) (sql : string)
        (params : list value) (o : query_options) :
  let h' := snd (query rt sql params o h) in
  connection h' = connection h /\
  (pool h || connection h = true ->
   pool h' = pool h /\
   pools_created (trace h') = pools_created (trace h)) /\
  (pool h = false -> connection h = false ->
   cacheEnabled (config h) && cache_not_false o = false \/
   cache h !! _getCacheKey rt sql params = None ->
   harmless (beforeQuery (hooks h)) ->
   pool h' = true /\
   pools_created (trace h') = S (pools_created (trace h))) /\
  (pool h = false -> connection h = true ->
   getConnection rt h = (Ok tt, h)) /\
  (pool h = false -> connection h = false ->
   pool (snd (getConnection rt h)) = true /\
   trace (snd (getConnection rt h))
   = trace h ++ [Emit poolCreated; GetConnection]).
Proof.
  intros h'.
  assert (Hmiss : forall h0 : t,
             hooks h0 = hooks h -> pool h0 = pool h ->
             connection h0 = connection h -> trace h0 = trace h ->
             let created :=
               match snd (hook_outcome "beforeQuery" (beforeQuery (hooks h))
                            (QueryData sql params (Date_now rt (ticks h))))
               with
               | None => negb (pool h || connection h)
               | Some _ => false
               end in
             let h1 := snd (try_catch
                              (execute_and_store rt sql params o
                                 (Date_now rt (ticks h)))
                              (on_failure sql params (Date_now rt (ticks h)))
                              h0) in
             connection h1 = connection h /\
             pool h1 = pool h || created /\
             pools_created (trace h1)
             = (pools_created (trace h) + if created then 1 else 0)%nat).
  { intros h0 K Hp Hc T created h1. subst created h1.
    destruct (miss_path_pool rt h0 sql params o (Date_now rt (ticks h)))
      as (C1 & P1 & N1).
    destruct (execute_and_store_pool rt h0 sql params o
                                     (Date_now rt (ticks h)))
      as (C2 & P2 & N2).
    rewrite K, Hp, Hc, T in *.
    split; [congruence|]. split; congruence. }
  set (created :=
         match snd (hook_outcome "beforeQuery" (beforeQuery (hooks h))
                      (QueryData sql params (Date_now rt (ticks h))))
         with
         | None => negb (pool h || connection h)
         | Some _ => false
         end) in *.
  assert (Hall : connection h' = connection h /\
                 exists c : bool,
                   pool h' = pool h || c /\
                   pools_created (trace h')
                   = (pools_created (trace h) + if c then 1 else 0)%nat /\
                   (c = true -> pool h || connection h = false) /\
                   (cacheEnabled (config h) && cache_not_false o = false \/
                    cache h !! _getCacheKey rt sql params = None ->
                    c = created)).
  { assert (Hcreated : created = true -> pool h || connection h = false).
    { subst created. destruct (snd (hook_outcome _ _ _)); [discriminate|].
      intros E. apply negb_true_iff in E. exact E. }
    subst h'.
    destruct (cacheEnabled (config h) && cache_not_false o) eqn:E.
    - apply andb_true_iff in E as [He Ho].
      destruct (cache h !! _getCacheKey rt sql params) as [entry|] eqn:Hc.
      + destruct (Z.lt_ge_cases (Date_now rt (S (ticks h))) (expiry entry))
          as [Hlt|Hge].
        * rewrite (query_hit rt h sql params o entry He Ho Hc Hlt). simpl.
          split; [reflexivity|]. exists false.
          rewrite orb_false_r, pools_created_app. simpl.
          split; [reflexivity|]. split; [reflexivity|].
          split; [discriminate|]. intros [Hm|Hm]; discriminate Hm.
        * rewrite (query_expired rt h sql params o entry He Ho Hc Hge).
          destruct (Hmiss (set_cache
                             (delete (_getCacheKey rt sql params) (cache h))
                             (set_ticks (S (S (ticks h))) h))
                          eq_refl eq_refl eq_refl eq_refl) as (C & P & N).
          split; [exact C|]. exists created.
          split; [exact P|]. split; [exact N|].
          split; [exact Hcreated|]. intros _. reflexivity.
      + rewrite (query_miss rt h sql params o (or_intror Hc)).
        destruct (Hmiss (set_ticks (S (ticks h)) h)
                        eq_refl eq_refl eq_refl eq_refl) as (C & P & N).
        split; [exact C|]. exists created.
        split; [exact P|]. split; [exact N|].
        split; [exact Hcreated|]. intros _. reflexivity.
    - rewrite (query_miss rt h sql params o (or_introl E)).
      destruct (Hmiss (set_ticks (S (ticks h)) h)
                      eq_refl eq_refl eq_refl eq_refl) as (C & P & N).
      split; [exact C|]. exists created.
      split; [exact P|]. split; [exact N|].
      split; [exact Hcreated|]. intros _. reflexivity. }
  destruct Hall as (Hconn & c & Hpool & Hn & Hc & Hm).
  split; [exact Hconn|]. split; [|split; [|split]].
  - intros Hpc. destruct c.
    + rewrite (Hc eq_refl) in Hpc. discriminate Hpc.
    + rewrite orb_false_r in Hpool. split; [exact Hpool|]. lia.
  - intros Hp Hcn Hmiss' Hb. rewrite (Hm Hmiss') in *.
    assert (Ec : created = true).
    { subst created. rewrite (hook_outcome_harmless _ _ _ Hb). simpl.
      rewrite Hp, Hcn. reflexivity. }
    rewrite Ec in *. rewrite Hpool, Hp. split; [reflexivity|]. lia.
  - intros Hp Hcn. unfold getConnection, bind, read. rewrite Hp, Hcn.
    reflexivity.
  - intros Hp Hcn. unfold getConnection, bind, read. rewrite Hp, Hcn.
    unfold createPool, bind, read, when, modify, emit, effect_, modify,
      driver_call, bind, effect_, modify.
    simpl. rewrite Hp. simpl.
    destruct (pool_getConnection rt); simpl;
      (split; [reflexivity|]); rewrite <- app_assoc; reflexivity.
Qed.

Lemma pool_is_created_on_first_use_witness :
  let h := create default_settings [] in
  let h1 := snd (query accepting "SELECT 1" [] no_options h) in
  let h2 := snd (query accepting "SELECT 2" [] no_options h1) in
  pool h = false /\ pool h1 = true /\ pool h2 = true /\
  pools_created (trace h2) = 1%nat.
Proof.
  intros h h1 h2.
  destruct (pool_is_created_on_first_use accepting h "SELECT 1" []
              no_options) as (_ & _ & Hfirst & _).
  destruct (Hfirst eq_refl eq_refl (or_introl eq_refl) ltac:(constructor))
    as [Hp1 Hn1].
  fold h1 in Hp1, Hn1.
  destruct (pool_is_created_on_first_use accepting h1 "SELECT 2" []
              no_options) as (_ & Hnext & _).
  destruct (Hnext ltac:(rewrite Hp1; reflexivity)) as [Hp2 Hn2].
  fold h2 in Hp2, Hn2.
  split; [reflexivity|]. split; [exact Hp1|].
  split; [rewrite Hp2; exact Hp1|]. rewrite Hn2, Hn1. reflexivity.
Defined.

End LazyPool.

(* ===================================================================== *)
(** * A builder on a helper *)
(* ===================================================================== *)

Section BuilderOnHelper.

Import MySQLHelper Samples.

Lemma aligned_build_balanced (calls : list QueryBuilder.call) :
  Forall QueryBuilder.balanced calls ->
  forall b es, QueryBuilder.aligned b es ->
               exists es', QueryBuilder.aligned (QueryBuilder.build calls b) es'.
Proof.
  induction 1 as [|c calls Hc Hcs IH]; intros b es Hal.
  - exists es. exact Hal.
  - destruct (aligned_apply_balanced c b es Hc Hal) as [es1 H1].
    exact (IH (QueryBuilder.apply c b) es1 H1).
Qed.

Lemma well_bound_get (rt : Runtime) (b : QueryBuilder.t)
      (es : list QueryBuilder.entry) (h : t) (r : res result_set)
      (x : QueryBuilder.t * t) :
  QueryBuilder.aligned b es ->
  QueryBuilder.get (db_query rt) (b, h) = (r, x) ->
  evolves well_bound h (snd x).
Proof.
  intros Hal Hrun. rewrite get_run in Hrun. unfold db_query in Hrun.
  pose proof (well_bound_query rt _ _ no_options (aligned_count b es Hal))
    as Hq.
  destruct (query rt _ _ no_options h) as [[rows|e] h1] eqn:E;
    inversion Hrun; subst; exact (Hq _ _ _ E).
Qed.

Lemma well_bound_builder_count (rt : Runtime) (b : QueryBuilder.t)
      (es : list QueryBuilder.entry) (h : t) (r : res value)
      (x : QueryBuilder.t * t) :
  QueryBuilder.aligned b es ->
  QueryBuilder.count (db_query rt) (b, h) = (r, x) ->
  evolves well_bound h (snd x).
Proof.
  intros Hal Hrun. rewrite count_run, first_run in Hrun.
  assert (Hal' : QueryBuilder.aligned
                   (QueryBuilder.limit 1
                      (QueryBuilder.set_columns ["COUNT(*) as count"] b))
                   es).
  { destruct Hal. split; simpl; try assumption. repeat constructor. }
  destruct (QueryBuilder.get (db_query rt) _) as [[rows|e] [b1 h1]] eqn:E;
    pose proof (well_bound_get rt _ es h _ _ Hal' E) as Hev;
    inversion Hrun; subst; exact Hev.
Qed.

(** X21. A builder made by [queryBuilder()] sends its statements
    through [query] of the helper, so that callbacks, cache and log
    apply to them.  For calls whose texts bring as many placeholders as
    values, every statement that [get], [first], [count], [exists] and
    [paginate] send through the helper has as many values as
    placeholders, and [get] returns what [query] returns for the
    compiled statement. *)
Theorem builder_statements_through_helper (rt : Runtime)
        (calls : list QueryBuilder.call) (h : t) :
  Forall QueryBuilder.balanced calls ->
  let b := QueryBuilder.build calls queryBuilder in
  let db := db_query rt in
  let st := QueryBuilder.toSQL b in
  fst (QueryBuilder.get db (b, h))
  = fst (query rt (QueryBuilder.sql st) (QueryBuilder.params st) no_options h)
  /\
  (forall r x, QueryBuilder.get db (b, h) = (r, x) ->
               evolves well_bound h (snd x)) /\
  (forall r x, QueryBuilder.first db (b, h) = (r, x) ->
               evolves well_bound h (snd x)) /\
  (forall r x, QueryBuilder.count db (b, h) = (r, x) ->
               evolves well_bound h (snd x)) /\
  (forall r x, QueryBuilder.exists_ db (b, h) = (r, x) ->
               evolves well_bound h (snd x)) /\
  (forall page perPage r x,
      QueryBuilder.paginate db page perPage (b, h) = (r, x) ->
      evolves well_bound h (snd x)).
Proof.
  intros Hb b db st.
  destruct (aligned_build_balanced calls Hb queryBuilder [] aligned_fresh)
    as [es Hal].
  fold b in Hal.
  split; [|split; [|split; [|split; [|split]]]].
  - subst db st. rewrite get_run. unfold db_query.
    destruct (query rt _ _ no_options h) as [[rows|e] h1]; reflexivity.
  - intros r x. apply (well_bound_get rt b es). exact Hal.
  - intros r x Hrun. subst db. rewrite first_run in Hrun.
    assert (Hal' : QueryBuilder.aligned (QueryBuilder.limit 1 b) es).
    { destruct Hal. split; simpl; assumption. }
    destruct (QueryBuilder.get (db_query rt) _) as [[rows|e] [b1 h1]] eqn:E;
      pose proof (well_bound_get rt _ es h _ _ Hal' E) as Hev;
      inversion Hrun; subst; exact Hev.
  - intros r x. apply (well_bound_builder_count rt b es). exact Hal.
  - intros r x Hrun. subst db. unfold QueryBuilder.exists_, bind in Hrun.
    destruct (QueryBuilder.count (db_query rt) (b, h)) as [[c|e] y] eqn:E;
      pose proof (well_bound_builder_count rt b es h _ _ Hal E) as Hev;
      inversion Hrun; subst; exact Hev.
  - intros page perPage r x Hrun. subst db.
    unfold QueryBuilder.paginate in Hrun. unfold bind at 1 in Hrun.
    destruct (QueryBuilder.count (db_query rt) (b, h)) as [[c|e] y] eqn:E.
    2: { pose proof (well_bound_builder_count rt b es h _ _ Hal E) as Hev.
         inversion Hrun; subst. exact Hev. }
    pose proof (well_bound_builder_count rt b es h _ _ Hal E) as Hev.
    pose proof (count_leaves (db_query rt) b h c y E) as Hleft.
    destruct y as [b1 h1]. simpl in Hleft, Hev. subst b1.
    unfold bind at 1, QueryBuilder.this_, modify in Hrun. simpl in Hrun.
    assert (Hal' : QueryBuilder.aligned
                     (QueryBuilder.offset ((page - 1) * perPage)
                        (QueryBuilder.limit perPage
                           (QueryBuilder.set_columns (QueryBuilder._columns b)
                                                     QueryBuilder.fresh)))
                     []).
    { destruct Hal. split; simpl; try assumption; try constructor;
        reflexivity. }
    unfold bind in Hrun.
    destruct (QueryBuilder.get (db_query rt) _) as [[rows|e] [b2 h2]] eqn:E2;
      pose proof (well_bound_get rt _ [] h1 _ _ Hal' E2) as Hev2;
      inversion Hrun; subst; simpl;
      (transitivity h1; [exact Hev|exact Hev2]).
Qed.

Lemma builder_statements_through_helper_witness :
  statements
    (trace (snd (snd (QueryBuilder.count (db_query counting)
                        (QueryBuilder.build raw_calls queryBuilder,
                         create default_settings [])))))
  = [ ("SELECT COUNT(*) as count FROM products WHERE price > ? AND price < ? AND stock > ? HAVING COUNT(*) > 1 ORDER BY price DESC LIMIT 1",
       [VNum 1; VNum 9; VNum 0]) ] /\
  evolves well_bound (create default_settings [])
          (snd (snd (QueryBuilder.count (db_query counting)
                       (QueryBuilder.build raw_calls queryBuilder,
                        create default_settings [])))).
Proof.
  split; [vm_compute; reflexivity|].
  destruct (builder_statements_through_helper counting raw_calls
              (create default_settings []) ltac:(repeat constructor))
    as (_ & _ & _ & Hcount & _).
  eapply Hcount. apply surjective_pairing.
Defined.

End BuilderOnHelper.

(* ===================================================================== *)
(** * The columns of a timestamped row *)
(* ===================================================================== *)

Section TimestampColumns.

Import MySQLHelper Samples.

Lemma keys_set_shape (k : string) (v : value) (o : object) :
  keys (Js.set k v o) = keys o \/ keys (Js.set k v o) = keys o ++ [k].
Proof.
  induction o as [|[k0 v0] o IH]; simpl.
  - right. reflexivity.
  - destruct (String.eqb k k0); simpl; [left; reflexivity|].
    destruct IH as [-> | ->]; [left|right]; reflexivity.
Qed.

Lemma get_absent (k : string) (o : object) :
  ~ In k (keys o) -> Js.get k o = VUndefined.
Proof.
  induction o as [|[k0 v0] o IH]; simpl; [reflexivity|].
  intros Hn. destruct (String.eqb_spec k k0) as [->|_].
  - exfalso. apply Hn. left. reflexivity.
  - apply IH. intros Hin. apply Hn. right. exact Hin.
Qed.

(** X22. The row that [insert], [update] and [upsert] compile differs
    from the caller's row in the two timestamp columns only.  With
    timestamps off, or skipped for the call, it is the caller's row.
    Otherwise the caller's columns keep their places and their values,
    a timestamp column that the row lacks is appended - the created-at
    column before the updated-at one -, and a timestamp column holds
    either the caller's value or the time of the call.  An update does
    not touch the created-at column: it neither adds it nor changes
    it. *)
Theorem timestamps_touch_only_their_columns (rt : Runtime) (h : t)
        (opts : crud_options) (isUpdate : bool) (d : object) :
  let o := compiled_from rt h opts isUpdate d in
  let created := createdAtColumn (config h) in
  let updated := updatedAtColumn (config h) in
  let time := VDate (Date_now rt (ticks h)) in
  (skipTimestamps opts = true \/ timestamps (config h) = false -> o = d) /\
  (exists added,
      keys o = keys d ++ added /\
      (added = [] \/ added = [created] \/ added = [updated] \/
       added = [created; updated]) /\
      Forall (fun col => ~ In col (keys d)) added) /\
  (forall col, col <> created -> col <> updated ->
               Js.get col o = Js.get col d) /\
  (forall col, Js.get col o = Js.get col d \/ Js.get col o = time) /\
  (isUpdate = true -> created <> updated ->
   Js.get created o = Js.get created d /\
   (In created (keys o) -> In created (keys d))).
Proof.
  intros o created updated time.
  assert (Hset : forall k v x,
             keys (Js.set k v x) = keys x \/
             (keys (Js.set k v x) = keys x ++ [k] /\ ~ In k (keys x))).
  { intros k v x. induction x as [|[k0 v0] x IH]; simpl.
    - right. split; [reflexivity|intros []].
    - destruct (String.eqb_spec k k0) as [->|Hne]; simpl;
        [left; reflexivity|].
      destruct IH as [-> | [-> Hn]]; [left; reflexivity|right].
      split; [reflexivity|]. intros [E|Hin]; [congruence|contradiction]. }
  subst o. unfold compiled_from.
  destruct (skipTimestamps opts || negb (timestamps (config h))) eqn:Eoff.
  { split; [reflexivity|].
    split; [exists []; rewrite app_nil_r; auto|].
    split; [reflexivity|]. split; [left; reflexivity|].
    intros _ _. split; [reflexivity|auto]. }
  apply orb_false_iff in Eoff as [Hskip Hon].
  apply negb_false_iff in Hon.
  split.
  { intros [E|E]; congruence. }
  unfold stamped. fold created updated time.
  set (c1 := negb isUpdate && negb (String.eqb created "")
             && negb (truthy (Js.get created d))).
  set (c2 := negb (String.eqb updated "")
             && negb (truthy (Js.get updated d))).
  set (o1 := if c1 then Js.set created time d else d).
  assert (H1 : (o1 = d /\ c1 = false) \/
               (o1 = Js.set created time d /\ c1 = true)).
  { subst o1. destruct c1; auto. }
  assert (K1 : keys o1 = keys d \/
               (keys o1 = keys d ++ [created] /\ ~ In created (keys d) /\
                c1 = true)).
  { destruct H1 as [[-> _]|[-> E1]]; [left; reflexivity|].
    destruct (Hset created time d) as [E|[E Hn]]; auto. }
  assert (G1 : forall col, col <> created -> Js.get col o1 = Js.get col d).
  { intros col Hne. destruct H1 as [[-> _]|[-> _]]; [reflexivity|].
    apply get_set_other. exact Hne. }
  split; [|split; [|split]].
  - destruct c2 eqn:E2.
    + destruct (Hset updated time o1) as [E|[E Hn]].
      * rewrite E. destruct K1 as [->|(-> & Hn & _)].
        -- exists []. rewrite app_nil_r. auto.
        -- exists [created]. repeat split; auto.
      * rewrite E. destruct K1 as [K|(K & Hn1 & _)]; rewrite K in *.
        -- exists [updated]. repeat split; auto.
        -- exists [created; updated]. rewrite <- app_assoc.
           split; [reflexivity|]. split; [auto|].
           constructor; [exact Hn1|constructor; [|constructor]].
           intros Hin. apply Hn. apply in_or_app. left. exact Hin.
    + destruct K1 as [->|(-> & Hn & _)].
      * exists []. rewrite app_nil_r. auto.
      * exists [created]. repeat split; auto.
  - intros col Hc Hu. destruct c2.
    + rewrite get_set_other by exact Hu. apply G1. exact Hc.
    + apply G1. exact Hc.
  - intros col. destruct c2.
    + destruct (String.eqb_spec col updated) as [->|Hu].
      * right. apply get_set_same.
      * rewrite get_set_other by exact Hu.
        destruct H1 as [[-> _]|[-> _]]; [left; reflexivity|].
        destruct (String.eqb_spec col created) as [->|Hc].
        -- right. apply get_set_same.
        -- left. apply get_set_other. exact Hc.
    + destruct H1 as [[-> _]|[-> _]]; [left; reflexivity|].
      destruct (String.eqb_spec col created) as [->|Hc].
      * right. apply get_set_same.
      * left. apply get_set_other. exact Hc.
  - intros -> Hne.
    assert (E1 : o1 = d).
    { destruct H1 as [[E _]|[_ E]]; [exact E|].
      subst c1. simpl in E. discriminate E. }
    rewrite E1 in *. destruct c2.
    + split; [apply get_set_other; exact Hne|].
      destruct (keys_set_shape updated time d) as [-> | ->]; [auto|].
      intros Hin. apply in_app_or in Hin as [Hin|[E|[]]]; [exact Hin|].
      congruence.
    + split; [reflexivity|auto].
Qed.

Lemma timestamps_touch_only_their_columns_witness :
  let o := compiled_from accepting helper_with_rows
                         {| skipTimestamps := false |} true
                         row_with_falsy_timestamps in
  Js.get "created_at" o = VNull /\ Js.get "name" o = VStr "Ann".
Proof.
  intros o.
  destruct (timestamps_touch_only_their_columns accepting helper_with_rows
              {| skipTimestamps := false |} true row_with_falsy_timestamps)
    as (_ & _ & Hother & _ & Hupdate).
  destruct (Hupdate eq_refl ltac:(discriminate)) as [Hcreated _].
  split; [exact Hcreated|].
  apply (Hother "name"); discriminate.
Defined.

End TimestampColumns.
